(** * libpbnjson: the value tree of [jobject.c] and the visitor of [jtraverse.c]

    A shallow embedding of the C DOM of libpbnjson.  A [jvalue_ref] is a C
    pointer: the NULL pointer, the address of one of the five static
    singletons of [jobject.c], or the address of a heap cell.  The heap is an
    explicit store of [jvalue] cells that the functions thread through; a
    function that recurses over the store takes a fuel argument and answers
    [None] when the fuel runs out (or when it dereferences an address that
    was never allocated).

    Modelling scope.  The library is modelled in both of its builds: [NDEBUG]
    says whether the [assert]s are compiled out.  The assertions that a
    caller of the function can falsify are modelled by [c_assert]: the value
    of [jobject_put], the key and the value of [jobject_put_keyvalue], the
    buffer of [jnumber_create] and of [jnumber_create_unsafe], the two
    indices in the loops of [jarray_splice], the array of
    [jarray_has_duplicates].  The other assertions restate an invariant of
    the store (a positive count, a type tag, a size within the capacity) or
    a test that the function has just made; they hold on the stores the
    properties are about and are not modelled.  The [SANITY_*] macros are
    compiled out; the [PJ_LOG_*] calls have no effect on the store;
    [g_slice_new0], [calloc] and [realloc] always succeed; a freed cell
    stays in the store with reference count 0 (its memory is not reused);
    sizes and indices are mathematical integers, which is exact for arrays
    and strings shorter than [INT_MAX].  A string is modelled by its bytes:
    the address of its buffer is not. *)

From Stdlib Require Import ZArith Lia Bool Ascii String.
From Stdlib Require Import Floats.SpecFloat.
From stdpp Require Import base option list gmap strings sorting.

Local Open Scope Z_scope.

(** ** Pointers and cells *)

Inductive JValueType := JV_NULL | JV_BOOL | JV_NUM | JV_STR | JV_ARRAY | JV_OBJECT.

Inductive jvalue_ref :=
| NULL                 (* the C null pointer *)
| JNULL                (* &JNULL *)
| JINVALID             (* &JINVALID *)
| JTRUE                (* &JTRUE.m_value *)
| JFALSE               (* &JFALSE.m_value *)
| JEMPTY_STR           (* &JEMPTY_STR.m_value *)
| Ptr (a : nat).       (* a cell of the heap *)

#[global] Instance jvalue_ref_eq_dec : EqDecision jvalue_ref.
Proof. solve_decision. Defined.

#[global] Instance JValueType_eq_dec : EqDecision JValueType.
Proof. solve_decision. Defined.

(** A C [double] is an IEEE-754 binary64 value. *)
Definition double := spec_float.
Definition prec64 : Z := 53.
Definition emax64 : Z := 1024.

(** [raw_buffer]: [m_str] with [m_len].  [None] is the buffer whose [m_str]
    is the null pointer, [j_str_to_buffer(NULL, 0)]. *)
Definition raw_buffer := option string.
Definition strlen (s : string) : Z := Z.of_nat (String.length s).
Definition m_len (b : raw_buffer) : Z := from_option strlen 0 b.

(** The tagged union of [jnum]: [m_type] with the member of [value] it selects. *)
Inductive jnum :=
| NUM_RAW (raw : string)
| NUM_FLOAT (floating : double)
| NUM_INT (integer : Z).

(** [jarray]: [m_size] and the slots of the small and the big bucket in index
    order; [m_capacity] is the number of slots. *)
Record jarray := Jarray { m_size : Z; m_slots : list jvalue_ref }.

Definition m_capacity (a : jarray) : Z := Z.of_nat (length (m_slots a)).

(** [jobject]: the GHashTable [m_members].  Its hash is djb2 over the key
    bytes and its key equality is byte equality, so it is a finite map from
    the key bytes to the stored (key, value) pair of pointers. *)
Inductive jbody :=
| BStr (m_data : string) (m_dealloc : bool)
| BNum (n : jnum)
| BArray (arr : jarray)
| BObject (m_members : gmap string (jvalue_ref * jvalue_ref)).

Record jvalue := Jvalue { m_refCnt : Z; m_body : jbody }.

Abbreviation heap := (gmap nat jvalue).

Definition body_type (b : jbody) : JValueType :=
  match b with
  | BStr _ _ => JV_STR
  | BNum _ => JV_NUM
  | BArray _ => JV_ARRAY
  | BObject _ => JV_OBJECT
  end.

(** [val->m_type]; [None] for a pointer that cannot be dereferenced. *)
Definition m_type (h : heap) (val : jvalue_ref) : option JValueType :=
  match val with
  | NULL => None
  | JNULL | JINVALID => Some JV_NULL
  | JTRUE | JFALSE => Some JV_BOOL
  | JEMPTY_STR => Some JV_STR
  | Ptr a => (body_type ∘ m_body) <$> h !! a
  end.

Definition has_type (h : heap) (val : jvalue_ref) (t : JValueType) : bool :=
  bool_decide (m_type h val = Some t).

(** ** Singletons and predicates *)

Definition jis_const (h : heap) (val : jvalue_ref) : bool :=
  match m_type h val with
  | Some JV_NULL | Some JV_BOOL => true
  | _ => bool_decide (val = JEMPTY_STR)
  end.

Definition jinvalid : jvalue_ref := JINVALID.
Definition jnull : jvalue_ref := JNULL.
Definition jstring_empty : jvalue_ref := JEMPTY_STR.
Definition jboolean_true : jvalue_ref := JTRUE.
Definition jboolean_false : jvalue_ref := JFALSE.
Definition jboolean_create (value : bool) : jvalue_ref :=
  if value then jboolean_true else jboolean_false.

Definition jis_valid_unsafe (val : jvalue_ref) : bool :=
  bool_decide (val ≠ JINVALID) && bool_decide (val ≠ NULL).

Definition jis_valid (val : jvalue_ref) : bool := jis_valid_unsafe val.

Definition jis_null (val : jvalue_ref) : bool :=
  bool_decide (val = JNULL) || negb (jis_valid_unsafe val).

Definition jis_object (h : heap) (val : jvalue_ref) : bool := has_type h val JV_OBJECT.
Definition jis_array (h : heap) (val : jvalue_ref) : bool := has_type h val JV_ARRAY.
Definition jis_string (h : heap) (val : jvalue_ref) : bool := has_type h val JV_STR.
Definition jis_number (h : heap) (val : jvalue_ref) : bool := has_type h val JV_NUM.
Definition jis_boolean (h : heap) (val : jvalue_ref) : bool := has_type h val JV_BOOL.

(** Typed views of a pointer ([jarray_deref], [jobject_deref], ...). *)
Definition jarray_deref (h : heap) (val : jvalue_ref) : option jarray :=
  match val with
  | Ptr a => match m_body <$> h !! a with Some (BArray arr) => Some arr | _ => None end
  | _ => None
  end.

Definition jobject_deref (h : heap) (val : jvalue_ref)
  : option (gmap string (jvalue_ref * jvalue_ref)) :=
  match val with
  | Ptr a => match m_body <$> h !! a with Some (BObject m) => Some m | _ => None end
  | _ => None
  end.

Definition jnum_deref (h : heap) (val : jvalue_ref) : option jnum :=
  match val with
  | Ptr a => match m_body <$> h !! a with Some (BNum n) => Some n | _ => None end
  | _ => None
  end.

(** [jstring_deref(str)->m_data]. *)
Definition jstring_deref (h : heap) (val : jvalue_ref) : option string :=
  match val with
  | JEMPTY_STR => Some EmptyString
  | Ptr a => match m_body <$> h !! a with Some (BStr s _) => Some s | _ => None end
  | _ => None
  end.

Definition jboolean_deref (val : jvalue_ref) : option bool :=
  match val with
  | JTRUE => Some true
  | JFALSE => Some false
  | _ => None
  end.

(** ** Reference counting: [jvalue_copy] and [j_release] *)

(** [gint] arithmetic of the atomic counter wraps at 32 bits. *)
Definition wrap_int (z : Z) : Z := (z + 2 ^ 31) mod 2 ^ 32 - 2 ^ 31.

Definition set_refCnt (a : nat) (n : Z) (h : heap) : heap :=
  alter (λ c, Jvalue n (m_body c)) a h.

Definition set_body (a : nat) (b : jbody) (h : heap) : heap :=
  alter (λ c, Jvalue (m_refCnt c) b) a h.

Definition jvalue_copy (val : jvalue_ref) (h : heap) : option (jvalue_ref * heap) :=
  if decide (val = NULL) then Some (NULL, h)
  else if jis_const h val then Some (val, h)
  else match val with
       | Ptr a =>
           c ← h !! a;
           Some (val, set_refCnt a (wrap_int (m_refCnt c + 1)) h)
       | _ => None
       end.

(** Slots addressed by a C index ([jarray_get_unsafe]). *)
Definition slot_get (slots : list jvalue_ref) (index : Z) : option jvalue_ref :=
  if decide (0 ≤ index) then slots !! Z.to_nat index else None.

Definition slot_set (slots : list jvalue_ref) (index : Z) (v : jvalue_ref)
  : list jvalue_ref := <[Z.to_nat index := v]> slots.

(** The loop of [jarray_remove_unsafe] that shifts the elements down:
    [for (i = index + 1; i < array_size; i++) { *hole = *toMove; hole = toMove; }]
    run for [n] iterations from [i]. *)
Fixpoint shift_down (n : nat) (i hole : Z) (slots : list jvalue_ref)
  : option (Z * list jvalue_ref) :=
  match n with
  | O => Some (hole, slots)
  | S n' =>
      toMove ← slot_get slots i;
      shift_down n' (i + 1) i (slot_set slots hole toMove)
  end.

Section Release.
(** The functions that release an element are written over the release
    function they call, so that [j_release] can tie the knot on its fuel. *)
Variable release : jvalue_ref → heap → option heap.

Definition jarray_remove_unsafe (arr : nat) (index : Z) (h : heap) : option heap :=
  a ← jarray_deref h (Ptr arr);
  hole ← slot_get (m_slots a) index;
  h1 ← release hole h;
  a1 ← jarray_deref h1 (Ptr arr);
  let array_size := m_size a1 in
  '(hole', slots) ← shift_down (Z.to_nat (array_size - (index + 1))) (index + 1) index (m_slots a1);
  Some (set_body arr (BArray (Jarray (array_size - 1) (slot_set slots hole' NULL))) h1).

(** [for (int i = jarray_size_unsafe(arr) - 1; i >= 0; i--) jarray_remove_unsafe(arr, i);]
    with [n] iterations left, the next one at index [n - 1]. *)
Fixpoint j_destroy_array_loop (n : nat) (arr : nat) (h : heap) : option heap :=
  match n with
  | O => Some h
  | S n' =>
      h1 ← jarray_remove_unsafe arr (Z.of_nat n') h;
      j_destroy_array_loop n' arr h1
  end.

Definition j_destroy_array (arr : nat) (h : heap) : option heap :=
  a ← jarray_deref h (Ptr arr);
  j_destroy_array_loop (Z.to_nat (m_size a)) arr h.

(** [_ObjKeyValDestroy] on every key and value of the table. *)
Fixpoint destroy_entries (l : list (string * (jvalue_ref * jvalue_ref))) (h : heap)
  : option heap :=
  match l with
  | [] => Some h
  | (_, (key, val)) :: l' =>
      h1 ← release key h;
      h2 ← release val h1;
      destroy_entries l' h2
  end.

(** [g_hash_table_destroy]: the table is emptied, then the destroy
    notifiers run on the entries it held. *)
Definition j_destroy_object (obj : nat) (h : heap) : option heap :=
  m ← jobject_deref h (Ptr obj);
  destroy_entries (map_to_list m) (set_body obj (BObject ∅) h).
End Release.

Fixpoint j_release (fuel : nat) (val : jvalue_ref) (h : heap) : option heap :=
  match fuel with
  | O => None
  | S n =>
      if decide (val = NULL) then Some h
      else if jis_const h val then Some h
      else match val with
           | Ptr a =>
               c ← h !! a;
               let cnt := wrap_int (m_refCnt c - 1) in
               let h1 := set_refCnt a cnt h in
               if decide (cnt = 0) then
                 match m_body c with
                 | BObject _ => j_destroy_object (j_release n) a h1
                 | BArray _ => j_destroy_array (j_release n) a h1
                 | BStr _ _ => Some h1   (* j_destroy_string: m_dealloc on the bytes *)
                 | BNum _ => Some h1     (* j_destroy_number: m_rawDealloc on the bytes *)
                 end
               else Some h1              (* a negative count is only logged *)
           | _ => None
           end
  end.

(** ** Arrays: readers *)

Definition jarray_size_unsafe (h : heap) (arr : jvalue_ref) : Z :=
  from_option m_size 0 (jarray_deref h arr).

Definition jarray_size (h : heap) (arr : jvalue_ref) : Z :=
  if negb (jis_array h arr) then 0 else jarray_size_unsafe h arr.

(** [valid_index_bounded] is declared [NON_NULL(1)] and reads [arr->m_type]
    at once: on the null pointer the code faults, where the model answers
    false.  No property applies it to the null pointer. *)
Definition valid_index_bounded (h : heap) (arr : jvalue_ref) (index : Z) : bool :=
  if negb (has_type h arr JV_ARRAY) then false
  else if decide (index < 0) then false
  else if decide (index >= jarray_size_unsafe h arr) then false
  else true.

Definition jarray_get (h : heap) (arr : jvalue_ref) (index : Z) : jvalue_ref :=
  if negb (valid_index_bounded h arr index) then jinvalid
  else match jarray_deref h arr ≫= λ a, slot_get (m_slots a) index with
       | Some result => if decide (result = NULL) then jinvalid else result
       | None => jinvalid
       end.

(** ** Strings: readers *)

Definition jstring_size (h : heap) (str : jvalue_ref) : Z :=
  if negb (jis_string h str) then 0
  else from_option strlen 0 (jstring_deref h str).

(** ** The cycle check *)

(** A loop that leaves with [false] at the first element whose test fails. *)
Fixpoint all_true {A} (f : A → option bool) (l : list A) : option bool :=
  match l with
  | [] => Some true
  | x :: l' =>
      match f x with
      | Some true => all_true f l'
      | Some false => Some false
      | None => None
      end
  end.

(** [jobject_iter_init] with [jobject_iter_next] until it is exhausted: the
    (key, value) pairs in the order of the table. *)
Definition jobject_iter (h : heap) (obj : jvalue_ref) : list (jvalue_ref * jvalue_ref) :=
  from_option (λ m : gmap string (jvalue_ref * jvalue_ref), (snd <$> map_to_list m)) []
    (jobject_deref h obj).

Fixpoint check_insert_sanity (fuel : nat) (h : heap) (parent child : jvalue_ref)
  : option bool :=
  match fuel with
  | O => None
  | S n =>
      if decide (child = parent) then Some false
      else if jis_array h child then
        all_true (λ i, check_insert_sanity n h parent (jarray_get h child i))
                 (seqZ 0 (jarray_size h child))
      else if jis_object h child then
        all_true (λ key_value, check_insert_sanity n h parent (snd key_value))
                 (jobject_iter h child)
      else Some true
  end.

(** ** Assertions *)

(** The build of the library: [NDEBUG] says whether it is compiled with the
    macro [NDEBUG], which removes every [assert]. *)
Class Build := { NDEBUG : bool }.

(** [assert(c)]: in a build without [NDEBUG], a condition that fails aborts
    the program, and the function does not return. *)
Definition c_assert {B : Build} (c : bool) : option unit :=
  if NDEBUG || c then Some () else None.

(** ** Objects *)

Definition jobject_size (h : heap) (obj : jvalue_ref) : Z :=
  if negb (jis_object h obj) then 0
  else from_option (λ m : gmap string (jvalue_ref * jvalue_ref), Z.of_nat (size m)) 0
         (jobject_deref h obj).

(** [jobject_get_exists2] on the key that [jobject_get_exists] builds on its
    stack from the bytes: the tests on [obj], then [g_hash_table_lookup]. *)
Definition jobject_get_exists (h : heap) (obj : jvalue_ref) (key : string)
  : option jvalue_ref :=
  if jis_null obj then None
  else if negb (jis_object h obj) then None
  else m ← jobject_deref h obj; snd <$> m !! key.

Definition jobject_get_exists2 (h : heap) (obj key : jvalue_ref) : option jvalue_ref :=
  kb ← jstring_deref h key; jobject_get_exists h obj kb.

Definition jobject_get (h : heap) (obj : jvalue_ref) (key : string) : jvalue_ref :=
  default jinvalid (jobject_get_exists h obj key).

(** [g_hash_table_replace]: the new pair takes the place of the pair whose
    key has the same bytes, and the destroy notifiers run on the old key and
    the old value. *)
Definition g_hash_table_replace (fuel : nat) (obj : nat) (key val : jvalue_ref) (h : heap)
  : option heap :=
  m ← jobject_deref h (Ptr obj);
  kb ← jstring_deref h key;
  let h1 := set_body obj (BObject (<[kb := (key, val)]> m)) h in
  match m !! kb with
  | None => Some h1
  | Some (old_key, old_val) =>
      h2 ← j_release fuel old_key h1;
      j_release fuel old_val h2
  end.

(** Every [break] of the [do { } while (false)] leaves to the two calls of
    [j_release] that follow it; [val] is then the value as the tests before
    the [break] left it.  The table [m_members] of an object always exists. *)
Definition jobject_put {B : Build} (fuel : nat) (obj key val : jvalue_ref) (h : heap)
  : option (bool * heap) :=
  let release_both (val : jvalue_ref) :=
    h1 ← j_release fuel key h; h2 ← j_release fuel val h1; Some (false, h2) in
  _ ← c_assert (bool_decide (val ≠ NULL));
  if negb (jis_object h obj) then release_both val
  else if decide (key = NULL) then release_both val
  else if negb (jis_string h key) then release_both val
  else if decide (jstring_size h key = 0) then release_both val
  else
    let val := if decide (val = NULL) then jnull else val in
    let val := if negb (jis_valid val) then jnull else val in
    match check_insert_sanity fuel h obj val with
    | None => None
    | Some false => release_both val
    | Some true =>
        match obj with
        | Ptr o => h1 ← g_hash_table_replace fuel o key val h; Some (true, h1)
        | _ => None
        end
    end.

(** ** Arrays: mutators *)

(** Modelled from the spec: [ARRAY_BUCKET_SIZE], the number of slots of the
    small bucket, is a macro of [jobject_internal.h], which is not part of
    the sources at hand; the spec gives "a fixed constant, e.g. 8". *)
Definition ARRAY_BUCKET_SIZE : Z := 8.

(** [realloc] of the big bucket; the new slots are set to NULL.  [realloc]
    is taken to succeed, so the branch that returns false is not modelled:
    this is exact as long as the memory for [newSize] slots can be had. *)
Definition jarray_expand_capacity_unsafe (arr : nat) (newSize : Z) (h : heap)
  : option heap :=
  a ← jarray_deref h (Ptr arr);
  if decide (newSize > m_capacity a) then
    Some (set_body arr
            (BArray (Jarray (m_size a)
                       (m_slots a ++ replicate (Z.to_nat (newSize - m_capacity a)) NULL))) h)
  else Some h.

(** [index + 1] is computed without overflow, and the expansion succeeds
    (see [jarray_expand_capacity_unsafe]): the properties of [jarray_put] and
    [jarray_set] are stated for an index up to the capacity of the array,
    where the array grows by one slot at most. *)
Definition jarray_put_unsafe (fuel : nat) (arr : jvalue_ref) (index : Z) (val : jvalue_ref)
    (h : heap) : option (bool * heap) :=
  match check_insert_sanity fuel h arr val with
  | None => None
  | Some false => Some (false, h)
  | Some true =>
      match arr with
      | Ptr p =>
          h1 ← jarray_expand_capacity_unsafe p (index + 1) h;
          a1 ← jarray_deref h1 arr;
          old ← slot_get (m_slots a1) index;
          h2 ← j_release fuel old h1;
          a2 ← jarray_deref h2 arr;
          let slots := slot_set (m_slots a2) index val in
          let size := if decide (index >= m_size a2) then index + 1 else m_size a2 in
          Some (true, set_body p (BArray (Jarray size slots)) h2)
      | _ => None
      end
  end.

Definition jarray_set (fuel : nat) (arr : jvalue_ref) (index : Z) (val : jvalue_ref)
    (h : heap) : option (bool * heap) :=
  if negb (jis_array h arr) then Some (false, h)
  else if decide (index < 0) then Some (false, h)
  else
    let val := if decide (val = NULL) then jnull else val in
    '(arr_val, h1) ← jvalue_copy val h;
    if decide (arr_val = NULL) then Some (false, h1)
    else jarray_put_unsafe fuel arr index arr_val h1.

Definition jarray_put (fuel : nat) (arr : jvalue_ref) (index : Z) (val : jvalue_ref)
    (h : heap) : option (bool * heap) :=
  let release_val (val : jvalue_ref) (h : heap) :=
    h1 ← j_release fuel val h; Some (false, h1) in
  if negb (jis_array h arr) then release_val val h
  else if decide (index < 0) then release_val val h
  else
    let val := if decide (val = NULL) then jnull else val in
    '(ok, h1) ← jarray_put_unsafe fuel arr index val h;
    if negb ok then release_val val h1 else Some (true, h1).

Definition jarray_append (fuel : nat) (arr val : jvalue_ref) (h : heap)
  : option (bool * heap) :=
  if negb (jis_array h arr) then Some (false, h)
  else
    let val := if decide (val = NULL) then jnull else val in
    jarray_put_unsafe fuel arr (jarray_size_unsafe h arr) val h.

(** The loop of [jarray_insert] that moves the elements up:
    [for (j = size - 1; j > index; j--, hole = toMove) { toMove = &arr[j - 1]; *hole = *toMove; }]
    run for [n] iterations from [j]. *)
Fixpoint shift_up (n : nat) (j hole : Z) (slots : list jvalue_ref)
  : option (Z * list jvalue_ref) :=
  match n with
  | O => Some (hole, slots)
  | S n' =>
      toMove ← slot_get slots (j - 1);
      shift_up n' (j - 1) (j - 1) (slot_set slots hole toMove)
  end.

Definition jarray_insert (fuel : nat) (arr : jvalue_ref) (index : Z) (val : jvalue_ref)
    (h : heap) : option (bool * heap) :=
  if negb (jis_array h arr) then Some (false, h)
  else if decide (index < 0) then Some (false, h)
  else
    match check_insert_sanity fuel h arr val with
    | None => None
    | Some false => Some (false, h)
    | Some true =>
        match arr with
        | Ptr p =>
            '(_, h1) ← jarray_put_unsafe fuel arr (jarray_size_unsafe h arr) jinvalid h;
            a ← jarray_deref h1 arr;
            let last := m_size a - 1 in
            '(hole, slots) ← shift_up (Z.to_nat (last - index)) last last (m_slots a);
            Some (true, set_body p (BArray (Jarray (m_size a) (slot_set slots hole val))) h1)
        | _ => None
        end
    end.

Definition jarray_remove (fuel : nat) (arr : jvalue_ref) (index : Z) (h : heap)
  : option (bool * heap) :=
  if negb (valid_index_bounded h arr index) then Some (false, h)
  else match arr with
       | Ptr p => h1 ← jarray_remove_unsafe (j_release fuel) p index h; Some (true, h1)
       | _ => None
       end.

(** ** Splicing *)

Inductive JSpliceOwnership := SPLICE_TRANSFER | SPLICE_NOCHANGE | SPLICE_COPY.

Definition jarray_splice_check_insert_sanity (fuel : nat) (h : heap) (arr arr2 : jvalue_ref)
  : option bool :=
  all_true (λ i, check_insert_sanity fuel h arr (jarray_get h arr2 i))
           (seqZ 0 (jarray_size h arr2)).

(** The body shared by the two copying loops of [jarray_splice]: read slot
    [j] of the second array and apply the ownership mode to it. *)
Definition splice_take (array2 : jvalue_ref) (j : Z) (ownership : JSpliceOwnership)
    (h : heap) : option (jvalue_ref * heap) :=
  a2 ← jarray_deref h array2;
  valueToInsert ← slot_get (m_slots a2) j;
  match ownership, array2 with
  | SPLICE_TRANSFER, Ptr p2 =>
      Some (valueToInsert,
            set_body p2 (BArray (Jarray (m_size a2 - 1) (slot_set (m_slots a2) j NULL))) h)
  | SPLICE_TRANSFER, _ => None
  | SPLICE_NOCHANGE, _ => Some (valueToInsert, h)
  | SPLICE_COPY, _ => jvalue_copy valueToInsert h
  end.

(** [for (i = index, j = begin; removable && j < end; i++, removable--, j++)]:
    the slots to remove are overwritten.  [n] bounds the iterations. *)
Fixpoint splice_overwrite {B : Build} (n : nat) (fuel : nat) (array array2 : jvalue_ref)
    (ownership : JSpliceOwnership) (end_ : Z) (i j removable : Z) (h : heap)
  : option (Z * Z * Z * heap) :=
  match n with
  | O => Some (i, j, removable, h)
  | S n' =>
      if decide (removable ≠ 0 ∧ j < end_) then
        _ ← c_assert (valid_index_bounded h array i);
        _ ← c_assert (valid_index_bounded h array2 j);
        '(valueToInsert, h1) ← splice_take array2 j ownership h;
        '(_, h2) ← jarray_put_unsafe fuel array i valueToInsert h1;
        splice_overwrite n' fuel array array2 ownership end_ (i + 1) (j + 1) (removable - 1) h2
      else Some (i, j, removable, h)
  end.

(** [while (removable) { jarray_remove_unsafe (array, i); removable--; }] *)
Fixpoint splice_remove (n : nat) (fuel : nat) (array : nat) (i : Z) (h : heap)
  : option heap :=
  match n with
  | O => Some h
  | S n' =>
      h1 ← jarray_remove_unsafe (j_release fuel) array i h;
      splice_remove n' fuel array i h1
  end.

(** [for (; j < end; j++, i++)]: the remaining elements are inserted.  The
    loop leaves with [false] when [jarray_insert] fails. *)
Fixpoint splice_insert {B : Build} (n : nat) (fuel : nat) (array array2 : jvalue_ref)
    (ownership : JSpliceOwnership) (end_ : Z) (i j : Z) (h : heap)
  : option (bool * heap) :=
  match n with
  | O => Some (true, h)
  | S n' =>
      if decide (j < end_) then
        _ ← c_assert (valid_index_bounded h array2 j);
        '(valueToInsert, h1) ← splice_take array2 j ownership h;
        '(ok, h2) ← jarray_insert fuel array i valueToInsert h1;
        if negb ok then Some (false, h2)
        else splice_insert n' fuel array array2 ownership end_ (i + 1) (j + 1) h2
      else Some (true, h)
  end.

Definition jarray_splice {B : Build} (fuel : nat) (array : jvalue_ref) (index toRemove : Z)
    (array2 : jvalue_ref) (begin end_ : Z) (ownership : JSpliceOwnership) (h : heap)
  : option (bool * heap) :=
  let removable := toRemove in
  let checked_index :=
    if decide (removable ≠ 0) then
      if negb (valid_index_bounded h array index) then None
      else if negb (valid_index_bounded h array (index + toRemove - 1)) then None
      else Some index
    else
      if negb (jis_array h array) then None
      else Some (if decide (index < 0) then 0 else index) in
  match checked_index with
  | None => Some (false, h)
  | Some index =>
      if decide (begin >= end_) then Some (false, h)
      else if negb (valid_index_bounded h array2 begin) then Some (false, h)
      else if negb (valid_index_bounded h array2 (end_ - 1)) then Some (false, h)
      else if decide (toRemove < 0) then Some (false, h)
      else
        match jarray_splice_check_insert_sanity fuel h array array2 with
        | None => None
        | Some false => Some (false, h)
        | Some true =>
            '(i, j, removable, h1) ←
              splice_overwrite (Z.to_nat (end_ - begin)) fuel array array2 ownership end_
                index begin removable h;
            if decide (removable ≠ 0) then
              match array with
              | Ptr p => h2 ← splice_remove (Z.to_nat removable) fuel p i h1; Some (true, h2)
              | _ => None
              end
            else if decide (j < end_) then
              match array with
              | Ptr p =>
                  h2 ← jarray_expand_capacity_unsafe p (jarray_size_unsafe h1 array + (end_ - j)) h1;
                  splice_insert (Z.to_nat (end_ - j)) fuel array array2 ownership end_ i j h2
              | _ => None
              end
            else Some (true, h1)
        end
  end.

(** ** Constructors of strings and numbers *)

(** [calloc] and [g_slice_new0]: a cell at an address that is not in use. *)
Definition alloc (c : jvalue) (h : heap) : jvalue_ref * heap :=
  let a := fresh (dom h) in (Ptr a, <[a := c]> h).

(** [jvalue_init] sets the count to 1. *)
Definition jstring_create_copy (str : raw_buffer) (h : heap) : jvalue_ref * heap :=
  alloc (Jvalue 1 (BStr (default EmptyString str) false)) h.

Definition jstring_create_nocopy_full (val : raw_buffer) (buffer_dealloc : bool) (h : heap)
  : jvalue_ref * heap :=
  match val with
  | None => (jinvalid, h)
  | Some s =>
      if decide (m_len val = 0) then (JEMPTY_STR, h)   (* buffer_dealloc runs on the bytes *)
      else alloc (Jvalue 1 (BStr s buffer_dealloc)) h
  end.

Definition jstring_create_nocopy (val : raw_buffer) (h : heap) : jvalue_ref * heap :=
  jstring_create_nocopy_full val false h.

Definition isnan (d : double) : bool :=
  match d with S754_nan => true | _ => false end.

Definition isinf (d : double) : bool :=
  match d with S754_infinity _ => true | _ => false end.

Definition jnumber_create_f64 (number : double) (h : heap) : jvalue_ref * heap :=
  if isnan number then (jinvalid, h)
  else if isinf number then (jinvalid, h)
  else alloc (Jvalue 1 (BNum (NUM_FLOAT number))) h.

Definition jnumber_create_i64 (number : Z) (h : heap) : jvalue_ref * heap :=
  alloc (Jvalue 1 (BNum (NUM_INT number))) h.

Definition jarray_create (h : heap) : jvalue_ref * heap :=
  alloc (Jvalue 1 (BArray (Jarray 0 (replicate (Z.to_nat ARRAY_BUCKET_SIZE) NULL)))) h.

Definition jobject_create (h : heap) : jvalue_ref * heap :=
  alloc (Jvalue 1 (BObject ∅)) h.

(** ** Comparison of numbers *)

(** Modelled from the spec: [ConversionResultFlags] is the bit mask of
    [jvalue/num_conversion.h], not part of the sources at hand; the spec
    lists [OK] first and the code tests against [CONV_OK] only. *)
Definition ConversionResultFlags := Z.
Definition CONV_OK : ConversionResultFlags := 0.

Definition J_INVALID_VALUE : Z := -50.

(** The C conversion of an [int64_t] to [double]: round to nearest even. *)
Definition i64_to_double (z : Z) : double := binary_normalize prec64 emax64 z 0 false.

(** [a > b ? 1 : (a < b ? -1 : 0)] on integers and on doubles. *)
Definition cmp3_int (a b : Z) : Z :=
  if decide (a > b) then 1 else if decide (a < b) then -1 else 0.

Definition cmp3_double (a b : double) : Z :=
  if SFltb b a then 1 else if SFltb a b then -1 else 0.

Section NumConversion.
(** [jstr_to_i64] and [jstr_to_double] are defined in
    [jvalue/num_conversion.c], which is not part of the sources at hand:
    they are parameters.  Each returns its flags with the number it stores
    through its out-parameter. *)
Variable jstr_to_i64 : string → ConversionResultFlags * Z.
Variable jstr_to_double : string → ConversionResultFlags * double.

Definition jnumber_compare_i64 (h : heap) (number : jvalue_ref) (toCompare : Z)
  : option Z :=
  n ← jnum_deref h number;
  match n with
  | NUM_FLOAT floating => Some (cmp3_double floating (i64_to_double toCompare))
  | NUM_INT integer => Some (cmp3_int integer toCompare)
  | NUM_RAW raw =>
      let '(conv, asInt) := jstr_to_i64 raw in
      if decide (CONV_OK = conv) then Some (cmp3_int asInt toCompare)
      else
        let '(_, asFloat) := jstr_to_double raw in   (* a failure is logged *)
        Some (cmp3_double asFloat (i64_to_double toCompare))
  end.

Definition jnumber_compare_f64 (h : heap) (number : jvalue_ref) (toCompare : double)
  : option Z :=
  n ← jnum_deref h number;
  match n with
  | NUM_FLOAT floating => Some (cmp3_double floating toCompare)
  | NUM_INT integer => Some (cmp3_double (i64_to_double integer) toCompare)
  | NUM_RAW raw =>
      let '(conv, asInt) := jstr_to_i64 raw in
      if decide (CONV_OK = conv) then Some (cmp3_double (i64_to_double asInt) toCompare)
      else
        let '(_, asFloat) := jstr_to_double raw in   (* a failure is logged *)
        Some (cmp3_double asFloat toCompare)
  end.

Definition jnumber_compare (h : heap) (number toCompare : jvalue_ref) : option Z :=
  n ← jnum_deref h toCompare;
  match n with
  | NUM_FLOAT floating => jnumber_compare_f64 h number floating
  | NUM_INT integer => jnumber_compare_i64 h number integer
  | NUM_RAW raw =>
      let '(conv, asInt) := jstr_to_i64 raw in
      if decide (CONV_OK = conv) then jnumber_compare_i64 h number asInt
      else
        let '(_, asFloat) := jstr_to_double raw in   (* a failure is logged *)
        jnumber_compare_f64 h number asFloat
  end.
End NumConversion.

(** ** Comparison of strings *)

Definition byte_value (c : Ascii.ascii) : Z := Z.of_N (Ascii.N_of_ascii c).

(** libc's [memcmp] over the first [n] bytes: the difference of the first
    pair of bytes that differ. *)
Fixpoint memcmp (s1 s2 : string) (n : nat) : Z :=
  match n, s1, s2 with
  | S n', String c1 r1, String c2 r2 =>
      if decide (c1 = c2) then memcmp r1 r2 n' else byte_value c1 - byte_value c2
  | _, _, _ => 0
  end.

(** [jstring_equal_internal3] on the bytes.  A string is modelled by its
    bytes, not by the address of its buffer, so the shortcut
    [str->m_str == other->m_str] is not modelled.  The answer is the one of
    the code for two buffers that hold the same bytes, for two buffers of
    the same length, and for two buffers at different addresses; two buffers
    of different lengths at one address are equal for the code. *)
Definition jstring_equal_internal3 (str other : string) : bool :=
  bool_decide (strlen str = strlen other)
  && bool_decide (memcmp str other (String.length str) = 0).

Definition jstring_equal_internal (h : heap) (str other : jvalue_ref) : option bool :=
  if decide (str = other) then Some true
  else s ← jstring_deref h str; o ← jstring_deref h other;
       Some (jstring_equal_internal3 s o).

Definition jstring_equal (h : heap) (str other : jvalue_ref) : option bool :=
  if negb (jis_string h str) || negb (jis_string h other) then Some false
  else jstring_equal_internal h str other.

Definition buffer_compare (s1 s2 : string) : Z :=
  let size := Z.min (strlen s1) (strlen s2) in
  let result := memcmp s1 s2 (Z.to_nat size) in
  if decide (result ≠ 0) then result else strlen s1 - strlen s2.

Definition jstring_compare (h : heap) (str1 str2 : jvalue_ref) : option Z :=
  s1 ← jstring_deref h str1; s2 ← jstring_deref h str2;
  Some (buffer_compare s1 s2).

(** ** Structural equality and order *)

(** Modelled from the spec: the values of the enumeration [JValueType] are
    declared in a public header that is not part of the sources at hand; the
    spec says that values of different kinds are ordered "by a fixed kind
    rank". *)
Definition JValueType_rank (t : JValueType) : Z :=
  match t with
  | JV_NULL => 0 | JV_BOOL => 1 | JV_NUM => 2 | JV_STR => 3 | JV_ARRAY => 4 | JV_OBJECT => 5
  end.

(** A loop that leaves with the first result that is not 0. *)
Fixpoint first_nonzero {A} (f : A → option Z) (l : list A) : option Z :=
  match l with
  | [] => Some 0
  | x :: l' =>
      match f x with
      | Some 0 => first_nonzero f l'
      | r => r
      end
  end.

Definition bool_to_int (b : bool) : Z := if b then 1 else 0.

Section Structural.
Variable jstr_to_i64 : string → ConversionResultFlags * Z.
Variable jstr_to_double : string → ConversionResultFlags * double.

Fixpoint jvalue_equal (fuel : nat) (h : heap) (val1 val2 : jvalue_ref) : option bool :=
  match fuel with
  | O => None
  | S n =>
      if decide (val1 = val2) then Some true
      else
        t1 ← m_type h val1; t2 ← m_type h val2;
        if decide (t1 ≠ t2) then Some false
        else match t1 with
             | JV_NULL => Some true
             | JV_BOOL =>
                 b1 ← jboolean_deref val1; b2 ← jboolean_deref val2;
                 Some (bool_decide (b1 = b2))
             | JV_NUM =>
                 c ← jnumber_compare jstr_to_i64 jstr_to_double h val1 val2;
                 Some (bool_decide (c = 0))
             | JV_STR => jstring_equal h val1 val2
             | JV_ARRAY =>                                       (* jarray_equal *)
                 let size := jarray_size h val1 in
                 if decide (size ≠ jarray_size h val2) then Some false
                 else all_true
                        (λ i, jvalue_equal n h (jarray_get h val1 i) (jarray_get h val2 i))
                        (seqZ 0 size)
             | JV_OBJECT =>                                      (* jobject_equal *)
                 if decide (jobject_size h val1 ≠ jobject_size h val2) then Some false
                 else all_true
                        (λ pair : jvalue_ref * jvalue_ref,
                           match jobject_get_exists2 h val2 (fst pair) with
                           | None => Some false
                           | Some val => jvalue_equal n h (snd pair) val
                           end)
                        (jobject_iter h val1)
             end
  end.

(** The order [qsort_helper] gives to [qsort]. *)
Definition key_le (h : heap) (k1 k2 : jvalue_ref) : Prop :=
  default 0 (jstring_compare h k1 k2) ≤ 0.

#[local] Instance key_le_dec h k1 k2 : Decision (key_le h k1 k2).
Proof. unfold key_le. apply _. Defined.

(** The keys of the table, sorted by [qsort]. *)
Definition sorted_keys (h : heap) (obj : jvalue_ref) : list jvalue_ref :=
  merge_sort (key_le h) (fst <$> jobject_iter h obj).

Fixpoint jvalue_compare (fuel : nat) (h : heap) (val1 val2 : jvalue_ref) : option Z :=
  match fuel with
  | O => None
  | S n =>
      if decide (val1 = val2) then Some 0
      else
        t1 ← m_type h val1; t2 ← m_type h val2;
        let type_diff := JValueType_rank t1 - JValueType_rank t2 in
        if decide (type_diff ≠ 0) then Some type_diff
        else match t1 with
             | JV_NULL =>
                 Some (bool_to_int (jis_valid val1) - bool_to_int (jis_valid val2))
             | JV_BOOL =>
                 b1 ← jboolean_deref val1; b2 ← jboolean_deref val2;
                 Some (bool_to_int b1 - bool_to_int b2)
             | JV_NUM => jnumber_compare jstr_to_i64 jstr_to_double h val1 val2
             | JV_STR => jstring_compare h val1 val2
             | JV_ARRAY =>                                       (* jarray_compare *)
                 let arr1_size := jarray_size h val1 in
                 let arr2_size := jarray_size h val2 in
                 let size := if decide (arr1_size < arr2_size) then arr1_size else arr2_size in
                 result ← first_nonzero
                   (λ i, jvalue_compare n h (jarray_get h val1 i) (jarray_get h val2 i))
                   (seqZ 0 size);
                 if decide (result ≠ 0) then Some result else Some (arr1_size - arr2_size)
             | JV_OBJECT =>                                      (* jobject_compare *)
                 let obj1_size := jobject_size h val1 in
                 let obj2_size := jobject_size h val2 in
                 result ← first_nonzero
                   (λ keys : jvalue_ref * jvalue_ref,
                      r ← jstring_compare h (fst keys) (snd keys);
                      if decide (r ≠ 0) then Some r
                      else jvalue_compare n h
                             (default NULL (jobject_get_exists2 h val1 (fst keys)))
                             (default NULL (jobject_get_exists2 h val2 (snd keys))))
                   (zip (sorted_keys h val1) (sorted_keys h val2));
                 if decide (result ≠ 0) then Some result else Some (obj1_size - obj2_size)
             end
  end.
End Structural.

(** ** The visitor of [jtraverse.c] *)

(** [TraverseCallbacks]: every callback receives the context and the value
    and answers whether the traversal goes on.  The context is the state the
    callbacks own; a callback returns it updated. *)
Record TraverseCallbacks (C : Type) := {
  jobj_start : C → jvalue_ref → bool * C;
  jobj_key : C → jvalue_ref → bool * C;
  jobj_end : C → jvalue_ref → bool * C;
  jarr_start : C → jvalue_ref → bool * C;
  jarr_end : C → jvalue_ref → bool * C;
  jstring : C → jvalue_ref → bool * C;
  jnumber_raw : C → jvalue_ref → bool * C;
  jnumber_double : C → jvalue_ref → bool * C;
  jnumber_int : C → jvalue_ref → bool * C;
  jbool : C → jvalue_ref → bool * C;
  jnull_cb : C → jvalue_ref → bool * C;      (* the member [jnull] *)
}.
Arguments jobj_start {C}. Arguments jobj_key {C}. Arguments jobj_end {C}.
Arguments jarr_start {C}. Arguments jarr_end {C}. Arguments jstring {C}.
Arguments jnumber_raw {C}. Arguments jnumber_double {C}. Arguments jnumber_int {C}.
Arguments jbool {C}. Arguments jnull_cb {C}.

(** A loop over the elements that leaves with [false] at the first element
    whose traversal answers [false]. *)
Fixpoint traverse_all {A C} (f : A → C → option (bool * C)) (l : list A) (context : C)
  : option (bool * C) :=
  match l with
  | [] => Some (true, context)
  | x :: l' =>
      match f x context with
      | Some (true, context') => traverse_all f l' context'
      | r => r
      end
  end.

Section Traverse.
Context {C : Type}.
Variable h : heap.
Variable tc : TraverseCallbacks C.

Definition jnumber_traverse (jref : jvalue_ref) (context : C) : option (bool * C) :=
  n ← jnum_deref h jref;
  match n with
  | NUM_RAW _ => Some (jnumber_raw tc context jref)
  | NUM_FLOAT _ => Some (jnumber_double tc context jref)
  | NUM_INT _ => Some (jnumber_int tc context jref)
  end.

Fixpoint jvalue_traverse (fuel : nat) (jref : jvalue_ref) (context : C)
  : option (bool * C) :=
  match fuel with
  | O => None
  | S n =>
      t ← m_type h jref;
      match t with
      | JV_NULL => Some (jnull_cb tc context jref)
      | JV_OBJECT =>                                             (* jobject_traverse *)
          let '(ok, context) := jobj_start tc context jref in
          if negb ok then Some (false, context)
          else
            match traverse_all
                    (λ (key_value : jvalue_ref * jvalue_ref) context,
                       (* jkeyvalue_traverse *)
                       let '(ok, context) := jobj_key tc context (fst key_value) in
                       if negb ok then Some (false, context)
                       else jvalue_traverse n (snd key_value) context)
                    (jobject_iter h jref) context with
            | None => None
            | Some (false, context) => Some (false, context)
            | Some (true, context) => Some (jobj_end tc context jref)
            end
      | JV_ARRAY =>                                              (* jarray_traverse *)
          let '(ok, context) := jarr_start tc context jref in
          if negb ok then Some (false, context)
          else
            match traverse_all
                    (λ i context, jvalue_traverse n (jarray_get h jref i) context)
                    (seqZ 0 (jarray_size h jref)) context with
            | None => None
            | Some (false, context) => Some (false, context)
            | Some (true, context) => Some (jarr_end tc context jref)
            end
      | JV_NUM => jnumber_traverse jref context
      | JV_STR => Some (jstring tc context jref)
      | JV_BOOL => Some (jbool tc context jref)
      end
  end.
End Traverse.


(** ** Notions used by the properties *)

(** A double that is neither NaN nor an infinity. *)
Definition is_finite_double (d : double) : bool :=
  match d with
  | S754_zero _ | S754_finite _ _ _ => true
  | S754_infinity _ | S754_nan => false
  end.

(** A conversion of [num_conversion.c] on a string it cannot convert: the
    flags are not [CONV_OK], and the out-parameter holds [fallback]. *)
Definition conv_failure {A} (fallback : A) (raw : string) : ConversionResultFlags * A :=
  (1, fallback).

(** What the spec says of a number, for the comparison: the [int64_t] it
    holds, when it is an integer or a raw string that converts to one ... *)
Definition number_as_i64 (jstr_to_i64 : string → ConversionResultFlags * Z) (n : jnum)
  : option Z :=
  match n with
  | NUM_INT integer => Some integer
  | NUM_RAW raw =>
      if decide (CONV_OK = fst (jstr_to_i64 raw)) then Some (snd (jstr_to_i64 raw)) else None
  | NUM_FLOAT _ => None
  end.

(** ... and its promotion to [double]. *)
Definition number_as_double (jstr_to_i64 : string → ConversionResultFlags * Z)
    (jstr_to_double : string → ConversionResultFlags * double) (n : jnum) : double :=
  match n with
  | NUM_FLOAT floating => floating
  | NUM_INT integer => i64_to_double integer
  | NUM_RAW raw =>
      if decide (CONV_OK = fst (jstr_to_i64 raw)) then i64_to_double (snd (jstr_to_i64 raw))
      else snd (jstr_to_double raw)
  end.

(** The comparison as the spec words it: integers when both fit [int64_t],
    doubles otherwise. *)
Definition compare_as_spec (jstr_to_i64 : string → ConversionResultFlags * Z)
    (jstr_to_double : string → ConversionResultFlags * double) (n1 n2 : jnum) : Z :=
  match number_as_i64 jstr_to_i64 n1, number_as_i64 jstr_to_i64 n2 with
  | Some i1, Some i2 => cmp3_int i1 i2
  | _, _ => cmp3_double (number_as_double jstr_to_i64 jstr_to_double n1)
                        (number_as_double jstr_to_i64 jstr_to_double n2)
  end.

(** The pointers a cell holds: the slots of an array, the keys and the
    values of an object. *)
Definition child_of (b : jbody) (v : jvalue_ref) : Prop :=
  match b with
  | BArray arr => v ∈ m_slots arr
  | BObject m => ∃ k kr vr, m !! k = Some (kr, vr) ∧ (v = kr ∨ v = vr)
  | _ => False
  end.

(** [reach h v a]: the cell [a] is [v] itself or a descendant of [v] by the
    child relation of the store [h]. *)
Inductive reach (h : heap) : jvalue_ref → nat → Prop :=
| reach_here a : reach h (Ptr a) a
| reach_step a c v b :
    h !! a = Some c → child_of (m_body c) v → reach h v b → reach h (Ptr a) b.

(** Invariant 4 of the spec on an array: the size is within the capacity
    and the slots from the size on are NULL. *)
Definition array_ok (arr : jarray) : Prop :=
  0 ≤ m_size arr ≤ m_capacity arr
  ∧ ∀ (i : nat) v, m_slots arr !! i = Some v → m_size arr ≤ Z.of_nat i → v = NULL.

(** [wf_tree h n v]: [v] is the root of a tree of the store of depth at most
    [n]: a singleton, or a cell whose children are such trees of depth at
    most [n - 1].  The slots of an array may be NULL; the keys of an object
    are strings.  A value that is reachable from itself is no such tree. *)
Fixpoint wf_tree (h : heap) (n : nat) (v : jvalue_ref) : Prop :=
  match v with
  | NULL => False
  | Ptr a =>
      match n with
      | O => False
      | S n' =>
          match m_body <$> h !! a with
          | None => False
          | Some (BArray arr) =>
              array_ok arr ∧ ∀ v', v' ∈ m_slots arr → v' = NULL ∨ wf_tree h n' v'
          | Some (BObject m) =>
              ∀ k kr vr, m !! k = Some (kr, vr) → jis_string h kr = true ∧ wf_tree h n' vr
          | Some _ => True
          end
      end
  | _ => True
  end.

(** The elements of an array: its slots below its size. *)
Definition elements (h : heap) (arr : jvalue_ref) : list jvalue_ref :=
  from_option (λ a, take (Z.to_nat (m_size a)) (m_slots a)) [] (jarray_deref h arr).

(** [l[from .. to)] *)
Definition sublist {A} (from to : Z) (l : list A) : list A :=
  take (Z.to_nat (to - from)) (drop (Z.to_nat from) l).

(** The callbacks of a visitor, for the record of the calls it receives. *)
Inductive callback :=
| CB_jobj_start | CB_jobj_key | CB_jobj_end | CB_jarr_start | CB_jarr_end | CB_jstring
| CB_jnumber_raw | CB_jnumber_double | CB_jnumber_int | CB_jbool | CB_jnull.

(** A call: the callback, its argument and its answer. *)
Definition call : Type := callback * jvalue_ref * bool.

(** A callback that also appends its call to the record kept in the context. *)
Definition logged {C} (cb : callback) (f : C → jvalue_ref → bool * C)
  : C * list call → jvalue_ref → bool * (C * list call) :=
  λ context jref,
    let '(ok, c) := f (fst context) jref in (ok, (c, snd context ++ [(cb, jref, ok)])).

Definition logged_callbacks {C} (tc : TraverseCallbacks C) : TraverseCallbacks (C * list call) :=
  {| jobj_start := logged CB_jobj_start (jobj_start tc);
     jobj_key := logged CB_jobj_key (jobj_key tc);
     jobj_end := logged CB_jobj_end (jobj_end tc);
     jarr_start := logged CB_jarr_start (jarr_start tc);
     jarr_end := logged CB_jarr_end (jarr_end tc);
     jstring := logged CB_jstring (jstring tc);
     jnumber_raw := logged CB_jnumber_raw (jnumber_raw tc);
     jnumber_double := logged CB_jnumber_double (jnumber_double tc);
     jnumber_int := logged CB_jnumber_int (jnumber_int tc);
     jbool := logged CB_jbool (jbool tc);
     jnull_cb := logged CB_jnull (jnull_cb tc) |}.

(** The calls of a record are "short-circuited" with answer [b]: the last
    call answered [b] and every call before it answered true. *)
Definition short_circuited (calls : list call) (b : bool) : Prop :=
  ∃ pre cb v, calls = pre ++ [(cb, v, b)] ∧ Forall (λ c : call, snd c = true) pre.

(** The calls of a loop over several elements that ended with answer [b]:
    all of them answered true when [b] is true, and they are short-circuited
    with answer false otherwise. *)
Definition loop_calls (calls : list call) (b : bool) : Prop :=
  if b then Forall (λ c : call, snd c = true) calls else short_circuited calls false.

(** A visitor that counts the calls it receives and stops at the first
    null. *)
Definition count_until_null : TraverseCallbacks nat :=
  let go := λ (n : nat) (_ : jvalue_ref), (true, S n) in
  {| jobj_start := go; jobj_key := go; jobj_end := go; jarr_start := go; jarr_end := go;
     jstring := go; jnumber_raw := go; jnumber_double := go; jnumber_int := go; jbool := go;
     jnull_cb := λ n _, (false, S n) |}.

(** [body_le b' b]: the body [b'] is [b] with some of its children dropped
    (a slot set to NULL, an entry removed). *)
Definition body_le (b' b : jbody) : Prop :=
  match b', b with
  | BArray a', BArray a =>
      (array_ok a → array_ok a') ∧ ∀ v, v ∈ m_slots a' → v = NULL ∨ v ∈ m_slots a
  | BObject m', BObject m => m' ⊆ m
  | BStr _ _, BStr _ _ => True
  | BNum _, BNum _ => True
  | _, _ => False
  end.

(** The cell at [a] of [h'] is the one of [h], up to its count and up to
    children it dropped. *)
Definition cell_le (h h' : heap) (a : nat) : Prop :=
  match h !! a, h' !! a with
  | Some c, Some c' => body_le (m_body c') (m_body c)
  | None, None => True
  | _, _ => False
  end.

Definition shrink (h h' : heap) : Prop := ∀ a, cell_le h h' a.

(** What a release function does on the values of depth at most [n]: it
    returns, the store it returns only dropped children, and the cells that
    are not reachable from the released value are as they were. *)
Definition release_ok (release : jvalue_ref → heap → option heap) (n : nat) : Prop :=
  ∀ h v, v = NULL ∨ jis_string h v = true ∨ wf_tree h n v →
    ∃ h', release v h = Some h' ∧ shrink h h' ∧ ∀ x, ¬ reach h v x → h' !! x = h !! x.

(** The destination of a splice: the cell [d] is an array whose elements are
    [elems], followed by [pad] NULL slots. *)
Definition dst_state (h : heap) (d : nat) (cnt : Z) (elems : list jvalue_ref) (pad : nat)
  : Prop :=
  h !! d = Some (Jvalue cnt (BArray (Jarray (Z.of_nat (length elems))
                                       (elems ++ replicate pad NULL)))).

(** The source of a splice: the cell [s] is an array of size [size] whose
    slots from [k] on are those of [slots0]. *)
Definition src_state (h : heap) (s : nat) (size : Z) (slots0 : list jvalue_ref) (k : nat)
  : Prop :=
  ∃ cnt slots,
    h !! s = Some (Jvalue cnt (BArray (Jarray size slots)))
    ∧ ∀ j, (k ≤ j)%nat → slots !! j = slots0 !! j.

(** The size of the source after [k] rounds of the copying loops:
    [SPLICE_TRANSFER] takes the element out of the source and lowers its
    size in every round. *)
Definition src_size (ownership : JSpliceOwnership) (size0 : Z) (k : nat) : Z :=
  match ownership with
  | SPLICE_TRANSFER => size0 - Z.of_nat k
  | _ => size0
  end.

(** The values [E] are NULL or trees of the store that contain neither the
    cell [d] nor the cell [s]. *)
Definition ext_ok (h : heap) (n d s : nat) (E : list jvalue_ref) : Prop :=
  ∀ e, e ∈ E → e = NULL ∨ wf_tree h n e ∧ ¬ reach h e d ∧ ¬ reach h e s.

(** ** Further functions of [jobject.c] *)

(** *** Strings *)

Definition jbuffer_equal (buffer1 buffer2 : string) : bool :=
  bool_decide (strlen buffer1 = strlen buffer2)
  && bool_decide (memcmp buffer1 buffer2 (String.length buffer1) = 0).

(** [jstring_get_fast]: the buffer of the string itself, and the buffer
    [j_str_to_buffer(NULL, 0)] for a value that is no string. *)
Definition jstring_get_fast (h : heap) (str : jvalue_ref) : raw_buffer :=
  if negb (jis_string h str) then None else jstring_deref h str.

Definition jstring_get (h : heap) (str : jvalue_ref) : raw_buffer :=
  match jstring_get_fast h str with
  | None => None
  | Some raw_str => Some raw_str        (* [memcpy] into a buffer from [calloc] *)
  end.

Definition jstring_equal2 (h : heap) (str : jvalue_ref) (other : string) : option bool :=
  if negb (jis_string h str) then Some false
  else s ← jstring_deref h str; Some (jstring_equal_internal3 s other).

(** *** Numbers *)

Definition jnumber_create_unsafe {B : Build} (str : raw_buffer) (strFree : bool) (h : heap)
  : option (jvalue_ref * heap) :=
  _ ← c_assert (bool_decide (str ≠ None));
  _ ← c_assert (bool_decide (m_len str > 0));
  match str with
  | None => Some (jinvalid, h)
  | Some s =>
      if decide (m_len str = 0) then Some (jinvalid, h)
      else Some (alloc (Jvalue 1 (BNum (NUM_RAW s))) h)
  end.

(** The bytes are copied into a buffer from [calloc], which [free] releases
    with the number. *)
Definition jnumber_create {B : Build} (str : raw_buffer) (h : heap)
  : option (jvalue_ref * heap) :=
  _ ← c_assert (bool_decide (str ≠ None));
  _ ← c_assert (bool_decide (m_len str > 0));
  match str with
  | None => Some (jinvalid, h)
  | Some s =>
      if decide (m_len str ≤ 0) then Some (jinvalid, h)
      else jnumber_create_unsafe (Some s) true h
  end.

Definition jnumber_create_i32 (number : Z) (h : heap) : jvalue_ref * heap :=
  jnumber_create_i64 number h.

Definition jnumber_duplicate {B : Build} (h : heap) (num : jvalue_ref)
  : option (jvalue_ref * heap) :=
  n ← jnum_deref h num;
  match n with
  | NUM_RAW raw => jnumber_create (Some raw) h
  | NUM_FLOAT floating => Some (jnumber_create_f64 floating h)
  | NUM_INT integer => Some (jnumber_create_i64 integer h)
  end.

(** [m_error] of a number.  [g_slice_new0] clears the field, which leaves it
    [CONV_OK], and only [jnumber_create_converted] writes it: the numbers of
    this model are those of the other constructors. *)
Definition m_error (n : jnum) : ConversionResultFlags := CONV_OK.

Section NumAccess.
(** The conversions of [jvalue/num_conversion.c] and the flags of
    [jconversion.h]; neither file is part of the sources at hand.  A getter
    returns its flags with what it stores through its out-parameter, [None]
    when it stores nothing. *)
Variable jstr_to_i64 : string → ConversionResultFlags * Z.
Variable jstr_to_double : string → ConversionResultFlags * double.
Variable jdouble_to_i64 : double → ConversionResultFlags * Z.
Variable ji64_to_double : Z → ConversionResultFlags * double.
Variables CONV_BAD_ARGS CONV_NOT_A_RAW_NUM CONV_NOT_A_BOOLEAN : ConversionResultFlags.

Definition jnumber_get_i64 (h : heap) (num : jvalue_ref)
  : option (ConversionResultFlags * option Z) :=
  if decide (num = NULL) then Some (CONV_BAD_ARGS, None)
  else if negb (jis_number h num) then Some (CONV_BAD_ARGS, None)
  else
    n ← jnum_deref h num;
    match n with
    | NUM_FLOAT floating =>
        let '(conv, number) := jdouble_to_i64 floating in
        Some (Z.lor conv (m_error n), Some number)
    | NUM_INT integer => Some (m_error n, Some integer)
    | NUM_RAW raw =>
        let '(conv, number) := jstr_to_i64 raw in
        Some (Z.lor conv (m_error n), Some number)
    end.

Definition jnumber_get_f64 (h : heap) (num : jvalue_ref)
  : option (ConversionResultFlags * option double) :=
  if decide (num = NULL) then Some (CONV_BAD_ARGS, None)
  else if negb (jis_number h num) then Some (CONV_BAD_ARGS, None)
  else
    n ← jnum_deref h num;
    match n with
    | NUM_FLOAT floating => Some (m_error n, Some floating)
    | NUM_INT integer =>
        let '(conv, number) := ji64_to_double integer in
        Some (Z.lor conv (m_error n), Some number)
    | NUM_RAW raw =>
        let '(conv, number) := jstr_to_double raw in
        Some (Z.lor conv (m_error n), Some number)
    end.

Definition jnumber_get_raw (h : heap) (num : jvalue_ref)
  : option (ConversionResultFlags * option string) :=
  if decide (num = NULL) then Some (CONV_BAD_ARGS, None)
  else if negb (jis_number h num) then Some (CONV_BAD_ARGS, None)
  else
    n ← jnum_deref h num;
    match n with
    | NUM_FLOAT _ | NUM_INT _ => Some (CONV_NOT_A_RAW_NUM, None)
    | NUM_RAW raw => Some (CONV_OK, Some raw)
    end.

(** [raw_buffer result = { 0 }], then [jnumber_get_raw(num, &result)]. *)
Definition jnumber_deref_raw (h : heap) (num : jvalue_ref) : option raw_buffer :=
  r ← jnumber_get_raw h num; Some (snd r).

(** [jboolean_get] with a [value] that is not the null pointer. *)
Definition jboolean_get (h : heap) (val : jvalue_ref)
  : option (ConversionResultFlags * bool) :=
  if decide (val = NULL) then Some (CONV_NOT_A_BOOLEAN, false)
  else
    t ← m_type h val;
    match t with
    | JV_BOOL => b ← jboolean_deref val; Some (CONV_OK, b)
    | JV_NULL => Some (CONV_NOT_A_BOOLEAN, false)
    | JV_OBJECT => Some (CONV_NOT_A_BOOLEAN, true)
    | JV_ARRAY => Some (CONV_NOT_A_BOOLEAN, true)
    | JV_STR => Some (CONV_NOT_A_BOOLEAN, bool_decide (jstring_size h val ≠ 0))
    | JV_NUM =>
        '(conv_result, result) ← jnumber_get_f64 h val;
        Some (CONV_NOT_A_BOOLEAN,
              bool_decide (conv_result = CONV_OK)
              && from_option (λ d, negb (SFeqb d (S754_zero false))) false result)
    end.

Definition jboolean_deref_to_value (h : heap) (boolean : jvalue_ref) : option bool :=
  r ← jboolean_get h boolean; Some (snd r).
End NumAccess.

(** *** Objects *)

(** [g_hash_table_remove]: the pair whose key has the bytes [kb] leaves the
    table, and the destroy notifiers run on its key and on its value. *)
Definition g_hash_table_remove (fuel : nat) (obj : nat) (kb : string) (h : heap)
  : option (bool * heap) :=
  m ← jobject_deref h (Ptr obj);
  match m !! kb with
  | None => Some (false, h)
  | Some (old_key, old_val) =>
      h1 ← j_release fuel old_key (set_body obj (BObject (delete kb m)) h);
      h2 ← j_release fuel old_val h1;
      Some (true, h2)
  end.

Definition jobject_remove (fuel : nat) (obj : jvalue_ref) (key : string) (h : heap)
  : option (bool * heap) :=
  if jis_null obj then Some (false, h)
  else if negb (jis_object h obj) then Some (false, h)
  else match obj with
       | Ptr o => g_hash_table_remove fuel o key h
       | _ => None
       end.

(** [jobject_set] reads [jobject_deref(obj)->m_members] before any test on
    [obj]. *)
Definition jobject_set {B : Build} (fuel : nat) (obj : jvalue_ref) (key : raw_buffer) (val : jvalue_ref)
    (h : heap) : option (bool * heap) :=
  _ ← jobject_deref h obj;
  '(newVal, h1) ← jvalue_copy val h;
  let '(newKey, h2) := jstring_create_copy key h1 in
  if negb (jis_valid_unsafe newKey) then h3 ← j_release fuel newVal h2; Some (false, h3)
  else jobject_put fuel obj newKey newVal h2.

Definition jobject_set2 {B : Build} (fuel : nat) (obj key val : jvalue_ref) (h : heap)
  : option (bool * heap) :=
  '(new_key, h1) ← jvalue_copy key h;
  if decide (new_key = NULL) then Some (false, h1)
  else
    '(new_val, h2) ← jvalue_copy val h1;
    if decide (new_val = NULL) then h3 ← j_release fuel new_key h2; Some (false, h3)
    else jobject_put fuel obj new_key new_val h2.

(** [jobject_get_nested(obj, key1, ..., NULL)]: the keys before the NULL
    that ends the argument list, each a C string given by its bytes. *)
Fixpoint jobject_get_nested (h : heap) (obj : jvalue_ref) (keys : list string)
  : jvalue_ref :=
  match keys with
  | [] => obj
  | key :: keys' =>
      match jobject_get_exists h obj key with
      | None => JINVALID
      | Some value => jobject_get_nested h value keys'
      end
  end.

(** *** Arrays *)

Definition jarray_create_hint (capacityHint : Z) (h : heap) : option (jvalue_ref * heap) :=
  let '(new_array, h1) := jarray_create h in
  match new_array with
  | Ptr p => h2 ← jarray_expand_capacity_unsafe p capacityHint h1; Some (new_array, h2)
  | _ => None
  end.

(** [jarray_create_var(opts, e1, ..., NULL)]: the elements before the NULL
    that ends the argument list.  The answer of [jarray_put_unsafe] is not
    looked at. *)
Fixpoint jarray_create_var_loop (fuel : nat) (new_array : jvalue_ref)
    (elems : list jvalue_ref) (h : heap) : option heap :=
  match elems with
  | [] => Some h
  | element :: elems' =>
      '(_, h1) ← jarray_put_unsafe fuel new_array (jarray_size_unsafe h new_array) element h;
      jarray_create_var_loop fuel new_array elems' h1
  end.

Definition jarray_create_var (fuel : nat) (elems : list jvalue_ref) (h : heap)
  : option (jvalue_ref * heap) :=
  '(new_array, h1) ← jarray_create_hint 1 h;
  h2 ← jarray_create_var_loop fuel new_array elems h1;
  Some (new_array, h2).

Definition jarray_splice_inject {B : Build} (fuel : nat) (array : jvalue_ref) (index : Z)
    (arrayToInject : jvalue_ref) (ownership : JSpliceOwnership) (h : heap)
  : option (bool * heap) :=
  jarray_splice fuel array index 0 arrayToInject 0 (jarray_size h arrayToInject) ownership h.

Definition jarray_splice_append {B : Build} (fuel : nat) (array arrayToAppend : jvalue_ref)
    (ownership : JSpliceOwnership) (h : heap) : option (bool * heap) :=
  jarray_splice fuel array (jarray_size h array - 1) 0 arrayToAppend 0
    (jarray_size h arrayToAppend) ownership h.

(** A loop that leaves with [true] at the first element whose test succeeds. *)
Fixpoint any_true {A} (f : A → option bool) (l : list A) : option bool :=
  match l with
  | [] => Some false
  | x :: l' =>
      match f x with
      | Some true => Some true
      | Some false => any_true f l'
      | None => None
      end
  end.

Section Duplicates.
Variable jstr_to_i64 : string → ConversionResultFlags * Z.
Variable jstr_to_double : string → ConversionResultFlags * double.

(** The two loops read the slots with [jarray_get_unsafe]. *)
Definition jarray_has_duplicates {B : Build} (fuel : nat) (h : heap) (arr : jvalue_ref)
  : option bool :=
  _ ← c_assert (jis_array h arr);
  let size := jarray_size h arr in
  let slot := λ i, jarray_deref h arr ≫= λ a, slot_get (m_slots a) i in
  any_true
    (λ i, jvali ← slot i;
          any_true (λ j, v ← slot j; jvalue_equal jstr_to_i64 jstr_to_double fuel h jvali v)
                   (seqZ (i + 1) (size - (i + 1))))
    (seqZ 0 (size - 1)).
End Duplicates.

(** [extends h h']: the store [h'] has every cell of [h] with the body it has
    in [h]; counts may differ and [h'] may have more cells. *)
Definition extends (h h' : heap) : Prop :=
  ∀ x c, h !! x = Some c → ∃ c', h' !! x = Some c' ∧ m_body c' = m_body c.

(** [live h v]: when [v] is a cell of the store, its count is positive, with
    room for two more owners. *)
Definition live (h : heap) (v : jvalue_ref) : Prop :=
  ∀ a c, v = Ptr a → h !! a = Some c → 0 < m_refCnt c ∧ m_refCnt c + 2 < 2 ^ 31.

(** [add_refs v k h]: the store [h] with [k] added to the count of the cell
    [v]; the store itself when [v] is no cell. *)
Definition add_refs (v : jvalue_ref) (k : Z) (h : heap) : heap :=
  match v with
  | Ptr a => alter (λ c, Jvalue (m_refCnt c + k) (m_body c)) a h
  | _ => h
  end.

(** *** Deep copies *)

(** The loops of [jvalue_duplicate]: each round puts one copy into [result];
    when a round fails, [result] is released and the answer is the null
    pointer. *)
Fixpoint dup_loop {A} (step : A → heap → option (bool * heap))
    (release : heap → option heap) (result : jvalue_ref) (l : list A) (h : heap)
  : option (jvalue_ref * heap) :=
  match l with
  | [] => Some (result, h)
  | x :: l' =>
      '(ok, h1) ← step x h;
      if negb ok then h2 ← release h1; Some (NULL, h2)
      else dup_loop step release result l' h1
  end.

Section Duplicate.
Context {B : Build}.
(** [jboolean_deref_to_value] reaches the conversions of
    [jvalue/num_conversion.c] through [jboolean_get]. *)
Variable jstr_to_double : string → ConversionResultFlags * double.
Variable ji64_to_double : Z → ConversionResultFlags * double.
Variables CONV_BAD_ARGS CONV_NOT_A_BOOLEAN : ConversionResultFlags.

(** [jis_const] reads [val->m_type] before any test on [val].  The pairs of
    the object are those of its table when the loop starts; the loop puts
    into another table. *)
Fixpoint jvalue_duplicate (fuel : nat) (val : jvalue_ref) (h : heap)
  : option (jvalue_ref * heap) :=
  match fuel with
  | O => None
  | S n =>
      _ ← m_type h val;
      if jis_const h val then Some (val, h)
      else if jis_object h val then
        let '(result, h0) := jobject_create h in        (* jobject_create_hint *)
        dup_loop
          (λ (pair : jvalue_ref * jvalue_ref) h,
             '(valueCopy, h1) ← jvalue_duplicate n (snd pair) h;
             '(key, h2) ← jvalue_copy (fst pair) h1;
             jobject_put (S n) result key valueCopy h2)
          (j_release (S n) result) result (jobject_iter h val) h0
      else if jis_array h val then
        let arrSize := jarray_size h val in
        '(result, h0) ← jarray_create_hint arrSize h;
        dup_loop
          (λ i h,
             '(element, h1) ← jvalue_duplicate n (jarray_get h val i) h;
             jarray_append (S n) result element h1)
          (j_release (S n) result) result (seqZ 0 arrSize) h0
      else if jis_string h val then
        Some (jstring_create_copy (jstring_get_fast h val) h)
      else if jis_number h val then jnumber_duplicate h val
      else
        b ← jboolean_deref_to_value jstr_to_double ji64_to_double
               CONV_BAD_ARGS CONV_NOT_A_BOOLEAN h val;
        Some (jboolean_create b, h)
  end.
End Duplicate.

(** [same_json h1 h2 v1 v2]: the value [v1] of the store [h1] and the value
    [v2] of the store [h2] are the same JSON document for the readers of the
    library: the same singleton, strings with the same bytes, numbers with
    the same representation, arrays of the same size whose elements
    [jarray_get] returns are the same document at every index, objects with
    the same keys whose values [jobject_get_exists] returns are the same
    document under every key. *)
Inductive same_json (h1 h2 : heap) : jvalue_ref → jvalue_ref → Prop :=
| same_singleton v :
    v ≠ NULL → (∀ a, v ≠ Ptr a) → same_json h1 h2 v v
| same_string a b s :
    jstring_deref h1 (Ptr a) = Some s → jstring_deref h2 (Ptr b) = Some s →
    same_json h1 h2 (Ptr a) (Ptr b)
| same_number a b x :
    jnum_deref h1 (Ptr a) = Some x → jnum_deref h2 (Ptr b) = Some x →
    same_json h1 h2 (Ptr a) (Ptr b)
| same_array a b :
    jis_array h1 (Ptr a) = true → jis_array h2 (Ptr b) = true →
    jarray_size h1 (Ptr a) = jarray_size h2 (Ptr b) →
    (∀ i, 0 ≤ i < jarray_size h1 (Ptr a) →
       same_json h1 h2 (jarray_get h1 (Ptr a) i) (jarray_get h2 (Ptr b) i)) →
    same_json h1 h2 (Ptr a) (Ptr b)
| same_object a b :
    jis_object h1 (Ptr a) = true → jis_object h2 (Ptr b) = true →
    (∀ k, jobject_get_exists h1 (Ptr a) k = None ↔ jobject_get_exists h2 (Ptr b) k = None) →
    (∀ k v1 v2, jobject_get_exists h1 (Ptr a) k = Some v1 →
       jobject_get_exists h2 (Ptr b) k = Some v2 → same_json h1 h2 v1 v2) →
    same_json h1 h2 (Ptr a) (Ptr b).

(** What the constructors and [jobject_put] establish for a cell: a key of
    an object is a string with the bytes it is filed under, which are not
    empty, and no value of an object is the Invalid sentinel; a raw number
    has bytes and a floating number is finite. *)
Definition cell_ok (h : heap) (c : jvalue) : Prop :=
  match m_body c with
  | BObject m =>
      ∀ k kr vr, m !! k = Some (kr, vr) →
        jstring_deref h kr = Some k ∧ k ≠ EmptyString ∧ vr ≠ JINVALID
  | BNum (NUM_RAW raw) => raw ≠ EmptyString
  | BNum (NUM_FLOAT floating) => is_finite_double floating = true
  | _ => True
  end.

Definition cells_ok (h : heap) (v : jvalue_ref) : Prop :=
  ∀ x c, reach h v x → h !! x = Some c → cell_ok h c.

(** [key_of g v x]: in the store [g], the cell [x] is a string that is a
    key of an object of the tree [v]. *)
Definition key_of (g : heap) (v : jvalue_ref) (x : nat) : Prop :=
  ∃ o c m k vr, reach g v o ∧ g !! o = Some c ∧ m_body c = BObject m
                ∧ m !! k = Some (Ptr x, vr) ∧ jis_string g (Ptr x) = true.

(** [copy_of g h h' n v r]: in the store [h'], the value [r] is a copy of the
    value [v] of the store [g] that was made from the store [h]: the same
    document, a tree of depth at most [n], the Invalid sentinel only where
    [v] is, and apart from the keys of the objects of [v] no cell of [r] is
    a cell of [h]. *)
Definition copy_of (g h h' : heap) (n : nat) (v r : jvalue_ref) : Prop :=
  same_json g h' v r ∧ wf_tree h' n r ∧ (v ≠ JINVALID → r ≠ JINVALID)
  ∧ ∀ x, reach h' r x → h !! x = None ∨ key_of g v x.

(** *** Building an object from its pairs *)

(** [jobject_put_keyvalue]; its two assertions are on the arguments, a key
    that is a string and a value that is not the null pointer. *)
Definition jobject_put_keyvalue {B : Build} (fuel : nat) (obj key value : jvalue_ref)
    (h : heap) : option (jvalue_ref * heap) :=
  _ ← c_assert (jis_string h key);
  _ ← c_assert (bool_decide (value ≠ NULL));
  if negb (jis_valid obj) then
    h1 ← j_release fuel key h; h2 ← j_release fuel value h1; Some (obj, h2)
  else
    '(ok, h1) ← jobject_put fuel obj key value h;
    if negb ok then h2 ← j_release fuel obj h1; Some (jinvalid, h2)   (* the failure is logged *)
    else Some (obj, h1).

(** [jobject_create_var(item1, ..., J_END_OBJ_DECL)]: the pairs before the
    one whose key is the null pointer. *)
Fixpoint jobject_create_var_loop {B : Build} (fuel : nat) (new_object : jvalue_ref)
    (items : list (jvalue_ref * jvalue_ref)) (h : heap) : option (jvalue_ref * heap) :=
  match items with
  | [] => Some (new_object, h)
  | item :: items' =>
      '(new_object, h1) ← jobject_put_keyvalue fuel new_object (fst item) (snd item) h;
      jobject_create_var_loop fuel new_object items' h1
  end.

Definition jobject_create_var {B : Build} (fuel : nat) (items : list (jvalue_ref * jvalue_ref))
    (h : heap) : option (jvalue_ref * heap) :=
  let '(new_object, h0) := jobject_create h in
  let new_object := if decide (new_object = NULL) then jinvalid else new_object in
  jobject_create_var_loop fuel new_object items h0.

(** *** Trees with one owner *)

(** No cell is reachable from both [v] and [w]. *)
Definition disjoint_at (h : heap) (v w : jvalue_ref) : Prop :=
  ∀ x, reach h v x → ¬ reach h w x.

(** A key that only its object owns. *)
Definition key_owned (h : heap) (kr : jvalue_ref) : Prop :=
  jis_string h kr = true ∧ ∀ p c, kr = Ptr p → h !! p = Some c → m_refCnt c = 1.

(** [owned h n v]: [v] is a tree of depth at most [n] in which every cell
    has the count 1 and is held once: two slots of an array, and two of the
    keys and values of an object, share no cell. *)
Fixpoint owned (h : heap) (n : nat) (v : jvalue_ref) : Prop :=
  match v with
  | NULL => False
  | Ptr a =>
      match n with
      | O => False
      | S n' =>
          match h !! a with
          | None => False
          | Some c =>
              m_refCnt c = 1
              ∧ match m_body c with
                | BArray arr =>
                    array_ok arr
                    ∧ (∀ v', v' ∈ m_slots arr → v' = NULL ∨ owned h n' v')
                    ∧ ∀ (i j : nat) e e', i ≠ j → m_slots arr !! i = Some e →
                        m_slots arr !! j = Some e' → disjoint_at h e e'
                | BObject m =>
                    (∀ k kr vr, m !! k = Some (kr, vr) →
                       key_owned h kr ∧ owned h n' vr ∧ disjoint_at h kr vr)
                    ∧ ∀ k k' kr vr kr' vr', k ≠ k' → m !! k = Some (kr, vr) →
                        m !! k' = Some (kr', vr') →
                        disjoint_at h kr kr' ∧ disjoint_at h kr vr'
                        ∧ disjoint_at h vr kr' ∧ disjoint_at h vr vr'
                | _ => True
                end
          end
      end
  | _ => True
  end.

(** What [j_release] does to a tree with one owner: it returns, the count
    of every cell of the tree is 0, and the other cells are as they were. *)
Definition frees (release : jvalue_ref → heap → option heap) (h : heap) (v : jvalue_ref)
  : Prop :=
  ∃ h', release v h = Some h'
        ∧ (∀ x, reach h v x → m_refCnt <$> h' !! x = Some 0)
        ∧ ∀ x, ¬ reach h v x → h' !! x = h !! x.

(** *** Values with several owners *)


(** *** The capacity of an array *)

(** [jarray_deref(arr)->m_capacity]: the number of slots [arr] has room for
    before [jarray_expand_capacity_unsafe] has to call [realloc]. *)
Definition jarray_capacity (h : heap) (arr : jvalue_ref) : Z :=
  from_option m_capacity 0 (jarray_deref h arr).

(** * Properties *)

(** ** Assertions *)

Lemma c_assert_true {B : Build} (c : bool) : c = true → c_assert c = Some ().
Proof. intros ->. unfold c_assert. by rewrite orb_true_r. Qed.

Lemma c_assert_NDEBUG {B : Build} (c : bool) : NDEBUG = true → c_assert c = Some ().
Proof. intros HN. unfold c_assert. by rewrite HN. Qed.


Lemma c_assert_unit {B : Build} (c : bool) (u : unit) : c_assert c = Some u → c_assert c = Some ().
Proof. by destruct u. Qed.

(** ** Null, Invalid and the null pointer *)

(** C6, as stated, fails at the C null pointer: [jis_null] answers true for
    it and [jis_valid] answers false, although it is neither the Null
    singleton nor the Invalid sentinel. *)
Lemma jis_null_NULL_pointer :
  jis_null NULL = true ∧ jis_valid NULL = false ∧ NULL ≠ JNULL ∧ NULL ≠ JINVALID.
Proof. repeat split; discriminate. Qed.

(** C6 (amended): [jis_null v] is true exactly when [v] is the Null
    singleton, the Invalid sentinel or the C null pointer, and [jis_valid v]
    is false exactly when [v] is the Invalid sentinel or the C null pointer;
    in particular [jis_valid] is true for Null. *)
Theorem jis_null_jis_valid_spec (v : jvalue_ref) :
  (jis_null v = true ↔ v = JNULL ∨ v = JINVALID ∨ v = NULL)
  ∧ (jis_valid v = false ↔ v = JINVALID ∨ v = NULL)
  ∧ jis_valid JNULL = true.
Proof.
  split; [|split; [|reflexivity]].
  - destruct v; cbn; split; intros H; try discriminate; auto;
      destruct H as [H | [H | H]]; discriminate.
  - destruct v; cbn; split; intros H; try discriminate; auto;
      destruct H as [H | H]; discriminate.
Qed.

(** ** Construction of doubles *)

Lemma alloc_new_cell (c : jvalue) (h : heap) :
  ∃ a, alloc c h = (Ptr a, <[a := c]> h) ∧ h !! a = None.
Proof.
  exists (fresh (dom h)). split; [reflexivity|].
  apply not_elem_of_dom, is_fresh.
Qed.

(** C5: [jnumber_create_f64 d] returns the Invalid sentinel, and leaves the
    store as it is, when [d] is NaN or an infinity; otherwise it returns a
    new cell with count 1 that is a number of kind Double holding [d], and
    that [d] is finite. *)
Theorem jnumber_create_f64_spec (d : double) (h : heap) :
  if isnan d || isinf d then jnumber_create_f64 d h = (JINVALID, h)
  else ∃ a, jnumber_create_f64 d h = (Ptr a, <[a := Jvalue 1 (BNum (NUM_FLOAT d))]> h)
            ∧ h !! a = None
            ∧ jis_number (<[a := Jvalue 1 (BNum (NUM_FLOAT d))]> h) (Ptr a) = true
            ∧ jnum_deref (<[a := Jvalue 1 (BNum (NUM_FLOAT d))]> h) (Ptr a)
              = Some (NUM_FLOAT d)
            ∧ is_finite_double d = true.
Proof.
  unfold jnumber_create_f64.
  destruct d as [s | s | | s m e]; cbn [isnan isinf orb]; try reflexivity.
  all: match goal with |- context [alloc ?c ?h'] =>
         destruct (alloc_new_cell c h') as (a & -> & Hnone) end.
  all: exists a; repeat split; try assumption.
  all: unfold jis_number, has_type, jnum_deref; cbn; rewrite lookup_insert_eq; cbn;
       try reflexivity; by apply bool_decide_eq_true.
Qed.

(** ** The empty string *)

(** C7, as stated, fails for [jstring_create_copy]: on a zero-length input it
    returns a new cell, not the shared empty string; and
    [jstring_create_nocopy_full] on the zero-length buffer whose bytes are
    the null pointer returns the Invalid sentinel. *)
Lemma jstring_create_copy_empty_not_shared :
  fst (jstring_create_copy (Some EmptyString) ∅) = Ptr 0
  ∧ fst (jstring_create_copy (Some EmptyString) ∅) ≠ JEMPTY_STR
  ∧ m_len None = 0
  ∧ fst (jstring_create_nocopy_full None false ∅) = JINVALID.
Proof. vm_compute. repeat split; discriminate. Qed.

(** C7 (amended): [jstring_empty], and [jstring_create_nocopy_full] and
    [jstring_create_nocopy] on a zero-length buffer whose bytes are not the
    null pointer, return the one shared empty string and leave the store as
    it is; releasing or copying that string never changes the store, so it
    is never destroyed. *)
Theorem empty_string_singleton (fuel : nat) (buffer_dealloc : bool) (h : heap) :
  jstring_empty = JEMPTY_STR
  ∧ jstring_create_nocopy_full (Some EmptyString) buffer_dealloc h = (JEMPTY_STR, h)
  ∧ jstring_create_nocopy (Some EmptyString) h = (JEMPTY_STR, h)
  ∧ j_release (S fuel) JEMPTY_STR h = Some h
  ∧ jvalue_copy JEMPTY_STR h = Some (JEMPTY_STR, h)
  ∧ jstring_size h JEMPTY_STR = 0.
Proof. repeat split. Qed.

(** ** Equality against order *)

(** C3 at the pair (Null, Invalid): [jvalue_equal] answers true although
    [jvalue_compare] answers 1, whatever the conversions and the store. *)
Theorem jvalue_equal_compare_null_invalid
    (jstr_to_i64 : string → ConversionResultFlags * Z)
    (jstr_to_double : string → ConversionResultFlags * double) (fuel : nat) (h : heap) :
  jvalue_equal jstr_to_i64 jstr_to_double (S fuel) h JNULL JINVALID = Some true
  ∧ jvalue_compare jstr_to_i64 jstr_to_double (S fuel) h JNULL JINVALID = Some 1
  ∧ jvalue_compare jstr_to_i64 jstr_to_double (S fuel) h JINVALID JNULL = Some (-1).
Proof. repeat split. Qed.

(** ** Comparison of numbers *)

Lemma cmp3_int_range (a b : Z) : cmp3_int a b = -1 ∨ cmp3_int a b = 0 ∨ cmp3_int a b = 1.
Proof. unfold cmp3_int. repeat case_decide; auto. Qed.

Lemma cmp3_int_antisym (a b : Z) : cmp3_int b a = - cmp3_int a b.
Proof. unfold cmp3_int. repeat case_decide; lia. Qed.

Lemma cmp3_double_range (a b : double) :
  cmp3_double a b = -1 ∨ cmp3_double a b = 0 ∨ cmp3_double a b = 1.
Proof. unfold cmp3_double. destruct (SFltb b a), (SFltb a b); auto. Qed.

Lemma SFcompare_antisym (a b : double) :
  SFcompare b a = CompOpp <$> SFcompare a b.
Proof.
  destruct a as [s1 | s1 | | s1 m1 e1], b as [s2 | s2 | | s2 m2 e2]; cbn;
    try reflexivity; try (destruct s1; reflexivity); try (destruct s2; reflexivity);
    try (destruct s1, s2; reflexivity).
  f_equal. destruct s1, s2; try reflexivity.
  - rewrite (Z.compare_antisym e1 e2).
    destruct (e1 ?= e2); cbn; try reflexivity.
    f_equal. change Eq with (CompOpp Eq) at 1. symmetry. apply Pos.compare_cont_antisym.
  - rewrite (Z.compare_antisym e1 e2).
    destruct (e1 ?= e2); cbn; try reflexivity.
    change Eq with (CompOpp Eq) at 1. symmetry. apply Pos.compare_cont_antisym.
Qed.

Lemma cmp3_double_antisym (a b : double) : cmp3_double b a = - cmp3_double a b.
Proof.
  unfold cmp3_double, SFltb. rewrite (SFcompare_antisym a b).
  destruct (SFcompare a b) as [[]|]; reflexivity.
Qed.

Lemma compare_as_spec_range i64 dbl (n1 n2 : jnum) :
  compare_as_spec i64 dbl n1 n2 = -1 ∨ compare_as_spec i64 dbl n1 n2 = 0
  ∨ compare_as_spec i64 dbl n1 n2 = 1.
Proof.
  unfold compare_as_spec.
  destruct (number_as_i64 i64 n1), (number_as_i64 i64 n2);
    auto using cmp3_int_range, cmp3_double_range.
Qed.

Lemma compare_as_spec_antisym i64 dbl (n1 n2 : jnum) :
  compare_as_spec i64 dbl n2 n1 = - compare_as_spec i64 dbl n1 n2.
Proof.
  unfold compare_as_spec.
  destruct (number_as_i64 i64 n1), (number_as_i64 i64 n2);
    auto using cmp3_int_antisym, cmp3_double_antisym.
Qed.

(** C4, as stated, fails twice.  On a raw number that converts neither to
    an [int64_t] nor to a [double], the comparison of the integer 3 with it
    does not return [J_INVALID_VALUE] but compares 3 with the double the
    conversion left behind.  And the comparison is no total order that is
    consistent with the values: an integer is rounded to a [double] when it
    meets one, so that the integers [2^53 + 1] and [2^53] both compare equal
    to the double [2^53], and differ from each other. *)
Lemma jnumber_compare_no_sentinel :
  let h : heap := {[ 0%nat := Jvalue 1 (BNum (NUM_INT 3));
                     1%nat := Jvalue 1 (BNum (NUM_RAW "1e999999"));
                     2%nat := Jvalue 1 (BNum (NUM_INT (2 ^ 53 + 1)));
                     3%nat := Jvalue 1 (BNum (NUM_FLOAT (i64_to_double (2 ^ 53))));
                     4%nat := Jvalue 1 (BNum (NUM_INT (2 ^ 53))) ]} in
  let compare :=
    jnumber_compare (conv_failure 0) (conv_failure (S754_infinity false)) h in
  (fst (conv_failure 0 "1e999999") ≠ CONV_OK
   ∧ fst (conv_failure (S754_infinity false) "1e999999") ≠ CONV_OK
   ∧ compare (Ptr 0) (Ptr 1) = Some (-1)
   ∧ compare (Ptr 0) (Ptr 1) ≠ Some J_INVALID_VALUE)
  ∧ (compare (Ptr 2) (Ptr 3) = Some 0
     ∧ compare (Ptr 3) (Ptr 4) = Some 0
     ∧ compare (Ptr 2) (Ptr 4) = Some 1).
Proof. vm_compute. repeat split; discriminate. Qed.

Lemma cmp3_int_sgn (a b : Z) : cmp3_int a b = Z.sgn (a - b).
Proof. unfold cmp3_int. repeat case_decide; lia. Qed.

(** C4 (amended): on two numbers [jnumber_compare] always returns -1, 0 or
    1, never [J_INVALID_VALUE].  When both operands are integers, or raw
    strings that convert to an [int64_t], they are compared as integers: the
    result is the sign of their difference, which is the total order of
    their values.  Otherwise both are promoted to [double] and the result is
    the comparison of the two doubles, a raw string that does not convert to
    an [int64_t] being taken as the double its conversion stores, whatever
    flags that conversion reports.  The result changes sign when the
    operands are exchanged. *)
Theorem jnumber_compare_spec
    (jstr_to_i64 : string → ConversionResultFlags * Z)
    (jstr_to_double : string → ConversionResultFlags * double)
    (h : heap) (number toCompare : jvalue_ref) (n1 n2 : jnum) :
  jnum_deref h number = Some n1 →
  jnum_deref h toCompare = Some n2 →
  jnumber_compare jstr_to_i64 jstr_to_double h number toCompare
  = Some (compare_as_spec jstr_to_i64 jstr_to_double n1 n2)
  ∧ (compare_as_spec jstr_to_i64 jstr_to_double n1 n2 = -1
     ∨ compare_as_spec jstr_to_i64 jstr_to_double n1 n2 = 0
     ∨ compare_as_spec jstr_to_i64 jstr_to_double n1 n2 = 1)
  ∧ compare_as_spec jstr_to_i64 jstr_to_double n1 n2 ≠ J_INVALID_VALUE
  ∧ jnumber_compare jstr_to_i64 jstr_to_double h toCompare number
    = Some (- compare_as_spec jstr_to_i64 jstr_to_double n1 n2)
  ∧ (∀ i1 i2, number_as_i64 jstr_to_i64 n1 = Some i1 →
       number_as_i64 jstr_to_i64 n2 = Some i2 →
       jnumber_compare jstr_to_i64 jstr_to_double h number toCompare
       = Some (Z.sgn (i1 - i2)))
  ∧ (number_as_i64 jstr_to_i64 n1 = None ∨ number_as_i64 jstr_to_i64 n2 = None →
     jnumber_compare jstr_to_i64 jstr_to_double h number toCompare
     = Some (cmp3_double (number_as_double jstr_to_i64 jstr_to_double n1)
                         (number_as_double jstr_to_i64 jstr_to_double n2))).
Proof.
  intros H1 H2.
  assert (Hcmp : ∀ a b na nb, jnum_deref h a = Some na → jnum_deref h b = Some nb →
            jnumber_compare jstr_to_i64 jstr_to_double h a b
            = Some (compare_as_spec jstr_to_i64 jstr_to_double na nb)).
  { clear. intros a b na nb Ha Hb.
    unfold jnumber_compare, jnumber_compare_i64, jnumber_compare_f64, compare_as_spec,
      number_as_i64, number_as_double.
    rewrite Hb; cbn. destruct nb as [rb | fb | ib]; cbn.
    - destruct (jstr_to_i64 rb) as [cb vb]; cbn. case_decide.
      + rewrite Ha; cbn. destruct na as [ra | fa | ia]; cbn; try reflexivity.
        destruct (jstr_to_i64 ra) as [ca va]; cbn. case_decide; [reflexivity|].
        destruct (jstr_to_double ra); reflexivity.
      + destruct (jstr_to_double rb) as [cb' db]; cbn.
        rewrite Ha; cbn. destruct na as [ra | fa | ia]; cbn; try reflexivity.
        destruct (jstr_to_i64 ra) as [ca va]; cbn. case_decide; [reflexivity|].
        destruct (jstr_to_double ra); reflexivity.
    - rewrite Ha; cbn. destruct na as [ra | fa | ia]; cbn; try reflexivity.
      destruct (jstr_to_i64 ra) as [ca va]; cbn. case_decide; [reflexivity|].
      destruct (jstr_to_double ra); reflexivity.
    - rewrite Ha; cbn. destruct na as [ra | fa | ia]; cbn; try reflexivity.
      destruct (jstr_to_i64 ra) as [ca va]; cbn. case_decide; [reflexivity|].
      destruct (jstr_to_double ra); reflexivity. }
  split; [by apply Hcmp|]. split; [apply compare_as_spec_range|].
  split; [|split; [|split]].
  - destruct (compare_as_spec_range jstr_to_i64 jstr_to_double n1 n2) as [-> | [-> | ->]];
      discriminate.
  - rewrite (Hcmp _ _ _ _ H2 H1). f_equal. apply compare_as_spec_antisym.
  - intros i1 i2 Hi1 Hi2. rewrite (Hcmp _ _ _ _ H1 H2). unfold compare_as_spec.
    by rewrite Hi1, Hi2, cmp3_int_sgn.
  - intros Hnone. rewrite (Hcmp _ _ _ _ H1 H2). unfold compare_as_spec.
    destruct Hnone as [-> | ->]; [done|].
    by destruct (number_as_i64 jstr_to_i64 n1).
Qed.

(** The comparison of 3 with the raw number that does not convert, and of
    3 with 5. *)
Lemma jnumber_compare_spec_witness :
  let h : heap := {[ 0%nat := Jvalue 1 (BNum (NUM_INT 3));
                     1%nat := Jvalue 1 (BNum (NUM_RAW "1e999999"));
                     2%nat := Jvalue 1 (BNum (NUM_INT 5)) ]} in
  let compare :=
    jnumber_compare (conv_failure 0) (conv_failure (S754_infinity false)) h in
  compare (Ptr 0) (Ptr 1)
  = Some (cmp3_double (i64_to_double 3) (S754_infinity false))
  ∧ compare (Ptr 0) (Ptr 2) = Some (Z.sgn (3 - 5)).
Proof.
  intros h compare. split.
  - destruct (jnumber_compare_spec (conv_failure 0) (conv_failure (S754_infinity false)) h
                (Ptr 0) (Ptr 1) (NUM_INT 3) (NUM_RAW "1e999999"))
      as (_ & _ & _ & _ & _ & Hdbl); [reflexivity | reflexivity |].
    apply Hdbl. by right.
  - destruct (jnumber_compare_spec (conv_failure 0) (conv_failure (S754_infinity false)) h
                (Ptr 0) (Ptr 2) (NUM_INT 3) (NUM_INT 5))
      as (_ & _ & _ & _ & Hint & _); [reflexivity | reflexivity |].
    by apply Hint.
Defined.

(** ** Ownership of the arguments when an insertion fails *)

(** C2 on the array functions.  When the target is not an array,
    [jarray_append] and [jarray_insert] return false with the store as it
    was: the value is not released, where [jarray_put] releases it.  The same
    happens when the cycle check rejects the value: the array of count 2 that
    is appended to, or inserted into, itself keeps its count 2, where
    [jarray_put] brings it to 1. *)
Theorem jarray_append_insert_keep_value_on_failure
    (fuel : nat) (index : Z) (val : jvalue_ref) (h : heap) :
  jarray_append fuel JNULL val h = Some (false, h)
  ∧ jarray_insert fuel JNULL index val h = Some (false, h)
  ∧ jarray_put fuel JNULL index val h = (h1 ← j_release fuel val h; Some (false, h1))
  ∧ (let h7 : heap := {[ 0%nat := Jvalue 1 (BNum (NUM_INT 7)) ]} in
     jarray_append 4 JNULL (Ptr 0) h7 = Some (false, h7)
     ∧ jarray_insert 4 JNULL 0 (Ptr 0) h7 = Some (false, h7)
     ∧ jarray_put 4 JNULL 0 (Ptr 0) h7
       = Some (false, {[ 0%nat := Jvalue 0 (BNum (NUM_INT 7)) ]}))
  ∧ (let ha : heap := {[ 0%nat := Jvalue 2 (BArray (Jarray 0 [NULL; NULL])) ]} in
     jarray_append 4 (Ptr 0) (Ptr 0) ha = Some (false, ha)
     ∧ jarray_insert 4 (Ptr 0) 0 (Ptr 0) ha = Some (false, ha)
     ∧ jarray_put 4 (Ptr 0) 0 (Ptr 0) ha
       = Some (false, {[ 0%nat := Jvalue 1 (BArray (Jarray 0 [NULL; NULL])) ]})).
Proof.
  split; [reflexivity|]. split; [reflexivity|]. split; [reflexivity|].
  split; vm_compute; repeat split.
Qed.

(** The other half of C2: every failure of [jobject_put] releases the key
    and the value. *)
Lemma jobject_put_failure_releases {B : Build} (fuel : nat) (obj key val : jvalue_ref)
    (h h' : heap) :
  jobject_put fuel obj key val h = Some (false, h') →
  ∃ val' h1, (val' = val ∨ val' = jnull)
             ∧ j_release fuel key h = Some h1 ∧ j_release fuel val' h1 = Some h'.
Proof.
  unfold jobject_put. intros H.
  destruct (c_assert _); [|discriminate]. cbn [mbind option_bind] in H.
  assert (Hrel : ∀ v, v = val ∨ v = jnull →
            (h1 ← j_release fuel key h; h2 ← j_release fuel v h1; Some (false, h2))
            = Some (false, h') →
            ∃ val' h1, (val' = val ∨ val' = jnull)
                       ∧ j_release fuel key h = Some h1 ∧ j_release fuel val' h1 = Some h').
  { intros v Hor Hv. destruct (j_release fuel key h) as [h1|]; [|discriminate]. cbn in Hv.
    destruct (j_release fuel v h1) as [h2|] eqn:E2; [|discriminate]. cbn in Hv.
    exists v, h1. split; [assumption|]. split; [reflexivity|]. congruence. }
  assert (Hval : ∀ v, v = val ∨ v = jnull →
            (if negb (jis_valid v) then jnull else v) = val
            ∨ (if negb (jis_valid v) then jnull else v) = jnull).
  { intros v Hv. destruct (negb (jis_valid v)); auto. }
  assert (Hnull : (if decide (val = NULL) then jnull else val) = val
                  ∨ (if decide (val = NULL) then jnull else val) = jnull).
  { destruct (decide (val = NULL)); auto. }
  repeat (case_match; try discriminate);
    try (eapply Hrel; [|exact H]; auto; fail).
  all: destruct (g_hash_table_replace _ _ _ _ _); cbn in H; discriminate.
Qed.

(** ** The visitor short-circuits *)

Lemma short_circuited_single cb v b : short_circuited [(cb, v, b)] b.
Proof. exists [], cb, v. split; [reflexivity | constructor]. Qed.

Lemma short_circuited_true calls : short_circuited calls true → loop_calls calls true.
Proof.
  intros (pre & cb & v & -> & Hpre). cbn. apply Forall_app. split; [assumption|].
  by repeat constructor.
Qed.

Lemma short_circuited_cons c calls b :
  snd c = true → short_circuited calls b → short_circuited (c :: calls) b.
Proof.
  intros Hc (pre & cb & v & -> & Hpre). exists (c :: pre), cb, v.
  split; [reflexivity | by constructor].
Qed.

Lemma short_circuited_app calls1 calls2 b :
  Forall (λ c : call, snd c = true) calls1 → short_circuited calls2 b →
  short_circuited (calls1 ++ calls2) b.
Proof.
  intros H1 (pre & cb & v & -> & Hpre). exists (calls1 ++ pre), cb, v.
  split; [by rewrite app_assoc | by apply Forall_app].
Qed.

Lemma short_circuited_snoc calls cb v b :
  Forall (λ c : call, snd c = true) calls → short_circuited (calls ++ [(cb, v, b)]) b.
Proof. intros H. by exists calls, cb, v. Qed.

(** The loop over the elements, with and without the record. *)
Lemma traverse_all_logged {A C} (f0 : A → C → option (bool * C))
    (f1 : A → C * list call → option (bool * (C * list call))) (l : list A) :
  (∀ x context log, x ∈ l →
     ∃ b context' calls, f0 x context = Some (b, context')
       ∧ f1 x (context, log) = Some (b, (context', log ++ calls))
       ∧ short_circuited calls b) →
  ∀ context log,
    ∃ b context' calls, traverse_all f0 l context = Some (b, context')
      ∧ traverse_all f1 l (context, log) = Some (b, (context', log ++ calls))
      ∧ loop_calls calls b.
Proof.
  induction l as [|x l IH]; intros Hf context log.
  - exists true, context, []. rewrite app_nil_r. repeat split. constructor.
  - destruct (Hf x context log) as (b & context' & calls & E0 & E1 & Hsc); [left|].
    cbn. rewrite E0, E1. destruct b.
    + destruct (IH (λ y c g Hy, Hf y c g (list_elem_of_further _ _ _ Hy)) context' (log ++ calls))
        as (b & context'' & calls' & E0' & E1' & Hl).
      exists b, context'', (calls ++ calls'). rewrite app_assoc. repeat split; try assumption.
      apply short_circuited_true in Hsc. destruct b; cbn in *.
      * by apply Forall_app.
      * by apply short_circuited_app.
    + exists false, context', calls. repeat split. assumption.
Qed.

Lemma slot_get_elem_of slots i v : slot_get slots i = Some v → v ∈ slots.
Proof.
  unfold slot_get. case_decide; [|discriminate]. intros Hl.
  by apply list_elem_of_lookup_2 in Hl.
Qed.

Lemma jarray_get_cases (h : heap) (arr : jvalue_ref) (i : Z) :
  jarray_get h arr i = JINVALID
  ∨ ∃ a, jarray_deref h arr = Some a ∧ jarray_get h arr i ∈ m_slots a
         ∧ jarray_get h arr i ≠ NULL.
Proof.
  unfold jarray_get. destruct (negb _); [by left|].
  destruct (jarray_deref h arr) as [a|] eqn:Ea; cbn; [|by left].
  destruct (slot_get (m_slots a) i) as [v|] eqn:Ev; [|by left].
  case_decide; [by left|]. right. exists a.
  eauto using slot_get_elem_of.
Qed.

Lemma wf_tree_array (h : heap) (n : nat) (a : nat) (arr : jarray) :
  wf_tree h (S n) (Ptr a) → jarray_deref h (Ptr a) = Some arr →
  array_ok arr ∧ ∀ v, v ∈ m_slots arr → v = NULL ∨ wf_tree h n v.
Proof.
  cbn. destruct (h !! a) as [[cnt []]|]; cbn; try discriminate. intros H [= <-]. exact H.
Qed.

Lemma wf_tree_object (h : heap) (n : nat) (a : nat) m :
  wf_tree h (S n) (Ptr a) → jobject_deref h (Ptr a) = Some m →
  ∀ k kr vr, m !! k = Some (kr, vr) → jis_string h kr = true ∧ wf_tree h n vr.
Proof.
  cbn. destruct (h !! a) as [[cnt []]|]; cbn; try discriminate. intros H [= <-]. exact H.
Qed.

Lemma wf_tree_Ptr_depth (h : heap) (n : nat) (a : nat) :
  wf_tree h n (Ptr a) → ∃ n', n = S n'.
Proof. destruct n; [intros [] | eauto]. Qed.

Lemma wf_tree_jarray_get (h : heap) (n : nat) (jref : jvalue_ref) (i : Z) :
  wf_tree h (S n) jref → wf_tree h n (jarray_get h jref i).
Proof.
  intros Hwf. destruct (jarray_get_cases h jref i) as [-> | (a & Ea & Hin & Hnn)];
    [by destruct n|].
  destruct jref; try discriminate.
  destruct (wf_tree_array _ _ _ _ Hwf Ea) as [_ Hs].
  destruct (Hs _ Hin); [contradiction | assumption].
Qed.

Lemma wf_tree_jobject_iter (h : heap) (n : nat) (jref : jvalue_ref) kv :
  wf_tree h (S n) jref → kv ∈ jobject_iter h jref →
  jis_string h (fst kv) = true ∧ wf_tree h n (snd kv).
Proof.
  unfold jobject_iter. intros Hwf Hin.
  destruct (jobject_deref h jref) as [m|] eqn:Em; cbn in Hin; [|by apply elem_of_nil in Hin].
  apply list_elem_of_fmap in Hin as ([k [kr vr]] & -> & Hin).
  apply elem_of_map_to_list in Hin. destruct jref; try discriminate.
  exact (wf_tree_object _ _ _ _ Hwf Em _ _ _ Hin).
Qed.

Lemma wf_tree_m_type (h : heap) (n : nat) (v : jvalue_ref) :
  wf_tree h n v → is_Some (m_type h v).
Proof.
  destruct v; cbn; try (intros; eexists; reflexivity); [by destruct n|].
  destruct n; [intros []|]. cbn. destruct (h !! a); cbn; [eauto | intros []].
Qed.

Lemma m_type_container (h : heap) (n : nat) (jref : jvalue_ref) (t : JValueType) :
  wf_tree h n jref → m_type h jref = Some t → t = JV_ARRAY ∨ t = JV_OBJECT →
  ∃ n', n = S n'.
Proof.
  intros Hwf Ht Hc. destruct jref; cbn in Ht;
    try (injection Ht as <-; destruct Hc; discriminate); [discriminate|].
  eauto using wf_tree_Ptr_depth.
Qed.

Lemma jnumber_traverse_Some {C} (h : heap) (tc : TraverseCallbacks C) jref :
  m_type h jref = Some JV_NUM → is_Some (jnum_deref h jref).
Proof.
  destruct jref; cbn; try discriminate.
  destruct (h !! a) as [[cnt []]|]; cbn; try discriminate. eauto.
Qed.

Lemma jvalue_traverse_logged {C} (h : heap) (tc : TraverseCallbacks C) (fuel : nat) :
  ∀ n jref context log, wf_tree h n jref → (n < fuel)%nat →
    ∃ b context' calls,
      jvalue_traverse h tc fuel jref context = Some (b, context')
      ∧ jvalue_traverse h (logged_callbacks tc) fuel jref (context, log)
        = Some (b, (context', log ++ calls))
      ∧ short_circuited calls b.
Proof.
  induction fuel as [|f IH]; intros n jref context log Hwf Hlt; [lia|].
  destruct (wf_tree_m_type _ _ _ Hwf) as [t Ht].
  cbn [jvalue_traverse]. rewrite Ht. cbn [mbind option_bind].
  destruct t.
  - cbn. unfold logged. cbn. destruct (jnull_cb tc context jref) as [ok c].
    eexists ok, c, [_]. eauto using short_circuited_single.
  - cbn. unfold logged. cbn. destruct (jbool tc context jref) as [ok c].
    eexists ok, c, [_]. eauto using short_circuited_single.
  - unfold jnumber_traverse.
    destruct (jnumber_traverse_Some h tc jref Ht) as [num ->]. cbn.
    unfold logged; destruct num; cbn;
      match goal with |- context [?cb tc context jref] =>
        destruct (cb tc context jref) as [ok c] end;
      eexists ok, c, [_]; eauto using short_circuited_single.
  - cbn. unfold logged. cbn. destruct (jstring tc context jref) as [ok c].
    eexists ok, c, [_]. eauto using short_circuited_single.
  - destruct (m_type_container _ _ _ _ Hwf Ht) as [n' ->]; [by left|].
    cbn. unfold logged at 1. cbn.
    destruct (jarr_start tc context jref) as [ok c]. destruct ok; cbn.
    2: { eexists false, c, [_]. eauto using short_circuited_single. }
    destruct (traverse_all_logged
                (λ i context, jvalue_traverse h tc f (jarray_get h jref i) context)
                (λ i context, jvalue_traverse h (logged_callbacks tc) f (jarray_get h jref i) context)
                (seqZ 0 (jarray_size h jref))) with (context := c)
                (log := log ++ [(CB_jarr_start, jref, true)])
      as (b & c' & calls & E0 & E1 & Hl).
    { intros i c0 l0 _. apply (IH n'); [by apply wf_tree_jarray_get | lia]. }
    rewrite E0, E1. destruct b; cbn in Hl.
    + unfold logged. cbn. destruct (jarr_end tc c' jref) as [ok c''].
      eexists ok, c'', ((CB_jarr_start, jref, true) :: calls ++ [(CB_jarr_end, jref, ok)]).
      split; [reflexivity|]. split; [by rewrite <- !app_assoc|].
      apply short_circuited_cons; [reflexivity|]. by apply short_circuited_snoc.
    + eexists false, c', ((CB_jarr_start, jref, true) :: calls).
      split; [reflexivity|]. split; [by rewrite <- !app_assoc|].
      by apply short_circuited_cons.
  - destruct (m_type_container _ _ _ _ Hwf Ht) as [n' ->]; [by right|].
    cbn. unfold logged at 1. cbn.
    destruct (jobj_start tc context jref) as [ok c]. destruct ok; cbn.
    2: { eexists false, c, [_]. eauto using short_circuited_single. }
    destruct (traverse_all_logged
                (λ (kv : jvalue_ref * jvalue_ref) context,
                   let '(ok, context) := jobj_key tc context (fst kv) in
                   if negb ok then Some (false, context)
                   else jvalue_traverse h tc f (snd kv) context)
                (λ (kv : jvalue_ref * jvalue_ref) context,
                   let '(ok, context) := jobj_key (logged_callbacks tc) context (fst kv) in
                   if negb ok then Some (false, context)
                   else jvalue_traverse h (logged_callbacks tc) f (snd kv) context)
                (jobject_iter h jref)) with (context := c)
                (log := log ++ [(CB_jobj_start, jref, true)])
      as (b & c' & calls & E0 & E1 & Hl).
    { intros kv c0 l0 Hkv. cbn. unfold logged. cbn.
      destruct (jobj_key tc c0 (fst kv)) as [ok c1]. destruct ok; cbn.
      - destruct (IH n' (snd kv) c1 (l0 ++ [(CB_jobj_key, fst kv, true)]))
          as (b & c2 & calls & E0 & E1 & Hs);
          [by eapply wf_tree_jobject_iter | lia |].
        exists b, c2, ((CB_jobj_key, fst kv, true) :: calls).
        split; [assumption|]. split; [by rewrite E1, <- app_assoc|].
        by apply short_circuited_cons.
      - eexists false, c1, [_]. eauto using short_circuited_single. }
    cbn [jobj_key logged_callbacks] in E1.
    rewrite E0, E1. destruct b; cbn in Hl.
    + unfold logged. cbn. destruct (jobj_end tc c' jref) as [ok c''].
      eexists ok, c'', ((CB_jobj_start, jref, true) :: calls ++ [(CB_jobj_end, jref, ok)]).
      split; [reflexivity|]. split; [by rewrite <- !app_assoc|].
      apply short_circuited_cons; [reflexivity|]. by apply short_circuited_snoc.
    + eexists false, c', ((CB_jobj_start, jref, true) :: calls).
      split; [reflexivity|]. split; [by rewrite <- !app_assoc|].
      by apply short_circuited_cons.
Qed.

(** C8: on a value that is a tree of the store, with enough fuel,
    [jvalue_traverse] returns; and the record of the calls the callbacks
    received is short-circuited with the answer of the traversal: the answer
    is the answer of the last call, and every call before it answered true.
    So the first callback that answers false is the last one called, and the
    traversal answers false. *)
Theorem jvalue_traverse_short_circuits {C} (h : heap) (tc : TraverseCallbacks C)
    (n fuel : nat) (jref : jvalue_ref) (context : C) :
  wf_tree h n jref → (n < fuel)%nat →
  ∃ b context' calls,
    jvalue_traverse h tc fuel jref context = Some (b, context')
    ∧ jvalue_traverse h (logged_callbacks tc) fuel jref (context, [])
      = Some (b, (context', calls))
    ∧ short_circuited calls b.
Proof.
  intros Hwf Hlt.
  destruct (jvalue_traverse_logged h tc fuel n jref context [] Hwf Hlt)
    as (b & c & calls & E0 & E1 & Hs).
  exists b, c, calls. auto.
Qed.

(** The visitor that stops at the first null, on the array [true, null, true]. *)
Lemma jvalue_traverse_short_circuits_witness :
  let h : heap := {[ 0%nat := Jvalue 1 (BArray (Jarray 3 [JTRUE; JNULL; JTRUE; NULL])) ]} in
  ∃ b context' calls,
    jvalue_traverse h count_until_null 2 (Ptr 0) 0%nat = Some (b, context')
    ∧ jvalue_traverse h (logged_callbacks count_until_null) 2 (Ptr 0) (0%nat, [])
      = Some (b, (context', calls))
    ∧ short_circuited calls b.
Proof.
  intros h.
  apply (jvalue_traverse_short_circuits h count_until_null 1 2 (Ptr 0) 0%nat); [|lia].
  cbn. split.
  - split; [unfold m_capacity; cbn; lia|]. intros i v Hi Hs.
    do 4 (destruct i as [|i]; [cbn in Hi, Hs; try lia; congruence|]). discriminate.
  - intros v Hv. apply elem_of_cons in Hv as [-> | Hv]; [by right|].
    apply elem_of_cons in Hv as [-> | Hv]; [by right|].
    apply elem_of_cons in Hv as [-> | Hv]; [by right|].
    apply elem_of_cons in Hv as [-> | Hv]; [by left|]. by apply elem_of_nil in Hv.
Defined.

Example traverse_stops_at_null :
  jvalue_traverse {[ 0%nat := Jvalue 1 (BArray (Jarray 3 [JTRUE; JNULL; JTRUE; NULL])) ]}
    (logged_callbacks count_until_null) 2 (Ptr 0) (0%nat, [])
  = Some (false, (3%nat, [(CB_jarr_start, Ptr 0, true); (CB_jbool, JTRUE, true);
                          (CB_jnull, JNULL, false)])).
Proof. vm_compute. reflexivity. Qed.

(** ** The cycle check rejects exactly the ancestors *)

Lemma all_true_spec {A} (f : A → option bool) (l : list A) :
  (∀ x, x ∈ l → is_Some (f x)) →
  ∃ b, all_true f l = Some b ∧ (b = false ↔ ∃ x, x ∈ l ∧ f x = Some false).
Proof.
  induction l as [|x l IH]; intros Hf.
  - exists true. split; [reflexivity|]. split; [discriminate|].
    intros (x & Hx & _). by apply elem_of_nil in Hx.
  - destruct (Hf x) as [[] Ex]; [left| |]; cbn; rewrite Ex.
    + destruct IH as (b & Eb & Hb); [intros y Hy; apply Hf; by right|].
      exists b. split; [assumption|]. rewrite Hb. split.
      * intros (y & Hy & Ey). exists y. split; [by right | assumption].
      * intros (y & Hy & Ey). apply elem_of_cons in Hy as [-> | Hy]; [congruence|eauto].
    + exists false. split; [reflexivity|]. split; [|reflexivity].
      intros _. exists x. split; [left | assumption].
Qed.

Lemma reach_static_inv (h : heap) (v : jvalue_ref) (b : nat) :
  reach h v b → ∃ a, v = Ptr a.
Proof. destruct 1; eauto. Qed.

Lemma reach_leaf (h : heap) (a b : nat) (c : jvalue) :
  h !! a = Some c → (∀ v, ¬ child_of (m_body c) v) → reach h (Ptr a) b → b = a.
Proof.
  intros Ha Hleaf Hr. inversion Hr as [|? c' v ? Ha' Hc]; subst; [reflexivity|].
  rewrite Ha in Ha'. injection Ha' as <-. by apply Hleaf in Hc.
Qed.

Lemma jis_string_reach (h : heap) (v : jvalue_ref) (b : nat) :
  jis_string h v = true → reach h v b → v = Ptr b.
Proof.
  intros Hs Hr. destruct (reach_static_inv _ _ _ Hr) as [a ->].
  unfold jis_string, has_type in Hs. apply bool_decide_eq_true in Hs. cbn in Hs.
  destruct (h !! a) as [c|] eqn:Ha; [|discriminate]. cbn in Hs.
  f_equal. symmetry. eapply reach_leaf; [exact Ha | | exact Hr].
  intros v. destruct (m_body c); try discriminate. auto.
Qed.

(** An element below the size of a well-formed array is what [jarray_get]
    reads. *)
Lemma array_slot_jarray_get (h : heap) (a : nat) (c : jvalue) (arr : jarray) (v : jvalue_ref) :
  h !! a = Some c → m_body c = BArray arr → array_ok arr → v ∈ m_slots arr → v ≠ NULL →
  ∃ i, i ∈ seqZ 0 (jarray_size h (Ptr a)) ∧ jarray_get h (Ptr a) i = v.
Proof.
  intros Ha Hb [Hsz Hnull] Hv Hnn.
  apply list_elem_of_lookup in Hv as [i Hi].
  assert (Hlt : Z.of_nat i < m_size arr).
  { destruct (decide (Z.of_nat i < m_size arr)); [assumption|].
    exfalso. apply Hnn. eapply Hnull; [exact Hi | lia]. }
  assert (Hsize : jarray_size h (Ptr a) = m_size arr).
  { unfold jarray_size, jis_array, has_type, jarray_size_unsafe. cbn.
    rewrite Ha. cbn. rewrite Hb. reflexivity. }
  exists (Z.of_nat i). split.
  - rewrite Hsize. apply elem_of_seqZ. lia.
  - unfold jarray_get, valid_index_bounded, has_type, jarray_size_unsafe. cbn.
    rewrite Ha. cbn. rewrite Hb. cbn.
    rewrite !decide_False by lia. cbn.
    unfold slot_get. rewrite decide_True by lia. rewrite Nat2Z.id, Hi.
    by rewrite decide_False.
Qed.

Lemma jis_array_deref (h : heap) (v : jvalue_ref) :
  jis_array h v = true →
  ∃ a c arr, v = Ptr a ∧ h !! a = Some c ∧ m_body c = BArray arr.
Proof.
  unfold jis_array, has_type. intros H. apply bool_decide_eq_true in H.
  destruct v; try discriminate. cbn in H.
  destruct (h !! a) as [c|] eqn:Ha; [|discriminate]. cbn in H.
  destruct (m_body c) eqn:Hb; try discriminate. eauto 6.
Qed.

Lemma jis_object_deref (h : heap) (v : jvalue_ref) :
  jis_object h v = true →
  ∃ a c m, v = Ptr a ∧ h !! a = Some c ∧ m_body c = BObject m.
Proof.
  unfold jis_object, has_type. intros H. apply bool_decide_eq_true in H.
  destruct v; try discriminate. cbn in H.
  destruct (h !! a) as [c|] eqn:Ha; [|discriminate]. cbn in H.
  destruct (m_body c) eqn:Hb; try discriminate. eauto 6.
Qed.

Lemma reach_not_container (h : heap) (v : jvalue_ref) (p : nat) :
  v ≠ Ptr p → jis_array h v = false → jis_object h v = false → ¬ reach h v p.
Proof.
  intros Hne Ha Ho Hr. inversion Hr as [|a c w ? Hc Hw]; subst; [congruence|].
  unfold jis_array, jis_object, has_type in *. cbn in *. rewrite Hc in *. cbn in *.
  destruct (m_body c); cbn in *; try contradiction;
    [by rewrite bool_decide_eq_false in Ha | by rewrite bool_decide_eq_false in Ho].
Qed.

Lemma check_insert_sanity_spec (h : heap) (p : nat) :
  jis_string h (Ptr p) = false →
  ∀ fuel n child, wf_tree h n child → (n < fuel)%nat →
    ∃ b, check_insert_sanity fuel h (Ptr p) child = Some b ∧ (b = false ↔ reach h child p).
Proof.
  intros Hp. induction fuel as [|f IH]; intros n child Hwf Hlt; [lia|].
  cbn [check_insert_sanity]. case_decide as Hcp.
  { subst. exists false. split; [reflexivity|]. split; [constructor | reflexivity]. }
  destruct (jis_array h child) eqn:Harr; [|destruct (jis_object h child) eqn:Hobj].
  - destruct (jis_array_deref _ _ Harr) as (a & c & arr & -> & Ha & Hb).
    destruct (wf_tree_Ptr_depth _ _ _ Hwf) as [n' ->].
    destruct (all_true_spec
                (λ i, check_insert_sanity f h (Ptr p) (jarray_get h (Ptr a) i))
                (seqZ 0 (jarray_size h (Ptr a)))) as (b & Eb & Hbf).
    { intros i _. destruct (IH n' (jarray_get h (Ptr a) i)) as (b & -> & _);
        [by apply wf_tree_jarray_get | lia | eauto]. }
    exists b. split; [assumption|]. rewrite Hbf. split.
    + intros (i & _ & Ei).
      destruct (IH n' (jarray_get h (Ptr a) i)) as (b' & Eb' & Hb');
        [by apply wf_tree_jarray_get | lia |].
      assert (Hr : reach h (jarray_get h (Ptr a) i) p) by (apply Hb'; congruence).
      destruct (jarray_get_cases h (Ptr a) i) as [E | (arr' & Earr & Hin & _)].
      { rewrite E in Hr. by apply reach_static_inv in Hr as [? ?]. }
      eapply reach_step; [exact Ha | | exact Hr].
      cbn in Earr. rewrite Ha in Earr. cbn in Earr. rewrite Hb in Earr.
      injection Earr as <-. rewrite Hb. exact Hin.
    + intros Hr. inversion Hr as [|? c' v ? Hc Hv Hrv]; subst; [congruence|].
      rewrite Ha in Hc. injection Hc as <-. rewrite Hb in Hv. cbn in Hv.
      assert (Hok : array_ok arr).
      { eapply wf_tree_array; [exact Hwf|]. cbn. rewrite Ha. cbn. by rewrite Hb. }
      destruct (array_slot_jarray_get h a c arr v Ha Hb Hok Hv) as (i & Hi & Ei).
      { intros ->. by apply reach_static_inv in Hrv as [? ?]. }
      exists i. split; [assumption|].
      destruct (IH n' (jarray_get h (Ptr a) i)) as (b' & Eb' & Hb');
        [by apply wf_tree_jarray_get | lia |].
      rewrite Eb'. f_equal. apply Hb'. by rewrite Ei.
  - destruct (jis_object_deref _ _ Hobj) as (a & c & m & -> & Ha & Hb).
    destruct (wf_tree_Ptr_depth _ _ _ Hwf) as [n' ->].
    destruct (all_true_spec
                (λ kv : jvalue_ref * jvalue_ref, check_insert_sanity f h (Ptr p) (snd kv))
                (jobject_iter h (Ptr a))) as (b & Eb & Hbf).
    { intros kv Hkv. destruct (IH n' (snd kv)) as (b & -> & _);
        [by eapply wf_tree_jobject_iter | lia | eauto]. }
    assert (Hiter : jobject_iter h (Ptr a) = snd <$> map_to_list m).
    { unfold jobject_iter. cbn. rewrite Ha. cbn. by rewrite Hb. }
    exists b. split; [assumption|]. rewrite Hbf. split.
    + intros (kv & Hkv & Ekv).
      destruct (IH n' (snd kv)) as (b' & Eb' & Hb');
        [by eapply wf_tree_jobject_iter | lia |].
      assert (Hr : reach h (snd kv) p) by (apply Hb'; congruence).
      rewrite Hiter in Hkv. apply list_elem_of_fmap in Hkv as ([k [kr vr]] & -> & Hin).
      apply elem_of_map_to_list in Hin.
      eapply reach_step; [exact Ha | | exact Hr]. rewrite Hb. cbn. eauto 6.
    + intros Hr. inversion Hr as [|? c' v ? Hc Hv Hrv]; subst; [congruence|].
      rewrite Ha in Hc. injection Hc as <-. rewrite Hb in Hv.
      destruct Hv as (k & kr & vr & Hk & Hv).
      assert (Hin : (kr, vr) ∈ jobject_iter h (Ptr a)).
      { rewrite Hiter. apply list_elem_of_fmap. exists (k, (kr, vr)).
        split; [reflexivity|]. by apply elem_of_map_to_list. }
      destruct (wf_tree_jobject_iter _ _ _ _ Hwf Hin) as [Hks Hvw]. cbn in Hks, Hvw.
      destruct Hv as [-> | ->].
      * apply (jis_string_reach _ _ _ Hks) in Hrv. subst. congruence.
      * exists (kr, vr). split; [assumption|].
        destruct (IH n' vr) as (b' & Eb' & Hb'); [assumption | lia |].
        cbn. rewrite Eb'. f_equal. by apply Hb'.
  - exists true. split; [reflexivity|]. split; [discriminate|].
    intros Hr. exfalso. eapply reach_not_container; eauto.
Qed.

Lemma check_insert_sanity_leaf (fuel : nat) (h : heap) (parent child : jvalue_ref) :
  child ≠ parent → jis_array h child = false → jis_object h child = false →
  check_insert_sanity (S fuel) h parent child = Some true.
Proof. intros Hne Ha Ho. cbn. by rewrite decide_False, Ha, Ho. Qed.


(** Introduction rules for [array_ok] and [wf_tree], for explicit stores. *)
Lemma array_ok_intro (size : Z) (slots : list jvalue_ref) :
  0 ≤ size ≤ Z.of_nat (length slots) →
  Forall (λ v, v = NULL) (drop (Z.to_nat size) slots) →
  array_ok (Jarray size slots).
Proof.
  intros Hsz Hnull. split; [exact Hsz|]. cbn. intros i v Hi Hle.
  rewrite Forall_lookup in Hnull. apply (Hnull (i - Z.to_nat size)%nat).
  rewrite lookup_drop. rewrite <- Hi. f_equal. lia.
Qed.

Lemma wf_tree_array_intro (h : heap) (n a : nat) (cnt : Z) (arr : jarray) :
  h !! a = Some (Jvalue cnt (BArray arr)) → array_ok arr →
  Forall (λ v, v = NULL ∨ wf_tree h n v) (m_slots arr) →
  wf_tree h (S n) (Ptr a).
Proof.
  intros Ha Hok Hs. cbn. rewrite Ha. cbn. split; [assumption|].
  by apply Forall_forall.
Qed.

Lemma wf_tree_object_intro (h : heap) (n a : nat) (cnt : Z)
    (m : gmap string (jvalue_ref * jvalue_ref)) :
  h !! a = Some (Jvalue cnt (BObject m)) →
  map_Forall (λ _ kv, jis_string h (fst kv) = true ∧ wf_tree h n (snd kv)) m →
  wf_tree h (S n) (Ptr a).
Proof.
  intros Ha Hm. cbn. rewrite Ha. cbn. intros k kr vr Hk. exact (Hm k (kr, vr) Hk).
Qed.

Lemma wf_tree_leaf_intro (h : heap) (n a : nat) (c : jvalue) :
  h !! a = Some c → (body_type (m_body c) = JV_STR ∨ body_type (m_body c) = JV_NUM) →
  wf_tree h (S n) (Ptr a).
Proof.
  intros Ha Hb. cbn. rewrite Ha. cbn. destruct (m_body c); destruct Hb; try discriminate; exact I.
Qed.

(** ** Stores that only drop children *)

Lemma body_le_refl (b : jbody) : body_le b b.
Proof. destruct b; cbn; auto. Qed.

Lemma body_le_trans (b1 b2 b3 : jbody) : body_le b1 b2 → body_le b2 b3 → body_le b1 b3.
Proof.
  destruct b1, b2; cbn; try contradiction; destruct b3; cbn; try contradiction; auto.
  - intros [Hok1 Hs1] [Hok2 Hs2]. split; [auto|].
    intros v Hv. destruct (Hs1 v Hv) as [-> | Hv2]; auto.
  - intros H1 H2. by etrans.
Qed.

Lemma body_le_type (b' b : jbody) : body_le b' b → body_type b' = body_type b.
Proof. destruct b', b; cbn; try contradiction; reflexivity. Qed.

Lemma cell_le_refl (h : heap) (a : nat) : cell_le h h a.
Proof. unfold cell_le. destruct (h !! a); [apply body_le_refl | exact I]. Qed.

Lemma cell_le_eq (h h' : heap) (a : nat) : h' !! a = h !! a → cell_le h h' a.
Proof. unfold cell_le. intros ->. destruct (h !! a); [apply body_le_refl | exact I]. Qed.

Lemma cell_le_trans (h1 h2 h3 : heap) (a : nat) :
  cell_le h1 h2 a → cell_le h2 h3 a → cell_le h1 h3 a.
Proof.
  unfold cell_le. destruct (h1 !! a), (h2 !! a), (h3 !! a); try contradiction; auto.
  intros H12 H23. eapply body_le_trans; eassumption.
Qed.

Lemma shrink_refl (h : heap) : shrink h h.
Proof. intros a. apply cell_le_refl. Qed.

Lemma shrink_trans (h1 h2 h3 : heap) : shrink h1 h2 → shrink h2 h3 → shrink h1 h3.
Proof. intros H12 H23 a. eapply cell_le_trans; eauto. Qed.

Lemma cell_le_Some (h h' : heap) (a : nat) (c' : jvalue) :
  cell_le h h' a → h' !! a = Some c' →
  ∃ c, h !! a = Some c ∧ body_le (m_body c') (m_body c).
Proof.
  unfold cell_le. intros H Ha. rewrite Ha in H.
  destruct (h !! a) as [c|]; [eauto | contradiction].
Qed.

Lemma cell_le_Some_l (h h' : heap) (a : nat) (c : jvalue) :
  cell_le h h' a → h !! a = Some c →
  ∃ c', h' !! a = Some c' ∧ body_le (m_body c') (m_body c).
Proof.
  unfold cell_le. intros H Ha. rewrite Ha in H.
  destruct (h' !! a) as [c'|]; [eauto | contradiction].
Qed.

Lemma child_of_le (b' b : jbody) (v : jvalue_ref) :
  body_le b' b → child_of b' v → v = NULL ∨ child_of b v.
Proof.
  destruct b', b; cbn; try contradiction.
  - intros [_ Hs] Hv. auto.
  - intros Hm (k & kr & vr & Hk & Hv). right. exists k, kr, vr. split; [|assumption].
    eapply lookup_weaken; eassumption.
Qed.

Lemma reach_NULL (h : heap) (b : nat) : ¬ reach h NULL b.
Proof. intros H. by apply reach_static_inv in H as [? ?]. Qed.

Lemma reach_le (h h' : heap) (v : jvalue_ref) (x : nat) :
  (∀ a, reach h v a → cell_le h h' a) → reach h' v x → reach h v x.
Proof.
  intros Hle Hr. revert Hle. induction Hr as [a | a c' v b Ha Hc Hr IH]; intros Hle.
  - constructor.
  - destruct (cell_le_Some h h' a c' (Hle a (reach_here h a)) Ha) as (c & Hca & Hb).
    destruct (child_of_le _ _ _ Hb Hc) as [-> | Hc']; [by apply reach_NULL in Hr|].
    eapply reach_step; [exact Hca | exact Hc' |].
    apply IH. intros y Hy. apply Hle. eapply reach_step; eassumption.
Qed.

Lemma jis_string_le (h h' : heap) (v : jvalue_ref) :
  (∀ a, v = Ptr a → cell_le h h' a) → jis_string h v = true → jis_string h' v = true.
Proof.
  unfold jis_string, has_type. intros Hle H. apply bool_decide_eq_true in H.
  apply bool_decide_eq_true. destruct v; cbn in *; try assumption.
  destruct (h !! a) as [c|] eqn:Ha; [|discriminate].
  destruct (cell_le_Some_l h h' a c (Hle a eq_refl) Ha) as (c' & -> & Hb).
  cbn in *. by rewrite (body_le_type _ _ Hb).
Qed.

Lemma wf_tree_le (h h' : heap) (n : nat) (v : jvalue_ref) :
  (∀ a, reach h v a → cell_le h h' a) → wf_tree h n v → wf_tree h' n v.
Proof.
  revert v. induction n as [|n IH]; intros v Hle Hwf; [by destruct v|].
  destruct v; try assumption. cbn in Hwf |- *.
  destruct (h !! a) as [c|] eqn:Ha; [|contradiction].
  destruct (cell_le_Some_l h h' a c (Hle a (reach_here h a)) Ha) as (c' & -> & Hb).
  cbn in *. destruct (m_body c) as [| |arr|m] eqn:Ec, (m_body c') as [| |arr'|m'];
    cbn in Hb; try contradiction; try exact I.
  - destruct Hwf as [Hok Hs], Hb as [Hok' Hs']. split; [auto|].
    intros v Hv. destruct (Hs' v Hv) as [-> | Hv']; [by left|].
    destruct (Hs v Hv') as [-> | Hw]; [by left|]. right.
    apply IH; [|assumption]. intros y Hy. apply Hle.
    eapply reach_step; [exact Ha | by rewrite Ec | exact Hy].
  - intros k kr vr Hk. assert (Hk' : m !! k = Some (kr, vr)) by (eapply lookup_weaken; eauto).
    destruct (Hwf k kr vr Hk') as [Hs Hw]. split.
    + eapply jis_string_le; [|exact Hs]. intros ka ->. apply Hle.
      eapply (reach_step h a c (Ptr ka) ka); [exact Ha | rewrite Ec; cbn; eauto 6 | constructor].
    + apply IH; [|assumption]. intros y Hy. apply Hle.
      eapply (reach_step h a c vr y); [exact Ha | rewrite Ec; cbn; eauto 6 | exact Hy].
Qed.

Lemma wf_tree_shrink (h h' : heap) (n : nat) (v : jvalue_ref) :
  shrink h h' → wf_tree h n v → wf_tree h' n v.
Proof. intros Hs. apply wf_tree_le. intros a _. apply Hs. Qed.

Lemma reach_shrink (h h' : heap) (v : jvalue_ref) (x : nat) :
  shrink h h' → reach h' v x → reach h v x.
Proof. intros Hs. apply reach_le. intros a _. apply Hs. Qed.

(** ** Trees of the store are acyclic *)

Lemma wf_tree_mono (h : heap) (n : nat) (v : jvalue_ref) :
  wf_tree h n v → wf_tree h (S n) v.
Proof.
  revert v. induction n as [|n IH]; intros v Hwf; [by destruct v|].
  destruct v; try assumption. cbn in Hwf. cbn.
  destruct (h !! a) as [c|]; [|contradiction]. cbn in *.
  destruct (m_body c) as [| |arr|m]; try exact I.
  - destruct Hwf as [Hok Hs]. split; [assumption|].
    intros v Hv. destruct (Hs v Hv) as [-> | Hw]; [by left | right; by apply IH].
  - intros k kr vr Hk. destruct (Hwf k kr vr Hk). split; [assumption | by apply IH].
Qed.

Lemma jis_string_wf_tree (h : heap) (n : nat) (v : jvalue_ref) :
  jis_string h v = true → wf_tree h (S n) v.
Proof.
  unfold jis_string, has_type. intros H. apply bool_decide_eq_true in H.
  destruct v; cbn in *; try exact I; try discriminate.
  destruct (h !! a) as [c|]; [|discriminate]. cbn in *.
  by destruct (m_body c).
Qed.

Lemma wf_tree_child (h : heap) (n a : nat) (c : jvalue) (w : jvalue_ref) :
  wf_tree h (S n) (Ptr a) → h !! a = Some c → child_of (m_body c) w →
  w = NULL ∨ jis_string h w = true ∨ wf_tree h n w.
Proof.
  cbn. intros Hwf Ha Hc. rewrite Ha in Hwf. cbn in Hwf.
  destruct (m_body c) as [| |arr|m]; cbn in Hc; try contradiction.
  - destruct Hwf as [_ Hs]. destruct (Hs w Hc); auto.
  - destruct Hc as (k & kr & vr & Hk & Hw). destruct (Hwf k kr vr Hk).
    destruct Hw as [-> | ->]; auto.
Qed.

Lemma wf_tree_reach (h : heap) (v : jvalue_ref) (x : nat) :
  reach h v x → ∀ n, wf_tree h n v → wf_tree h n (Ptr x).
Proof.
  induction 1 as [a | a c w b Ha Hc Hr IH]; intros n Hwf; [assumption|].
  destruct (wf_tree_Ptr_depth _ _ _ Hwf) as [n' ->].
  destruct (wf_tree_child _ _ _ _ _ Hwf Ha Hc) as [-> | [Hs | Hw]].
  - by apply reach_NULL in Hr.
  - apply (jis_string_reach _ _ _ Hs) in Hr as Hw. subst. by apply jis_string_wf_tree.
  - apply wf_tree_mono. by apply IH.
Qed.

Lemma wf_tree_acyclic (h : heap) (n a : nat) (c : jvalue) (w : jvalue_ref) :
  wf_tree h n (Ptr a) → h !! a = Some c → child_of (m_body c) w → ¬ reach h w a.
Proof.
  induction n as [|n IH]; intros Hwf Ha Hc Hr; [contradiction|].
  destruct (wf_tree_child _ _ _ _ _ Hwf Ha Hc) as [-> | [Hs | Hw]].
  - by apply reach_NULL in Hr.
  - apply (jis_string_reach _ _ _ Hs) in Hr as Hw. subst.
    unfold jis_string, has_type in Hs. apply bool_decide_eq_true in Hs. cbn in Hs.
    rewrite Ha in Hs. cbn in Hs. destruct (m_body c); try discriminate. contradiction.
  - apply IH; try assumption. eapply wf_tree_reach; eassumption.
Qed.

(** ** Releasing a tree *)

Lemma lookup_set_refCnt (a : nat) (n : Z) (h : heap) (x : nat) :
  set_refCnt a n h !! x
  = if decide (a = x) then (λ c, Jvalue n (m_body c)) <$> h !! x else h !! x.
Proof.
  unfold set_refCnt. case_decide as E.
  - subst. by rewrite lookup_alter_eq.
  - by rewrite lookup_alter_ne.
Qed.

Lemma lookup_set_body (a : nat) (b : jbody) (h : heap) (x : nat) :
  set_body a b h !! x
  = if decide (a = x) then (λ c, Jvalue (m_refCnt c) b) <$> h !! x else h !! x.
Proof.
  unfold set_body. case_decide as E.
  - subst. by rewrite lookup_alter_eq.
  - by rewrite lookup_alter_ne.
Qed.

Lemma shrink_set_refCnt (a : nat) (n : Z) (h : heap) : shrink h (set_refCnt a n h).
Proof.
  intros x. unfold cell_le. rewrite lookup_set_refCnt. case_decide.
  - destruct (h !! x); cbn; [apply body_le_refl | exact I].
  - destruct (h !! x); [apply body_le_refl | exact I].
Qed.

Lemma shrink_set_body (a : nat) (b : jbody) (h : heap) (c : jvalue) :
  h !! a = Some c → body_le b (m_body c) → shrink h (set_body a b h).
Proof.
  intros Ha Hb x. unfold cell_le. rewrite lookup_set_body. case_decide.
  - subst. rewrite Ha. cbn. exact Hb.
  - destruct (h !! x); [apply body_le_refl | exact I].
Qed.

Lemma release_ok_NULL (release : jvalue_ref → heap → option heap) (n : nat) (h : heap) :
  release_ok release n → release NULL h = Some h.
Proof.
  intros Hrel. destruct (Hrel h NULL) as (h' & E & _ & Hframe); [by left|].
  rewrite E. f_equal. apply map_eq. intros x. apply Hframe. apply reach_NULL.
Qed.

Lemma destroy_entries_ok (release : jvalue_ref → heap → option heap) (n : nat)
    (P : nat → Prop) (h0 : heap) (l : list (string * (jvalue_ref * jvalue_ref))) :
  release_ok release n →
  (∀ k kr vr, (k, (kr, vr)) ∈ l →
     jis_string h0 kr = true ∧ wf_tree h0 n vr
     ∧ (∀ x, reach h0 kr x → P x) ∧ (∀ x, reach h0 vr x → P x)) →
  ∀ h, shrink h0 h →
    ∃ h', destroy_entries release l h = Some h' ∧ shrink h h'
          ∧ ∀ x, ¬ P x → h' !! x = h !! x.
Proof.
  intros Hrel. induction l as [|[k [kr vr]] l IH]; intros Hl h Hs.
  - exists h. split; [reflexivity|]. split; [apply shrink_refl | reflexivity].
  - destruct (Hl k kr vr) as (Hks & Hvw & Hkp & Hvp); [left|].
    destruct (Hrel h kr) as (h1 & E1 & Hs1 & Hf1).
    { right; left. eapply jis_string_le; [|exact Hks]. intros a _. apply Hs. }
    destruct (Hrel h1 vr) as (h2 & E2 & Hs2 & Hf2).
    { right; right. eapply wf_tree_shrink; [|exact Hvw]. by eapply shrink_trans. }
    destruct (IH (λ k' kr' vr' H', Hl k' kr' vr' (list_elem_of_further _ _ _ H')) h2)
      as (h' & E' & Hs' & Hf').
    { eapply shrink_trans; [|exact Hs2]. by eapply shrink_trans. }
    exists h'. cbn. rewrite E1. cbn. rewrite E2. cbn. split; [exact E'|]. split.
    + eapply shrink_trans; [|exact Hs']. by eapply shrink_trans.
    + intros x Hx. rewrite Hf' by assumption. rewrite Hf2, Hf1; [reflexivity | |].
      * intros Hr. apply Hx, Hkp. by eapply reach_shrink.
      * intros Hr. apply Hx, Hvp. eapply reach_shrink; [|exact Hr]. by eapply shrink_trans.
Qed.

Lemma slot_get_nat (slots : list jvalue_ref) (i : nat) :
  slot_get slots (Z.of_nat i) = slots !! i.
Proof. unfold slot_get. rewrite decide_True by lia. by rewrite Nat2Z.id. Qed.

Lemma body_le_drop_last (k : nat) (slots : list jvalue_ref) :
  body_le (BArray (Jarray (Z.of_nat k) (<[k := NULL]> slots)))
          (BArray (Jarray (Z.of_nat (S k)) slots)).
Proof.
  split.
  - intros [Hsz Hnull]. unfold m_capacity in *. cbn in *. split.
    + unfold m_capacity. cbn. rewrite length_insert. lia.
    + cbn [m_size m_slots]. intros i v Hi Hle. destruct (decide (i = k)) as [-> | Hne].
      * apply list_lookup_insert_Some in Hi. destruct Hi as [(_ & ? & _) | (? & _)]; congruence.
      * rewrite list_lookup_insert_ne in Hi by congruence. eapply Hnull; [exact Hi | lia].
  - cbn. intros v Hv. apply list_elem_of_lookup in Hv as [i Hi].
    apply list_lookup_insert_Some in Hi. destruct Hi as [(_ & ? & _) | (_ & Hi)]; [by left|].
    right. by eapply list_elem_of_lookup_2.
Qed.

Lemma j_destroy_array_loop_ok (release : jvalue_ref → heap → option heap) (n : nat)
    (P : nat → Prop) (h0 : heap) (a : nat) (slots0 : list jvalue_ref) :
  release_ok release n → P a →
  (∀ v, v ∈ slots0 →
     v = NULL ∨ wf_tree h0 n v ∧ ¬ reach h0 v a ∧ ∀ x, reach h0 v x → P x) →
  ∀ k h slots cnt,
    shrink h0 h →
    h !! a = Some (Jvalue cnt (BArray (Jarray (Z.of_nat k) slots))) →
    length slots = length slots0 → (k ≤ length slots0)%nat →
    (∀ i, (i < k)%nat → slots !! i = slots0 !! i) →
    ∃ h', j_destroy_array_loop release k a h = Some h' ∧ shrink h h'
          ∧ ∀ x, ¬ P x → h' !! x = h !! x.
Proof.
  intros Hrel HPa Hslots. induction k as [|k IH]; intros h slots cnt Hs Ha Hlen Hk Hsame.
  - exists h. split; [reflexivity|]. split; [apply shrink_refl | reflexivity].
  - cbn [j_destroy_array_loop]. unfold jarray_remove_unsafe.
    cbn [jarray_deref]. rewrite Ha. cbn [fmap option_fmap option_map m_body mbind option_bind m_slots].
    rewrite slot_get_nat, Hsame by lia.
    destruct (lookup_lt_is_Some_2 slots0 k) as [v Hv]; [lia|]. rewrite Hv. cbn.
    assert (Hin : v ∈ slots0) by (by eapply list_elem_of_lookup_2).
    destruct (Hrel h v) as (h1 & E1 & Hs1 & Hf1).
    { destruct (Hslots v Hin) as [-> | (Hw & _)]; [by left|].
      right; right. by eapply wf_tree_shrink. }
    assert (Ha1 : h1 !! a = h !! a).
    { apply Hf1. intros Hr. destruct (Hslots v Hin) as [-> | (_ & Hna & _)];
        [by apply reach_NULL in Hr|]. apply Hna. by eapply reach_shrink. }
    rewrite E1. cbn. rewrite Ha1, Ha. cbn.
    replace (Z.to_nat (Z.of_nat (S k) - (Z.of_nat k + 1))) with 0%nat by lia. cbn.
    unfold slot_set. rewrite Nat2Z.id.
    replace (Z.of_nat (S k) - 1) with (Z.of_nat k) by lia.
    set (h2 := set_body a (BArray (Jarray (Z.of_nat k) (<[k:=NULL]> slots))) h1).
    assert (Hs2 : shrink h1 h2).
    { eapply shrink_set_body; [by rewrite Ha1|]. apply body_le_drop_last. }
    destruct (IH h2 (<[k:=NULL]> slots) cnt) as (h' & E' & Hs' & Hf').
    + eapply shrink_trans; [|exact Hs2]. by eapply shrink_trans.
    + unfold h2. rewrite lookup_set_body, decide_True by reflexivity.
      by rewrite Ha1, Ha.
    + by rewrite length_insert.
    + lia.
    + intros i Hi. rewrite list_lookup_insert_ne by lia. apply Hsame. lia.
    + exists h'. split; [exact E'|]. split.
      * eapply shrink_trans; [|exact Hs']. by eapply shrink_trans.
      * intros x Hx. rewrite Hf' by assumption. unfold h2.
        rewrite lookup_set_body, decide_False by (intros ->; contradiction).
        apply Hf1. intros Hr. destruct (Hslots v Hin) as [-> | (_ & _ & HP)];
          [by apply reach_NULL in Hr|]. apply Hx, HP. by eapply reach_shrink.
Qed.

Lemma jis_const_Ptr (h : heap) (a : nat) : jis_const h (Ptr a) = false.
Proof.
  unfold jis_const. cbn. destruct (h !! a) as [c|]; cbn; [|reflexivity].
  by destruct (m_body c).
Qed.

Lemma releasable_cell (h : heap) (n a : nat) :
  jis_string h (Ptr a) = true ∨ wf_tree h n (Ptr a) → is_Some (h !! a).
Proof.
  intros [Hs | Hw].
  - unfold jis_string, has_type in Hs. apply bool_decide_eq_true in Hs. cbn in Hs.
    destruct (h !! a); [eauto | discriminate].
  - destruct n; [contradiction|]. cbn in Hw. destruct (h !! a); [eauto | contradiction].
Qed.

Lemma j_release_ok (fuel n : nat) : (n < fuel)%nat → release_ok (j_release fuel) n.
Proof.
  revert n. induction fuel as [|f IH]; intros n Hlt h v Hv; [lia|].
  cbn [j_release]. case_decide as Hnull.
  { exists h. split; [reflexivity|]. split; [apply shrink_refl | reflexivity]. }
  destruct (jis_const h v) eqn:Hconst.
  { exists h. split; [reflexivity|]. split; [apply shrink_refl | reflexivity]. }
  destruct v as [| | | | | |a]; try (cbn in Hconst; discriminate); try congruence.
  assert (Hv' : jis_string h (Ptr a) = true ∨ wf_tree h n (Ptr a)) by (destruct Hv as [|[|]]; auto; congruence).
  destruct (releasable_cell _ _ _ Hv') as [c Ha]. rewrite Ha. cbn.
  set (cnt := wrap_int (m_refCnt c - 1)). set (h1 := set_refCnt a cnt h).
  assert (Hs1 : shrink h h1) by apply shrink_set_refCnt.
  assert (Hf1 : ∀ x, ¬ reach h (Ptr a) x → h1 !! x = h !! x).
  { intros x Hx. unfold h1. rewrite lookup_set_refCnt, decide_False; [reflexivity|].
    intros <-. apply Hx. constructor. }
  assert (Ha1 : h1 !! a = Some (Jvalue cnt (m_body c))).
  { unfold h1. by rewrite lookup_set_refCnt, decide_True, Ha. }
  case_decide as Hcnt; [|by exists h1].
  destruct (m_body c) as [s d | num | arr | m] eqn:Hb; try (by exists h1).
  - (* an array *)
    destruct Hv' as [Hs | Hw].
    { unfold jis_string, has_type in Hs. apply bool_decide_eq_true in Hs. cbn in Hs.
      rewrite Ha in Hs. cbn in Hs. rewrite Hb in Hs. discriminate. }
    destruct (wf_tree_Ptr_depth _ _ _ Hw) as [n' ->].
    destruct (wf_tree_array h n' a arr Hw) as [[Hsz Hbeyond] Hslots].
    { cbn. rewrite Ha. cbn. by rewrite Hb. }
    unfold j_destroy_array. cbn. rewrite Ha1. cbn.
    destruct (j_destroy_array_loop_ok (j_release f) n' (reach h (Ptr a)) h a (m_slots arr))
      with (k := Z.to_nat (m_size arr)) (h := h1) (slots := m_slots arr) (cnt := cnt)
      as (h' & E' & Hs' & Hf').
    + apply IH. lia.
    + constructor.
    + intros v Hin. destruct (Hslots v Hin) as [-> | Hwv]; [by left|]. right.
      assert (Hc : child_of (m_body c) v) by (by rewrite Hb).
      split; [assumption|]. split; [by eapply wf_tree_acyclic|].
      intros x Hx. eapply reach_step; eassumption.
    + assumption.
    + rewrite Ha1. rewrite Z2Nat.id by lia. by destruct arr.
    + reflexivity.
    + unfold m_capacity in Hsz. lia.
    + reflexivity.
    + exists h'. split; [exact E'|]. split; [by eapply shrink_trans|].
      intros x Hx. rewrite Hf' by assumption. by apply Hf1.
  - (* an object *)
    destruct Hv' as [Hs | Hw].
    { unfold jis_string, has_type in Hs. apply bool_decide_eq_true in Hs. cbn in Hs.
      rewrite Ha in Hs. cbn in Hs. rewrite Hb in Hs. discriminate. }
    destruct (wf_tree_Ptr_depth _ _ _ Hw) as [n' ->].
    assert (Hm := wf_tree_object h n' a m Hw).
    unfold j_destroy_object. cbn. rewrite Ha1. cbn.
    set (h2 := set_body a (BObject ∅) h1).
    assert (Hs2 : shrink h1 h2).
    { eapply shrink_set_body; [exact Ha1|]. cbn. apply map_empty_subseteq. }
    destruct (destroy_entries_ok (j_release f) n' (reach h (Ptr a)) h (map_to_list m))
      with (h := h2) as (h' & E' & Hs' & Hf').
    + apply IH. lia.
    + intros k kr vr Hin. apply elem_of_map_to_list in Hin.
      destruct (Hm ltac:(cbn; rewrite Ha; cbn; by rewrite Hb) k kr vr Hin) as [Hks Hvw].
      split; [assumption|]. split; [assumption|].
      split; intros x Hx; (eapply reach_step; [exact Ha | | exact Hx]);
        rewrite Hb; cbn; eauto 6.
    + by eapply shrink_trans.
    + exists h'. split; [exact E'|]. split.
      * eapply shrink_trans; [|exact Hs']. by eapply shrink_trans.
      * intros x Hx. rewrite Hf' by assumption. unfold h2.
        rewrite lookup_set_body, decide_False; [by apply Hf1|].
        intros <-. apply Hx. constructor.
Qed.

(** ** Writing a slot *)

(** The slots after [jarray_expand_capacity_unsafe (index + 1)]. *)
Lemma expanded_lookup (slots : list jvalue_ref) (index : Z) :
  0 ≤ index →
  (slots ++ replicate (Z.to_nat (index + 1 - Z.of_nat (length slots))) NULL) !! Z.to_nat index
  = Some (default NULL (slots !! Z.to_nat index)).
Proof.
  intros Hi. destruct (decide (Z.to_nat index < length slots)%nat) as [Hlt | Hge].
  - rewrite lookup_app_l by assumption.
    destruct (lookup_lt_is_Some_2 slots (Z.to_nat index) Hlt) as [v ->]. reflexivity.
  - rewrite lookup_app_r by lia. rewrite (lookup_ge_None_2 slots) by lia. cbn.
    apply lookup_replicate_2. lia.
Qed.

Lemma body_le_expand (size : Z) (slots : list jvalue_ref) (k : nat) :
  body_le (BArray (Jarray size (slots ++ replicate k NULL))) (BArray (Jarray size slots)).
Proof.
  split.
  - intros [Hsz Hnull]. unfold m_capacity in *. cbn in *. split.
    + unfold m_capacity. cbn. rewrite length_app. lia.
    + cbn [m_size m_slots]. intros i v Hi Hle.
      apply lookup_app_Some in Hi as [Hi | [_ Hi]]; [eauto|].
      by apply lookup_replicate in Hi as [-> _].
  - cbn. intros v Hv. apply elem_of_app in Hv as [Hv | Hv]; [by right|].
    left. by apply elem_of_replicate in Hv as [-> _].
Qed.

Lemma jarray_expand_capacity_unsafe_spec (h : heap) (a : nat) (cnt : Z) (arr : jarray)
    (newSize : Z) :
  h !! a = Some (Jvalue cnt (BArray arr)) →
  ∃ h1, jarray_expand_capacity_unsafe a newSize h = Some h1
        ∧ h1 !! a = Some (Jvalue cnt (BArray (Jarray (m_size arr)
                     (m_slots arr ++ replicate (Z.to_nat (newSize - m_capacity arr)) NULL))))
        ∧ (∀ x, x ≠ a → h1 !! x = h !! x)
        ∧ shrink h h1.
Proof.
  intros Ha. unfold jarray_expand_capacity_unsafe. cbn. rewrite Ha. cbn.
  case_decide as Hgt.
  - eexists. split; [reflexivity|]. split; [|split].
    + by rewrite lookup_set_body, decide_True, Ha.
    + intros x Hx. by rewrite lookup_set_body, decide_False.
    + eapply shrink_set_body; [exact Ha|]. apply body_le_expand.
  - exists h. split; [reflexivity|]. split; [|split; [reflexivity | apply shrink_refl]].
    replace (Z.to_nat (newSize - m_capacity arr)) with 0%nat by lia.
    cbn. rewrite app_nil_r. by destruct arr.
Qed.

Lemma jarray_put_unsafe_spec (fuel n : nat) (h : heap) (a : nat) (cnt : Z) (arr : jarray)
    (index : Z) (val : jvalue_ref) :
  h !! a = Some (Jvalue cnt (BArray arr)) → 0 ≤ index →
  let old := default NULL (m_slots arr !! Z.to_nat index) in
  old = NULL ∨ jis_string h old = true ∨ wf_tree h n old →
  ¬ reach h old a → (n < fuel)%nat →
  check_insert_sanity fuel h (Ptr a) val = Some true →
  ∃ h', jarray_put_unsafe fuel (Ptr a) index val h = Some (true, h')
        ∧ h' !! a = Some (Jvalue cnt (BArray (Jarray (Z.max (m_size arr) (index + 1))
                     (<[Z.to_nat index := val]>
                        (m_slots arr
                         ++ replicate (Z.to_nat (index + 1 - m_capacity arr)) NULL)))))
        ∧ (∀ x, x ≠ a → cell_le h h' x)
        ∧ (∀ x, x ≠ a → ¬ reach h old x → h' !! x = h !! x).
Proof.
  intros Ha Hi old Hold Hnr Hlt Hcheck. unfold jarray_put_unsafe. rewrite Hcheck.
  destruct (jarray_expand_capacity_unsafe_spec h a cnt arr (index + 1) Ha)
    as (h1 & -> & Ha1 & Hf1 & Hs1).
  cbn. rewrite Ha1. cbn. unfold slot_get. rewrite decide_True by assumption.
  unfold m_capacity. rewrite expanded_lookup by assumption. fold old. cbn.
  destruct (j_release_ok fuel n Hlt h1 old) as (h2 & -> & Hs2 & Hf2).
  { destruct Hold as [-> | [Hs | Hw]]; [by left | right; left | right; right].
    - eapply jis_string_le; [|exact Hs]. intros x _. apply Hs1.
    - by eapply wf_tree_shrink. }
  assert (Ha2 : h2 !! a = h1 !! a).
  { apply Hf2. intros Hr. apply Hnr. by eapply reach_shrink. }
  cbn. rewrite Ha2, Ha1. cbn. eexists. split; [reflexivity|]. split; [|split].
  - rewrite lookup_set_body, decide_True, Ha2, Ha1 by reflexivity. cbn.
    do 4 f_equal. case_decide; lia.
  - intros x Hx. eapply cell_le_trans; [apply Hs1|]. eapply cell_le_trans; [apply Hs2|].
    apply cell_le_eq. by rewrite lookup_set_body, decide_False.
  - intros x Hx Hnx. rewrite lookup_set_body, decide_False by congruence.
    rewrite Hf2, Hf1; [reflexivity | assumption |].
    intros Hr. apply Hnx. by eapply reach_shrink.
Qed.

(** ** A NULL value is stored as Null *)




Lemma jarray_size_unsafe_nonneg (h : heap) (n : nat) (arr : jvalue_ref) :
  wf_tree h n arr → jis_array h arr = true → 0 ≤ jarray_size_unsafe h arr.
Proof.
  intros Hwf Harr.
  destruct (jis_array_deref _ _ Harr) as (a & [cnt body] & ar & -> & Ha & Hb).
  cbn in Hb. subst body. destruct (wf_tree_Ptr_depth _ _ _ Hwf) as [n' ->].
  destruct (wf_tree_array h n' a ar Hwf) as [[Hsz _] _]; [cbn; by rewrite Ha|].
  unfold jarray_size_unsafe. cbn. rewrite Ha. cbn. lia.
Qed.

Lemma agree_except (h h1 : heap) (o : nat) (v : jvalue_ref) :
  (∀ x, x ≠ o → h1 !! x = h !! x) → ¬ reach h v o →
  ∀ x, reach h v x → cell_le h h1 x.
Proof.
  intros Hag Hnr x Hx. apply cell_le_eq, Hag. intros ->. contradiction.
Qed.

Lemma g_hash_table_replace_spec (fuel n : nat) (h : heap) (o : nat) (cnt : Z)
    (m : gmap string (jvalue_ref * jvalue_ref)) (key val : jvalue_ref) (kb : string) :
  wf_tree h (S n) (Ptr o) → h !! o = Some (Jvalue cnt (BObject m)) →
  jstring_deref h key = Some kb → (n < fuel)%nat →
  ∃ h', g_hash_table_replace fuel o key val h = Some h'
        ∧ h' !! o = Some (Jvalue cnt (BObject (<[kb := (key, val)]> m))).
Proof.
  intros Hwf Ho Hkey Hlt. unfold g_hash_table_replace. cbn. rewrite Ho. cbn.
  rewrite Hkey. cbn.
  set (h1 := set_body o (BObject (<[kb:=(key, val)]> m)) h).
  assert (Ho1 : h1 !! o = Some (Jvalue cnt (BObject (<[kb:=(key, val)]> m)))).
  { unfold h1. by rewrite lookup_set_body, decide_True, Ho. }
  assert (Hag : ∀ x, x ≠ o → h1 !! x = h !! x).
  { intros x Hx. unfold h1. by rewrite lookup_set_body, decide_False. }
  destruct (m !! kb) as [[old_key old_val]|] eqn:Hold; [|eauto].
  destruct (wf_tree_object h n o m Hwf) with (k := kb) (kr := old_key) (vr := old_val)
    as [Hks Hvw]; [cbn; by rewrite Ho | assumption |].
  assert (Hnk : ¬ reach h old_key o).
  { eapply wf_tree_acyclic; [exact Hwf | exact Ho | cbn; eauto 6]. }
  assert (Hnv : ¬ reach h old_val o).
  { eapply wf_tree_acyclic; [exact Hwf | exact Ho | cbn; eauto 6]. }
  destruct (j_release_ok fuel n Hlt h1 old_key) as (h2 & -> & Hs2 & Hf2).
  { right; left. eapply jis_string_le; [|exact Hks].
    intros x ->. eapply agree_except; [exact Hag | exact Hnk | constructor]. }
  cbn.
  destruct (j_release_ok fuel n Hlt h2 old_val) as (h3 & -> & Hs3 & Hf3).
  { right; right. eapply wf_tree_shrink; [exact Hs2|].
    eapply wf_tree_le; [|exact Hvw]. by eapply agree_except. }
  exists h3. split; [reflexivity|].
  rewrite Hf3, Hf2; [assumption | |].
  - intros Hr. apply Hnk. eapply reach_le; [|exact Hr]. by eapply agree_except.
  - intros Hr. apply Hnv. eapply reach_le; [by eapply agree_except|].
    by eapply reach_shrink.
Qed.




(** ** The loops that shift the elements *)

Lemma shift_down_spec (B A : list jvalue_ref) (x : jvalue_ref) (rest : list jvalue_ref) :
  ∃ y, shift_down (length B) (Z.of_nat (length A) + 1) (Z.of_nat (length A))
         (A ++ x :: B ++ rest)
       = Some (Z.of_nat (length A + length B), A ++ B ++ y :: rest).
Proof.
  revert A x. induction B as [|b B IH]; intros A x.
  - exists x. cbn. by rewrite Nat.add_0_r.
  - cbn [length shift_down].
    replace (Z.of_nat (length A) + 1) with (Z.of_nat (S (length A))) by lia.
    rewrite slot_get_nat.
    replace (S (length A)) with (length A + 1)%nat by lia.
    rewrite lookup_app_r by lia.
    replace (length A + 1 - length A)%nat with 1%nat by lia. cbn.
    unfold slot_set. rewrite Nat2Z.id.
    rewrite insert_app_r_alt by lia. rewrite Nat.sub_diag. cbn.
    destruct (IH (A ++ [b]) b) as [y Hy]. exists y.
    rewrite length_app in Hy. cbn in Hy.
    replace (Z.of_nat (length A + 1)%nat + 1) with (Z.of_nat (length A + 1) + 1) by lia.
    rewrite <- !app_assoc in Hy. cbn in Hy. rewrite Hy.
    do 2 f_equal. lia.
Qed.

Lemma shift_up_spec (B A : list jvalue_ref) (x : jvalue_ref) (rest : list jvalue_ref) :
  ∃ y, shift_up (length B) (Z.of_nat (length A + length B)) (Z.of_nat (length A + length B))
         (A ++ B ++ x :: rest)
       = Some (Z.of_nat (length A), A ++ y :: B ++ rest).
Proof.
  revert x rest. induction B as [|b B IH] using rev_ind; intros x rest.
  - exists x. cbn. by rewrite Nat.add_0_r.
  - rewrite length_app. cbn [length].
    replace (length B + 1)%nat with (S (length B)) by lia. cbn [shift_up].
    replace (Z.of_nat (length A + S (length B)) - 1) with (Z.of_nat (length A + length B))
      by lia.
    rewrite slot_get_nat.
    rewrite lookup_app_r by lia. rewrite <- app_assoc. rewrite lookup_app_r by lia.
    replace (length A + length B - length A - length B)%nat with 0%nat by lia. cbn.
    unfold slot_set. rewrite Nat2Z.id.
    rewrite insert_app_r_alt by lia. rewrite insert_app_r_alt by lia.
    replace (length A + S (length B) - length A - length B)%nat with 1%nat by lia. cbn.
    destruct (IH b (b :: rest)) as [y Hy]. exists y. rewrite Hy.
    by rewrite <- !app_assoc.
Qed.

(** ** The steps of a splice *)

Lemma valid_index_bounded_array (h : heap) (a : nat) (cnt size : Z) (slots : list jvalue_ref)
    (i : Z) :
  h !! a = Some (Jvalue cnt (BArray (Jarray size slots))) → 0 ≤ i < size →
  valid_index_bounded h (Ptr a) i = true.
Proof.
  intros Ha Hi. unfold valid_index_bounded, has_type, jarray_size_unsafe. cbn.
  rewrite Ha. cbn. by rewrite !decide_False by lia.
Qed.


Section SpliceSteps.
Context {build : Build}.
Variables (d s n fuel : nat) (E : list jvalue_ref).
Hypothesis Hds : d ≠ s.
Hypothesis Hfuel : (n < fuel)%nat.

Lemma ext_ok_step (h h' : heap) :
  ext_ok h n d s E → (∀ x, x ≠ d → x ≠ s → cell_le h h' x) → ext_ok h' n d s E.
Proof.
  intros Hok Hle e He. destruct (Hok e He) as [-> | (Hw & Hnd & Hns)]; [by left|]. right.
  assert (Hr : ∀ x, reach h e x → cell_le h h' x).
  { intros x Hx. apply Hle; intros ->; contradiction. }
  split; [by eapply wf_tree_le|].
  split; intros Hx; [apply Hnd | apply Hns]; by eapply reach_le.
Qed.

Lemma dst_state_not_string (h : heap) (cnt : Z) (elems : list jvalue_ref) (pad : nat) :
  dst_state h d cnt elems pad → jis_string h (Ptr d) = false ∧ jis_array h (Ptr d) = true.
Proof.
  unfold dst_state, jis_string, jis_array, has_type. cbn. intros ->. cbn.
  split; [by apply bool_decide_eq_false | by apply bool_decide_eq_true].
Qed.

Lemma ext_check (h : heap) (cnt : Z) (elems : list jvalue_ref) (pad : nat) (val : jvalue_ref) :
  ext_ok h n d s E → dst_state h d cnt elems pad → val ∈ E ∨ val = JINVALID →
  check_insert_sanity fuel h (Ptr d) val = Some true.
Proof.
  intros Hok Hd Hval. destruct (dst_state_not_string _ _ _ _ Hd) as [Hp _].
  assert (Hleaf : val = NULL ∨ val = JINVALID →
                  check_insert_sanity fuel h (Ptr d) val = Some true).
  { intros Hv. destruct fuel; [lia|].
    apply check_insert_sanity_leaf; destruct Hv as [-> | ->]; done. }
  destruct Hval as [He | ->]; [|auto].
  destruct (Hok val He) as [-> | (Hw & Hnd & _)]; [auto|].
  destruct (check_insert_sanity_spec h d Hp fuel n val Hw Hfuel) as (b & -> & Hb).
  destruct b; [reflexivity|]. exfalso. apply Hnd. by apply Hb.
Qed.

Lemma take_src (h : heap) (size0 : Z) (slots0 : list jvalue_ref) (k j : nat)
    (val : jvalue_ref) (ownership : JSpliceOwnership) :
  ext_ok h n d s E → src_state h s (src_size ownership size0 k) slots0 j →
  slots0 !! j = Some val → val ∈ E →
  ∃ h', splice_take (Ptr s) (Z.of_nat j) ownership h = Some (val, h')
        ∧ src_state h' s (src_size ownership size0 (S k)) slots0 (S j)
        ∧ h' !! d = h !! d ∧ ext_ok h' n d s E.
Proof.
  intros Hok (cnt & slots & Hs & Hsame) Hj He.
  unfold splice_take. cbn. rewrite Hs. cbn. rewrite slot_get_nat, Hsame, Hj by lia. cbn.
  destruct ownership.
  - eexists. split; [reflexivity|]. split; [|split].
    + exists cnt, (slot_set slots (Z.of_nat j) NULL). split.
      * rewrite lookup_set_body, decide_True, Hs by reflexivity. cbn.
        do 4 f_equal. lia.
      * intros j' Hj'. unfold slot_set. rewrite Nat2Z.id.
        rewrite list_lookup_insert_ne by lia. apply Hsame. lia.
    + by rewrite lookup_set_body, decide_False.
    + eapply ext_ok_step; [exact Hok|]. intros x _ Hx. apply cell_le_eq.
      by rewrite lookup_set_body, decide_False.
  - exists h. split; [reflexivity|]. split; [|split; [reflexivity | assumption]].
    exists cnt, slots. split; [assumption|]. intros j' Hj'. apply Hsame. lia.
  - assert (Hsrc : src_state h s (src_size SPLICE_COPY size0 (S k)) slots0 (S j)).
    { exists cnt, slots. split; [assumption|]. intros j' Hj'. apply Hsame. lia. }
    unfold jvalue_copy. case_decide as Hnull; [subst; eauto|].
    destruct (jis_const h val) eqn:Hconst; [eauto|].
    destruct (Hok val He) as [-> | (Hw & Hnd & Hns)]; [done|].
    destruct val as [| | | | | |a]; try (cbn in Hconst; discriminate); try done.
    destruct (releasable_cell h n a (or_intror Hw)) as [c Ha]. rewrite Ha. cbn.
    assert (a ≠ d) by (intros ->; apply Hnd; constructor).
    assert (a ≠ s) by (intros ->; apply Hns; constructor).
    eexists. split; [reflexivity|]. split; [|split].
    + destruct Hsrc as (cnt' & slots' & Hs' & Hsame').
      exists cnt', slots'. split; [|assumption].
      by rewrite lookup_set_refCnt, decide_False.
    + by rewrite lookup_set_refCnt, decide_False.
    + eapply ext_ok_step; [exact Hok|]. intros x _ _. apply shrink_set_refCnt.
Qed.

Lemma put_dst (h : heap) (cnt : Z) (elems : list jvalue_ref) (pad : nat) (i : nat)
    (old val : jvalue_ref) :
  ext_ok h n d s E → dst_state h d cnt elems pad →
  elems !! i = Some old → old ∈ E → val ∈ E →
  ∃ h', jarray_put_unsafe fuel (Ptr d) (Z.of_nat i) val h = Some (true, h')
        ∧ dst_state h' d cnt (<[i := val]> elems) pad
        ∧ (∀ x, x ≠ d → ¬ reach h old x → h' !! x = h !! x)
        ∧ ext_ok h' n d s E.
Proof.
  intros Hok Hd Hi Hold Hval.
  assert (Hlt : (i < length elems)%nat) by (by eapply lookup_lt_Some).
  assert (Holdslot : default NULL ((elems ++ replicate pad NULL) !! i) = old).
  { by rewrite lookup_app_l, Hi by assumption. }
  destruct (jarray_put_unsafe_spec fuel n h d cnt _ (Z.of_nat i) val Hd)
    as (h' & E' & Hd' & Hle & Hframe); try assumption.
  - lia.
  - cbn [m_slots]. rewrite Nat2Z.id, Holdslot.
    destruct (Hok old Hold) as [-> | (Hw & _)]; auto.
  - cbn [m_slots]. rewrite Nat2Z.id, Holdslot.
    destruct (Hok old Hold) as [-> | (_ & Hnd & _)]; [apply reach_NULL | assumption].
  - by eapply ext_check; eauto.
  - exists h'. split; [assumption|]. split; [|split].
    + unfold dst_state. rewrite Hd'. unfold m_capacity. cbn [m_size m_slots].
      rewrite Nat2Z.id, length_insert. do 3 f_equal. f_equal; [lia|].
      rewrite length_app, length_replicate.
      replace (Z.to_nat _) with 0%nat by lia. cbn. rewrite app_nil_r.
      by rewrite insert_app_l.
    + intros x Hx Hnx. apply Hframe; [assumption|].
      cbn [m_slots]. by rewrite Nat2Z.id, Holdslot.
    + eapply ext_ok_step; [exact Hok|]. intros x Hx _. by apply Hle.
Qed.

Lemma insert_dst (h : heap) (cnt : Z) (elems : list jvalue_ref) (pad : nat) (i : nat)
    (val : jvalue_ref) :
  ext_ok h n d s E → dst_state h d cnt elems pad → (i ≤ length elems)%nat → val ∈ E →
  ∃ h' pad', jarray_insert fuel (Ptr d) (Z.of_nat i) val h = Some (true, h')
             ∧ dst_state h' d cnt (take i elems ++ val :: drop i elems) pad'
             ∧ ∀ x, x ≠ d → h' !! x = h !! x.
Proof.
  intros Hok Hd Hi Hval. destruct (dst_state_not_string _ _ _ _ Hd) as [_ Harr].
  unfold jarray_insert. rewrite Harr. cbn [negb]. rewrite decide_False by lia.
  rewrite (ext_check h cnt elems pad val) by auto.
  assert (Hsize : jarray_size_unsafe h (Ptr d) = Z.of_nat (length elems)).
  { unfold jarray_size_unsafe. cbn. by rewrite Hd. }
  rewrite Hsize.
  destruct (jarray_put_unsafe_spec fuel n h d cnt _ (Z.of_nat (length elems)) jinvalid Hd)
    as (h1 & -> & Hd1 & _ & Hframe).
  - lia.
  - left. cbn [m_slots]. rewrite Nat2Z.id.
    destruct ((elems ++ replicate pad NULL) !! length elems) as [v|] eqn:Hv; [|done].
    rewrite lookup_app_r, Nat.sub_diag in Hv by lia.
    by apply lookup_replicate in Hv as [-> _].
  - cbn [m_slots]. rewrite Nat2Z.id.
    destruct ((elems ++ replicate pad NULL) !! length elems) as [v|] eqn:Hv;
      [|apply reach_NULL].
    rewrite lookup_app_r, Nat.sub_diag in Hv by lia.
    apply lookup_replicate in Hv as [-> _]. apply reach_NULL.
  - assumption.
  - eapply ext_check; eauto.
  - cbn. rewrite Hd1. cbn [fmap option_fmap option_map m_body mbind option_bind m_size m_slots].
    assert (Hslots : <[Z.to_nat (Z.of_nat (length elems)):=jinvalid]>
               ((elems ++ replicate pad NULL)
                ++ replicate (Z.to_nat (Z.of_nat (length elems) + 1
                     - m_capacity {| m_size := Z.of_nat (length elems);
                                     m_slots := elems ++ replicate pad NULL |})) NULL)
             = take i elems ++ drop i elems ++ jinvalid :: replicate (pad - 1) NULL).
    { unfold m_capacity. cbn [m_slots]. rewrite Nat2Z.id, length_app, length_replicate.
      rewrite (app_assoc (take i elems)), take_drop. destruct pad as [|pad'].
      - replace (Z.to_nat _) with 1%nat by lia. cbn. rewrite app_nil_r.
        rewrite insert_app_r_alt, Nat.sub_diag by lia. reflexivity.
      - replace (Z.to_nat _) with 0%nat by lia. cbn. rewrite app_nil_r.
        rewrite insert_app_r_alt, Nat.sub_diag by lia. cbn. by rewrite Nat.sub_0_r. }
    rewrite Hslots.
    replace (Z.max (Z.of_nat (length elems)) (Z.of_nat (length elems) + 1) - 1)
      with (Z.of_nat (length (take i elems) + length (drop i elems)))
      by (rewrite length_take, length_drop; lia).
    replace (Z.to_nat (Z.of_nat (length (take i elems) + length (drop i elems)) - Z.of_nat i))
      with (length (drop i elems)) by (rewrite length_take, length_drop; lia).
    destruct (shift_up_spec (drop i elems) (take i elems) jinvalid (replicate (pad - 1) NULL))
      as [y ->].
    cbn. eexists _, (pad - 1)%nat. split; [reflexivity|]. split.
    + unfold dst_state. rewrite lookup_set_body, decide_True, Hd1 by reflexivity. cbn.
      do 3 f_equal. f_equal.
      * rewrite length_app. cbn. rewrite length_take, length_drop. lia.
      * unfold slot_set. rewrite Nat2Z.id.
        rewrite insert_app_r_alt, Nat.sub_diag by lia. cbn.
        by rewrite <- app_assoc.
    + intros x Hx. rewrite lookup_set_body, decide_False by congruence.
      apply Hframe; [assumption|].
      cbn [m_slots]. rewrite Nat2Z.id.
      destruct ((elems ++ replicate pad NULL) !! length elems) as [v|] eqn:Hv;
        [|apply reach_NULL].
      rewrite lookup_app_r, Nat.sub_diag in Hv by lia.
      apply lookup_replicate in Hv as [-> _]. apply reach_NULL.
Qed.

Lemma remove_dst (h : heap) (cnt : Z) (A B : list jvalue_ref) (e : jvalue_ref) (pad : nat) :
  ext_ok h n d s E → dst_state h d cnt (A ++ e :: B) pad → e ∈ E →
  ∃ h', jarray_remove_unsafe (j_release fuel) d (Z.of_nat (length A)) h = Some h'
        ∧ dst_state h' d cnt (A ++ B) (S pad)
        ∧ (∀ x, x ≠ d → ¬ reach h e x → h' !! x = h !! x)
        ∧ ext_ok h' n d s E.
Proof.
  intros Hok Hd He. unfold jarray_remove_unsafe. cbn. rewrite Hd. cbn.
  rewrite slot_get_nat. rewrite <- app_assoc. rewrite lookup_app_r, Nat.sub_diag by lia. cbn.
  destruct (j_release_ok fuel n Hfuel h e) as (h1 & -> & Hs1 & Hf1).
  { destruct (Hok e He) as [-> | (Hw & _)]; auto. }
  assert (Hd1 : h1 !! d = h !! d).
  { apply Hf1. destruct (Hok e He) as [-> | (_ & Hnd & _)]; [apply reach_NULL | assumption]. }
  cbn. rewrite Hd1, Hd. cbn.
  replace (Z.to_nat (Z.of_nat (length (A ++ e :: B)) - (Z.of_nat (length A) + 1)))
    with (length B) by (rewrite length_app; cbn; lia).
  destruct (shift_down_spec B A e (replicate pad NULL)) as [y Hy].
  rewrite <- (app_assoc A (e :: B)). cbn [app]. rewrite Hy. cbn.
  eexists. split; [reflexivity|]. split; [|split].
  - unfold dst_state. rewrite lookup_set_body, decide_True, Hd1, Hd by reflexivity. cbn.
    do 3 f_equal. f_equal.
    + rewrite !length_app. cbn. lia.
    + unfold slot_set. rewrite Nat2Z.id. rewrite app_assoc.
      rewrite insert_app_r_alt by (rewrite length_app; lia).
      rewrite length_app, Nat.sub_diag. cbn. reflexivity.
  - intros x Hx Hnx. rewrite lookup_set_body, decide_False by congruence. by apply Hf1.
  - eapply ext_ok_step; [exact Hok|]. intros x Hx _.
    eapply cell_le_trans; [apply Hs1|]. apply cell_le_eq.
    by rewrite lookup_set_body, decide_False.
Qed.

Lemma expand_dst (h : heap) (cnt : Z) (elems : list jvalue_ref) (pad : nat) (newSize : Z) :
  dst_state h d cnt elems pad →
  ∃ h' pad', jarray_expand_capacity_unsafe d newSize h = Some h'
             ∧ dst_state h' d cnt elems pad' ∧ ∀ x, x ≠ d → h' !! x = h !! x.
Proof.
  intros Hd.
  destruct (jarray_expand_capacity_unsafe_spec h d cnt _ newSize Hd) as (h' & E' & Hd' & Hf & _).
  eexists h', _. split; [exact E'|]. split; [|exact Hf].
  unfold dst_state. rewrite Hd'. cbn [m_size m_slots].
  by rewrite <- app_assoc, <- replicate_add.
Qed.

Lemma src_state_eq (h h' : heap) (size : Z) (slots0 : list jvalue_ref) (k : nat) :
  h' !! s = h !! s → src_state h s size slots0 k → src_state h' s size slots0 k.
Proof. intros Heq (cnt & slots & Hs & Hsame). exists cnt, slots. by rewrite Heq. Qed.

(** The assertion on the index into the source holds in round [k]. *)
Lemma src_assert (ownership : JSpliceOwnership) (size0 : Z) (slots0 : list jvalue_ref)
    (b len k j : nat) (h : heap) :
  NDEBUG = true ∨ (∀ k, (k < len)%nat → Z.of_nat (b + k) < src_size ownership size0 k) →
  (k < len)%nat → src_state h s (src_size ownership size0 k) slots0 j →
  c_assert (valid_index_bounded h (Ptr s) (Z.of_nat (b + k))) = Some ().
Proof.
  intros [HN | Hall] Hk (cs & slots & Hs & _); [by apply c_assert_NDEBUG|].
  apply c_assert_true. eapply valid_index_bounded_array; [exact Hs|].
  split; [lia|]. by apply Hall.
Qed.

Lemma overwrite_shape (D SS : list jvalue_ref) (idx k : nat) (val : jvalue_ref) :
  (idx + k < length D)%nat → SS !! k = Some val →
  <[(idx + k)%nat := val]> (take idx D ++ take k SS ++ drop (idx + k) D)
  = take idx D ++ take (S k) SS ++ drop (idx + S k) D.
Proof.
  intros Hlt Hval. assert (Hk : (k < length SS)%nat) by (by eapply lookup_lt_Some).
  destruct (lookup_lt_is_Some_2 D (idx + k)) as [x Hx]; [lia|].
  rewrite insert_app_r_alt by (rewrite length_take; lia).
  rewrite length_take. replace (idx + k - idx `min` length D)%nat with k by lia.
  rewrite insert_app_r_alt by (rewrite length_take; lia).
  rewrite length_take. replace (k - k `min` length SS)%nat with 0%nat by lia.
  rewrite (drop_S D x (idx + k)) by assumption. cbn.
  rewrite (take_S_r SS k val) by assumption.
  rewrite <- app_assoc. cbn. by rewrite Nat.add_succ_r.
Qed.

Lemma overwrite_loop (ownership : JSpliceOwnership) (cnt : Z) (pad : nat) (size0 : Z)
    (D slots0 : list jvalue_ref) (idx b r len : nat) :
  (∀ v, v ∈ D → v ∈ E) → (∀ v, v ∈ slots0 → v ∈ E) →
  (idx + r ≤ length D)%nat → (b + len ≤ length slots0)%nat →
  NDEBUG = true
  ∨ (∀ k, (k < r `min` len)%nat → Z.of_nat (b + k) < src_size ownership size0 k) →
  ∀ m k counter h,
    (k + m = r `min` len)%nat → (m ≤ counter)%nat →
    ext_ok h n d s E →
    dst_state h d cnt (take idx D ++ take k (take len (drop b slots0)) ++ drop (idx + k) D) pad →
    src_state h s (src_size ownership size0 k) slots0 (b + k) →
    ∃ h', splice_overwrite counter fuel (Ptr d) (Ptr s) ownership (Z.of_nat (b + len))
            (Z.of_nat (idx + k)) (Z.of_nat (b + k)) (Z.of_nat r - Z.of_nat k) h
          = Some (Z.of_nat (idx + r `min` len), Z.of_nat (b + r `min` len),
                  Z.of_nat r - Z.of_nat (r `min` len), h')
          ∧ ext_ok h' n d s E
          ∧ dst_state h' d cnt
              (take idx D ++ take (r `min` len) (take len (drop b slots0))
               ++ drop (idx + r `min` len) D) pad
          ∧ src_state h' s (src_size ownership size0 (r `min` len)) slots0 (b + r `min` len).
Proof.
  intros HD HS HidxR Hblen Hassert.
  induction m as [|m IH]; intros k counter h Hk Hc Hok Hd Hs.
  - rewrite Nat.add_0_r in Hk. subst k. exists h.
    split; [|auto]. destruct counter; [reflexivity|].
    cbn [splice_overwrite]. rewrite decide_False by lia. reflexivity.
  - destruct counter as [|counter]; [lia|]. cbn [splice_overwrite].
    rewrite decide_True by lia.
    rewrite (c_assert_true (valid_index_bounded h (Ptr d) _)).
    2:{ eapply valid_index_bounded_array; [exact Hd|].
        rewrite !length_app, !length_take, !length_drop. lia. }
    rewrite (src_assert ownership size0 slots0 b (r `min` len) k (b + k) h)
      by (assumption || lia).
    cbn [mbind option_bind].
    destruct (lookup_lt_is_Some_2 slots0 (b + k)) as [val Hval]; [lia|].
    assert (HvalE : val ∈ E) by (apply HS; by eapply list_elem_of_lookup_2).
    destruct (take_src h size0 slots0 k (b + k) val ownership Hok Hs Hval HvalE)
      as (h1 & -> & Hs1 & Hd1 & Hok1).
    cbn.
    destruct (lookup_lt_is_Some_2 D (idx + k)) as [old Hold]; [lia|].
    assert (HoldE : old ∈ E) by (apply HD; by eapply list_elem_of_lookup_2).
    assert (Hslot : (take idx D ++ take k (take len (drop b slots0)) ++ drop (idx + k) D)
                    !! (idx + k)%nat = Some old).
    { rewrite lookup_app_r by (rewrite length_take; lia).
      rewrite lookup_app_r by (rewrite !length_take, length_drop; lia).
      rewrite !length_take, length_drop. rewrite lookup_drop. rewrite <- Hold. f_equal. lia. }
    destruct (put_dst h1 cnt
                (take idx D ++ take k (take len (drop b slots0)) ++ drop (idx + k) D)
                pad (idx + k) old val Hok1) as (h2 & -> & Hd2 & Hf2 & Hok2);
      try assumption.
    { unfold dst_state. rewrite Hd1. exact Hd. }
    cbn.
    assert (Hss : take len (drop b slots0) !! k = Some val).
    { rewrite lookup_take_lt by lia. by rewrite lookup_drop. }
    rewrite overwrite_shape in Hd2 by (assumption || lia).
    replace (Z.of_nat (idx + k) + 1) with (Z.of_nat (idx + S k)) by lia.
    replace (Z.of_nat (b + k) + 1) with (Z.of_nat (b + S k)) by lia.
    replace (Z.of_nat r - Z.of_nat k - 1) with (Z.of_nat r - Z.of_nat (S k)) by lia.
    apply IH; try assumption; try lia.
    eapply src_state_eq; [|by rewrite <- Nat.add_succ_r in Hs1].
    apply Hf2; [congruence|].
    destruct (Hok1 old HoldE) as [-> | (_ & _ & Hns)]; [apply reach_NULL | assumption].
Qed.

Lemma remove_loop (cnt : Z) (P D : list jvalue_ref) :
  (∀ v, v ∈ D → v ∈ E) →
  ∀ t q pad h,
    (q + t ≤ length D)%nat → ext_ok h n d s E → dst_state h d cnt (P ++ drop q D) pad →
    ∃ h', splice_remove t fuel d (Z.of_nat (length P)) h = Some h'
          ∧ dst_state h' d cnt (P ++ drop (q + t) D) (pad + t).
Proof.
  intros HD. induction t as [|t IH]; intros q pad h Hq Hok Hd.
  - exists h. split; [reflexivity|]. by rewrite !Nat.add_0_r.
  - destruct (lookup_lt_is_Some_2 D q) as [e He]; [lia|].
    rewrite (drop_S D e q) in Hd by assumption.
    destruct (remove_dst h cnt P (drop (S q) D) e pad Hok Hd) as (h1 & E1 & Hd1 & _ & Hok1).
    { apply HD. by eapply list_elem_of_lookup_2. }
    cbn [splice_remove]. rewrite E1. cbn.
    destruct (IH (S q) (S pad) h1) as (h' & E' & Hd'); [lia | assumption | assumption |].
    exists h'. split; [assumption|].
    by replace (q + S t)%nat with (S q + t)%nat by lia;
       replace (pad + S t)%nat with (S pad + t)%nat by lia.
Qed.

Lemma insert_loop (ownership : JSpliceOwnership) (cnt : Z) (size0 : Z)
    (D slots0 : list jvalue_ref) (idx b r len : nat) :
  (∀ v, v ∈ slots0 → v ∈ E) →
  (idx + r ≤ length D)%nat → (b + len ≤ length slots0)%nat →
  NDEBUG = true ∨ (∀ k, (k < len)%nat → Z.of_nat (b + k) < src_size ownership size0 k) →
  ∀ m k counter h pad,
    (k + m = len)%nat → (m ≤ counter)%nat →
    ext_ok h n d s E →
    dst_state h d cnt (take idx D ++ take k (take len (drop b slots0)) ++ drop (idx + r) D) pad →
    src_state h s (src_size ownership size0 k) slots0 (b + k) →
    ∃ h' pad',
      splice_insert counter fuel (Ptr d) (Ptr s) ownership (Z.of_nat (b + len))
        (Z.of_nat (idx + k)) (Z.of_nat (b + k)) h = Some (true, h')
      ∧ dst_state h' d cnt (take idx D ++ take len (drop b slots0) ++ drop (idx + r) D) pad'.
Proof.
  intros HS HidxR Hblen Hassert.
  induction m as [|m IH]; intros k counter h pad Hk Hc Hok Hd Hs.
  - rewrite Nat.add_0_r in Hk. subst k. exists h, pad.
    rewrite (take_ge (take len (drop b slots0)) len) in Hd
      by (rewrite length_take, length_drop; lia).
    split; [|assumption]. destruct counter; [reflexivity|].
    cbn [splice_insert]. rewrite decide_False by lia. reflexivity.
  - destruct counter as [|counter]; [lia|]. cbn [splice_insert].
    rewrite decide_True by lia.
    rewrite (src_assert ownership size0 slots0 b len k (b + k) h) by (assumption || lia).
    cbn [mbind option_bind].
    destruct (lookup_lt_is_Some_2 slots0 (b + k)) as [val Hval]; [lia|].
    assert (HvalE : val ∈ E) by (apply HS; by eapply list_elem_of_lookup_2).
    destruct (take_src h size0 slots0 k (b + k) val ownership Hok Hs Hval HvalE)
      as (h1 & -> & Hs1 & Hd1 & Hok1).
    cbn.
    assert (Hlen : length (take idx D ++ take k (take len (drop b slots0))) = (idx + k)%nat).
    { rewrite length_app, !length_take, length_drop. lia. }
    destruct (insert_dst h1 cnt
                (take idx D ++ take k (take len (drop b slots0)) ++ drop (idx + r) D)
                pad (idx + k) val Hok1) as (h2 & pad2 & -> & Hd2 & Hf2); try assumption.
    { unfold dst_state. rewrite Hd1. exact Hd. }
    { rewrite app_assoc, length_app, Hlen. lia. }
    cbn.
    assert (Hss : take len (drop b slots0) !! k = Some val).
    { rewrite lookup_take_lt by lia. by rewrite lookup_drop. }
    rewrite (app_assoc (take idx D)), <- Hlen in Hd2.
    rewrite take_app_length, drop_app_length in Hd2.
    rewrite <- app_assoc in Hd2.
    replace (take k (take len (drop b slots0)) ++ val :: drop (idx + r) D)
      with (take (S k) (take len (drop b slots0)) ++ drop (idx + r) D) in Hd2
      by (rewrite (take_S_r _ k val) by assumption; by rewrite <- app_assoc).
    replace (Z.of_nat (idx + k) + 1) with (Z.of_nat (idx + S k)) by lia.
    replace (Z.of_nat (b + k) + 1) with (Z.of_nat (b + S k)) by lia.
    apply (IH (S k) counter h2 pad2); try assumption; try lia.
    + eapply ext_ok_step; [exact Hok1|]. intros x Hx _. apply cell_le_eq. by apply Hf2.
    + eapply src_state_eq; [|by rewrite <- Nat.add_succ_r in Hs1]. apply Hf2. congruence.
Qed.




End SpliceSteps.

(** ** The splice *)

Lemma all_true_true {A} (f : A → option bool) (l : list A) :
  (∀ x, x ∈ l → f x = Some true) → all_true f l = Some true.
Proof.
  induction l as [|x l IH]; intros Hf; [reflexivity|].
  cbn. rewrite Hf by left. apply IH. intros y Hy. apply Hf. by right.
Qed.

Lemma array_ok_slots (arr : jarray) :
  array_ok arr →
  m_slots arr
  = take (Z.to_nat (m_size arr)) (m_slots arr)
    ++ replicate (length (m_slots arr) - Z.to_nat (m_size arr)) NULL.
Proof.
  intros [Hsz Hnull]. unfold m_capacity in Hsz.
  rewrite <- (take_drop (Z.to_nat (m_size arr)) (m_slots arr)) at 1. f_equal.
  apply list_eq. intros i. destruct (decide (i < length (m_slots arr) - Z.to_nat (m_size arr))%nat).
  - rewrite lookup_replicate_2 by assumption. rewrite lookup_drop.
    destruct (lookup_lt_is_Some_2 (m_slots arr) (Z.to_nat (m_size arr) + i)) as [v Hv]; [lia|].
    rewrite Hv. f_equal. eapply Hnull; [exact Hv | lia].
  - rewrite lookup_ge_None_2 by (rewrite length_drop; lia).
    symmetry. apply lookup_ge_None_2. rewrite length_replicate. lia.
Qed.

Lemma elements_dst_state (h : heap) (d : nat) (cnt : Z) (elems : list jvalue_ref) (pad : nat) :
  dst_state h d cnt elems pad →
  elements h (Ptr d) = elems ∧ jarray_size h (Ptr d) = Z.of_nat (length elems).
Proof.
  intros Hd. unfold elements, jarray_size, jis_array, has_type, jarray_size_unsafe. cbn.
  rewrite Hd. cbn. split; [|reflexivity].
  rewrite Nat2Z.id. by rewrite take_app_length.
Qed.

Lemma wf_array_cell (h : heap) (n : nat) (v : jvalue_ref) :
  wf_tree h n v → jis_array h v = true →
  ∃ a n' cnt arr, v = Ptr a ∧ n = S n' ∧ h !! a = Some (Jvalue cnt (BArray arr))
    ∧ array_ok arr ∧ ∀ e, e ∈ m_slots arr → e = NULL ∨ wf_tree h n' e ∧ ¬ reach h e a.
Proof.
  intros Hwf Harr.
  destruct (jis_array_deref _ _ Harr) as (a & [cnt body] & arr & -> & Ha & Hb).
  cbn in Hb. subst body. destruct (wf_tree_Ptr_depth _ _ _ Hwf) as [n' ->].
  destruct (wf_tree_array h n' a arr Hwf) as [Hok Hs]; [cbn; by rewrite Ha|].
  exists a, n', cnt, arr.
  split; [reflexivity|]. split; [reflexivity|]. split; [assumption|]. split; [assumption|].
  intros e He. destruct (Hs e He) as [-> | Hw]; [by left|]. right.
  split; [assumption|]. eapply wf_tree_acyclic; [exact Hwf | exact Ha | exact He].
Qed.

Lemma jarray_splice_nat {B : Build} (h : heap) (d s n fuel : nat) (E : list jvalue_ref)
    (cnt : Z) (D : list jvalue_ref) (pad : nat) (cs sizeS : Z) (slots0 : list jvalue_ref)
    (idx r b len : nat) (ownership : JSpliceOwnership) :
  d ≠ s → (n < fuel)%nat → ext_ok h n d s E →
  (∀ v, v ∈ D → v ∈ E) → (∀ v, v ∈ slots0 → v ∈ E) →
  dst_state h d cnt D pad →
  h !! s = Some (Jvalue cs (BArray (Jarray sizeS slots0))) →
  Z.of_nat (b + len) ≤ sizeS ≤ Z.of_nat (length slots0) →
  (idx + r ≤ length D)%nat → (0 < len)%nat →
  NDEBUG = true ∨ (∀ k, (k < len)%nat → Z.of_nat (b + k) < src_size ownership sizeS k) →
  ∃ h' pad',
    jarray_splice fuel (Ptr d) (Z.of_nat idx) (Z.of_nat r) (Ptr s) (Z.of_nat b)
      (Z.of_nat (b + len)) ownership h = Some (true, h')
    ∧ dst_state h' d cnt (take idx D ++ take len (drop b slots0) ++ drop (idx + r) D) pad'.
Proof.
  intros Hds Hfuel Hok HD HS Hd Hs HsizeS HidxR Hlen Hassert.
  destruct (dst_state_not_string d h cnt D pad Hd) as [_ Harr].
  unfold jarray_splice. cbv zeta.
  set (ci := if decide (Z.of_nat r ≠ 0) then _ else _).
  assert (ci = Some (Z.of_nat idx)) as ->.
  { unfold ci. case_decide.
    - rewrite !(valid_index_bounded_array h d cnt _ _ _ Hd) by lia. reflexivity.
    - rewrite Harr. cbn. by rewrite decide_False by lia. }
  rewrite decide_False by lia.
  rewrite !(valid_index_bounded_array h s cs _ _ _ Hs) by lia. cbn [negb].
  rewrite decide_False by lia.
  assert (jarray_splice_check_insert_sanity fuel h (Ptr d) (Ptr s) = Some true) as ->.
  { apply all_true_true. intros i _. eapply (ext_check d s n fuel E); eauto.
    destruct (jarray_get_cases h (Ptr s) i) as [-> | (a & Ea & Hin & _)]; [by right|].
    left. apply HS. cbn in Ea. rewrite Hs in Ea. cbn in Ea. injection Ea as <-. exact Hin. }
  replace (Z.to_nat (Z.of_nat (b + len) - Z.of_nat b)) with len by lia.
  assert (Hassert1 : NDEBUG = true
            ∨ ∀ k, (k < r `min` len)%nat → Z.of_nat (b + k) < src_size ownership sizeS k).
  { destruct Hassert as [HN | Hall]; [by left|]. right. intros k Hk. apply Hall. lia. }
  destruct (overwrite_loop d s n fuel E Hds Hfuel ownership cnt pad sizeS D slots0 idx b r len
              HD HS HidxR ltac:(lia) Hassert1 (r `min` len)%nat 0%nat len h)
    as (h1 & E1 & Hok1 & Hd1 & Hs1); try lia; try assumption.
  { rewrite take_0, Nat.add_0_r. cbn [app]. rewrite take_drop. exact Hd. }
  { rewrite Nat.add_0_r. exists cs, slots0. split; [|auto].
    rewrite Hs. do 4 f_equal. destruct ownership; cbn; lia. }
  rewrite !Nat.add_0_r, Z.sub_0_r in E1. rewrite E1.
  cbn -[jarray_expand_capacity_unsafe splice_insert splice_remove jarray_size_unsafe].
  case_decide as Hrem; [|case_decide as Hj].
  - (* more slots to remove than elements to insert *)
    assert (Hmin : (r `min` len = len)%nat) by lia. rewrite Hmin in *.
    rewrite (take_ge (take len (drop b slots0)) len) in Hd1
      by (rewrite length_take, length_drop; lia).
    rewrite app_assoc in Hd1.
    assert (HP : length (take idx D ++ take len (drop b slots0)) = (idx + len)%nat).
    { rewrite length_app, !length_take, length_drop. lia. }
    rewrite <- HP.
    destruct (remove_loop d s n fuel E Hds Hfuel cnt
                (take idx D ++ take len (drop b slots0)) D HD
                (Z.to_nat (Z.of_nat r - Z.of_nat len)) (idx + len) pad h1)
      as (h2 & -> & Hd2); [lia | assumption | assumption |].
    cbn. eexists h2, _. split; [reflexivity|].
    replace (idx + len + Z.to_nat (Z.of_nat r - Z.of_nat len))%nat with (idx + r)%nat
      in Hd2 by lia.
    rewrite <- app_assoc in Hd2. exact Hd2.
  - (* more elements to insert than slots to remove *)
    assert (Hmin : (r `min` len = r)%nat) by lia. rewrite Hmin in *.
    destruct (expand_dst d h1 cnt _ pad
                (jarray_size_unsafe h1 (Ptr d) + (Z.of_nat (b + len) - Z.of_nat (b + r))) Hd1)
      as (h2 & pad2 & -> & Hd2 & Hf2).
    cbn.
    replace (Z.to_nat (Z.of_nat (b + len) - Z.of_nat (b + r))) with (len - r)%nat by lia.
    destruct (insert_loop d s n fuel E Hds Hfuel ownership cnt sizeS D slots0 idx b r len
                HS HidxR ltac:(lia) Hassert (len - r)%nat r (len - r)%nat h2 pad2)
      as (h3 & pad3 & -> & Hd3); try lia; try assumption.
    + eapply ext_ok_step; [exact Hok1|]. intros x Hx _. apply cell_le_eq. by apply Hf2.
    + eapply src_state_eq; [|exact Hs1]. apply Hf2. congruence.
    + eauto.
  - (* as many *)
    assert (Hmin : (r `min` len = len)%nat) by lia. rewrite Hmin in *.
    assert (r = len) as -> by lia.
    rewrite (take_ge (take len (drop b slots0)) len) in Hd1
      by (rewrite length_take, length_drop; lia).
    eauto.
Qed.


Lemma elem_of_take_slots (k : nat) (l : list jvalue_ref) (v : jvalue_ref) :
  v ∈ take k l → v ∈ l.
Proof.
  intros Hv. apply list_elem_of_lookup in Hv as [i Hi].
  apply lookup_take_Some in Hi as [Hi _]. by eapply list_elem_of_lookup_2.
Qed.

Lemma sublist_take (l : list jvalue_ref) (b len sz : nat) :
  (b + len ≤ sz)%nat →
  take len (drop b (take sz l)) = take len (drop b l).
Proof.
  intros Hle. apply list_eq. intros i. destruct (decide (i < len)%nat).
  - rewrite !lookup_take_lt by assumption. rewrite !lookup_drop.
    by rewrite lookup_take_lt by lia.
  - by rewrite !lookup_take_ge by lia.
Qed.


(** The assertions of the copying loops hold in every round when they hold
    in the last one. *)
Lemma splice_asserts {B : Build} (ownership : JSpliceOwnership) (size begin end_ : Z) :
  0 ≤ begin → begin < end_ → end_ ≤ size →
  NDEBUG = true ∨ ownership ≠ SPLICE_TRANSFER ∨ 2 * end_ - begin - 2 < size →
  NDEBUG = true
  ∨ ∀ k, (k < Z.to_nat (end_ - begin))%nat →
      Z.of_nat (Z.to_nat begin + k) < src_size ownership size k.
Proof.
  intros Hb Hbe He [HN | Hc]; [by left|]. right. intros k Hk.
  destruct Hc as [Hc | Hc]; destruct ownership; cbn; try done; lia.
Qed.


Lemma reach_array_of_singletons (h : heap) (a b : nat) (cnt : Z) (arr : jarray) :
  h !! a = Some (Jvalue cnt (BArray arr)) →
  Forall (λ v, ∀ x, v ≠ Ptr x) (m_slots arr) → reach h (Ptr a) b → b = a.
Proof.
  intros Ha Hs Hr. inversion Hr as [|? c v ? Hc Hv Hrv]; subst; [reflexivity|].
  rewrite Ha in Hc. injection Hc as <-. cbn in Hv.
  destruct (reach_static_inv _ _ _ Hrv) as [x ->].
  rewrite Forall_forall in Hs. by destruct (Hs _ Hv x).
Qed.


Example splice_grows :
  (λ r : bool * heap, elements (snd r) (Ptr 0))
    <$> jarray_splice (B := {| NDEBUG := false |}) 2 (Ptr 0) 1 1 (Ptr 1) 0 2 SPLICE_COPY
          {[ 0%nat := Jvalue 1 (BArray (Jarray 2 [JTRUE; JFALSE; NULL]));
             1%nat := Jvalue 1 (BArray (Jarray 2 [JNULL; JTRUE])) ]}
  = Some [JTRUE; JNULL; JTRUE].
Proof. vm_compute. reflexivity. Qed.

(** * Further properties of [jobject.c] *)

(** ** Strings *)

Lemma byte_value_inj (c1 c2 : Ascii.ascii) : byte_value c1 = byte_value c2 → c1 = c2.
Proof.
  unfold byte_value. intros H. apply N2Z.inj in H.
  rewrite <- (ascii_N_embedding c1), <- (ascii_N_embedding c2). by rewrite H.
Qed.

Lemma memcmp_eq (s1 s2 : string) :
  String.length s1 = String.length s2 → memcmp s1 s2 (String.length s1) = 0 ↔ s1 = s2.
Proof.
  revert s2. induction s1 as [|c1 r1 IH]; intros [|c2 r2]; cbn; try done.
  intros [= Hlen]. case_decide as Hc.
  - subst. rewrite IH by done. split; congruence.
  - split; [|congruence]. intros Hd. exfalso. apply Hc, byte_value_inj. lia.
Qed.

Lemma jstring_equal_internal3_spec (s o : string) :
  jstring_equal_internal3 s o = bool_decide (s = o).
Proof.
  unfold jstring_equal_internal3, strlen.
  destruct (decide (s = o)) as [->|Hne].
  - rewrite (bool_decide_eq_true_2 (o = o)) by done.
    apply andb_true_iff; split; apply bool_decide_eq_true_2; [done | by apply memcmp_eq].
  - rewrite (bool_decide_eq_false_2 (s = o)) by done.
    apply andb_false_iff. destruct (decide (String.length s = String.length o)).
    + right. apply bool_decide_eq_false_2. by rewrite memcmp_eq.
    + left. apply bool_decide_eq_false_2. lia.
Qed.

Lemma jis_string_deref (h : heap) (v : jvalue_ref) :
  jis_string h v = true → ∃ s, jstring_deref h v = Some s.
Proof.
  unfold jis_string, has_type. intros H%bool_decide_eq_true.
  destruct v as [| | | | | |a]; try discriminate; [by eexists|].
  cbn in *. destruct (h !! a) as [[cnt [| | |]]|]; try discriminate. by eexists.
Qed.

(** X1: [jstring_equal] answers false when one of its arguments is not a
    string, true for two strings that hold the same bytes, and false for two
    strings of the same length that hold different bytes; so does
    [jstring_equal2] for a string and a buffer; [jbuffer_equal] is equality
    of the bytes. *)
Theorem jstring_equal_same_bytes (h : heap) (str other : jvalue_ref) (s1 s2 o b1 b2 : string) :
  (jis_string h str = false ∨ jis_string h other = false →
   jstring_equal h str other = Some false)
  ∧ (jis_string h str = true → jis_string h other = true →
     jstring_deref h str = Some s1 → jstring_deref h other = Some s2 →
     (s1 = s2 → jstring_equal h str other = Some true)
     ∧ (strlen s1 = strlen s2 → s1 ≠ s2 → jstring_equal h str other = Some false))
  ∧ (jis_string h str = false → jstring_equal2 h str o = Some false)
  ∧ (jis_string h str = true → jstring_deref h str = Some s1 →
     (s1 = o → jstring_equal2 h str o = Some true)
     ∧ (strlen s1 = strlen o → s1 ≠ o → jstring_equal2 h str o = Some false))
  ∧ jbuffer_equal b1 b2 = bool_decide (b1 = b2).
Proof.
  split; [|split; [|split; [|split]]].
  - unfold jstring_equal. by intros [-> | ->]; [|rewrite orb_true_r].
  - intros Hs Ho H1 H2. unfold jstring_equal, jstring_equal_internal.
    rewrite Hs, Ho, H1, H2. cbn. rewrite jstring_equal_internal3_spec. split.
    + intros ->. case_decide; [done|]. by rewrite bool_decide_eq_true_2.
    + intros _ Hne. case_decide as Heq; [|by rewrite bool_decide_eq_false_2].
      subst. congruence.
  - unfold jstring_equal2. by intros ->.
  - intros Hs H1. unfold jstring_equal2. rewrite Hs, H1. cbn.
    rewrite jstring_equal_internal3_spec. split.
    + intros ->. by rewrite bool_decide_eq_true_2.
    + intros _ Hne. by rewrite bool_decide_eq_false_2.
  - apply jstring_equal_internal3_spec.
Qed.

Lemma memcmp_cons (c1 c2 : Ascii.ascii) (r1 r2 : string) (n : nat) :
  memcmp (String c1 r1) (String c2 r2) (S n)
  = if decide (c1 = c2) then memcmp r1 r2 n else byte_value c1 - byte_value c2.
Proof. reflexivity. Qed.

Lemma buffer_compare_cons (c : Ascii.ascii) (r1 r2 : string) :
  buffer_compare (String c r1) (String c r2) = buffer_compare r1 r2.
Proof.
  unfold buffer_compare, strlen. cbn [String.length].
  replace (Z.to_nat (Z.of_nat (S (String.length r1)) `min` Z.of_nat (S (String.length r2))))
    with (S (Z.to_nat (Z.of_nat (String.length r1) `min` Z.of_nat (String.length r2))))
    by lia.
  rewrite memcmp_cons, (decide_True (P := c = c)) by done.
  repeat case_decide; lia.
Qed.

Lemma buffer_compare_sgn (s1 s2 : string) :
  Z.sgn (buffer_compare s1 s2)
  = match String.compare s1 s2 with Eq => 0 | Lt => -1 | Gt => 1 end.
Proof.
  revert s2. induction s1 as [|c1 r1 IH]; intros [|c2 r2]; try done.
  cbn [String.compare]. destruct (decide (c1 = c2)) as [->|Hc].
  - rewrite buffer_compare_cons, IH.
    unfold Ascii.compare. by rewrite N.compare_refl.
  - unfold buffer_compare, strlen. cbn [String.length].
    replace (Z.to_nat (Z.of_nat (S (String.length r1)) `min` Z.of_nat (S (String.length r2))))
      with (S (Z.to_nat (Z.of_nat (String.length r1) `min` Z.of_nat (String.length r2))))
      by lia.
    rewrite memcmp_cons, (decide_False (P := c1 = c2)) by done.
    assert (Hb : byte_value c1 ≠ byte_value c2) by (intros ?; by apply Hc, byte_value_inj).
    rewrite decide_True by lia.
    unfold Ascii.compare. unfold byte_value in *.
    destruct (N.compare_spec (N_of_ascii c1) (N_of_ascii c2)) as [Heq|Hlt|Hgt]; lia.
Qed.

Lemma string_compare_refl (s : string) : String.compare s s = Eq.
Proof.
  induction s as [|c r IH]; [done|]. cbn. unfold Ascii.compare. by rewrite N.compare_refl.
Qed.

(** X2: [jstring_compare] orders two strings as their bytes are ordered
    lexicographically, a byte being an unsigned number and a proper prefix
    coming first: its result is negative, zero or positive as the first
    string is below, equal to or above the second, and swapping the
    arguments negates the sign. *)
Theorem jstring_compare_lexicographic (h : heap) (str1 str2 : jvalue_ref) (s1 s2 : string) :
  jstring_deref h str1 = Some s1 → jstring_deref h str2 = Some s2 →
  ∃ c c', jstring_compare h str1 str2 = Some c
    ∧ jstring_compare h str2 str1 = Some c'
    ∧ Z.sgn c = match String.compare s1 s2 with Eq => 0 | Lt => -1 | Gt => 1 end
    ∧ (c = 0 ↔ s1 = s2)
    ∧ Z.sgn c' = - Z.sgn c.
Proof.
  intros H1 H2. unfold jstring_compare. rewrite H1, H2. cbn.
  eexists _, _. split; [reflexivity|]. split; [reflexivity|].
  split; [apply buffer_compare_sgn|]. split.
  - rewrite <- Z.sgn_null_iff, buffer_compare_sgn. split.
    + destruct (String.compare s1 s2) eqn:Hc; try lia. intros _.
      by apply String.compare_eq_iff.
    + intros ->. by rewrite string_compare_refl.
  - rewrite !buffer_compare_sgn, (String.compare_antisym s1 s2).
    destruct (String.compare s2 s1); cbn; lia.
Qed.

(** Two JSON strings of one store. *)
Lemma jstring_compare_lexicographic_witness :
  let h : heap := {[ 0%nat := Jvalue 1 (BStr "ab" false); 1%nat := Jvalue 1 (BStr "abc" false) ]} in
  ∃ c c', jstring_compare h (Ptr 0) (Ptr 1) = Some c
    ∧ jstring_compare h (Ptr 1) (Ptr 0) = Some c'
    ∧ Z.sgn c = match String.compare "ab" "abc" with Eq => 0 | Lt => -1 | Gt => 1 end
    ∧ (c = 0 ↔ "ab" = "abc")
    ∧ Z.sgn c' = - Z.sgn c.
Proof.
  intros h. apply (jstring_compare_lexicographic h (Ptr 0) (Ptr 1) "ab" "abc"); reflexivity.
Defined.

Lemma lookup_alloc (c : jvalue) (h : heap) :
  ∃ a, alloc c h = (Ptr a, <[a := c]> h) ∧ h !! a = None ∧ (<[a := c]> h) !! a = Some c.
Proof.
  destruct (alloc_new_cell c h) as (a & E & Ha). exists a. by rewrite lookup_insert_eq.
Qed.

(** X3: the string that [jstring_create_copy] or [jstring_create_nocopy]
    builds from a buffer is a string whose bytes, as [jstring_get_fast] and
    [jstring_get] return them, are those of the buffer, and whose size is
    their number; the cells of the store before the call are as they were. *)
Theorem jstring_create_get_roundtrip (s : string) (h : heap) :
  let '(r, h') := jstring_create_copy (Some s) h in
  let '(r2, h2) := jstring_create_nocopy (Some s) h in
  jis_string h' r = true ∧ jstring_get_fast h' r = Some s ∧ jstring_get h' r = Some s
  ∧ jstring_size h' r = strlen s
  ∧ jis_string h2 r2 = true ∧ jstring_get_fast h2 r2 = Some s ∧ jstring_get h2 r2 = Some s
  ∧ jstring_size h2 r2 = strlen s
  ∧ ∀ x c, h !! x = Some c → h' !! x = Some c ∧ h2 !! x = Some c.
Proof.
  unfold jstring_create_copy, jstring_create_nocopy, jstring_create_nocopy_full.
  change (default EmptyString (Some s)) with s. change (m_len (Some s)) with (strlen s).
  destruct (lookup_alloc (Jvalue 1 (BStr s false)) h) as (a & -> & Hnew & Ha).
  assert (Hcell : ∀ x c, h !! x = Some c → <[a := Jvalue 1 (BStr s false)]> h !! x = Some c).
  { intros x c Hx. rewrite lookup_insert_ne; [done | congruence]. }
  assert (Hstr : jis_string (<[a := Jvalue 1 (BStr s false)]> h) (Ptr a) = true
                 ∧ jstring_get_fast (<[a := Jvalue 1 (BStr s false)]> h) (Ptr a) = Some s
                 ∧ jstring_get (<[a := Jvalue 1 (BStr s false)]> h) (Ptr a) = Some s
                 ∧ jstring_size (<[a := Jvalue 1 (BStr s false)]> h) (Ptr a) = strlen s).
  { unfold jstring_get, jstring_get_fast, jstring_size, jis_string, has_type. cbn.
    rewrite Ha. cbn. done. }
  destruct Hstr as (H1 & H2 & H3 & H4).
  case_decide as Hlen.
  - assert (s = EmptyString) as -> by (destruct s; [done | unfold strlen in Hlen; cbn in Hlen; lia]).
    repeat split; try done; by apply Hcell.
  - repeat split; try done; by apply Hcell.
Qed.

(** ** Numbers *)

(** [jnumber_create] on a buffer that holds bytes. *)
Lemma jnumber_create_raw {B : Build} (s : string) (h : heap) :
  s ≠ EmptyString → jnumber_create (Some s) h = Some (alloc (Jvalue 1 (BNum (NUM_RAW s))) h).
Proof.
  intros Hs. assert (Hlen : 0 < strlen s).
  { unfold strlen. destruct s; [done | cbn; lia]. }
  unfold jnumber_create, jnumber_create_unsafe.
  change (m_len (Some s)) with (strlen s).
  rewrite !c_assert_true by (apply bool_decide_eq_true_2; (done || lia)).
  cbn [mbind option_bind]. by rewrite !decide_False by lia.
Qed.

(** X4: a number gives back what it was built from: [jnumber_get_i64] after
    [jnumber_create_i64] and [jnumber_create_i32], [jnumber_get_f64] after
    [jnumber_create_f64] on a finite double, [jnumber_get_raw] and
    [jnumber_deref_raw] after [jnumber_create] on a non-empty buffer, each
    with [CONV_OK].  For an empty buffer and for the buffer of the null
    pointer, [jnumber_create] answers the Invalid sentinel when the
    assertions are compiled out, and aborts on its assertions otherwise.
    [jnumber_get_raw] stores nothing for a number that is not raw. *)
Theorem jnumber_create_get_roundtrip {B : Build}
    (jstr_to_i64 : string → ConversionResultFlags * Z)
    (jstr_to_double : string → ConversionResultFlags * double)
    (jdouble_to_i64 : double → ConversionResultFlags * Z)
    (ji64_to_double : Z → ConversionResultFlags * double)
    (CONV_BAD_ARGS CONV_NOT_A_RAW_NUM : ConversionResultFlags)
    (i : Z) (d : double) (s : string) (h : heap) :
  (let '(r, h') := jnumber_create_i64 i h in
   jnumber_create_i32 i h = (r, h')
   ∧ jnumber_get_i64 jstr_to_i64 jdouble_to_i64 CONV_BAD_ARGS h' r = Some (CONV_OK, Some i)
   ∧ jnumber_get_raw CONV_BAD_ARGS CONV_NOT_A_RAW_NUM h' r = Some (CONV_NOT_A_RAW_NUM, None))
  ∧ (let '(r, h') := jnumber_create_f64 d h in
     if is_finite_double d
     then jnumber_get_f64 jstr_to_double ji64_to_double CONV_BAD_ARGS h' r
          = Some (CONV_OK, Some d)
     else r = JINVALID ∧ h' = h)
  ∧ (if decide (s = EmptyString)
     then jnumber_create (Some s) h = if NDEBUG then Some (JINVALID, h) else None
     else ∃ r h', jnumber_create (Some s) h = Some (r, h')
          ∧ jnumber_get_raw CONV_BAD_ARGS CONV_NOT_A_RAW_NUM h' r = Some (CONV_OK, Some s)
          ∧ jnumber_deref_raw CONV_BAD_ARGS CONV_NOT_A_RAW_NUM h' r = Some (Some s))
  ∧ jnumber_create None h = (if NDEBUG then Some (JINVALID, h) else None)
  ∧ jnumber_get_i64 jstr_to_i64 jdouble_to_i64 CONV_BAD_ARGS h NULL = Some (CONV_BAD_ARGS, None)
  ∧ jnumber_get_i64 jstr_to_i64 jdouble_to_i64 CONV_BAD_ARGS h JNULL
    = Some (CONV_BAD_ARGS, None).
Proof.
  split; [|split; [|split; [|repeat split]]].
  - unfold jnumber_create_i32, jnumber_create_i64.
    destruct (lookup_alloc (Jvalue 1 (BNum (NUM_INT i))) h) as (a & -> & _ & Ha).
    unfold jnumber_get_i64, jnumber_get_raw, jis_number, has_type. cbn.
    rewrite Ha. cbn. done.
  - unfold jnumber_create_f64.
    destruct d as [sg|sg| |sg m e]; cbn [isnan isinf is_finite_double]; try done.
    + destruct (lookup_alloc (Jvalue 1 (BNum (NUM_FLOAT (S754_zero sg)))) h)
        as (a & -> & _ & Ha).
      unfold jnumber_get_f64, jis_number, has_type. cbn. rewrite Ha. cbn. done.
    + destruct (lookup_alloc (Jvalue 1 (BNum (NUM_FLOAT (S754_finite sg m e)))) h)
        as (a & -> & _ & Ha).
      unfold jnumber_get_f64, jis_number, has_type. cbn. rewrite Ha. cbn. done.
  - destruct (decide (s = EmptyString)) as [->|Hs].
    + unfold jnumber_create, c_assert. by destruct NDEBUG.
    + rewrite (jnumber_create_raw s h Hs).
      destruct (lookup_alloc (Jvalue 1 (BNum (NUM_RAW s))) h) as (a & -> & _ & Ha).
      eexists _, _. split; [reflexivity|].
      unfold jnumber_deref_raw, jnumber_get_raw, jis_number, has_type. cbn.
      rewrite Ha. cbn. done.
  - unfold jnumber_create, c_assert. by destruct NDEBUG.
Qed.

(** ** Reference counts *)

Lemma wrap_int_id (z : Z) : - 2 ^ 31 ≤ z < 2 ^ 31 → wrap_int z = z.
Proof. intros Hz. unfold wrap_int. rewrite Z.mod_small by lia. lia. Qed.

Lemma wrap_int_succ_pred (z : Z) :
  - 2 ^ 31 ≤ z < 2 ^ 31 → wrap_int (wrap_int (z + 1) - 1) = z.
Proof.
  intros Hz. unfold wrap_int.
  destruct (decide (z = 2 ^ 31 - 1)) as [->|Hne]; [reflexivity|].
  rewrite (Z.mod_small (z + 1 + 2 ^ 31)) by lia.
  replace (z + 1 + 2 ^ 31 - 2 ^ 31 - 1 + 2 ^ 31) with (z + 2 ^ 31) by lia.
  rewrite Z.mod_small by lia. lia.
Qed.

Lemma set_refCnt_set_refCnt (a : nat) (n1 n2 : Z) (h : heap) (c : jvalue) :
  h !! a = Some c → m_refCnt c = n2 → set_refCnt a n2 (set_refCnt a n1 h) = h.
Proof.
  intros Ha Hc. apply map_eq. intros x. rewrite !lookup_set_refCnt.
  case_decide; [|done]. subst. rewrite Ha. cbn. by destruct c.
Qed.

(** X5: on a cell whose count is not 0, [jvalue_copy] returns the same
    pointer and adds one to the count (in 32-bit arithmetic), and
    [j_release] of that pointer then gives back the store as it was before
    the copy: nothing is destroyed. *)
Theorem jvalue_copy_release_roundtrip (fuel : nat) (h : heap) (a : nat) (c : jvalue) :
  h !! a = Some c → m_refCnt c ≠ 0 → - 2 ^ 31 ≤ m_refCnt c < 2 ^ 31 →
  ∃ h1, jvalue_copy (Ptr a) h = Some (Ptr a, h1)
        ∧ h1 !! a = Some (Jvalue (wrap_int (m_refCnt c + 1)) (m_body c))
        ∧ (∀ x, x ≠ a → h1 !! x = h !! x)
        ∧ j_release (S fuel) (Ptr a) h1 = Some h.
Proof.
  intros Ha Hnz Hrange. unfold jvalue_copy.
  rewrite decide_False by done. rewrite jis_const_Ptr, Ha. cbn.
  eexists. split; [reflexivity|].
  assert (H1 : set_refCnt a (wrap_int (m_refCnt c + 1)) h !! a
               = Some (Jvalue (wrap_int (m_refCnt c + 1)) (m_body c))).
  { by rewrite lookup_set_refCnt, decide_True, Ha. }
  split; [exact H1|]. split.
  - intros x Hx. by rewrite lookup_set_refCnt, decide_False.
  - cbn. rewrite decide_False by done. rewrite jis_const_Ptr, H1. cbn.
    rewrite wrap_int_succ_pred by done. rewrite decide_False by done.
    f_equal. by eapply set_refCnt_set_refCnt.
Qed.

(** A number with two owners. *)
Lemma jvalue_copy_release_roundtrip_witness :
  let h : heap := {[ 0%nat := Jvalue 2 (BNum (NUM_INT 7)) ]} in
  ∃ h1, jvalue_copy (Ptr 0) h = Some (Ptr 0, h1)
        ∧ h1 !! 0%nat = Some (Jvalue (wrap_int (2 + 1)) (BNum (NUM_INT 7)))
        ∧ (∀ x, x ≠ 0%nat → h1 !! x = h !! x)
        ∧ j_release 1 (Ptr 0) h1 = Some h.
Proof.
  intros h.
  apply (jvalue_copy_release_roundtrip 0 h 0 (Jvalue 2 (BNum (NUM_INT 7))));
    [reflexivity | cbn; lia | cbn; lia].
Defined.

(** ** Objects *)

Lemma jstring_deref_is_string (h : heap) (v : jvalue_ref) (s : string) :
  jstring_deref h v = Some s → jis_string h v = true.
Proof.
  unfold jis_string, has_type. intros H. apply bool_decide_eq_true.
  destruct v as [| | | | | |a]; try discriminate; [done|].
  cbn in *. destruct (h !! a) as [[cnt [| | |]]|]; try discriminate. done.
Qed.

Lemma jstring_size_deref (h : heap) (v : jvalue_ref) (s : string) :
  jstring_deref h v = Some s → jstring_size h v = strlen s.
Proof.
  intros H. unfold jstring_size. rewrite (jstring_deref_is_string _ _ _ H), H. done.
Qed.

Lemma strlen_zero (s : string) : strlen s = 0 ↔ s = EmptyString.
Proof. unfold strlen. destruct s; cbn; split; (done || lia). Qed.

Lemma object_not_string (h : heap) (o : nat) (cnt : Z) m :
  h !! o = Some (Jvalue cnt (BObject m)) →
  jis_string h (Ptr o) = false ∧ jis_object h (Ptr o) = true.
Proof.
  unfold jis_string, jis_object, has_type. cbn. intros ->. cbn.
  split; [by apply bool_decide_eq_false | by apply bool_decide_eq_true].
Qed.

Lemma jobject_put_success {B : Build} (fuel n : nat) (h : heap) (o : nat) (cnt : Z)
    (m : gmap string (jvalue_ref * jvalue_ref)) (key val : jvalue_ref) (kb : string) :
  wf_tree h (S n) (Ptr o) → h !! o = Some (Jvalue cnt (BObject m)) →
  jstring_deref h key = Some kb → kb ≠ EmptyString →
  wf_tree h (S n) val → val ≠ JINVALID → ¬ reach h val o → (S n < fuel)%nat →
  ∃ h', jobject_put fuel (Ptr o) key val h = Some (true, h')
        ∧ h' !! o = Some (Jvalue cnt (BObject (<[kb := (key, val)]> m)))
        ∧ (m !! kb = None → ∀ x, x ≠ o → h' !! x = h !! x).
Proof.
  intros Hwf Ho Hkey Hne Hval Hinv Hnr Hlt.
  destruct (object_not_string _ _ _ _ Ho) as [Hns Hobj].
  destruct (g_hash_table_replace_spec fuel n h o cnt m key val kb Hwf Ho Hkey)
    as (h' & E & Ho'); [lia|].
  exists h'. split; [|split; [exact Ho'|]].
  - assert (val ≠ NULL) by (intros ->; done).
    unfold jobject_put. rewrite c_assert_true by (by apply bool_decide_eq_true_2).
    cbn [mbind option_bind]. rewrite Hobj. cbn [negb].
    assert (key ≠ NULL) by (intros ->; discriminate).
    rewrite (decide_False (P := key = NULL)) by assumption.
    rewrite (jstring_deref_is_string _ _ _ Hkey). cbn [negb].
    rewrite (jstring_size_deref _ _ _ Hkey).
    rewrite (decide_False (P := strlen kb = 0)) by (by rewrite strlen_zero).
    rewrite (decide_False (P := val = NULL)) by assumption.
    assert (jis_valid val = true) as ->.
    { unfold jis_valid, jis_valid_unsafe. by rewrite !bool_decide_eq_true_2. }
    cbn [negb].
    destruct (check_insert_sanity_spec h o Hns fuel (S n) val Hval Hlt) as (b & -> & Hb).
    destruct b; [|exfalso; by apply Hnr, Hb].
    by rewrite E.
  - intros Hnone x Hx. unfold g_hash_table_replace in E. cbn in E. rewrite Ho in E.
    cbn in E. rewrite Hkey in E. cbn in E. rewrite Hnone in E. injection E as <-.
    by rewrite lookup_set_body, decide_False.
Qed.

Lemma jobject_get_exists_cell (h : heap) (o : nat) (cnt : Z)
    (m : gmap string (jvalue_ref * jvalue_ref)) (kb : string) :
  h !! o = Some (Jvalue cnt (BObject m)) →
  jobject_get_exists h (Ptr o) kb = snd <$> m !! kb
  ∧ jobject_size h (Ptr o) = Z.of_nat (size m).
Proof.
  intros Ho. unfold jobject_get_exists, jobject_size, jis_object, has_type. cbn.
  rewrite Ho. cbn. done.
Qed.



Lemma g_hash_table_remove_spec (fuel n : nat) (h : heap) (o : nat) (cnt : Z)
    (m : gmap string (jvalue_ref * jvalue_ref)) (kb : string) (old_key old_val : jvalue_ref) :
  wf_tree h (S n) (Ptr o) → h !! o = Some (Jvalue cnt (BObject m)) →
  m !! kb = Some (old_key, old_val) → (n < fuel)%nat →
  ∃ h', g_hash_table_remove fuel o kb h = Some (true, h')
        ∧ h' !! o = Some (Jvalue cnt (BObject (delete kb m)))
        ∧ shrink h h'.
Proof.
  intros Hwf Ho Hold Hlt. unfold g_hash_table_remove. cbn. rewrite Ho. cbn. rewrite Hold.
  set (h1 := set_body o (BObject (delete kb m)) h).
  assert (Ho1 : h1 !! o = Some (Jvalue cnt (BObject (delete kb m)))).
  { unfold h1. by rewrite lookup_set_body, decide_True, Ho. }
  assert (Hag : ∀ x, x ≠ o → h1 !! x = h !! x).
  { intros x Hx. unfold h1. by rewrite lookup_set_body, decide_False. }
  assert (Hs1 : shrink h h1).
  { eapply shrink_set_body; [exact Ho|]. cbn. apply delete_subseteq. }
  destruct (wf_tree_object h n o m Hwf) with (k := kb) (kr := old_key) (vr := old_val)
    as [Hks Hvw]; [cbn; by rewrite Ho | assumption |].
  assert (Hnk : ¬ reach h old_key o).
  { eapply wf_tree_acyclic; [exact Hwf | exact Ho | cbn; eauto 6]. }
  assert (Hnv : ¬ reach h old_val o).
  { eapply wf_tree_acyclic; [exact Hwf | exact Ho | cbn; eauto 6]. }
  destruct (j_release_ok fuel n Hlt h1 old_key) as (h2 & -> & Hs2 & Hf2).
  { right; left. eapply jis_string_le; [|exact Hks].
    intros x ->. eapply agree_except; [exact Hag | exact Hnk | constructor]. }
  cbn.
  destruct (j_release_ok fuel n Hlt h2 old_val) as (h3 & -> & Hs3 & Hf3).
  { right; right. eapply wf_tree_shrink; [exact Hs2|].
    eapply wf_tree_le; [|exact Hvw]. by eapply agree_except. }
  exists h3. split; [reflexivity|]. split.
  - rewrite Hf3, Hf2; [assumption | |].
    + intros Hr. apply Hnk. eapply reach_le; [|exact Hr]. by eapply agree_except.
    + intros Hr. apply Hnv. eapply reach_le; [by eapply agree_except|].
      by eapply reach_shrink.
  - eapply shrink_trans; [exact Hs1|]. eapply shrink_trans; [exact Hs2 | exact Hs3].
Qed.

(** X7: [jobject_remove] answers false on a value that is no object and on
    a key the object does not hold, and leaves the store as it is; on a key
    the object holds it answers true, after which the key is no longer found,
    every other key is found as before, the size is one less, and the object
    is still a tree of the store. *)
Theorem jobject_remove_spec (h : heap) (n fuel : nat) (o : nat) (kb : string)
    (v : jvalue_ref) :
  wf_tree h n (Ptr o) → jis_object h (Ptr o) = true → (n < fuel)%nat →
  (jis_object h v = false → jobject_remove fuel v kb h = Some (false, h))
  ∧ match jobject_get_exists h (Ptr o) kb with
    | None => jobject_remove fuel (Ptr o) kb h = Some (false, h)
    | Some _ =>
        ∃ h', jobject_remove fuel (Ptr o) kb h = Some (true, h')
              ∧ jobject_get_exists h' (Ptr o) kb = None
              ∧ (∀ kb', kb' ≠ kb →
                   jobject_get_exists h' (Ptr o) kb' = jobject_get_exists h (Ptr o) kb')
              ∧ jobject_size h' (Ptr o) = jobject_size h (Ptr o) - 1
              ∧ wf_tree h' n (Ptr o)
    end.
Proof.
  intros Hwo Hobj Hlt. split.
  { intros Hv. unfold jobject_remove. rewrite Hv. by destruct (jis_null v). }
  destruct (jis_object_deref _ _ Hobj) as (o' & [cnt body] & m & [= <-] & Ho & Hb).
  cbn in Hb. subst body. destruct (wf_tree_Ptr_depth _ _ _ Hwo) as [n' ->].
  rewrite (proj1 (jobject_get_exists_cell h o cnt _ kb Ho)).
  unfold jobject_remove. rewrite Hobj.
  change (jis_null (Ptr o)) with false. cbn [negb].
  destruct (m !! kb) as [[old_key old_val]|] eqn:Hold; cbn [fmap option_fmap option_map].
  - destruct (g_hash_table_remove_spec fuel n' h o cnt m kb old_key old_val Hwo Ho Hold)
      as (h' & E & Ho' & Hs); [lia|].
    exists h'. split; [exact E|].
    rewrite (proj1 (jobject_get_exists_cell h' o cnt _ kb Ho')).
    rewrite (proj2 (jobject_get_exists_cell h' o cnt _ kb Ho')).
    rewrite (proj2 (jobject_get_exists_cell h o cnt _ kb Ho)).
    split; [by rewrite lookup_delete_eq|]. split; [|split].
    + intros kb' Hkb'.
      rewrite (proj1 (jobject_get_exists_cell h' o cnt _ kb' Ho')).
      rewrite (proj1 (jobject_get_exists_cell h o cnt _ kb' Ho)).
      by rewrite lookup_delete_ne.
    + rewrite map_size_delete, Hold.
      assert (size m ≠ 0%nat); [|lia].
      intros Hz. apply map_size_empty_inv in Hz. subst. by rewrite lookup_empty in Hold.
    + by eapply wf_tree_shrink.
  - unfold g_hash_table_remove. cbn. rewrite Ho. cbn. by rewrite Hold.
Qed.

(** The object [{"a": 1}]. *)
Lemma jobject_remove_spec_witness :
  let h : heap := {[ 0%nat := Jvalue 1 (BObject {[ "a" := (Ptr 1, Ptr 2) ]});
                     1%nat := Jvalue 1 (BStr "a" false);
                     2%nat := Jvalue 1 (BNum (NUM_INT 1)) ]} in
  (jis_object h JTRUE = false → jobject_remove 3 JTRUE "a" h = Some (false, h))
  ∧ match jobject_get_exists h (Ptr 0) "a" with
    | None => jobject_remove 3 (Ptr 0) "a" h = Some (false, h)
    | Some _ =>
        ∃ h', jobject_remove 3 (Ptr 0) "a" h = Some (true, h')
              ∧ jobject_get_exists h' (Ptr 0) "a" = None
              ∧ (∀ kb', kb' ≠ "a" →
                   jobject_get_exists h' (Ptr 0) kb' = jobject_get_exists h (Ptr 0) kb')
              ∧ jobject_size h' (Ptr 0) = jobject_size h (Ptr 0) - 1
              ∧ wf_tree h' 2 (Ptr 0)
    end.
Proof.
  intros h.
  apply (jobject_remove_spec h 2 3 0 "a" JTRUE); try reflexivity; try lia.
  eapply wf_tree_object_intro; [reflexivity|].
  apply map_Forall_singleton. cbn [fst snd]. split; [reflexivity|].
  eapply wf_tree_leaf_intro; [reflexivity | by right].
Defined.

(** ** Counts across a failed [jobject_set] *)

Lemma lookup_add_refs (v : jvalue_ref) (k : Z) (h : heap) (x : nat) :
  add_refs v k h !! x
  = if decide (v = Ptr x) then (λ c, Jvalue (m_refCnt c + k) (m_body c)) <$> h !! x
    else h !! x.
Proof.
  destruct v as [| | | | | |a]; cbn; try (by rewrite decide_False).
  case_decide as Hx.
  - injection Hx as ->. by rewrite lookup_alter_eq.
  - rewrite lookup_alter_ne; [done | congruence].
Qed.

Lemma jvalue_copy_add_refs (v r : jvalue_ref) (h h1 : heap) :
  jvalue_copy v h = Some (r, h1) →
  (∀ a c, v = Ptr a → h !! a = Some c → - 2 ^ 31 ≤ m_refCnt c + 1 < 2 ^ 31) →
  r = v ∧ h1 = add_refs v 1 h ∧ ∀ a, v = Ptr a → is_Some (h !! a).
Proof.
  unfold jvalue_copy. intros H Hrange. case_decide as Hnull.
  - injection H as <- <-. subst. by repeat split.
  - destruct (jis_const h v) eqn:Hc.
    + injection H as <- <-.
      destruct v as [| | | | | |a]; try by repeat split.
      by rewrite jis_const_Ptr in Hc.
    + destruct v as [| | | | | |a]; try discriminate.
      destruct (h !! a) as [c|] eqn:Ha; [|discriminate]. cbn in H. injection H as <- <-.
      split; [done|]. split; [|intros ? [= <-]; by rewrite Ha].
      apply map_eq. intros x. rewrite lookup_set_refCnt, lookup_add_refs.
      case_decide as Hx.
      * subst. rewrite decide_True, Ha by done. cbn. f_equal. f_equal.
        apply wrap_int_id. by eapply Hrange.
      * rewrite decide_False; [done | congruence].
Qed.

Lemma j_release_add_refs (fuel : nat) (v : jvalue_ref) (h : heap) :
  (∀ a, v = Ptr a → ∃ c, h !! a = Some c ∧ 1 < m_refCnt c < 2 ^ 31) →
  j_release (S fuel) v h = Some (add_refs v (-1) h).
Proof.
  intros Hv. cbn [j_release]. case_decide as Hnull; [by subst|].
  destruct v as [| | | | | |a]; try done.
  rewrite jis_const_Ptr. destruct (Hv a eq_refl) as (c & Ha & Hc). rewrite Ha. cbn.
  rewrite wrap_int_id by lia. rewrite decide_False by lia. f_equal.
  apply map_eq. intros x. rewrite lookup_set_refCnt.
  change (alter ?f a h !! x) with (add_refs (Ptr a) (-1) h !! x).
  rewrite lookup_add_refs. case_decide as Hx.
  - subst. rewrite decide_True, Ha by done. cbn. do 2 f_equal.
  - rewrite decide_False; [done | congruence].
Qed.

(** ** An insertion that would close a cycle *)




Lemma jobject_put_failure {B : Build} (fuel : nat) (obj key val : jvalue_ref) (h h' : heap) :
  jobject_put fuel obj key val h = Some (false, h') →
  ∃ h1, j_release fuel key h = Some h1 ∧ j_release fuel val h1 = Some h'.
Proof.
  unfold jobject_put. intros H.
  destruct (c_assert _); [|discriminate]. cbn [mbind option_bind] in H.
  assert (Hrel : ∀ v, v = val ∨ v = jnull ∧ (val = NULL ∨ val = JINVALID) →
            (h1 ← j_release fuel key h; h2 ← j_release fuel v h1; Some (false, h2))
            = Some (false, h') →
            ∃ h1, j_release fuel key h = Some h1 ∧ j_release fuel val h1 = Some h').
  { intros v Hor Hv. destruct (j_release fuel key h) as [h1|]; [|discriminate]. cbn in Hv.
    destruct (j_release fuel v h1) as [h2|] eqn:E2; [|discriminate]. cbn in Hv.
    injection Hv as <-. exists h1. split; [reflexivity|].
    destruct Hor as [-> | [-> Hval]]; [assumption|].
    destruct fuel; [discriminate|]. cbn in E2. injection E2 as <-.
    destruct Hval as [-> | ->]; reflexivity. }
  destruct (negb (jis_object h obj)); [apply (Hrel val); [by left | assumption]|].
  destruct (decide (key = NULL)); [apply (Hrel val); [by left | assumption]|].
  destruct (negb (jis_string h key)); [apply (Hrel val); [by left | assumption]|].
  destruct (decide (jstring_size h key = 0)); [apply (Hrel val); [by left | assumption]|].
  destruct (check_insert_sanity fuel h obj _) as [[|]|] eqn:Hc; [| |discriminate].
  - destruct obj; try discriminate.
    destruct (g_hash_table_replace fuel a key _ h); discriminate.
  - eapply Hrel; [|exact H].
    destruct val; cbn; auto.
Qed.

(** X8: a [jobject_set2] that answers false leaves the store exactly as it
    was: the counts that [jvalue_copy] raised on the key and on the value are
    lowered again, and no cell is destroyed.  A [jobject_set] that answers
    false leaves every cell of the store as it was; what it adds is the cell
    of the key it copied, released again. *)
Theorem jobject_set_failure_restores {B : Build} (fuel : nat) (obj key val : jvalue_ref)
    (kbuf : raw_buffer) (h h2 h1 : heap) :
  live h key → live h val →
  (jobject_set2 (S fuel) obj key val h = Some (false, h2) → h2 = h)
  ∧ (jobject_set (S fuel) obj kbuf val h = Some (false, h1) →
     ∀ x c, h !! x = Some c → h1 !! x = Some c).
Proof.
  intros Hlk Hlv. split.
  - unfold jobject_set2. intros H.
    destruct (jvalue_copy key h) as [[new_key ha]|] eqn:Ek; [|discriminate]. cbn [mbind option_bind] in H.
    destruct (jvalue_copy_add_refs _ _ _ _ Ek) as (-> & -> & Hka).
    { intros a c -> Ha. destruct (Hlk a c eq_refl Ha). lia. }
    case_decide as Hknull; [subst; by injection H as <-|].
    destruct (jvalue_copy val _) as [[new_val hb]|] eqn:Ev; [|discriminate]. cbn [mbind option_bind] in H.
    assert (Hrange : ∀ a c, val = Ptr a → add_refs key 1 h !! a = Some c →
                       0 < m_refCnt c ∧ m_refCnt c + 1 < 2 ^ 31).
    { intros a c -> Ha. rewrite lookup_add_refs in Ha. case_decide as Hx.
      - destruct (h !! a) as [c0|] eqn:Ha0; [|discriminate]. cbn in Ha.
        injection Ha as <-. cbn. destruct (Hlv a c0 eq_refl Ha0). lia.
      - destruct (Hlv a c eq_refl Ha). lia. }
    destruct (jvalue_copy_add_refs _ _ _ _ Ev) as (-> & -> & Hva).
    { intros a c Hv Ha. destruct (Hrange a c Hv Ha). lia. }
    case_decide as Hvnull.
    + subst. cbn [add_refs] in H.
      rewrite j_release_add_refs in H.
      * cbn in H. injection H as <-. apply map_eq. intros x.
        rewrite !lookup_add_refs. case_decide; [|done].
        destruct (h !! x) as [[cnt body]|]; cbn; [|done]. do 2 f_equal. lia.
      * intros a ->. destruct (Hka a eq_refl) as [c Ha]. eexists. split.
        { by rewrite lookup_add_refs, decide_True, Ha. }
        cbn. destruct (Hlk a c eq_refl Ha). lia.
    + apply jobject_put_failure in H as (hc & Hr1 & Hr2).
      rewrite j_release_add_refs in Hr1.
      * injection Hr1 as <-. rewrite j_release_add_refs in Hr2.
        -- injection Hr2 as <-. apply map_eq. intros x.
           rewrite !lookup_add_refs.
           destruct (h !! x) as [[cnt body]|]; cbn; repeat case_decide; cbn;
             try done; do 2 f_equal; lia.
        -- intros a ->. destruct (Hva a eq_refl) as [c1 Ha1].
           rewrite lookup_add_refs in Ha1. rewrite !lookup_add_refs.
           rewrite (decide_True (P := Ptr a = Ptr a)) by done.
           destruct (h !! a) as [c|] eqn:Ha;
             [|destruct (decide (key = Ptr a)); cbn in Ha1; discriminate].
           destruct (Hlv a c eq_refl Ha).
           destruct (decide (key = Ptr a)); cbn; eexists; (split; [reflexivity|]); cbn; lia.
      * intros a ->. destruct (Hka a eq_refl) as [c Ha].
        rewrite !lookup_add_refs. rewrite (decide_True (P := Ptr a = Ptr a)) by done.
        rewrite Ha. destruct (Hlk a c eq_refl Ha).
        case_decide; cbn; eexists; (split; [reflexivity|]); cbn; lia.
  - unfold jobject_set. intros H.
    destruct (jobject_deref h obj) as [m|]; [|discriminate]. cbn [mbind option_bind] in H.
    destruct (jvalue_copy val h) as [[newVal ha]|] eqn:Ev; [|discriminate]. cbn [mbind option_bind] in H.
    destruct (jvalue_copy_add_refs _ _ _ _ Ev) as (-> & -> & Hva).
    { intros a c -> Ha. destruct (Hlv a c eq_refl Ha). lia. }
    unfold jstring_create_copy in H.
    destruct (lookup_alloc (Jvalue 1 (BStr (default EmptyString kbuf) false)) (add_refs val 1 h))
      as (ak & Ealloc & Hfresh & Hak).
    rewrite Ealloc in H. change (negb (jis_valid_unsafe (Ptr ak))) with false in H.
    cbv iota in H.
    apply jobject_put_failure in H as (hc & Hr1 & Hr2).
    cbn [j_release] in Hr1. rewrite decide_False in Hr1 by done.
    rewrite jis_const_Ptr, Hak in Hr1. cbn in Hr1. injection Hr1 as <-.
    assert (Hval : ∀ a, val = Ptr a → a ≠ ak ∧ ∃ c, h !! a = Some c).
    { intros a ->. destruct (Hva a eq_refl) as [c Ha]. split; [|by eexists].
      intros ->. rewrite lookup_add_refs, decide_True, Ha in Hfresh by done. discriminate. }
    rewrite j_release_add_refs in Hr2.
    + injection Hr2 as <-. intros x c Hx.
      assert (x ≠ ak).
      { intros ->. rewrite lookup_add_refs, Hx in Hfresh. by case_decide. }
      rewrite lookup_add_refs, lookup_set_refCnt.
      rewrite (decide_False (P := ak = x)) by congruence.
      rewrite lookup_insert_ne by congruence. rewrite lookup_add_refs, Hx.
      case_decide; cbn; [|done]. destruct c as [cnt body]. cbn. do 2 f_equal. lia.
    + intros a ->. destruct (Hval a eq_refl) as (Hne & c & Ha).
      rewrite lookup_set_refCnt, (decide_False (P := ak = a)) by congruence.
      rewrite lookup_insert_ne by congruence.
      rewrite lookup_add_refs, decide_True, Ha by done.
      destruct (Hlv a c eq_refl Ha). eexists. split; [reflexivity|]. cbn. lia.
Qed.

(** The object [{}] put into itself under ["k"], and set under the empty key. *)
Lemma jobject_set_failure_restores_witness :
  let B : Build := {| NDEBUG := false |} in
  let h : heap := {[ 0%nat := Jvalue 1 (BObject ∅); 1%nat := Jvalue 1 (BStr "k" false) ]} in
  let h1 : heap := <[ 2%nat := Jvalue 0 (BStr "" false) ]> h in
  jobject_set2 1 (Ptr 0) (Ptr 1) (Ptr 0) h = Some (false, h)
  ∧ jobject_set 1 (Ptr 0) (Some EmptyString) (Ptr 0) h = Some (false, h1)
  ∧ (jobject_set2 1 (Ptr 0) (Ptr 1) (Ptr 0) h = Some (false, h) → h = h)
  ∧ (jobject_set 1 (Ptr 0) (Some EmptyString) (Ptr 0) h = Some (false, h1) →
     ∀ x c, h !! x = Some c → h1 !! x = Some c).
Proof.
  intros B h h1. split; [vm_compute; reflexivity|]. split; [vm_compute; reflexivity|].
  apply (jobject_set_failure_restores 0 (Ptr 0) (Ptr 1) (Ptr 0) (Some EmptyString) h h h1).
  - intros a c [= <-] Hc. vm_compute in Hc. injection Hc as <-. cbn. lia.
  - intros a c [= <-] Hc. vm_compute in Hc. injection Hc as <-. cbn. lia.
Defined.

(** ** Stores that extend a store *)

Lemma extends_refl (h : heap) : extends h h.
Proof. intros x c Hx. by exists c. Qed.

Lemma extends_trans (h1 h2 h3 : heap) : extends h1 h2 → extends h2 h3 → extends h1 h3.
Proof.
  intros H12 H23 x c Hx. destruct (H12 x c Hx) as (c2 & Hx2 & Hb2).
  destruct (H23 x c2 Hx2) as (c3 & Hx3 & Hb3). exists c3. split; [done | congruence].
Qed.

Lemma extends_add_refs (v : jvalue_ref) (k : Z) (h : heap) : extends h (add_refs v k h).
Proof.
  intros x c Hx. rewrite lookup_add_refs, Hx. case_decide; cbn; eauto.
Qed.

Lemma extends_insert (a : nat) (c : jvalue) (h : heap) :
  h !! a = None → extends h (<[a := c]> h).
Proof.
  intros Ha x c' Hx. exists c'. split; [|done].
  rewrite lookup_insert_ne; [done | congruence].
Qed.

Lemma extends_alloc (c : jvalue) (h : heap) : extends h (snd (alloc c h)).
Proof.
  destruct (alloc_new_cell c h) as (a & -> & Ha). by apply extends_insert.
Qed.

Lemma extends_cell_le (h h' : heap) (n : nat) (v : jvalue_ref) :
  extends h h' → wf_tree h n v → ∀ a, reach h v a → cell_le h h' a.
Proof.
  intros Hext Hwf a Hr.
  destruct (releasable_cell h n a) as [c Ha]; [right; by eapply wf_tree_reach|].
  destruct (Hext a c Ha) as (c' & Ha' & Hb). unfold cell_le. rewrite Ha, Ha', Hb.
  apply body_le_refl.
Qed.

Lemma wf_tree_extends (h h' : heap) (n : nat) (v : jvalue_ref) :
  extends h h' → wf_tree h n v → wf_tree h' n v.
Proof. intros Hext Hwf. eapply wf_tree_le; [|exact Hwf]. by eapply extends_cell_le. Qed.

Lemma reach_extends (h h' : heap) (n : nat) (v : jvalue_ref) (x : nat) :
  extends h h' → wf_tree h n v → reach h' v x → reach h v x.
Proof. intros Hext Hwf. apply reach_le. by eapply extends_cell_le. Qed.

Lemma jstring_deref_extends (h h' : heap) (v : jvalue_ref) (s : string) :
  extends h h' → jstring_deref h v = Some s → jstring_deref h' v = Some s.
Proof.
  intros Hext. destruct v as [| | | | | |a]; try done. cbn.
  destruct (h !! a) as [c|] eqn:Ha; [|done].
  destruct (Hext a c Ha) as (c' & -> & Hb). cbn. by rewrite Hb.
Qed.

Lemma jvalue_copy_wf (h : heap) (n : nat) (v : jvalue_ref) :
  wf_tree h n v → ∃ h1, jvalue_copy v h = Some (v, h1).
Proof.
  intros Hwf. unfold jvalue_copy. case_decide; [subst; by destruct n|].
  destruct (jis_const h v) eqn:Hc; [eauto|].
  destruct v as [| | | | | |a]; try done.
  destruct (releasable_cell h n a (or_intror Hwf)) as [c ->]. cbn. eauto.
Qed.

(** X9: on an object that is a tree of the store, and for a valid value
    that does not contain the object, [jobject_set] with a buffer of bytes
    that is not empty succeeds, and so does [jobject_set2] with every key of
    the store that is a string with these bytes; [jobject_get] then finds
    the value under the bytes.  Unlike [jobject_put] they share the value
    with the caller: when the key was new, the count of the value is one
    more than before. *)
Theorem jobject_set_shares {B : Build} (h : heap) (n fuel : nat) (o : nat) (val : jvalue_ref)
    (kb : string) :
  wf_tree h n (Ptr o) → jis_object h (Ptr o) = true → kb ≠ EmptyString →
  wf_tree h n val → val ≠ JINVALID → ¬ reach h val o → live h val → (n < fuel)%nat →
  (∃ h', jobject_set fuel (Ptr o) (Some kb) val h = Some (true, h')
         ∧ jobject_get h' (Ptr o) kb = val
         ∧ (jobject_get_exists h (Ptr o) kb = None →
            ∀ a c, val = Ptr a → h !! a = Some c →
              h' !! a = Some (Jvalue (m_refCnt c + 1) (m_body c))))
  ∧ ∀ key, jstring_deref h key = Some kb → live h key →
      ∃ h', jobject_set2 fuel (Ptr o) key val h = Some (true, h')
            ∧ jobject_get h' (Ptr o) kb = val
            ∧ (jobject_get_exists h (Ptr o) kb = None → val ≠ key →
               ∀ a c, val = Ptr a → h !! a = Some c →
                 h' !! a = Some (Jvalue (m_refCnt c + 1) (m_body c))).
Proof.
  intros Hwo Hobj Hne Hwv Hinv Hnr Hlv Hlt.
  destruct (jis_object_deref _ _ Hobj) as (o' & [cnt body] & m & [= <-] & Ho & Hb).
  cbn in Hb. subst body. destruct (wf_tree_Ptr_depth _ _ _ Hwo) as [n' ->].
  assert (Hvo : ∀ a, val = Ptr a → a ≠ o).
  { intros a -> ->. apply Hnr. constructor. }
  assert (Hput : ∀ h2 k, extends h h2 → jstring_deref h2 k = Some kb →
            ∃ h', jobject_put fuel (Ptr o) k val h2 = Some (true, h')
                  ∧ jobject_get h' (Ptr o) kb = val
                  ∧ (jobject_get_exists h (Ptr o) kb = None →
                     ∀ x, x ≠ o → h' !! x = h2 !! x)).
  { intros h2 k Hext Hk. destruct (Hext o _ Ho) as ([cnt' body'] & Ho2 & Hb2).
    cbn in Hb2. subst body'.
    destruct (jobject_put_success fuel n' h2 o cnt' m k val kb)
      as (h' & E & Ho' & Hframe); try assumption.
    - by eapply wf_tree_extends.
    - by eapply wf_tree_extends.
    - intros Hr. apply Hnr. by eapply reach_extends.
    - exists h'. split; [exact E|]. split.
      + unfold jobject_get.
        rewrite (proj1 (jobject_get_exists_cell h' o cnt' _ kb Ho')).
        by rewrite lookup_insert_eq.
      + rewrite (proj1 (jobject_get_exists_cell h o cnt _ kb Ho)).
        intros Hnone. apply Hframe. by destruct (m !! kb). }
  split.
  - unfold jobject_set. cbn [jobject_deref]. rewrite Ho. cbn [fmap option_fmap option_map m_body mbind option_bind].
    destruct (jvalue_copy_wf h _ val Hwv) as [hv Ev]. rewrite Ev.
    cbn [mbind option_bind].
    destruct (jvalue_copy_add_refs _ _ _ _ Ev) as (_ & -> & _).
    { intros a c -> Ha. destruct (Hlv a c eq_refl Ha). lia. }
    unfold jstring_create_copy. change (default EmptyString (Some kb)) with kb.
    destruct (lookup_alloc (Jvalue 1 (BStr kb false)) (add_refs val 1 h))
      as (ak & -> & Hfresh & Hak).
    change (negb (jis_valid_unsafe (Ptr ak))) with false. cbv iota.
    destruct (Hput (<[ak := Jvalue 1 (BStr kb false)]> (add_refs val 1 h)) (Ptr ak))
      as (h' & E & Hget & Hframe).
    { eapply extends_trans; [apply extends_add_refs | by apply extends_insert]. }
    { cbn. by rewrite Hak. }
    exists h'. split; [exact E|]. split; [exact Hget|].
    intros Hnone a c -> Ha. rewrite (Hframe Hnone) by (by apply Hvo).
    assert (a ≠ ak).
    { intros ->. rewrite lookup_add_refs, decide_True, Ha in Hfresh by done. discriminate. }
    rewrite lookup_insert_ne by congruence.
    by rewrite lookup_add_refs, decide_True, Ha.
  - intros key Hkey Hlk. unfold jobject_set2.
    assert (Hwk : wf_tree h (S n') key).
    { apply jis_string_wf_tree. by eapply jstring_deref_is_string. }
    destruct (jvalue_copy_wf h _ key Hwk) as [hk Ek]. rewrite Ek.
    cbn [mbind option_bind].
    destruct (jvalue_copy_add_refs _ _ _ _ Ek) as (_ & -> & _).
    { intros a c -> Ha. destruct (Hlk a c eq_refl Ha). lia. }
    assert (key ≠ NULL) by (intros ->; discriminate).
    rewrite (decide_False (P := key = NULL)) by assumption.
    assert (Hwv1 : wf_tree (add_refs key 1 h) (S n') val).
    { eapply wf_tree_extends; [apply extends_add_refs | assumption]. }
    destruct (jvalue_copy_wf _ _ val Hwv1) as [hv Ev]. rewrite Ev.
    cbn [mbind option_bind].
    destruct (jvalue_copy_add_refs _ _ _ _ Ev) as (_ & -> & _).
    { intros a c -> Ha. rewrite lookup_add_refs in Ha.
      destruct (h !! a) as [c0|] eqn:Ha0; [|by case_decide].
      destruct (Hlv a c0 eq_refl Ha0).
      case_decide; cbn in Ha; injection Ha as <-; cbn; lia. }
    assert (val ≠ NULL) by (intros ->; done).
    rewrite (decide_False (P := val = NULL)) by assumption.
    destruct (Hput (add_refs val 1 (add_refs key 1 h)) key) as (h' & E & Hget & Hframe).
    { eapply extends_trans; apply extends_add_refs. }
    { eapply jstring_deref_extends; [|exact Hkey].
      eapply extends_trans; apply extends_add_refs. }
    exists h'. split; [exact E|]. split; [exact Hget|].
    intros Hnone Hvk a c -> Ha. rewrite (Hframe Hnone) by (by apply Hvo).
    rewrite lookup_add_refs, decide_True by done.
    rewrite lookup_add_refs, decide_False, Ha by congruence. done.
Qed.

(** The object [{"a": 1}], the key ["b"] and a number that has one owner. *)
Lemma jobject_set_shares_witness :
  let B : Build := {| NDEBUG := false |} in
  let h : heap := {[ 0%nat := Jvalue 1 (BObject {[ "a" := (Ptr 1, Ptr 2) ]});
                     1%nat := Jvalue 1 (BStr "a" false);
                     2%nat := Jvalue 1 (BNum (NUM_INT 1));
                     3%nat := Jvalue 1 (BStr "b" false);
                     4%nat := Jvalue 1 (BNum (NUM_INT 2)) ]} in
  (∃ h', jobject_set 3 (Ptr 0) (Some "b") (Ptr 4) h = Some (true, h')
         ∧ jobject_get h' (Ptr 0) "b" = Ptr 4
         ∧ (jobject_get_exists h (Ptr 0) "b" = None →
            ∀ a c, Ptr 4 = Ptr a → h !! a = Some c →
              h' !! a = Some (Jvalue (m_refCnt c + 1) (m_body c))))
  ∧ (∃ h', jobject_set2 3 (Ptr 0) (Ptr 3) (Ptr 4) h = Some (true, h')
           ∧ jobject_get h' (Ptr 0) "b" = Ptr 4
           ∧ (jobject_get_exists h (Ptr 0) "b" = None → Ptr 4 ≠ Ptr 3 →
              ∀ a c, Ptr 4 = Ptr a → h !! a = Some c →
                h' !! a = Some (Jvalue (m_refCnt c + 1) (m_body c)))).
Proof.
  intros B h.
  destruct (jobject_set_shares h 2 3 0 (Ptr 4) "b") as [Hset Hset2];
    try reflexivity; try discriminate; try lia.
  - eapply wf_tree_object_intro; [reflexivity|].
    apply map_Forall_singleton. cbn [fst snd]. split; [reflexivity|].
    eapply wf_tree_leaf_intro; [reflexivity | by right].
  - intros Hr. eapply reach_leaf in Hr; [discriminate | reflexivity | intros v Hc; exact Hc].
  - intros a c [= <-] Hc. vm_compute in Hc. injection Hc as <-. cbn. lia.
  - split; [exact Hset|]. apply (Hset2 (Ptr 3)); [reflexivity|].
    intros a c [= <-] Hc. vm_compute in Hc. injection Hc as <-. cbn. lia.
Defined.

(** X10: [jobject_get_nested] follows its keys one object after the other:
    a list of keys splits anywhere into a lookup followed by a lookup, one
    key is [jobject_get], no key is the value itself, and the result is the
    Invalid sentinel as soon as one key is not found. *)
Theorem jobject_get_nested_app (h : heap) (obj : jvalue_ref) (key : string)
    (keys1 keys2 : list string) :
  jobject_get_nested h obj (keys1 ++ keys2)
  = jobject_get_nested h (jobject_get_nested h obj keys1) keys2
  ∧ jobject_get_nested h obj [key] = jobject_get h obj key
  ∧ jobject_get_nested h obj [] = obj
  ∧ jobject_get_nested h JINVALID keys1 = JINVALID
  ∧ (jobject_get h obj key = JINVALID →
     jobject_get_nested h obj (key :: keys1) = JINVALID).
Proof.
  assert (Hinv : ∀ keys, jobject_get_nested h JINVALID keys = JINVALID).
  { by intros [|k keys]. }
  split; [|split; [|split; [done|split; [apply Hinv|]]]].
  - revert obj. induction keys1 as [|k keys1 IH]; intros obj; [done|]. cbn.
    destruct (jobject_get_exists h obj k) as [v|]; [apply IH|].
    by rewrite Hinv.
  - cbn. unfold jobject_get. by destruct (jobject_get_exists h obj key).
  - unfold jobject_get. cbn. destruct (jobject_get_exists h obj key) as [v|]; [|done].
    cbn. intros ->. apply Hinv.
Qed.

(** ** Arrays as lists of elements *)

Lemma not_reach_absent (h : heap) (n : nat) (e : jvalue_ref) (s : nat) :
  h !! s = None → e = NULL ∨ wf_tree h n e → ¬ reach h e s.
Proof.
  intros Hs [-> | Hwf] Hr; [by eapply reach_NULL|].
  destruct (releasable_cell h n s) as [c Hc]; [right; by eapply wf_tree_reach|].
  congruence.
Qed.

Lemma ext_ok_single (h : heap) (n d : nat) (E : list jvalue_ref) :
  is_Some (h !! d) →
  (∀ e, e ∈ E → e = NULL ∨ wf_tree h n e ∧ ¬ reach h e d) →
  ∃ s, d ≠ s ∧ h !! s = None ∧ ext_ok h n d s E.
Proof.
  intros [c Hd] HE. exists (fresh (dom h)).
  assert (Hs : h !! fresh (dom h) = None) by apply not_elem_of_dom, is_fresh.
  split; [intros ->; congruence|]. split; [exact Hs|].
  intros e He. destruct (HE e He) as [-> | [Hw Hn]]; [by left|]. right.
  split; [assumption|]. split; [assumption|]. eapply not_reach_absent; eauto.
Qed.

Lemma array_as_dst (h : heap) (n a : nat) :
  wf_tree h n (Ptr a) → jis_array h (Ptr a) = true →
  ∃ n' cnt pad, n = S n' ∧ dst_state h a cnt (elements h (Ptr a)) pad
    ∧ jarray_size h (Ptr a) = Z.of_nat (length (elements h (Ptr a)))
    ∧ ∀ e, e ∈ elements h (Ptr a) → e = NULL ∨ wf_tree h n' e ∧ ¬ reach h e a.
Proof.
  intros Hwf Harr.
  destruct (wf_array_cell h n (Ptr a) Hwf Harr)
    as (a' & n' & cnt & arr & [= <-] & -> & Ha & Hok & Hs).
  exists n', cnt, (length (m_slots arr) - Z.to_nat (m_size arr))%nat.
  assert (Hel : elements h (Ptr a) = take (Z.to_nat (m_size arr)) (m_slots arr)).
  { unfold elements. cbn. by rewrite Ha. }
  destruct Hok as [Hb Hnull]. unfold m_capacity in Hb.
  assert (Hlen : Z.of_nat (length (elements h (Ptr a))) = m_size arr).
  { rewrite Hel, length_take. lia. }
  split; [done|]. split; [|split].
  - unfold dst_state. rewrite Ha, Hlen, Hel. do 3 f_equal. destruct arr as [sz sl]. cbn in *.
    f_equal. apply (array_ok_slots (Jarray sz sl)). split; [exact Hb | exact Hnull].
  - rewrite Hlen. unfold jarray_size. rewrite Harr. unfold jarray_size_unsafe. cbn.
    by rewrite Ha.
  - intros e He. apply Hs. rewrite Hel in He. by eapply elem_of_take_slots.
Qed.

Lemma dst_state_wf (h : heap) (n d : nat) (cnt : Z) (elems : list jvalue_ref) (pad : nat) :
  dst_state h d cnt elems pad → (∀ e, e ∈ elems → e = NULL ∨ wf_tree h n e) →
  wf_tree h (S n) (Ptr d).
Proof.
  intros Hd He. eapply wf_tree_array_intro; [exact Hd | |].
  - apply array_ok_intro; cbn [m_size m_slots].
    + rewrite length_app. lia.
    + rewrite Nat2Z.id, drop_app_length. apply Forall_forall. by intros x [-> _]%elem_of_replicate.
  - cbn [m_slots]. apply Forall_forall. intros e [Hin | [-> _]%elem_of_replicate]%elem_of_app;
      [by apply He | by left].
Qed.

Lemma insert_replicate_split {A} (P j : nat) (x v : A) :
  (j < P)%nat → <[j := v]> (replicate P x) = replicate j x ++ v :: replicate (P - S j) x.
Proof.
  revert j. induction P as [|P IH]; intros [|j] Hj; cbn; try lia.
  - by rewrite Nat.sub_0_r.
  - f_equal. apply IH. lia.
Qed.

(** [jarray_put_unsafe] at or after the end of the elements: the slots in
    between stay NULL. *)
Lemma put_end_dst (fuel n : nat) (h : heap) (d : nat) (cnt : Z) (elems : list jvalue_ref)
    (pad i : nat) (val : jvalue_ref) :
  dst_state h d cnt elems pad → (length elems ≤ i)%nat → (n < fuel)%nat →
  check_insert_sanity fuel h (Ptr d) val = Some true →
  ∃ h' pad', jarray_put_unsafe fuel (Ptr d) (Z.of_nat i) val h = Some (true, h')
             ∧ dst_state h' d cnt (elems ++ replicate (i - length elems) NULL ++ [val]) pad'
             ∧ ∀ x, x ≠ d → h' !! x = h !! x.
Proof.
  intros Hd Hi Hlt Hcheck.
  assert (Hold : default NULL ((elems ++ replicate pad NULL) !! i) = NULL).
  { destruct ((elems ++ replicate pad NULL) !! i) as [v|] eqn:Hv; [|done].
    rewrite lookup_app_r in Hv by lia. by apply lookup_replicate in Hv as [-> _]. }
  destruct (jarray_put_unsafe_spec fuel n h d cnt _ (Z.of_nat i) val Hd)
    as (h' & E & Hd' & _ & Hframe); try assumption.
  - lia.
  - left. cbn [m_slots]. by rewrite Nat2Z.id.
  - cbn [m_slots]. rewrite Nat2Z.id, Hold. apply reach_NULL.
  - exists h', ((pad `max` (S i - length elems)) - (S i - length elems))%nat.
    split; [exact E|]. split.
    + unfold dst_state. rewrite Hd'. unfold m_capacity. cbn [m_size m_slots].
      rewrite Nat2Z.id, !length_app, !length_replicate. cbn [length].
      do 3 f_equal. f_equal; [lia|].
      rewrite <- (app_assoc elems), <- replicate_add.
      rewrite insert_app_r_alt by lia.
      rewrite insert_replicate_split by lia.
      rewrite <- !app_assoc. cbn [app]. do 3 f_equal. f_equal. lia.
    + intros x Hx. apply Hframe; [assumption|].
      cbn [m_slots]. rewrite Nat2Z.id, Hold. apply reach_NULL.
Qed.

Lemma check_insert_sanity_outside (fuel n : nat) (h : heap) (d : nat) (val : jvalue_ref) :
  jis_string h (Ptr d) = false → val = NULL ∨ wf_tree h n val ∧ ¬ reach h val d →
  (n < fuel)%nat → check_insert_sanity fuel h (Ptr d) val = Some true.
Proof.
  intros Hns [-> | [Hw Hnr]] Hlt.
  - destruct fuel; [lia|]. by apply check_insert_sanity_leaf.
  - destruct (check_insert_sanity_spec h d Hns fuel n val Hw Hlt) as (b & -> & Hb).
    destruct b; [reflexivity|]. exfalso. by apply Hnr, Hb.
Qed.

Lemma elements_wf_le (h h' : heap) (n d : nat) (E : list jvalue_ref) :
  (∀ x, x ≠ d → h' !! x = h !! x) →
  (∀ e, e ∈ E → e = NULL ∨ wf_tree h n e ∧ ¬ reach h e d) →
  ∀ e, e ∈ E → e = NULL ∨ wf_tree h' n e ∧ ¬ reach h' e d.
Proof.
  intros Hframe HE e He. destruct (HE e He) as [-> | [Hw Hn]]; [by left|]. right.
  assert (Hle : ∀ x, reach h e x → cell_le h h' x) by (by eapply agree_except).
  split; [by eapply wf_tree_le|]. intros Hr. apply Hn. by eapply reach_le.
Qed.

Lemma jarray_get_dst (h : heap) (d : nat) (cnt : Z) (elems : list jvalue_ref) (pad i : nat) :
  dst_state h d cnt elems pad →
  jarray_get h (Ptr d) (Z.of_nat i)
  = match elems !! i with
    | Some v => if decide (v = NULL) then JINVALID else v
    | None => JINVALID
    end.
Proof.
  intros Hd. unfold jarray_get, valid_index_bounded, has_type, jarray_size_unsafe. cbn.
  rewrite Hd. cbn. rewrite decide_False by lia.
  destruct (decide (i < length elems)%nat) as [Hi|Hi].
  - rewrite decide_False by lia. cbn. rewrite slot_get_nat.
    destruct (lookup_lt_is_Some_2 elems i Hi) as [v Hv].
    by rewrite lookup_app_l, Hv by assumption.
  - rewrite decide_True by lia. cbn. by rewrite lookup_ge_None_2 by lia.
Qed.

Lemma elem_of_list_insert_inv {A} (l : list A) (i : nat) (v e : A) :
  e ∈ <[i := v]> l → e = v ∨ e ∈ l.
Proof.
  intros [j Hj]%list_elem_of_lookup_1. destruct (decide (i = j)) as [->|Hne].
  - left. destruct (decide (j < length l)%nat).
    + rewrite list_lookup_insert_eq in Hj by done. congruence.
    + rewrite lookup_ge_None_2 in Hj; [done|]. rewrite length_insert. lia.
  - right. rewrite list_lookup_insert_ne in Hj by done. by eapply list_elem_of_lookup_2.
Qed.

Lemma jarray_put_unsafe_elements (h : heap) (n fuel a : nat) (index : Z) (val : jvalue_ref) :
  wf_tree h n (Ptr a) → jis_array h (Ptr a) = true → 0 ≤ index →
  val = NULL ∨ wf_tree h n val ∧ ¬ reach h val a → (n < fuel)%nat →
  ∃ h' cnt pad,
    jarray_put_unsafe fuel (Ptr a) index val h = Some (true, h')
    ∧ dst_state h' a cnt
        (if decide (index < jarray_size h (Ptr a))
         then <[Z.to_nat index := val]> (elements h (Ptr a))
         else elements h (Ptr a)
              ++ replicate (Z.to_nat (index - jarray_size h (Ptr a))) NULL ++ [val]) pad
    ∧ wf_tree h' (S n) (Ptr a)
    ∧ (jarray_size h (Ptr a) ≤ index → ∀ x, x ≠ a → h' !! x = h !! x).
Proof.
  intros Hwf Harr Hi Hval Hlt.
  destruct (array_as_dst h n a Hwf Harr) as (n' & cnt & pad & -> & Hd & Hsz & Hel).
  set (els := elements h (Ptr a)) in *. rewrite Hsz.
  assert (HE : ∀ e, e ∈ els ++ [val] → e = NULL ∨ wf_tree h (S n') e ∧ ¬ reach h e a).
  { intros e [He | ->%list_elem_of_singleton]%elem_of_app; [|assumption].
    destruct (Hel e He) as [-> | [Hw Hn]]; [by left|]. right. split; [|assumption].
    by apply wf_tree_mono. }
  destruct (dst_state_not_string a h cnt els pad Hd) as [Hns _].
  case_decide as Hin.
  - destruct (ext_ok_single h (S n') a (els ++ [val])) as (s & Hds & Hs & Hok);
      [by rewrite Hd | exact HE |].
    destruct (lookup_lt_is_Some_2 els (Z.to_nat index)) as [old Hold]; [lia|].
    destruct (put_dst a s (S n') fuel (els ++ [val]) Hds Hlt h cnt els pad (Z.to_nat index)
                old val Hok Hd Hold) as (h' & E & Hd' & _ & Hok').
    { apply elem_of_app. left. by eapply list_elem_of_lookup_2. }
    { apply elem_of_app. right. by apply list_elem_of_singleton. }
    rewrite Z2Nat.id in E by assumption.
    exists h', cnt, pad. split; [exact E|]. split; [exact Hd'|]. split; [|lia].
    eapply dst_state_wf; [exact Hd'|]. intros e He.
    assert (Hin' : e ∈ els ++ [val]).
    { apply elem_of_app. apply elem_of_list_insert_inv in He as [-> | He]; [right | by left].
      by apply list_elem_of_singleton. }
    destruct (Hok' e Hin') as [-> | [Hw _]]; auto.
  - destruct (put_end_dst fuel (S n') h a cnt els pad (Z.to_nat index) val Hd)
      as (h' & pad' & E & Hd' & Hframe); [lia | assumption | |].
    { by eapply check_insert_sanity_outside. }
    rewrite Z2Nat.id in E by assumption.
    replace (Z.to_nat (index - Z.of_nat (length els)))
      with (Z.to_nat index - length els)%nat by lia.
    exists h', cnt, pad'. split; [exact E|]. split; [exact Hd'|]. split; [|by intros _].
    eapply dst_state_wf; [exact Hd'|]. intros e He.
    assert (Hin' : e = NULL ∨ e ∈ els ++ [val]).
    { apply elem_of_app in He as [He | He]; [right; apply elem_of_app; by left|].
      apply elem_of_app in He as [[-> _]%elem_of_replicate | He]; [by left|].
      right. apply elem_of_app. by right. }
    destruct Hin' as [-> | Hin']; [by left|].
    destruct (elements_wf_le h h' (S n') a (els ++ [val]) Hframe HE e Hin') as [-> | [Hw _]];
      auto.
Qed.

(** X11: on an array that is a tree of the store, [jarray_append] of a
    value that does not contain the array succeeds: the elements are those
    before followed by the value (the Null singleton for the C null
    pointer), the size is one more, the array is still a tree of the store
    and no other cell changed, so the array took over the caller's
    reference. *)
Theorem jarray_append_elements (h : heap) (n fuel a : nat) (val : jvalue_ref) :
  wf_tree h n (Ptr a) → jis_array h (Ptr a) = true →
  val = NULL ∨ wf_tree h n val ∧ ¬ reach h val a → (n < fuel)%nat →
  ∃ h', jarray_append fuel (Ptr a) val h = Some (true, h')
        ∧ elements h' (Ptr a)
          = elements h (Ptr a) ++ [if decide (val = NULL) then JNULL else val]
        ∧ jarray_size h' (Ptr a) = jarray_size h (Ptr a) + 1
        ∧ wf_tree h' (S n) (Ptr a)
        ∧ ∀ x, x ≠ a → h' !! x = h !! x.
Proof.
  intros Hwf Harr Hval Hlt.
  set (val' := if decide (val = NULL) then JNULL else val).
  assert (Hval' : val' = NULL ∨ wf_tree h n val' ∧ ¬ reach h val' a).
  { unfold val'. case_decide; [|assumption]. right. split; [by destruct n|].
    intros Hr. inversion Hr. }
  assert (Hsz : jarray_size h (Ptr a) = jarray_size_unsafe h (Ptr a)).
  { unfold jarray_size. by rewrite Harr. }
  assert (0 ≤ jarray_size h (Ptr a)).
  { rewrite Hsz. by eapply jarray_size_unsafe_nonneg. }
  destruct (jarray_put_unsafe_elements h n fuel a (jarray_size h (Ptr a)) val' Hwf Harr)
    as (h' & cnt & pad & E & Hd & Hwf' & Hframe); try assumption.
  rewrite decide_False, Z.sub_diag in Hd by lia.
  change (replicate (Z.to_nat 0) NULL ++ [val']) with [val'] in Hd.
  exists h'. split; [|split; [|split; [|split]]].
  - unfold jarray_append. rewrite Harr. cbn [negb]. fold jnull. unfold jnull.
    fold val'. by rewrite <- Hsz.
  - by destruct (elements_dst_state _ _ _ _ _ Hd).
  - destruct (elements_dst_state _ _ _ _ _ Hd) as [_ ->].
    destruct (array_as_dst h n a Hwf Harr) as (_ & _ & _ & _ & _ & -> & _).
    rewrite length_app. cbn. lia.
  - assumption.
  - apply Hframe. lia.
Qed.

(** The array [[1]] and a number. *)
Lemma jarray_append_elements_witness :
  let h : heap := {[ 0%nat := Jvalue 1 (BArray (Jarray 1 [Ptr 1; NULL]));
                     1%nat := Jvalue 1 (BNum (NUM_INT 1));
                     2%nat := Jvalue 1 (BNum (NUM_INT 2)) ]} in
  ∃ h', jarray_append 3 (Ptr 0) (Ptr 2) h = Some (true, h')
        ∧ elements h' (Ptr 0)
          = elements h (Ptr 0) ++ [if decide (Ptr 2 = NULL) then JNULL else Ptr 2]
        ∧ jarray_size h' (Ptr 0) = jarray_size h (Ptr 0) + 1
        ∧ wf_tree h' 3 (Ptr 0)
        ∧ ∀ x, x ≠ 0%nat → h' !! x = h !! x.
Proof.
  intros h. apply (jarray_append_elements h 2 3 0 (Ptr 2)); try reflexivity; try lia.
  - eapply wf_tree_array_intro; [reflexivity | apply array_ok_intro; cbn; [lia|] |].
    + repeat constructor.
    + cbn [m_slots]. constructor; [right | constructor; [by left | constructor]].
      eapply wf_tree_leaf_intro; [reflexivity | by right].
  - right. split; [eapply wf_tree_leaf_intro; [reflexivity | by right]|].
    intros Hr. eapply reach_leaf in Hr; [discriminate | reflexivity | intros v Hc; exact Hc].
Defined.

Lemma lookup_middle_end (els : list jvalue_ref) (k : nat) (val : jvalue_ref) :
  (els ++ replicate k NULL ++ [val]) !! (length els + k)%nat = Some val
  ∧ ∀ i, (length els ≤ i < length els + k)%nat →
      (els ++ replicate k NULL ++ [val]) !! i = Some NULL.
Proof.
  split.
  - rewrite lookup_app_r by lia. rewrite lookup_app_r by (rewrite length_replicate; lia).
    rewrite length_replicate. by replace (length els + k - length els - k)%nat with 0%nat by lia.
  - intros i Hi. rewrite lookup_app_r by lia.
    rewrite lookup_app_l by (rewrite length_replicate; lia).
    apply lookup_replicate. split; [done | lia].
Qed.



Lemma reach_extends_fwd (h h' : heap) (v : jvalue_ref) (x : nat) :
  extends h h' → reach h v x → reach h' v x.
Proof.
  intros Hext Hr. induction Hr as [a | a c v b Ha Hc Hr IH]; [constructor|].
  destruct (Hext a c Ha) as (c' & Ha' & Hb).
  eapply reach_step; [exact Ha' | by rewrite Hb | exact IH].
Qed.

Lemma m_type_extends (h h' : heap) (v : jvalue_ref) (t : JValueType) :
  extends h h' → m_type h v = Some t → m_type h' v = Some t.
Proof.
  intros Hext. destruct v as [| | | | | |a]; try done. cbn.
  destruct (h !! a) as [c|] eqn:Ha; [|done].
  destruct (Hext a c Ha) as (c' & -> & Hb). cbn. by rewrite Hb.
Qed.

Lemma has_type_extends (h h' : heap) (v : jvalue_ref) (t : JValueType) :
  extends h h' → has_type h v t = true → has_type h' v t = true.
Proof.
  unfold has_type. intros Hext H%bool_decide_eq_true. apply bool_decide_eq_true.
  by eapply m_type_extends.
Qed.

Lemma elements_extends (h h' : heap) (a : nat) :
  extends h h' → is_Some (h !! a) →
  elements h' (Ptr a) = elements h (Ptr a) ∧ jarray_size h' (Ptr a) = jarray_size h (Ptr a).
Proof.
  intros Hext [c Ha]. destruct (Hext a c Ha) as (c' & Ha' & Hb).
  unfold elements, jarray_size, jis_array, has_type, jarray_size_unsafe. cbn.
  rewrite Ha, Ha'. cbn. by rewrite Hb.
Qed.

(** X13: [jarray_set] stores a copy of the reference.  For a value that
    contains the array it answers false, and the count that [jvalue_copy]
    raised stays raised: the reference it took is never released.  For a
    value that does not contain the array it succeeds at an index up to the
    capacity of the array, where the array grows by one slot at most, and
    [jarray_get] then answers the value at the index; written at or after
    the end, the value has one owner more than before. *)
Theorem jarray_set_copies (h : heap) (n fuel a : nat) (index : Z) (val : jvalue_ref) :
  wf_tree h n (Ptr a) → jis_array h (Ptr a) = true → 0 ≤ index →
  wf_tree h n val → live h val → (n < fuel)%nat →
  (reach h val a → jarray_set fuel (Ptr a) index val h = Some (false, add_refs val 1 h))
  ∧ (¬ reach h val a → index ≤ jarray_capacity h (Ptr a) →
     ∃ h', jarray_set fuel (Ptr a) index val h = Some (true, h')
           ∧ jarray_get h' (Ptr a) index = val
           ∧ (jarray_size h (Ptr a) ≤ index →
              ∀ x c, val = Ptr x → h !! x = Some c →
                h' !! x = Some (Jvalue (m_refCnt c + 1) (m_body c)))).
Proof.
  intros Hwf Harr Hi Hwv Hlv Hlt.
  assert (Hnn : val ≠ NULL) by (intros ->; by destruct n).
  destruct (jvalue_copy_wf h n val Hwv) as [h1 Ev].
  destruct (jvalue_copy_add_refs _ _ _ _ Ev) as (_ & -> & _).
  { intros x c -> Hx. destruct (Hlv x c eq_refl Hx). lia. }
  assert (Hext : extends h (add_refs val 1 h)) by apply extends_add_refs.
  assert (Hset : jarray_set fuel (Ptr a) index val h
                 = jarray_put_unsafe fuel (Ptr a) index val (add_refs val 1 h)).
  { unfold jarray_set. rewrite Harr. cbn [negb]. rewrite decide_False by lia.
    rewrite (decide_False (P := val = NULL)) by assumption. rewrite Ev.
    cbn [mbind option_bind]. by rewrite (decide_False (P := val = NULL)) by assumption. }
  rewrite Hset.
  assert (Hwf1 : wf_tree (add_refs val 1 h) n (Ptr a)) by (by eapply wf_tree_extends).
  assert (Harr1 : jis_array (add_refs val 1 h) (Ptr a) = true) by (by eapply has_type_extends).
  assert (Hwv1 : wf_tree (add_refs val 1 h) n val) by (by eapply wf_tree_extends).
  split.
  - intros Hr. unfold jarray_put_unsafe.
    assert (Hns : jis_string (add_refs val 1 h) (Ptr a) = false).
    { unfold jis_string, jis_array, has_type in *. apply bool_decide_eq_true in Harr1.
      apply bool_decide_eq_false. congruence. }
    destruct (check_insert_sanity_spec _ a Hns fuel n val Hwv1 Hlt) as (b & -> & Hb).
    destruct b; [|done]. exfalso.
    assert (true = false); [|done]. apply Hb. by eapply reach_extends_fwd.
  - intros Hnr _.
    destruct (jarray_put_unsafe_elements _ n fuel a index val Hwf1 Harr1)
      as (h' & cnt & pad & E & Hd & _ & Hframe); auto.
    { right. split; [assumption|]. intros Hr. apply Hnr. by eapply reach_extends. }
    destruct (array_as_dst _ n a Hwf1 Harr1) as (_ & _ & _ & _ & _ & Hsz & _).
    destruct (elements_extends _ _ a Hext) as [_ Hsz0].
    { eapply releasable_cell. right. exact Hwf. }
    exists h'. split; [exact E|]. split.
    + rewrite <- (Z2Nat.id index) at 1 by assumption.
      rewrite (jarray_get_dst _ _ _ _ _ _ Hd).
      destruct (decide (index < jarray_size (add_refs val 1 h) (Ptr a))).
      * rewrite list_lookup_insert_eq by lia. by rewrite decide_False.
      * replace (Z.to_nat index)
          with (length (elements (add_refs val 1 h) (Ptr a))
                + Z.to_nat (index - jarray_size (add_refs val 1 h) (Ptr a)))%nat at 1 by lia.
        rewrite (proj1 (lookup_middle_end _ _ _)). by rewrite decide_False.
    + intros Hge x c -> Hx. rewrite Hframe.
      * by rewrite lookup_add_refs, decide_True, Hx.
      * lia.
      * intros ->. apply Hnr. constructor.
Qed.

(** The array [[1]], set into itself, and set to hold a second number at
    the index 2. *)
Lemma jarray_set_copies_witness :
  let h : heap := {[ 0%nat := Jvalue 1 (BArray (Jarray 1 [Ptr 1; NULL]));
                     1%nat := Jvalue 1 (BNum (NUM_INT 1));
                     2%nat := Jvalue 1 (BNum (NUM_INT 2)) ]} in
  jarray_set 3 (Ptr 0) 0 (Ptr 0) h = Some (false, add_refs (Ptr 0) 1 h)
  ∧ ∃ h', jarray_set 3 (Ptr 0) 2 (Ptr 2) h = Some (true, h')
          ∧ jarray_get h' (Ptr 0) 2 = Ptr 2
          ∧ h' !! 2%nat = Some (Jvalue 2 (BNum (NUM_INT 2))).
Proof.
  intros h.
  assert (Hwf : wf_tree h 2 (Ptr 0)).
  { eapply wf_tree_array_intro; [reflexivity | apply array_ok_intro; cbn; [lia|] |].
    - repeat constructor.
    - cbn [m_slots]. constructor; [right | constructor; [by left | constructor]].
      eapply wf_tree_leaf_intro; [reflexivity | by right]. }
  split.
  - apply (jarray_set_copies h 2 3 0 0 (Ptr 0)); try reflexivity; try lia; try assumption.
    + intros x c [= <-] Hc. vm_compute in Hc. injection Hc as <-. cbn. lia.
    + constructor.
  - destruct (jarray_set_copies h 2 3 0 2 (Ptr 2)) as [_ Hset];
      try reflexivity; try lia; try assumption.
    + intros x c [= <-] Hc. vm_compute in Hc. injection Hc as <-. cbn. lia.
    + destruct Hset as (h' & E & Hget & Hcnt).
      * intros Hr. eapply reach_leaf in Hr; [discriminate | reflexivity | intros v Hc; exact Hc].
      * vm_compute. discriminate.
      * exists h'. split; [exact E|]. split; [exact Hget|].
        apply (Hcnt ltac:(vm_compute; discriminate) 2%nat (Jvalue 1 (BNum (NUM_INT 2))));
          reflexivity.
Defined.

Lemma elem_of_drop_slots (k : nat) (l : list jvalue_ref) (v : jvalue_ref) :
  v ∈ drop k l → v ∈ l.
Proof. apply subseteq_drop. Qed.

Lemma insert_past_end (fuel n : nat) (h : heap) (d : nat) (cnt : Z) (elems : list jvalue_ref)
    (pad i : nat) (val : jvalue_ref) :
  dst_state h d cnt elems pad → (length elems ≤ i)%nat → (n < fuel)%nat →
  jarray_insert fuel (Ptr d) (Z.of_nat i) val h
  = jarray_insert fuel (Ptr d) (Z.of_nat (length elems)) val h.
Proof.
  intros Hd Hi Hlt. unfold jarray_insert.
  destruct (dst_state_not_string d h cnt elems pad Hd) as [Hns Harr]. rewrite Harr.
  cbn [negb]. rewrite !decide_False by lia.
  destruct (check_insert_sanity fuel h (Ptr d) val) as [[|]|]; [|done|done].
  assert (Hsize : jarray_size_unsafe h (Ptr d) = Z.of_nat (length elems)).
  { unfold jarray_size_unsafe. cbn. by rewrite Hd. }
  rewrite Hsize.
  destruct (put_end_dst fuel n h d cnt elems pad (length elems) jinvalid Hd)
    as (h1 & pad' & -> & Hd1 & _); [lia | assumption | |].
  { destruct fuel; [lia|]. by apply check_insert_sanity_leaf. }
  cbn [mbind option_bind]. cbn [jarray_deref]. rewrite Hd1.
  cbn [fmap option_fmap option_map m_body mbind option_bind m_size m_slots].
  rewrite !length_app, length_replicate. cbn [length].
  replace (Z.to_nat (Z.of_nat (length elems + (length elems - length elems + 1)) - 1
                     - Z.of_nat i)) with 0%nat by lia.
  replace (Z.to_nat (Z.of_nat (length elems + (length elems - length elems + 1)) - 1
                     - Z.of_nat (length elems))) with 0%nat by lia.
  reflexivity.
Qed.

(** X14: on an array that is a tree of the store, [jarray_insert] of a
    value that does not contain the array succeeds at every index that is not
    negative: the elements are those before the index, the value, and those
    from the index on, so that an index after the end appends; the size is
    one more, no other cell changed and the array is still a tree of the
    store.  The C null pointer is stored as it is. *)
Theorem jarray_insert_elements (h : heap) (n fuel a : nat) (index : Z) (val : jvalue_ref) :
  wf_tree h n (Ptr a) → jis_array h (Ptr a) = true → 0 ≤ index →
  val = NULL ∨ wf_tree h n val ∧ ¬ reach h val a → (n < fuel)%nat →
  ∃ h', jarray_insert fuel (Ptr a) index val h = Some (true, h')
        ∧ elements h' (Ptr a)
          = take (Z.to_nat index) (elements h (Ptr a))
            ++ val :: drop (Z.to_nat index) (elements h (Ptr a))
        ∧ jarray_size h' (Ptr a) = jarray_size h (Ptr a) + 1
        ∧ wf_tree h' (S n) (Ptr a)
        ∧ ∀ x, x ≠ a → h' !! x = h !! x.
Proof.
  intros Hwf Harr Hi Hval Hlt.
  destruct (array_as_dst h n a Hwf Harr) as (n' & cnt & pad & -> & Hd & Hsz & Hel).
  set (els := elements h (Ptr a)) in *.
  assert (HE : ∀ e, e ∈ els ++ [val] → e = NULL ∨ wf_tree h (S n') e ∧ ¬ reach h e a).
  { intros e [He | ->%list_elem_of_singleton]%elem_of_app; [|assumption].
    destruct (Hel e He) as [-> | [Hw Hn]]; [by left|]. right. split; [|assumption].
    by apply wf_tree_mono. }
  destruct (ext_ok_single h (S n') a (els ++ [val])) as (s & Hds & Hs & Hok);
    [by rewrite Hd | exact HE |].
  set (i := (Z.to_nat index `min` length els)%nat).
  destruct (insert_dst a s (S n') fuel (els ++ [val]) Hds Hlt h cnt els pad i val Hok Hd)
    as (h' & pad' & E & Hd' & Hframe); [lia | |].
  { apply elem_of_app. right. by apply list_elem_of_singleton. }
  assert (Eq : jarray_insert fuel (Ptr a) index val h = Some (true, h')).
  { rewrite <- E. rewrite <- (Z2Nat.id index) by assumption.
    destruct (decide (Z.to_nat index ≤ length els)%nat).
    - unfold i. by rewrite Nat.min_l by assumption.
    - unfold i. rewrite Nat.min_r by lia.
      eapply insert_past_end; [exact Hd | lia | exact Hlt]. }
  assert (Hshape : take i els ++ val :: drop i els
                   = take (Z.to_nat index) els ++ val :: drop (Z.to_nat index) els).
  { unfold i. destruct (decide (Z.to_nat index ≤ length els)%nat).
    - by rewrite Nat.min_l by assumption.
    - rewrite Nat.min_r by lia. by rewrite firstn_all, drop_all, take_ge, drop_ge by lia. }
  rewrite Hshape in Hd'.
  destruct (elements_dst_state _ _ _ _ _ Hd') as [Hel' Hsz'].
  exists h'. split; [exact Eq|]. split; [exact Hel'|]. split; [|split; [|exact Hframe]].
  - rewrite Hsz', Hsz, <- Hshape, length_app. cbn [length].
    rewrite length_take, length_drop. lia.
  - eapply dst_state_wf; [exact Hd'|]. intros e He.
    assert (Hin : e ∈ els ++ [val]).
    { rewrite <- Hshape in He. apply elem_of_app.
      apply elem_of_app in He as [He | He]; [left; by eapply elem_of_take_slots|].
      apply elem_of_cons in He as [-> | He]; [right; by apply list_elem_of_singleton|].
      left. by eapply elem_of_drop_slots. }
    destruct (elements_wf_le h h' (S n') a (els ++ [val]) Hframe HE e Hin) as [-> | [Hw _]];
      auto.
Qed.

(** The array [[1]]: a number inserted at index 5. *)
Lemma jarray_insert_elements_witness :
  let h : heap := {[ 0%nat := Jvalue 1 (BArray (Jarray 1 [Ptr 1; NULL]));
                     1%nat := Jvalue 1 (BNum (NUM_INT 1));
                     2%nat := Jvalue 1 (BNum (NUM_INT 2)) ]} in
  ∃ h', jarray_insert 3 (Ptr 0) 5 (Ptr 2) h = Some (true, h')
        ∧ elements h' (Ptr 0)
          = take (Z.to_nat 5) (elements h (Ptr 0))
            ++ Ptr 2 :: drop (Z.to_nat 5) (elements h (Ptr 0))
        ∧ jarray_size h' (Ptr 0) = jarray_size h (Ptr 0) + 1
        ∧ wf_tree h' 3 (Ptr 0)
        ∧ ∀ x, x ≠ 0%nat → h' !! x = h !! x.
Proof.
  intros h. apply (jarray_insert_elements h 2 3 0 5 (Ptr 2)); try reflexivity; try lia.
  - eapply wf_tree_array_intro; [reflexivity | apply array_ok_intro; cbn; [lia|] |].
    + repeat constructor.
    + cbn [m_slots]. constructor; [right | constructor; [by left | constructor]].
      eapply wf_tree_leaf_intro; [reflexivity | by right].
  - right. split; [eapply wf_tree_leaf_intro; [reflexivity | by right]|].
    intros Hr. eapply reach_leaf in Hr; [discriminate | reflexivity | intros v Hc; exact Hc].
Defined.

(** X15: on an array that is a tree of the store, [jarray_remove] at an
    index within the array releases the element there and closes the gap:
    the elements are those before the index followed by those after it, the
    size is one less, and the array is still a tree of the store.  At any
    other index it answers false and leaves the store as it is. *)
Theorem jarray_remove_elements (h : heap) (n fuel a : nat) (index : Z) :
  wf_tree h n (Ptr a) → jis_array h (Ptr a) = true → (n < fuel)%nat →
  if decide (0 ≤ index < jarray_size h (Ptr a)) then
    ∃ h', jarray_remove fuel (Ptr a) index h = Some (true, h')
          ∧ elements h' (Ptr a)
            = take (Z.to_nat index) (elements h (Ptr a))
              ++ drop (S (Z.to_nat index)) (elements h (Ptr a))
          ∧ jarray_size h' (Ptr a) = jarray_size h (Ptr a) - 1
          ∧ wf_tree h' n (Ptr a)
  else jarray_remove fuel (Ptr a) index h = Some (false, h).
Proof.
  intros Hwf Harr Hlt.
  destruct (array_as_dst h n a Hwf Harr) as (n' & cnt & pad & -> & Hd & Hsz & Hel).
  set (els := elements h (Ptr a)) in *.
  assert (Hsu : jarray_size_unsafe h (Ptr a) = Z.of_nat (length els)).
  { rewrite <- Hsz. unfold jarray_size. by rewrite Harr. }
  unfold jarray_remove, valid_index_bounded. fold (jis_array h (Ptr a)). rewrite Harr.
  cbn [negb]. rewrite Hsu, Hsz.
  case_decide as Hin.
  - rewrite (decide_False (P := index < 0)) by lia.
    rewrite (decide_False (P := index >= Z.of_nat (length els))) by lia. cbn [negb].
    destruct (lookup_lt_is_Some_2 els (Z.to_nat index)) as [e He]; [lia|].
    destruct (ext_ok_single h n' a els) as (s & Hds & Hs & Hok); [by rewrite Hd | exact Hel |].
    pose proof (take_drop_middle els (Z.to_nat index) e He) as Hsplit.
    rewrite <- Hsplit in Hd.
    destruct (remove_dst a s n' fuel els Hds ltac:(lia) h cnt _ _ e pad Hok Hd)
      as (h' & E & Hd' & _ & Hok'); [by eapply list_elem_of_lookup_2|].
    rewrite length_take, Nat.min_l, Z2Nat.id in E by lia. rewrite E.
    cbn [mbind option_bind].
    destruct (elements_dst_state _ _ _ _ _ Hd') as [Hel' Hsz'].
    eexists. split; [reflexivity|]. split; [exact Hel'|]. split.
    + rewrite Hsz', length_app, length_take, length_drop. lia.
    + eapply dst_state_wf; [exact Hd'|]. intros x Hx.
      assert (Hin' : x ∈ els).
      { apply elem_of_app in Hx as [Hx | Hx]; [by eapply elem_of_take_slots|].
        by eapply elem_of_drop_slots. }
      destruct (Hok' x Hin') as [-> | [Hw _]]; auto.
  - destruct (decide (index < 0)); [done|].
    rewrite (decide_True (P := index >= Z.of_nat (length els))) by lia. done.
Qed.

(** The array [[1, 2]] without its first element. *)
Lemma jarray_remove_elements_witness :
  let h : heap := {[ 0%nat := Jvalue 1 (BArray (Jarray 2 [Ptr 1; Ptr 2; NULL]));
                     1%nat := Jvalue 1 (BNum (NUM_INT 1));
                     2%nat := Jvalue 1 (BNum (NUM_INT 2)) ]} in
  if decide (0 ≤ 0 < jarray_size h (Ptr 0)) then
    ∃ h', jarray_remove 3 (Ptr 0) 0 h = Some (true, h')
          ∧ elements h' (Ptr 0)
            = take (Z.to_nat 0) (elements h (Ptr 0))
              ++ drop (S (Z.to_nat 0)) (elements h (Ptr 0))
          ∧ jarray_size h' (Ptr 0) = jarray_size h (Ptr 0) - 1
          ∧ wf_tree h' 2 (Ptr 0)
  else jarray_remove 3 (Ptr 0) 0 h = Some (false, h).
Proof.
  intros h. apply (jarray_remove_elements h 2 3 0 0); try reflexivity; try lia.
  eapply wf_tree_array_intro; [reflexivity | apply array_ok_intro; cbn; [lia|] |].
  - repeat constructor.
  - cbn [m_slots]. constructor; [right | constructor; [right | constructor; [by left | constructor]]];
      (eapply wf_tree_leaf_intro; [reflexivity | by right]).
Defined.

(** ** Splicing a whole array *)

Lemma jarray_splice_elements {B : Build} (h : heap) (d s n fuel : nat) (index toRemove begin end_ : Z)
    (ownership : JSpliceOwnership) :
  d ≠ s → wf_tree h n (Ptr d) → wf_tree h n (Ptr s) →
  jis_array h (Ptr d) = true → jis_array h (Ptr s) = true →
  ¬ reach h (Ptr d) s → ¬ reach h (Ptr s) d →
  0 ≤ index → 0 ≤ toRemove → index + toRemove ≤ jarray_size h (Ptr d) →
  0 ≤ begin → begin < end_ → end_ ≤ jarray_size h (Ptr s) → (n < fuel)%nat →
  NDEBUG = true ∨ ownership ≠ SPLICE_TRANSFER
  ∨ 2 * end_ - begin - 2 < jarray_size h (Ptr s) →
  ∃ h', jarray_splice fuel (Ptr d) index toRemove (Ptr s) begin end_ ownership h
        = Some (true, h')
        ∧ elements h' (Ptr d)
          = take (Z.to_nat index) (elements h (Ptr d))
            ++ sublist begin end_ (elements h (Ptr s))
            ++ drop (Z.to_nat (index + toRemove)) (elements h (Ptr d))
        ∧ jarray_size h' (Ptr d) = jarray_size h (Ptr d) - toRemove + (end_ - begin).
Proof.
  intros Hds Hwd Hws Had Has Hnds Hnsd Hi Hr Hir Hb Hbe He Hfuel Hassert.
  destruct (wf_array_cell h n (Ptr d) Hwd Had)
    as (d' & n' & cnt & arr & [= <-] & -> & Hd & Hokd & Hsd).
  destruct (wf_array_cell h (S n') (Ptr s) Hws Has)
    as (s' & n'' & cs & arrS & [= <-] & [= <-] & Hs & Hoks & Hss).
  set (D := take (Z.to_nat (m_size arr)) (m_slots arr)).
  set (pad := (length (m_slots arr) - Z.to_nat (m_size arr))%nat).
  assert (Hszd : jarray_size h (Ptr d) = m_size arr).
  { unfold jarray_size. rewrite Had. unfold jarray_size_unsafe. cbn. by rewrite Hd. }
  assert (Hszs : jarray_size h (Ptr s) = m_size arrS).
  { unfold jarray_size. rewrite Has. unfold jarray_size_unsafe. cbn. by rewrite Hs. }
  rewrite Hszs in Hassert. apply splice_asserts in Hassert; [|lia..].
  destruct Hokd as [Hbd Hnulld]. destruct Hoks as [Hbs Hnulls].
  unfold m_capacity in Hbd, Hbs.
  assert (HlenD : length D = Z.to_nat (m_size arr)) by (unfold D; rewrite length_take; lia).
  assert (Hdst : dst_state h d cnt D pad).
  { unfold dst_state. rewrite Hd. do 3 f_equal. destruct arr as [sz sl]. cbn in *.
    f_equal; [lia|]. apply (array_ok_slots (Jarray sz sl)). split; [exact Hbd | exact Hnulld]. }
  set (E := m_slots arr ++ m_slots arrS).
  assert (Hok : ext_ok h n' d s E).
  { intros e Hin. apply elem_of_app in Hin as [Hin | Hin].
    - destruct (Hsd e Hin) as [-> | [Hw Hn]]; [by left|]. right.
      split; [assumption|]. split; [assumption|].
      intros Hx. apply Hnds. eapply reach_step; [exact Hd | exact Hin | exact Hx].
    - destruct (Hss e Hin) as [-> | [Hw Hn]]; [by left|]. right.
      split; [assumption|]. split; [|assumption].
      intros Hx. apply Hnsd. eapply reach_step; [exact Hs | exact Hin | exact Hx]. }
  destruct (jarray_splice_nat h d s n' fuel E cnt D pad cs (m_size arrS) (m_slots arrS)
              (Z.to_nat index) (Z.to_nat toRemove) (Z.to_nat begin)
              (Z.to_nat (end_ - begin)) ownership)
    as (h' & pad' & Eq & Hd'); try assumption; try lia.
  { intros v Hv. apply elem_of_app. left. by eapply elem_of_take_slots. }
  { intros v Hv. apply elem_of_app. by right. }
  { by destruct arrS. }
  rewrite !Z2Nat.id in Eq by lia.
  replace (Z.of_nat (Z.to_nat begin + Z.to_nat (end_ - begin))) with end_ in Eq by lia.
  exists h'. split; [exact Eq|].
  destruct (elements_dst_state _ _ _ _ _ Hd') as [-> ->].
  destruct (elements_dst_state _ _ _ _ _ Hdst) as [-> ->].
  split.
  - unfold sublist, elements. cbn. rewrite Hs. cbn.
    rewrite sublist_take by lia.
    by replace (Z.to_nat (index + toRemove)) with (Z.to_nat index + Z.to_nat toRemove)%nat
      by lia.
  - rewrite !length_app, !length_take, !length_drop. lia.
Qed.

Lemma jarray_splice_negative_index {B : Build} (fuel : nat) (array array2 : jvalue_ref)
    (index begin end_ : Z) (ownership : JSpliceOwnership) (h : heap) :
  index < 0 →
  jarray_splice fuel array index 0 array2 begin end_ ownership h
  = jarray_splice fuel array 0 0 array2 begin end_ ownership h.
Proof.
  intros Hneg. unfold jarray_splice. rewrite !(decide_False (P := 0 ≠ 0)) by lia.
  destruct (negb (jis_array h array)); [done|].
  by rewrite (decide_True (P := index < 0)), (decide_False (P := 0 < 0)) by lia.
Qed.

Lemma jarray_splice_empty_range {B : Build} (fuel : nat) (array array2 : jvalue_ref)
    (index toRemove begin : Z) (ownership : JSpliceOwnership) (h : heap) :
  jarray_splice fuel array index toRemove array2 begin begin ownership h = Some (false, h).
Proof.
  unfold jarray_splice.
  destruct (if decide (toRemove ≠ 0) then _ else _); [|done].
  by rewrite decide_True by lia.
Qed.

(** X16: for two different arrays, both trees of the store and neither
    reachable from the other, [jarray_splice_inject] and
    [jarray_splice_append] answer false when the second array is empty.
    Otherwise both succeed, with [SPLICE_COPY] and [SPLICE_NOCHANGE] in
    either build, and with [SPLICE_TRANSFER] when the assertions are compiled
    out or the second array has one element: [jarray_splice_inject] puts the
    elements of the second array before the element at the index, and
    [jarray_splice_append] puts them before the last element of the first
    array, which stays the last element; it appends them only to an empty
    array. *)
Theorem jarray_splice_inject_append {B : Build} (h : heap) (d s n fuel : nat) (index : Z)
    (ownership : JSpliceOwnership) :
  d ≠ s → wf_tree h n (Ptr d) → wf_tree h n (Ptr s) →
  jis_array h (Ptr d) = true → jis_array h (Ptr s) = true →
  ¬ reach h (Ptr d) s → ¬ reach h (Ptr s) d →
  0 ≤ index ≤ jarray_size h (Ptr d) → (n < fuel)%nat →
  NDEBUG = true ∨ ownership ≠ SPLICE_TRANSFER ∨ jarray_size h (Ptr s) ≤ 1 →
  if decide (jarray_size h (Ptr s) = 0) then
    jarray_splice_inject fuel (Ptr d) index (Ptr s) ownership h = Some (false, h)
    ∧ jarray_splice_append fuel (Ptr d) (Ptr s) ownership h = Some (false, h)
  else
    (∃ h', jarray_splice_inject fuel (Ptr d) index (Ptr s) ownership h = Some (true, h')
           ∧ elements h' (Ptr d)
             = take (Z.to_nat index) (elements h (Ptr d))
               ++ elements h (Ptr s)
               ++ drop (Z.to_nat index) (elements h (Ptr d)))
    ∧ (∃ h', jarray_splice_append fuel (Ptr d) (Ptr s) ownership h = Some (true, h')
             ∧ elements h' (Ptr d)
               = take (length (elements h (Ptr d)) - 1) (elements h (Ptr d))
                 ++ elements h (Ptr s)
                 ++ drop (length (elements h (Ptr d)) - 1) (elements h (Ptr d))).
Proof.
  intros Hds Hwd Hws Had Has Hnds Hnsd Hi Hfuel Hassert.
  unfold jarray_splice_inject, jarray_splice_append.
  case_decide as Hempty.
  { rewrite Hempty. split; apply jarray_splice_empty_range. }
  assert (Hassert' : NDEBUG = true ∨ ownership ≠ SPLICE_TRANSFER
                     ∨ 2 * jarray_size h (Ptr s) - 0 - 2 < jarray_size h (Ptr s)).
  { destruct Hassert as [? | [? | ?]]; [by left | by right; left | right; right; lia]. }
  destruct (array_as_dst h n d Hwd Had) as (_ & _ & _ & _ & _ & Hszd & _).
  destruct (array_as_dst h n s Hws Has) as (_ & _ & _ & _ & _ & Hszs & _).
  assert (Hsub : sublist 0 (jarray_size h (Ptr s)) (elements h (Ptr s)) = elements h (Ptr s)).
  { unfold sublist. rewrite Z.sub_0_r. change (Z.to_nat 0) with 0%nat. rewrite drop_0.
    rewrite take_ge; [done | lia]. }
  split.
  - destruct (jarray_splice_elements h d s n fuel index 0 0 (jarray_size h (Ptr s)) ownership)
      as (h' & E & Hel & _); try assumption; try lia.
    exists h'. split; [exact E|]. rewrite Hel, Hsub. by rewrite Z.add_0_r.
  - destruct (decide (jarray_size h (Ptr d) = 0)) as [Hz|Hnz].
    + rewrite Hz. rewrite jarray_splice_negative_index by lia.
      destruct (jarray_splice_elements h d s n fuel 0 0 0 (jarray_size h (Ptr s)) ownership)
        as (h' & E & Hel & _); try assumption; try lia.
      exists h'. split; [exact E|]. rewrite Hel, Hsub.
      by replace (length (elements h (Ptr d)) - 1)%nat with (Z.to_nat 0) by lia.
    + destruct (jarray_splice_elements h d s n fuel (jarray_size h (Ptr d) - 1) 0 0
                  (jarray_size h (Ptr s)) ownership)
        as (h' & E & Hel & _); try assumption; try lia.
      exists h'. split; [exact E|]. rewrite Hel, Hsub, Z.add_0_r.
      by replace (Z.to_nat (jarray_size h (Ptr d) - 1))
        with (length (elements h (Ptr d)) - 1)%nat by lia.
Qed.

(** The arrays [[true, false]] and [[null]]. *)
Lemma jarray_splice_inject_append_witness :
  let B : Build := {| NDEBUG := false |} in
  let h : heap := {[ 0%nat := Jvalue 1 (BArray (Jarray 2 [JTRUE; JFALSE; NULL]));
                     1%nat := Jvalue 1 (BArray (Jarray 1 [JNULL; NULL])) ]} in
  if decide (jarray_size h (Ptr 1) = 0) then
    jarray_splice_inject 2 (Ptr 0) 1 (Ptr 1) SPLICE_COPY h = Some (false, h)
    ∧ jarray_splice_append 2 (Ptr 0) (Ptr 1) SPLICE_COPY h = Some (false, h)
  else
    (∃ h', jarray_splice_inject 2 (Ptr 0) 1 (Ptr 1) SPLICE_COPY h = Some (true, h')
           ∧ elements h' (Ptr 0)
             = take (Z.to_nat 1) (elements h (Ptr 0))
               ++ elements h (Ptr 1)
               ++ drop (Z.to_nat 1) (elements h (Ptr 0)))
    ∧ (∃ h', jarray_splice_append 2 (Ptr 0) (Ptr 1) SPLICE_COPY h = Some (true, h')
             ∧ elements h' (Ptr 0)
               = take (length (elements h (Ptr 0)) - 1) (elements h (Ptr 0))
                 ++ elements h (Ptr 1)
                 ++ drop (length (elements h (Ptr 0)) - 1) (elements h (Ptr 0))).
Proof.
  intros B h.
  apply (jarray_splice_inject_append h 0 1 1 2 1 SPLICE_COPY);
    try reflexivity; try lia; try discriminate; try (right; left; discriminate).
  - eapply wf_tree_array_intro; [reflexivity | apply array_ok_intro; cbn; [lia|] |].
    + repeat constructor.
    + cbn [m_slots]. repeat constructor; by right.
  - eapply wf_tree_array_intro; [reflexivity | apply array_ok_intro; cbn; [lia|] |].
    + repeat constructor.
    + cbn [m_slots]. repeat constructor; by right.
  - intros Hr. eapply reach_array_of_singletons in Hr; [discriminate | reflexivity |].
    cbn [m_slots]. repeat constructor; discriminate.
  - intros Hr. eapply reach_array_of_singletons in Hr; [discriminate | reflexivity |].
    cbn [m_slots]. repeat constructor; discriminate.
  - vm_compute. split; discriminate.
Defined.

Example splice_append_goes_before_the_last :
  let B : Build := {| NDEBUG := false |} in
  (λ r : bool * heap, elements (snd r) (Ptr 0))
    <$> jarray_splice_append 2 (Ptr 0) (Ptr 1) SPLICE_COPY
          {[ 0%nat := Jvalue 1 (BArray (Jarray 2 [JTRUE; JFALSE; NULL]));
             1%nat := Jvalue 1 (BArray (Jarray 1 [JNULL; NULL])) ]}
  = Some [JTRUE; JNULL; JFALSE].
Proof. vm_compute. reflexivity. Qed.

(** ** Structural equality returns *)

Lemma any_true_spec {A} (f : A → option bool) (l : list A) :
  (∀ x, x ∈ l → is_Some (f x)) →
  ∃ b, any_true f l = Some b ∧ (b = true ↔ ∃ x, x ∈ l ∧ f x = Some true).
Proof.
  induction l as [|x l IH]; intros Hf.
  - exists false. split; [done|]. split; [done|]. intros (x & Hx & _).
    by apply elem_of_nil in Hx.
  - destruct (Hf x) as [b Hb]; [by left|]. cbn. rewrite Hb. destruct b.
    + exists true. split; [done|]. split; [|done]. intros _. exists x. split; [by left | done].
    + destruct IH as (b & -> & Hiff). { intros y Hy. apply Hf. by right. }
      exists b. split; [done|]. rewrite Hiff. split.
      * intros (y & Hy & Hfy). exists y. split; [by right | done].
      * intros (y & Hy & Hfy). apply elem_of_cons in Hy as [-> | Hy]; [congruence|]. eauto.
Qed.

Lemma all_true_total {A} (f : A → option bool) (l : list A) :
  (∀ x, x ∈ l → is_Some (f x)) → is_Some (all_true f l).
Proof. intros Hf. destruct (all_true_spec f l Hf) as (b & -> & _). done. Qed.

Lemma m_type_BOOL (h : heap) (v : jvalue_ref) :
  m_type h v = Some JV_BOOL → is_Some (jboolean_deref v).
Proof.
  destruct v as [| | | | | |a]; try done. cbn.
  by destruct (h !! a) as [[cnt [| | |]]|].
Qed.

Lemma m_type_NUM (h : heap) (v : jvalue_ref) :
  m_type h v = Some JV_NUM → is_Some (jnum_deref h v).
Proof.
  destruct v as [| | | | | |a]; try done. cbn.
  by destruct (h !! a) as [[cnt [| | |]]|].
Qed.

Lemma jnumber_compare_total i64 dbl (h : heap) (v1 v2 : jvalue_ref) :
  is_Some (jnum_deref h v1) → is_Some (jnum_deref h v2) →
  is_Some (jnumber_compare i64 dbl h v1 v2).
Proof.
  intros [n1 H1] [n2 H2].
  unfold jnumber_compare, jnumber_compare_i64, jnumber_compare_f64. rewrite H1, H2. cbn.
  destruct n2 as [r2| |]; destruct n1 as [r1| |]; cbn;
    try destruct (i64 r2) as [c2 a2]; try destruct (i64 r1) as [c1 a1];
    try destruct (dbl r2) as [e2 b2]; try destruct (dbl r1) as [e1 b1];
    repeat case_decide; done.
Qed.

Lemma jstring_equal_total (h : heap) (v1 v2 : jvalue_ref) : is_Some (jstring_equal h v1 v2).
Proof.
  unfold jstring_equal. destruct (jis_string h v1) eqn:H1; [|done].
  destruct (jis_string h v2) eqn:H2; [|done]. cbn.
  unfold jstring_equal_internal. case_decide; [done|].
  destruct (jis_string_deref _ _ H1) as [s1 ->].
  destruct (jis_string_deref _ _ H2) as [s2 ->]. done.
Qed.

Lemma jobject_get_exists2_wf (h : heap) (n : nat) (obj key val : jvalue_ref) :
  wf_tree h (S n) obj → jobject_get_exists2 h obj key = Some val → wf_tree h n val.
Proof.
  intros Hwf. unfold jobject_get_exists2, jobject_get_exists.
  destruct (jstring_deref h key) as [kb|]; [|done]. cbn.
  destruct (jis_null obj); [done|]. destruct (negb (jis_object h obj)); [done|].
  destruct obj as [| | | | | |a]; try done.
  destruct (jobject_deref h (Ptr a)) as [m|] eqn:Hm; [|done]. cbn.
  destruct (m !! kb) as [[kr vr]|] eqn:Hkb; [|done]. cbn. intros [= <-].
  by destruct (wf_tree_object h n a m Hwf Hm kb kr vr Hkb).
Qed.

Lemma jvalue_equal_total i64 dbl (h : heap) :
  ∀ fuel n v1 v2, wf_tree h n v1 → wf_tree h n v2 → (n < fuel)%nat →
    is_Some (jvalue_equal i64 dbl fuel h v1 v2).
Proof.
  induction fuel as [|fuel IH]; intros n v1 v2 H1 H2 Hlt; [lia|]. cbn [jvalue_equal].
  case_decide; [done|].
  destruct (wf_tree_m_type h n v1 H1) as [t1 Ht1].
  destruct (wf_tree_m_type h n v2 H2) as [t2 Ht2]. rewrite Ht1, Ht2. cbn.
  case_decide as Ht; [done|]. subst t2. destruct t1.
  - done.
  - destruct (m_type_BOOL _ _ Ht1) as [b1 ->]. by destruct (m_type_BOOL _ _ Ht2) as [b2 ->].
  - destruct (jnumber_compare_total i64 dbl h v1 v2) as [c ->];
      [by apply m_type_NUM | by apply m_type_NUM | done].
  - apply jstring_equal_total.
  - case_decide; [done|].
    destruct (m_type_container h n v1 JV_ARRAY H1 Ht1) as [n' ->]; [by left|].
    apply all_true_total. intros i _.
    apply (IH n'); [by apply wf_tree_jarray_get | by apply wf_tree_jarray_get | lia].
  - case_decide; [done|].
    destruct (m_type_container h n v1 JV_OBJECT H1 Ht1) as [n' ->]; [by right|].
    apply all_true_total. intros pair Hpair.
    destruct (jobject_get_exists2 h v2 pair.1) as [val|] eqn:Hget; [|done].
    apply (IH n'); [|by eapply (jobject_get_exists2_wf h n' v2) | lia].
    by destruct (wf_tree_jobject_iter h n' v1 pair H1 Hpair).
Qed.

(** X17: on an array that is a tree of the store and has no empty slot
    among its elements, [jarray_has_duplicates] returns, and it answers true
    exactly when two elements at different indexes are equal for
    [jvalue_equal]. *)
Theorem jarray_has_duplicates_spec {B : Build}
    (jstr_to_i64 : string → ConversionResultFlags * Z)
    (jstr_to_double : string → ConversionResultFlags * double)
    (h : heap) (n fuel a : nat) :
  wf_tree h n (Ptr a) → jis_array h (Ptr a) = true → NULL ∉ elements h (Ptr a) →
  (n < fuel)%nat →
  ∃ b, jarray_has_duplicates jstr_to_i64 jstr_to_double fuel h (Ptr a) = Some b
       ∧ (b = true ↔
          ∃ i j vi vj, (i < j)%nat ∧ elements h (Ptr a) !! i = Some vi
            ∧ elements h (Ptr a) !! j = Some vj
            ∧ jvalue_equal jstr_to_i64 jstr_to_double fuel h vi vj = Some true).
Proof.
  intros Hwf Harr Hnn Hlt.
  destruct (array_as_dst h n a Hwf Harr) as (n' & cnt & pad & -> & Hd & Hsz & Hel).
  remember (elements h (Ptr a)) as els eqn:Hels.
  unfold jarray_has_duplicates. rewrite c_assert_true by exact Harr.
  cbn [mbind option_bind]. rewrite Hsz.
  set (slot := λ i : Z, jarray_deref h (Ptr a) ≫= λ a0, slot_get (m_slots a0) i).
  assert (Hslot : ∀ i, (i < length els)%nat → slot (Z.of_nat i) = els !! i).
  { intros i Hi. unfold slot. cbn. unfold dst_state in Hd. rewrite Hd. cbn.
    rewrite slot_get_nat. by rewrite lookup_app_l by lia. }
  assert (Heq : ∀ vi vj, vi ∈ els → vj ∈ els →
            is_Some (jvalue_equal jstr_to_i64 jstr_to_double fuel h vi vj)).
  { intros vi vj Hi Hj.
    destruct (Hel vi Hi) as [-> | [Hwi _]]; [contradiction|].
    destruct (Hel vj Hj) as [-> | [Hwj _]]; [contradiction|].
    eapply jvalue_equal_total; eauto. lia. }
  set (inner := λ i : Z,
         jvali ← slot i;
         any_true (λ j, v ← slot j; jvalue_equal jstr_to_i64 jstr_to_double fuel h jvali v)
                  (seqZ (i + 1) (Z.of_nat (length els) - (i + 1)))).
  assert (Hinner : ∀ i vi, els !! i = Some vi →
            ∃ b, inner (Z.of_nat i) = Some b
                 ∧ (b = true ↔ ∃ j vj, (i < j)%nat ∧ els !! j = Some vj
                      ∧ jvalue_equal jstr_to_i64 jstr_to_double fuel h vi vj = Some true)).
  { intros i vi Hi. unfold inner.
    rewrite Hslot by (by eapply lookup_lt_Some). rewrite Hi. cbn [mbind option_bind].
    destruct (any_true_spec
                (λ j, v ← slot j; jvalue_equal jstr_to_i64 jstr_to_double fuel h vi v)
                (seqZ (Z.of_nat i + 1) (Z.of_nat (length els) - (Z.of_nat i + 1))))
      as (b & -> & Hb).
    { intros j Hj%elem_of_seqZ. rewrite <- (Z2Nat.id j) by lia. rewrite Hslot by lia.
      destruct (lookup_lt_is_Some_2 els (Z.to_nat j)) as [vj Hvj]; [lia|]. rewrite Hvj. cbn [mbind option_bind].
      apply Heq; by eapply list_elem_of_lookup_2. }
    exists b. split; [done|]. rewrite Hb. split.
    - intros (j & Hj%elem_of_seqZ & Hfj). rewrite <- (Z2Nat.id j) in Hfj by lia.
      rewrite Hslot in Hfj by lia.
      destruct (els !! Z.to_nat j) as [vj|] eqn:Hvj; [|done]. cbn [mbind option_bind] in Hfj.
      exists (Z.to_nat j), vj. split; [lia|]. done.
    - intros (j & vj & Hij & Hvj & Hfj). exists (Z.of_nat j). split.
      + apply elem_of_seqZ. apply lookup_lt_Some in Hvj. lia.
      + rewrite Hslot by (by eapply lookup_lt_Some). by rewrite Hvj. }
  destruct (any_true_spec inner (seqZ 0 (Z.of_nat (length els) - 1))) as (b & Hb & Hiff).
  { intros i Hi%elem_of_seqZ. rewrite <- (Z2Nat.id i) by lia.
    destruct (lookup_lt_is_Some_2 els (Z.to_nat i)) as [vi Hvi]; [lia|].
    destruct (Hinner _ _ Hvi) as (bi & -> & _). done. }
  exists b. split; [exact Hb|]. rewrite Hiff. split.
  - intros (i & Hi%elem_of_seqZ & Hfi). rewrite <- (Z2Nat.id i) in Hfi by lia.
    destruct (lookup_lt_is_Some_2 els (Z.to_nat i)) as [vi Hvi]; [lia|].
    destruct (Hinner _ _ Hvi) as (bi & Hbi & Hbiff). rewrite Hbi in Hfi.
    injection Hfi as ->. destruct (proj1 Hbiff eq_refl) as (j & vj & Hij & Hvj & Hfj).
    by exists (Z.to_nat i), j, vi, vj.
  - intros (i & j & vi & vj & Hij & Hvi & Hvj & Hfj). exists (Z.of_nat i). split.
    + apply elem_of_seqZ. apply lookup_lt_Some in Hvj. lia.
    + destruct (Hinner _ _ Hvi) as (bi & -> & Hbiff). f_equal. apply Hbiff. eauto.
Qed.

(** The array [[1, "a", 1.0]]: the first and the last element are equal. *)
Lemma jarray_has_duplicates_spec_witness :
  let B : Build := {| NDEBUG := false |} in
  let h : heap := {[ 0%nat := Jvalue 1 (BArray (Jarray 3 [Ptr 1; Ptr 2; Ptr 3]));
                     1%nat := Jvalue 1 (BNum (NUM_INT 1));
                     2%nat := Jvalue 1 (BStr "a" false);
                     3%nat := Jvalue 1 (BNum (NUM_FLOAT (i64_to_double 1))) ]} in
  jarray_has_duplicates (conv_failure 0) (conv_failure S754_nan) 3 h (Ptr 0) = Some true
  ∧ ∃ b, jarray_has_duplicates (conv_failure 0) (conv_failure S754_nan) 3 h (Ptr 0) = Some b
       ∧ (b = true ↔
          ∃ i j vi vj, (i < j)%nat ∧ elements h (Ptr 0) !! i = Some vi
            ∧ elements h (Ptr 0) !! j = Some vj
            ∧ jvalue_equal (conv_failure 0) (conv_failure S754_nan) 3 h vi vj = Some true).
Proof.
  intros B h. split; [vm_compute; reflexivity|].
  apply (jarray_has_duplicates_spec (conv_failure 0) (conv_failure S754_nan) h 2 3 0);
    try reflexivity; try lia.
  - eapply wf_tree_array_intro; [reflexivity | apply array_ok_intro; cbn; [lia|] |].
    + repeat constructor.
    + cbn [m_slots]. repeat constructor; right;
        (eapply wf_tree_leaf_intro; [reflexivity | (by left) || (by right)]).
  - vm_compute. intros Hin. repeat (apply elem_of_cons in Hin as [Hin | Hin]; [discriminate|]).
    by apply elem_of_nil in Hin.
Defined.

(** ** Building an array from its elements *)

Lemma jarray_create_dst (h : heap) :
  ∃ a, jarray_create h
       = (Ptr a, <[a := Jvalue 1 (BArray (Jarray 0 (replicate (Z.to_nat ARRAY_BUCKET_SIZE) NULL)))]> h)
       ∧ h !! a = None
       ∧ dst_state (<[a := Jvalue 1 (BArray (Jarray 0 (replicate (Z.to_nat ARRAY_BUCKET_SIZE) NULL)))]> h)
           a 1 [] (Z.to_nat ARRAY_BUCKET_SIZE).
Proof.
  unfold jarray_create.
  destruct (lookup_alloc (Jvalue 1 (BArray (Jarray 0 (replicate (Z.to_nat ARRAY_BUCKET_SIZE) NULL)))) h)
    as (a & -> & Hnew & Ha).
  exists a. split; [done|]. split; [done|]. exact Ha.
Qed.

Lemma jarray_create_hint_dst (capacityHint : Z) (h : heap) :
  ∃ a h1 pad, jarray_create_hint capacityHint h = Some (Ptr a, h1)
    ∧ h !! a = None ∧ dst_state h1 a 1 [] pad ∧ ∀ x, x ≠ a → h1 !! x = h !! x.
Proof.
  unfold jarray_create_hint. destruct (jarray_create_dst h) as (a & -> & Hnew & Hd).
  destruct (expand_dst a _ 1 [] _ capacityHint Hd) as (h1 & pad & -> & Hd1 & Hframe).
  exists a, h1, pad. split; [done|]. split; [done|]. split; [done|].
  intros x Hx. rewrite Hframe by done. by rewrite lookup_insert_ne.
Qed.

Lemma jarray_create_var_loop_spec (fuel n a : nat) (cnt : Z) (rest : list jvalue_ref) :
  (n < fuel)%nat →
  ∀ (done : list jvalue_ref) (h : heap) (pad : nat),
    dst_state h a cnt done pad →
    (∀ e, e ∈ rest → e = NULL ∨ wf_tree h n e ∧ ¬ reach h e a) →
    ∃ h' pad', jarray_create_var_loop fuel (Ptr a) rest h = Some h'
               ∧ dst_state h' a cnt (done ++ rest) pad'
               ∧ ∀ x, x ≠ a → h' !! x = h !! x.
Proof.
  intros Hlt. induction rest as [|e rest IH]; intros done h pad Hd Hrest.
  - exists h, pad. rewrite app_nil_r. by repeat split.
  - cbn [jarray_create_var_loop].
    assert (Hsize : jarray_size_unsafe h (Ptr a) = Z.of_nat (length done)).
    { unfold jarray_size_unsafe. cbn. by rewrite Hd. }
    rewrite Hsize.
    destruct (dst_state_not_string a h cnt done pad Hd) as [Hns _].
    destruct (put_end_dst fuel n h a cnt done pad (length done) e Hd)
      as (h1 & pad1 & -> & Hd1 & Hframe1); [lia | assumption | |].
    { apply (check_insert_sanity_outside fuel n); [assumption | | assumption].
      apply Hrest. by left. }
    cbn [mbind option_bind]. rewrite Nat.sub_diag in Hd1. cbn [replicate app] in Hd1.
    destruct (IH (done ++ [e]) h1 pad1 Hd1) as (h' & pad' & -> & Hd' & Hframe').
    { intros x Hx. eapply (elements_wf_le h h1 n a (e :: rest)); [exact Hframe1 | exact Hrest|].
      by right. }
    exists h', pad'. split; [done|]. split.
    + by rewrite <- app_assoc in Hd'.
    + intros x Hx. by rewrite Hframe', Hframe1.
Qed.

(** X18: [jarray_create_var] on values that are trees of the store returns
    a new array whose elements are the values in the order given; the array
    is a tree of the store, and no cell that was there before changed, so
    the array took over the caller's references. *)
Theorem jarray_create_var_elements (h : heap) (n fuel : nat) (elems : list jvalue_ref) :
  (∀ e, e ∈ elems → wf_tree h n e) → (n < fuel)%nat →
  ∃ a h', jarray_create_var fuel elems h = Some (Ptr a, h')
          ∧ h !! a = None
          ∧ elements h' (Ptr a) = elems
          ∧ jarray_size h' (Ptr a) = Z.of_nat (length elems)
          ∧ wf_tree h' (S n) (Ptr a)
          ∧ ∀ x, x ≠ a → h' !! x = h !! x.
Proof.
  intros Hel Hlt. unfold jarray_create_var.
  destruct (jarray_create_hint_dst 1 h) as (a & h1 & pad & -> & Hnew & Hd1 & Hframe1).
  cbn [mbind option_bind].
  assert (HE : ∀ e, e ∈ elems → e = NULL ∨ wf_tree h n e ∧ ¬ reach h e a).
  { intros e He. right. split; [by apply Hel|].
    eapply not_reach_absent; [exact Hnew | right; by apply Hel]. }
  destruct (jarray_create_var_loop_spec fuel n a 1 elems Hlt [] h1 pad Hd1)
    as (h' & pad' & -> & Hd' & Hframe').
  { eapply elements_wf_le; [exact Hframe1 | exact HE]. }
  cbn [app] in Hd'. destruct (elements_dst_state _ _ _ _ _ Hd') as [Hels Hsz].
  exists a, h'. split; [done|]. split; [done|]. split; [done|]. split; [done|].
  assert (Hframe : ∀ x, x ≠ a → h' !! x = h !! x).
  { intros x Hx. by rewrite Hframe', Hframe1. }
  split; [|exact Hframe].
  eapply dst_state_wf; [exact Hd'|]. intros e He.
  destruct (elements_wf_le h h' n a elems Hframe HE e He) as [-> | [Hw _]]; auto.
Qed.

(** Two numbers. *)
Lemma jarray_create_var_elements_witness :
  let h : heap := {[ 0%nat := Jvalue 1 (BNum (NUM_INT 1));
                     1%nat := Jvalue 1 (BNum (NUM_INT 2)) ]} in
  ∃ a h', jarray_create_var 2 [Ptr 0; Ptr 1] h = Some (Ptr a, h')
          ∧ h !! a = None
          ∧ elements h' (Ptr a) = [Ptr 0; Ptr 1]
          ∧ jarray_size h' (Ptr a) = Z.of_nat (length [Ptr 0; Ptr 1])
          ∧ wf_tree h' 2 (Ptr a)
          ∧ ∀ x, x ≠ a → h' !! x = h !! x.
Proof.
  intros h. apply (jarray_create_var_elements h 1 2 [Ptr 0; Ptr 1]); [|lia].
  intros e He. apply elem_of_cons in He as [-> | He];
    [eapply wf_tree_leaf_intro; [reflexivity | by right]|].
  apply elem_of_cons in He as [-> | He];
    [eapply wf_tree_leaf_intro; [reflexivity | by right]|].
  by apply elem_of_nil in He.
Defined.

(** ** Deep copies *)

(** The readers of a cell depend on its body only. *)
Lemma readers_agree (h h' : heap) (a : nat) :
  m_body <$> h' !! a = m_body <$> h !! a →
  m_type h' (Ptr a) = m_type h (Ptr a)
  ∧ jarray_deref h' (Ptr a) = jarray_deref h (Ptr a)
  ∧ jobject_deref h' (Ptr a) = jobject_deref h (Ptr a)
  ∧ jnum_deref h' (Ptr a) = jnum_deref h (Ptr a)
  ∧ jstring_deref h' (Ptr a) = jstring_deref h (Ptr a).
Proof.
  intros Hb. unfold m_type, jarray_deref, jobject_deref, jnum_deref, jstring_deref.
  rewrite Hb. repeat split; try reflexivity.
  destruct (h !! a) as [c|], (h' !! a) as [c'|]; cbn in *; simplify_eq; try done.
  by rewrite Hb.
Qed.

Lemma derived_agree (h h' : heap) (v : jvalue_ref) :
  (∀ a, v = Ptr a → m_body <$> h' !! a = m_body <$> h !! a) →
  (∀ t, has_type h' v t = has_type h v t)
  ∧ jis_const h' v = jis_const h v
  ∧ jarray_size h' v = jarray_size h v
  ∧ (∀ i, jarray_get h' v i = jarray_get h v i)
  ∧ (∀ k, jobject_get_exists h' v k = jobject_get_exists h v k)
  ∧ jobject_iter h' v = jobject_iter h v
  ∧ jstring_get_fast h' v = jstring_get_fast h v
  ∧ jnum_deref h' v = jnum_deref h v
  ∧ jstring_deref h' v = jstring_deref h v
  ∧ m_type h' v = m_type h v.
Proof.
  intros Hb. destruct v as [| | | | | |a]; try done.
  destruct (readers_agree h h' a (Hb a eq_refl)) as (Ht & Ha & Ho & Hn & Hs).
  unfold jis_const, jarray_size, jarray_get, valid_index_bounded, jarray_size_unsafe,
    jobject_get_exists, jobject_iter, jstring_get_fast, jis_array, jis_object, jis_string,
    has_type.
  rewrite Ht, Ha, Ho, Hn, Hs. done.
Qed.

Lemma reach_jarray_get (h : heap) (arr : jvalue_ref) (i : Z) (x : nat) :
  reach h (jarray_get h arr i) x → reach h arr x.
Proof.
  intros Hr. destruct (jarray_get_cases h arr i) as [Hi | (a & Ha & Hin & _)].
  - rewrite Hi in Hr. by apply reach_static_inv in Hr as [? ?].
  - destruct arr as [| | | | | |p]; try done. unfold jarray_deref in Ha.
    destruct (h !! p) as [c|] eqn:Hc; [|done]. cbn in Ha.
    destruct (m_body c) eqn:Hb; try done. simplify_eq.
    eapply reach_step; [exact Hc | | exact Hr]. by rewrite Hb.
Qed.

Lemma reach_jobject_get_exists (h : heap) (obj v : jvalue_ref) (k : string) (x : nat) :
  jobject_get_exists h obj k = Some v → reach h v x → reach h obj x.
Proof.
  unfold jobject_get_exists. intros Hg Hr.
  destruct (jis_null obj); [done|]. destruct (jis_object h obj); [|done]. cbn in Hg.
  destruct obj as [| | | | | |p]; try done. unfold jobject_deref in Hg.
  destruct (h !! p) as [c|] eqn:Hc; [|done]. cbn in Hg.
  destruct (m_body c) as [| | |m] eqn:Hb; try done. cbn in Hg.
  destruct (m !! k) as [[kr vr]|] eqn:Hk; [|done]. cbn in Hg. simplify_eq.
  eapply reach_step; [exact Hc | | exact Hr]. rewrite Hb. exists k, kr, v. auto.
Qed.

Lemma same_json_agree (g h h' : heap) (v r : jvalue_ref) :
  same_json g h v r →
  (∀ x, reach h r x → m_body <$> h' !! x = m_body <$> h !! x) →
  same_json g h' v r.
Proof.
  induction 1 as [v ? ? | a b s Ha Hb | a b x Ha Hb | a b Ha Hb Hsz Hel IH
                 | a b Ha Hb Hnone Hsome IH]; intros Hag.
  - by constructor.
  - destruct (readers_agree h h' b (Hag b (reach_here _ _))) as (_ & _ & _ & _ & Hs).
    eapply same_string; [exact Ha|]. by rewrite Hs.
  - destruct (readers_agree h h' b (Hag b (reach_here _ _))) as (_ & _ & _ & Hn & _).
    eapply same_number; [exact Ha|]. by rewrite Hn.
  - destruct (derived_agree h h' (Ptr b)) as (Ht & _ & Hs & Hget & _).
    { intros ? [= <-]. apply Hag, reach_here. }
    apply same_array.
    + exact Ha.
    + unfold jis_array. by rewrite Ht.
    + by rewrite Hs.
    + intros i Hi. rewrite Hget. apply IH; [exact Hi|].
      intros x Hx. apply Hag. by eapply reach_jarray_get.
  - destruct (derived_agree h h' (Ptr b)) as (Ht & _ & _ & _ & Hget & _).
    { intros ? [= <-]. apply Hag, reach_here. }
    apply same_object.
    + exact Ha.
    + unfold jis_object. by rewrite Ht.
    + intros k. by rewrite Hget.
    + intros k v1 v2 H1 H2. rewrite Hget in H2. eapply IH; [exact H1 | exact H2|].
      intros x Hx. apply Hag. by eapply reach_jobject_get_exists.
Qed.

Lemma reach_agree_fwd (h h' : heap) (v : jvalue_ref) (x : nat) :
  reach h v x →
  (∀ y, reach h v y → m_body <$> h' !! y = m_body <$> h !! y) →
  reach h' v x.
Proof.
  induction 1 as [a | a c w b Hc Hch Hr IH]; intros Hag; [constructor|].
  pose proof (Hag a (reach_here _ _)) as Ha. rewrite Hc in Ha.
  destruct (h' !! a) as [c'|] eqn:Hc'; [|done]. cbn in Ha. simplify_eq.
  eapply reach_step; [exact Hc' | by rewrite Ha|].
  apply IH. intros y Hy. apply Hag. by eapply reach_step.
Qed.

Lemma jis_string_agree (h h' : heap) (v : jvalue_ref) :
  (∀ a, v = Ptr a → m_body <$> h' !! a = m_body <$> h !! a) →
  jis_string h' v = jis_string h v.
Proof. intros Hag. destruct (derived_agree h h' v Hag) as (Ht & _). apply Ht. Qed.

Lemma wf_tree_agree (h h' : heap) (n : nat) (v : jvalue_ref) :
  wf_tree h n v →
  (∀ x, reach h v x → m_body <$> h' !! x = m_body <$> h !! x) →
  wf_tree h' n v.
Proof.
  revert v. induction n as [|n IH]; intros v Hwf Hag; destruct v as [| | | | | |a]; try done.
  pose proof (Hag a (reach_here _ _)) as Ha.
  cbn [wf_tree] in *. rewrite Ha.
  destruct (h !! a) as [c|] eqn:Hc; [|done]. cbn in *.
  destruct (m_body c) as [| |arr|m] eqn:Hb; try done.
  - destruct Hwf as [Hok Hsl]. split; [exact Hok|]. intros w Hw.
    destruct (Hsl w Hw) as [-> | Hww]; [by left|]. right. apply IH; [exact Hww|].
    intros x Hx. apply Hag. eapply reach_step; [exact Hc | by rewrite Hb | exact Hx].
  - intros k kr vr Hk. destruct (Hwf k kr vr Hk) as [Hs Hww]. split.
    + rewrite <- Hs. apply jis_string_agree. intros p ->. apply Hag.
      apply (reach_step h a c (Ptr p) p); [exact Hc | | constructor].
      rewrite Hb. exists k, (Ptr p), vr. auto.
    + apply IH; [exact Hww|]. intros x Hx. apply Hag.
      apply (reach_step h a c vr x); [exact Hc | | exact Hx].
      rewrite Hb. exists k, kr, vr. auto.
Qed.

Lemma reach_agree (h h' : heap) (n : nat) (v : jvalue_ref) (x : nat) :
  wf_tree h n v →
  (∀ y, reach h v y → m_body <$> h' !! y = m_body <$> h !! y) →
  reach h' v x → reach h v x.
Proof.
  revert v. induction n as [|n IH]; intros v Hwf Hag Hr;
    destruct v as [| | | | | |a]; try done; try by apply reach_static_inv in Hr as [? ?].
  inversion Hr as [|? c' w ? Hc' Hch Hrw]; subst; [constructor|].
  pose proof (Hag a (reach_here _ _)) as Ha. rewrite Hc' in Ha.
  destruct (h !! a) as [c|] eqn:Hc; [|done]. cbn in Ha. simplify_eq.
  rewrite Ha in Hch.
  assert (Hsub : ∀ y, reach h w y → m_body <$> h' !! y = m_body <$> h !! y).
  { intros y Hy. apply Hag. by eapply reach_step. }
  eapply reach_step; [exact Hc | exact Hch|].
  destruct (wf_tree_child h n a c w Hwf Hc Hch) as [-> | [Hs | Hww]].
  - by apply reach_NULL in Hrw.
  - assert (Hs' : jis_string h' w = true).
    { rewrite <- Hs. apply jis_string_agree. intros p ->. apply Hsub. constructor. }
    rewrite (jis_string_reach h' w x Hs' Hrw). constructor.
  - by apply (IH w).
Qed.

Lemma agree_extends (h h' : heap) (n : nat) (v : jvalue_ref) :
  extends h h' → wf_tree h n v →
  ∀ x, reach h v x → m_body <$> h' !! x = m_body <$> h !! x.
Proof.
  intros He Hwf x Hx.
  destruct (releasable_cell h n x) as [c Hc]; [right; by eapply wf_tree_reach|].
  destruct (He x c Hc) as (c' & Hc' & Hb). rewrite Hc, Hc'. cbn. by rewrite Hb.
Qed.

Lemma agree_frame (h h' : heap) (d : nat) (v : jvalue_ref) :
  (∀ x, x ≠ d → h' !! x = h !! x) → ¬ reach h v d →
  ∀ x, reach h v x → m_body <$> h' !! x = m_body <$> h !! x.
Proof. intros Hf Hn x Hx. rewrite Hf; [done|]. by intros ->. Qed.

Lemma copy_of_agree (g h h1 h2 : heap) (n : nat) (v r : jvalue_ref) :
  copy_of g h h1 n v r →
  (∀ x, reach h1 r x → m_body <$> h2 !! x = m_body <$> h1 !! x) →
  copy_of g h h2 n v r ∧ ∀ x, reach h2 r x → reach h1 r x.
Proof.
  intros (Hs & Hwf & Hinv & Hnew) Hag.
  assert (Hback : ∀ x, reach h2 r x → reach h1 r x).
  { intros x. by apply (reach_agree h1 h2 n). }
  split; [|exact Hback]. split; [by eapply same_json_agree|].
  split; [by apply (wf_tree_agree h1)|]. split; [exact Hinv|].
  intros x Hx. by apply Hnew, Hback.
Qed.

Lemma key_of_jarray_get (g : heap) (arr : jvalue_ref) (i : Z) (x : nat) :
  key_of g (jarray_get g arr i) x → key_of g arr x.
Proof.
  intros (o & c & m & k & vr & Hr & Hrest). exists o, c, m, k, vr.
  split; [by eapply reach_jarray_get | exact Hrest].
Qed.

Lemma key_of_child (g : heap) (a : nat) (c : jvalue) (w : jvalue_ref) (x : nat) :
  g !! a = Some c → child_of (m_body c) w → key_of g w x → key_of g (Ptr a) x.
Proof.
  intros Hc Hch (o & c' & m & k & vr & Hr & Hrest). exists o, c', m, k, vr.
  split; [by eapply reach_step | exact Hrest].
Qed.

Lemma dup_loop_inv {A} (step : A → heap → option (bool * heap))
    (release : heap → option heap) (result : jvalue_ref) (I : nat → heap → Prop)
    (l : list A) (k : nat) (h : heap) :
  (∀ i x h, l !! i = Some x → I (k + i)%nat h →
     ∃ h', step x h = Some (true, h') ∧ I (S (k + i)) h') →
  I k h →
  ∃ h', dup_loop step release result l h = Some (result, h') ∧ I (k + length l)%nat h'.
Proof.
  revert k h. induction l as [|x l IH]; intros k h Hstep HI.
  - exists h. cbn. by rewrite Nat.add_0_r.
  - destruct (Hstep 0%nat x h eq_refl) as (h1 & Hs & HI1); [by rewrite Nat.add_0_r|].
    cbn [dup_loop]. rewrite Hs. cbn. rewrite Nat.add_0_r in HI1.
    destruct (IH (S k) h1) as (h' & -> & HI'); [|exact HI1|].
    + intros i y h2 Hy HI2. specialize (Hstep (S i) y h2 Hy).
      rewrite Nat.add_succ_r in Hstep. by apply Hstep.
    + exists h'. split; [done|]. by rewrite Nat.add_succ_r.
Qed.

Section DuplicateSteps.
Context {build : Build}.
Variable jstr_to_double : string → ConversionResultFlags * double.
Variable ji64_to_double : Z → ConversionResultFlags * double.
Variables CONV_BAD_ARGS CONV_NOT_A_BOOLEAN : ConversionResultFlags.

Local Abbreviation dup :=
  (jvalue_duplicate jstr_to_double ji64_to_double CONV_BAD_ARGS CONV_NOT_A_BOOLEAN).

Local Abbreviation dup_ok fuel :=
  (∀ n val g h, extends g h → wf_tree g n val → cells_ok g val → (n < fuel)%nat →
     ∃ r h', dup fuel val h = Some (r, h') ∧ extends h h' ∧ copy_of g h h' n val r).

Lemma copy_of_new_leaf (g h : heap) (n a b : nat) (c : jvalue) :
  h !! b = None →
  body_type (m_body c) = JV_STR ∨ body_type (m_body c) = JV_NUM →
  same_json g (<[b := c]> h) (Ptr a) (Ptr b) →
  extends h (<[b := c]> h) ∧ copy_of g h (<[b := c]> h) (S n) (Ptr a) (Ptr b).
Proof.
  intros Hnew Hty Hsame. split; [by apply extends_insert|].
  split; [exact Hsame|]. split.
  { eapply wf_tree_leaf_intro; [apply lookup_insert_eq | exact Hty]. }
  split; [done|]. intros x Hx. left.
  rewrite (reach_leaf (<[b := c]> h) b x c) ; [exact Hnew | apply lookup_insert_eq | | exact Hx].
  intros v Hv. by destruct (m_body c), Hty.
Qed.

Lemma dup_leaf (fuel n : nat) (g h : heap) (a : nat) (c : jvalue) :
  extends g h → g !! a = Some c →
  body_type (m_body c) = JV_STR ∨ body_type (m_body c) = JV_NUM →
  cell_ok g c →
  ∃ r h', dup (S fuel) (Ptr a) h = Some (r, h') ∧ extends h h'
          ∧ copy_of g h h' (S n) (Ptr a) r.
Proof.
  intros He Hc Hty Hok. destruct (He a c Hc) as (c' & Hc' & Hb).
  cbn [jvalue_duplicate].
  assert (Hmt : m_type h (Ptr a) = Some (body_type (m_body c))).
  { unfold m_type. rewrite Hc'. cbn. by rewrite Hb. }
  rewrite Hmt. cbn [mbind option_bind]. rewrite jis_const_Ptr.
  unfold jis_object, jis_array, jis_string, jis_number, has_type. rewrite Hmt.
  unfold cell_ok in Hok.
  destruct (m_body c) as [s dealloc|x| |] eqn:Hbody; [| |by destruct Hty..];
    cbn [body_type]; repeat (rewrite bool_decide_eq_false_2 by done);
    rewrite bool_decide_eq_true_2 by done.
  - assert (Hget : jstring_get_fast h (Ptr a) = Some s).
    { unfold jstring_get_fast, jis_string, has_type, jstring_deref. rewrite Hmt, Hc'.
      cbn. by rewrite Hb. }
    rewrite Hget. unfold jstring_create_copy.
    change (default EmptyString (Some s)) with s.
    destruct (lookup_alloc (Jvalue 1 (BStr s false)) h) as (b & -> & Hnew & Hcell).
    eexists _, _. split; [reflexivity|].
    apply copy_of_new_leaf; [exact Hnew | by left|].
    eapply (same_string _ _ a b s).
    + unfold jstring_deref. rewrite Hc. cbn. by rewrite Hbody.
    + unfold jstring_deref. by rewrite lookup_insert_eq.
  - unfold jnumber_duplicate, jnum_deref. rewrite Hc'. cbn [fmap option_fmap option_map].
    rewrite Hb. cbn [mbind option_bind].
    assert (∃ b, match x with
                 | NUM_RAW raw => jnumber_create (Some raw) h
                 | NUM_FLOAT floating => Some (jnumber_create_f64 floating h)
                 | NUM_INT integer => Some (jnumber_create_i64 integer h)
                 end = Some (Ptr b, <[b := Jvalue 1 (BNum x)]> h) ∧ h !! b = None)
      as (b & -> & Hnew).
    { destruct (lookup_alloc (Jvalue 1 (BNum x)) h) as (b & Hal & Hnew & _).
      exists b. split; [|exact Hnew]. destruct x as [raw|floating|integer].
      - rewrite jnumber_create_raw by exact Hok. by rewrite Hal.
      - unfold jnumber_create_f64. destruct floating; try done; by rewrite <- Hal.
      - unfold jnumber_create_i64. by rewrite Hal. }
    eexists _, _. split; [reflexivity|].
    apply copy_of_new_leaf; [exact Hnew | by right|].
    eapply (same_number _ _ a b x).
    + unfold jnum_deref. rewrite Hc. cbn. by rewrite Hbody.
    + unfold jnum_deref. by rewrite lookup_insert_eq.
Qed.

Lemma copy_of_extends (g h h1 h2 : heap) (n : nat) (v r : jvalue_ref) (d : nat) :
  copy_of g h h1 n v r → ¬ reach h1 r d → extends h1 h2 →
  copy_of g h h2 n v r ∧ ¬ reach h2 r d.
Proof.
  intros Hcp Hn He.
  destruct (copy_of_agree g h h1 h2 n v r Hcp) as [Hcp' Hback].
  { apply (agree_extends h1 h2 n); [exact He | apply Hcp]. }
  split; [exact Hcp'|]. intros Hr. by apply Hn, Hback.
Qed.

Lemma copy_of_frame (g h h1 h2 : heap) (n : nat) (v r : jvalue_ref) (d : nat) :
  copy_of g h h1 n v r → ¬ reach h1 r d → (∀ x, x ≠ d → h2 !! x = h1 !! x) →
  copy_of g h h2 n v r ∧ ¬ reach h2 r d.
Proof.
  intros Hcp Hn Hf.
  destruct (copy_of_agree g h h1 h2 n v r Hcp) as [Hcp' Hback].
  { by apply (agree_frame h1 h2 d). }
  split; [exact Hcp'|]. intros Hr. by apply Hn, Hback.
Qed.

Lemma copy_of_weaken (g h0 h h' : heap) (n : nat) (v r : jvalue_ref) :
  extends h0 h → copy_of g h h' n v r → copy_of g h0 h' n v r.
Proof.
  intros He (Hs & Hwf & Hinv & Hnew). repeat split; try assumption.
  intros x Hx. destruct (Hnew x Hx) as [Hx' | ?]; [|by right]. left.
  destruct (h0 !! x) as [c|] eqn:Hc; [|done].
  destruct (He x c Hc) as (c' & Hc' & _). congruence.
Qed.

Lemma copy_of_not_reach (g h h' : heap) (n : nat) (v r : jvalue_ref) (d : nat) :
  copy_of g h h' n v r → is_Some (h !! d) → g !! d = None →
  ¬ reach h' r d.
Proof.
  intros (_ & _ & _ & Hnew) [c Hc] Hg Hr.
  destruct (Hnew d Hr) as [? | (_ & _ & _ & _ & _ & _ & _ & _ & _ & Hs)]; [congruence|].
  unfold jis_string, has_type, m_type in Hs. rewrite Hg in Hs. by apply bool_decide_eq_true_1 in Hs.
Qed.

Lemma extends_fresh (g h : heap) (d : nat) : extends g h → h !! d = None → g !! d = None.
Proof.
  intros He Hd. destruct (g !! d) as [c|] eqn:Hc; [|done].
  destruct (He d c Hc) as (c' & Hc' & _). congruence.
Qed.

Lemma copy_of_not_NULL (g h h' : heap) (n : nat) (v r : jvalue_ref) :
  copy_of g h h' n v r → r ≠ NULL.
Proof. intros (_ & Hwf & _) ->. by destruct n. Qed.

Lemma cells_ok_jarray_get (g : heap) (arr : jvalue_ref) (i : Z) :
  cells_ok g arr → cells_ok g (jarray_get g arr i).
Proof. intros Hok x c Hx. apply Hok. by eapply reach_jarray_get. Qed.

Lemma dup_array (fuel n : nat) (g h : heap) (a : nat) :
  dup_ok fuel → extends g h → jis_array g (Ptr a) = true →
  wf_tree g (S n) (Ptr a) → cells_ok g (Ptr a) → (n < fuel)%nat →
  ∃ r h', dup (S fuel) (Ptr a) h = Some (r, h') ∧ extends h h'
          ∧ copy_of g h h' (S n) (Ptr a) r.
Proof.
  intros IH He Harr Hwf Hok Hlt.
  assert (Hag : ∀ hk, extends h hk →
            ∀ p, Ptr a = Ptr p → m_body <$> hk !! p = m_body <$> g !! p).
  { intros hk Hk p [= <-]. apply (agree_extends g hk (S n) (Ptr a)); [|exact Hwf|constructor].
    by eapply extends_trans. }
  destruct (derived_agree g h (Ptr a) (Hag h (extends_refl h)))
    as (Ht & _ & Hsz & _ & _ & _ & _ & _ & _ & Hmt).
  assert (Hmt' : m_type g (Ptr a) = Some JV_ARRAY).
  { unfold jis_array, has_type in Harr. by apply bool_decide_eq_true_1 in Harr. }
  cbn [jvalue_duplicate]. rewrite Hmt, Hmt'. cbn [mbind option_bind].
  rewrite jis_const_Ptr.
  assert (Hobj : jis_object h (Ptr a) = false).
  { unfold jis_object, has_type. rewrite Hmt, Hmt'. by apply bool_decide_eq_false_2. }
  assert (Harr' : jis_array h (Ptr a) = true).
  { unfold jis_array. by rewrite Ht. }
  rewrite Hobj, Harr', Hsz.
  set (sz := jarray_size g (Ptr a)).
  assert (Hsz0 : 0 ≤ sz).
  { unfold sz, jarray_size. rewrite Harr. by eapply jarray_size_unsafe_nonneg. }
  destruct (jarray_create_hint_dst sz h) as (res & h0 & pad0 & -> & Hnew & Hd0 & Hframe0).
  cbn [mbind option_bind].
  set (I := λ (i : nat) (hk : heap),
    ∃ cnt rs pad, length rs = i ∧ dst_state hk res cnt rs pad ∧ extends h hk
      ∧ ∀ j r, rs !! j = Some r →
          copy_of g h hk n (jarray_get g (Ptr a) (Z.of_nat j)) r ∧ ¬ reach hk r res).
  destruct (dup_loop_inv
              (λ i hk, '(element, h1) ← dup fuel (jarray_get hk (Ptr a) i) hk;
                       jarray_append (S fuel) (Ptr res) element h1)
              (j_release (S fuel) (Ptr res)) (Ptr res) I (seqZ 0 sz) 0 h0)
    as (hF & -> & (cnt & rs & pad & Hlen & Hd & HeF & Hrs)).
  - intros i x hk Hx (cnt & rs & pad & Hlen & Hd & Hek & Hrs).
    apply lookup_seqZ in Hx as [-> Hi]. cbn [Nat.add] in *. rewrite Z.add_0_l.
    destruct (derived_agree g hk (Ptr a) (Hag hk Hek)) as (_ & _ & _ & Hget & _).
    rewrite Hget.
    destruct (IH n (jarray_get g (Ptr a) (Z.of_nat i)) g hk)
      as (r & h1 & -> & He1 & Hcp); [by eapply extends_trans | by apply wf_tree_jarray_get
                                    | by apply cells_ok_jarray_get | exact Hlt |].
    cbn [mbind option_bind].
    destruct (dst_state_not_string res hk cnt rs pad Hd) as [Hns Hisarr].
    destruct (He1 res _ Hd) as ([cnt1 b1] & Hres1 & Hb1). cbn in Hb1. subst b1.
    assert (Hd1 : dst_state h1 res cnt1 rs pad) by exact Hres1.
    destruct (dst_state_not_string res h1 cnt1 rs pad Hd1) as [Hns1 Hisarr1].
    assert (Hnr : ¬ reach h1 r res).
    { eapply copy_of_not_reach; [exact Hcp | by rewrite Hd|].
      by apply (extends_fresh g h). }
    pose proof (copy_of_not_NULL _ _ _ _ _ _ Hcp) as HrN.
    unfold jarray_append. rewrite Hisarr1. cbn [negb].
    rewrite (decide_False (P := r = NULL)) by exact HrN.
    assert (Hsize : jarray_size_unsafe h1 (Ptr res) = Z.of_nat (length rs)).
    { unfold jarray_size_unsafe. cbn. by rewrite Hd1. }
    rewrite Hsize.
    destruct (put_end_dst (S fuel) n h1 res cnt1 rs pad (length rs) r Hd1)
      as (h2 & pad2 & -> & Hd2 & Hframe2); [lia | lia | |].
    { apply (check_insert_sanity_outside (S fuel) n); [exact Hns1 | | lia].
      right. split; [apply Hcp | exact Hnr]. }
    rewrite Nat.sub_diag in Hd2. cbn [replicate app] in Hd2.
    exists h2. split; [reflexivity|].
    exists cnt1, (rs ++ [r]), pad2. split; [rewrite length_app; cbn; lia|].
    split; [exact Hd2|]. split.
    { intros y c Hy. destruct (He1 y) with (c := default c (hk !! y)) as (c1 & Hc1 & Hbc).
      - destruct (Hek y c Hy) as (ck & -> & _). done.
      - destruct (Hek y c Hy) as (ck & Hck & Hbk). rewrite Hck in Hbc. cbn in Hbc.
        exists c1. split; [|congruence]. rewrite Hframe2; [exact Hc1|].
        intros ->. congruence. }
    intros j r' Hj. apply lookup_app_Some in Hj as [Hj | [Hge Hj]].
    + destruct (Hrs j r' Hj) as [Hcp' Hnr'].
      destruct (copy_of_extends g h hk h1 n _ r' res Hcp' Hnr' He1) as [Hcp1 Hnr1].
      by apply (copy_of_frame g h h1 h2 n _ r' res).
    + destruct (length rs - length rs)%nat eqn:Hz; [|lia].
      assert (j = length rs) as ->.
      { apply lookup_lt_Some in Hj. cbn in Hj. lia. }
      rewrite Nat.sub_diag in Hj. cbn in Hj. simplify_eq.
      apply (copy_of_frame g h h1 h2 n _ r' res); [|exact Hnr | exact Hframe2].
      by apply (copy_of_weaken g h hk).
  - exists 1, [], pad0. split; [done|]. split; [exact Hd0|]. split.
    + intros y c Hy. exists c. split; [|done]. rewrite Hframe0; [done|]. intros ->. congruence.
    + intros j r Hj. done.
  - cbn [Nat.add] in *. rewrite length_seqZ in Hlen.
    exists (Ptr res), hF. split; [reflexivity|]. split; [exact HeF|].
    destruct (dst_state_not_string res hF cnt rs pad Hd) as [Hns HarrF].
    destruct (elements_dst_state hF res cnt rs pad Hd) as [_ HszF].
    split; [|split; [|split]].
    + apply same_array; [exact Harr | exact HarrF | |].
      * rewrite HszF, Hlen. fold sz. lia.
      * intros i Hi. fold sz in Hi.
        destruct (lookup_lt_is_Some_2 rs (Z.to_nat i)) as [r Hr]; [lia|].
        destruct (Hrs _ _ Hr) as [Hcp _]. rewrite Z2Nat.id in Hcp by lia.
        replace i with (Z.of_nat (Z.to_nat i)) at 2 by lia.
        rewrite (jarray_get_dst hF res cnt rs pad _ Hd), Hr.
        rewrite (decide_False (P := r = NULL)) by (by eapply copy_of_not_NULL).
        apply Hcp.
    + eapply dst_state_wf; [exact Hd|]. intros e He'.
      apply list_elem_of_lookup_1 in He' as [j Hj]. right. apply (Hrs j e Hj).
    + done.
    + intros x Hx. inversion Hx as [|? c w ? Hc Hch Hrw]; subst; [by left|].
      rewrite Hd in Hc. simplify_eq. cbn in Hch.
      apply elem_of_app in Hch as [Hw | Hw].
      * apply list_elem_of_lookup_1 in Hw as [j Hj].
        destruct (Hrs j w Hj) as [(_ & _ & _ & Hnew') _].
        destruct (Hnew' x Hrw) as [? | Hkey]; [by left|]. right.
        by eapply key_of_jarray_get.
      * apply elem_of_replicate in Hw as [-> _]. by apply reach_NULL in Hrw.
Qed.

Lemma jvalue_copy_string (h : heap) (v : jvalue_ref) (s : string) :
  jstring_deref h v = Some s →
  ∃ h', jvalue_copy v h = Some (v, h') ∧ extends h h'.
Proof.
  intros Hs. destruct v as [| | | | | |p]; try done.
  - exists h. split; [done | apply extends_refl].
  - unfold jvalue_copy. rewrite jis_const_Ptr. cbn [decide].
    rewrite (decide_False (P := Ptr p = NULL)) by done.
    unfold jstring_deref in Hs. destruct (h !! p) as [c|] eqn:Hc; [|done].
    cbn [mbind option_bind]. eexists. split; [reflexivity|].
    intros x c0 Hx. rewrite lookup_set_refCnt. case_decide as Hpx.
    + subst x. rewrite Hx. eexists. split; [reflexivity|]. done.
    + by exists c0.
Qed.

Lemma dup_object (fuel n : nat) (g h : heap) (a : nat) :
  dup_ok fuel → extends g h → jis_object g (Ptr a) = true →
  wf_tree g (S n) (Ptr a) → cells_ok g (Ptr a) → (n < fuel)%nat →
  ∃ r h', dup (S fuel) (Ptr a) h = Some (r, h') ∧ extends h h'
          ∧ copy_of g h h' (S n) (Ptr a) r.
Proof.
  intros IH He Hobj Hwf Hok Hlt.
  assert (Hag : ∀ p, Ptr a = Ptr p → m_body <$> h !! p = m_body <$> g !! p).
  { intros p [= <-]. apply (agree_extends g h (S n) (Ptr a)); [done | exact Hwf | constructor]. }
  destruct (derived_agree g h (Ptr a) Hag)
    as (Ht & _ & _ & _ & _ & Hiter & _ & _ & _ & Hmt).
  assert (Hmt' : m_type g (Ptr a) = Some JV_OBJECT).
  { unfold jis_object, has_type in Hobj. by apply bool_decide_eq_true_1 in Hobj. }
  destruct (jis_object_deref g (Ptr a) Hobj) as (? & [cnta ba] & m & [= <-] & Hc & Hbody).
  cbn in Hbody. subst ba.
  assert (Hcell : ∀ k kr vr, m !! k = Some (kr, vr) →
            jstring_deref g kr = Some k ∧ k ≠ EmptyString ∧ vr ≠ JINVALID
            ∧ wf_tree g n vr ∧ cells_ok g vr).
  { intros k kr vr Hk. pose proof (Hok a _ (reach_here _ _) Hc k kr vr Hk) as (? & ? & ?).
    split; [done|]. split; [done|]. split; [done|]. split.
    - eapply (wf_tree_object g n a m); [exact Hwf | | exact Hk].
      unfold jobject_deref. by rewrite Hc.
    - intros x c Hx. apply Hok.
      apply (reach_step g a _ vr x Hc); [|exact Hx]. exists k, kr, vr. auto. }
  cbn [jvalue_duplicate]. rewrite Hmt, Hmt'. cbn [mbind option_bind].
  rewrite jis_const_Ptr.
  assert (Hobj' : jis_object h (Ptr a) = true).
  { unfold jis_object. by rewrite Ht. }
  rewrite Hobj', Hiter. unfold jobject_create.
  destruct (lookup_alloc (Jvalue 1 (BObject ∅)) h) as (res & -> & Hnew & Hres0).
  assert (Hl : jobject_iter g (Ptr a) = snd <$> map_to_list m).
  { unfold jobject_iter, jobject_deref. by rewrite Hc. }
  rewrite Hl. set (L := map_to_list m).
  set (I := λ (i : nat) (hk : heap),
    ∃ cnt mk, hk !! res = Some (Jvalue cnt (BObject mk)) ∧ extends h hk
      ∧ (∀ k kr r, mk !! k = Some (kr, r) →
           ∃ vr, (k, (kr, vr)) ∈ take i L ∧ copy_of g h hk n vr r ∧ ¬ reach hk r res)
      ∧ (∀ k e, (k, e) ∈ take i L → is_Some (mk !! k))).
  destruct (dup_loop_inv
              (λ (pair : jvalue_ref * jvalue_ref) hk,
                 '(valueCopy, h1) ← dup fuel (snd pair) hk;
                 '(key, h2) ← jvalue_copy (fst pair) h1;
                 jobject_put (S fuel) (Ptr res) key valueCopy h2)
              (j_release (S fuel) (Ptr res)) (Ptr res) I (snd <$> L) 0
              (<[res := Jvalue 1 (BObject ∅)]> h))
    as (hF & -> & (cnt & mF & HresF & HeF & HA & HB)).
  - intros i x hk Hx (cnt & mk & Hresk & Hek & HA & HB). cbn [Nat.add] in *.
    rewrite list_lookup_fmap in Hx. revert Hx.
    destruct (L !! i) as [[k [kr vr]]|] eqn:HLi; intros Hx; [|done]. cbn in Hx.
    injection Hx as <-.
    cbn [fst snd].
    assert (Hk : m !! k = Some (kr, vr)).
    { apply elem_of_map_to_list. by eapply list_elem_of_lookup_2. }
    destruct (Hcell k kr vr Hk) as (Hkb & Hkne & Hvr & Hwfv & Hokv).
    assert (Hfresh : mk !! k = None).
    { destruct (mk !! k) as [[kr' r']|] eqn:Hmk; [|done].
      destruct (HA k kr' r' Hmk) as (vr' & Hin & _).
      pose proof (NoDup_fst_map_to_list m) as Hnd. fold L in Hnd.
      rewrite <- (take_drop_middle L i _ HLi), fmap_app in Hnd.
      apply NoDup_app in Hnd as (_ & Hdis & _). exfalso.
      apply (Hdis k); [|cbn; left].
      apply list_elem_of_fmap. by exists (k, (kr', vr')). }
    destruct (IH n vr g hk) as (r & h1 & -> & He1 & Hcp);
      [by eapply extends_trans | exact Hwfv | exact Hokv | exact Hlt |].
    cbn [mbind option_bind].
    assert (Hkb1 : jstring_deref h1 kr = Some k).
    { eapply jstring_deref_extends; [|exact Hkb].
      eapply extends_trans; [exact He|]. by eapply extends_trans. }
    destruct (jvalue_copy_string h1 kr k Hkb1) as (h2 & -> & He2).
    cbn [mbind option_bind].
    assert (Hek2 : extends hk h2) by (by eapply extends_trans).
    assert (Hg2 : extends g h2).
    { eapply extends_trans; [exact He|]. by eapply extends_trans. }
    destruct (Hek2 res _ Hresk) as ([cnt2 b2] & Hres2 & Hb2). cbn in Hb2. subst b2.
    destruct (object_not_string h2 res cnt2 mk Hres2) as [Hns2 _].
    destruct (copy_of_extends g hk h1 h2 n vr r res Hcp) as [Hcp2 Hnr2]; [|exact He2|].
    { eapply copy_of_not_reach; [exact Hcp | by rewrite Hresk|].
      by apply (extends_fresh g h). }
    assert (Hold : ∀ k' kr' r', mk !! k' = Some (kr', r') →
               ∃ vr', (k', (kr', vr')) ∈ take i L ∧ copy_of g h h2 n vr' r'
                      ∧ ¬ reach h2 r' res).
    { intros k' kr' r' Hmk. destruct (HA k' kr' r' Hmk) as (vr' & Hin & Hcp' & Hnr').
      exists vr'. split; [exact Hin|]. by apply (copy_of_extends g h hk h2). }
    destruct (jobject_put_success (S fuel) n h2 res cnt2 mk kr r k)
      as (h3 & -> & Hres3 & Hframe3); try assumption.
    { eapply wf_tree_object_intro; [exact Hres2|]. intros k' [kr' r'] Hmk. cbn.
      destruct (Hold k' kr' r' Hmk) as (vr' & Hin & Hcp' & _). split; [|apply Hcp'].
      apply (jstring_deref_is_string h2 kr' k'). eapply jstring_deref_extends; [exact Hg2|].
      eapply Hcell. apply elem_of_map_to_list. eapply subseteq_take, Hin. }
    { eapply jstring_deref_extends; [exact He2 | exact Hkb1]. }
    { apply wf_tree_mono, Hcp2. }
    { by apply Hcp2. }
    { lia. }
    specialize (Hframe3 Hfresh).
    exists h3. split; [reflexivity|].
    exists cnt2, (<[k := (kr, r)]> mk). split; [exact Hres3|].
    rewrite (take_S_r L i _ HLi).
    split; [|split].
    + intros y c Hy. destruct (Hek y c Hy) as (ck & Hck & Hbk).
      destruct (Hek2 y ck Hck) as (c2 & Hc2 & Hb2). exists c2.
      split; [|congruence]. rewrite Hframe3; [exact Hc2|]. intros ->. congruence.
    + intros k' kr' r' Hmk. destruct (decide (k' = k)) as [-> | Hne].
      * rewrite lookup_insert_eq in Hmk. simplify_eq. exists vr.
        split; [apply elem_of_app; right; by apply list_elem_of_singleton|].
        apply (copy_of_frame g h h2 h3 n vr r' res); [|exact Hnr2 | exact Hframe3].
        by apply (copy_of_weaken g h hk).
      * rewrite lookup_insert_ne in Hmk by done.
        destruct (Hold k' kr' r' Hmk) as (vr' & Hin & Hcp' & Hnr').
        exists vr'. split; [apply elem_of_app; by left|].
        by apply (copy_of_frame g h h2 h3 n vr' r' res).
    + intros k' e Hin. apply elem_of_app in Hin as [Hin | Hin].
      * destruct (decide (k' = k)) as [-> | Hne]; [by rewrite lookup_insert_eq|].
        rewrite lookup_insert_ne by done. by eapply HB.
      * apply list_elem_of_singleton in Hin. simplify_eq. by rewrite lookup_insert_eq.
  - exists 1, ∅. split; [apply lookup_insert_eq|]. split; [by apply extends_insert|].
    split; [intros k kr r Hk; by rewrite lookup_empty in Hk|].
    intros k e Hin. cbn in Hin. by apply elem_of_nil in Hin.
  - cbn [Nat.add] in *. rewrite length_fmap, take_ge in HA, HB by lia.
    assert (HinL : ∀ k e, (k, e) ∈ L ↔ m !! k = Some e).
    { intros k e. apply elem_of_map_to_list. }
    exists (Ptr res), hF. split; [reflexivity|]. split; [exact HeF|].
    destruct (object_not_string hF res cnt mF HresF) as [HnsF HobjF].
    assert (Hgg : ∀ k, jobject_get_exists g (Ptr a) k = snd <$> m !! k).
    { intros k. by destruct (jobject_get_exists_cell g a cnta m k Hc). }
    assert (HgF : ∀ k, jobject_get_exists hF (Ptr res) k = snd <$> mF !! k).
    { intros k. by destruct (jobject_get_exists_cell hF res cnt mF k HresF). }
    split; [|split; [|split]].
    + apply same_object; [exact Hobj | exact HobjF | |].
      * intros k. rewrite Hgg, HgF, !fmap_None. split; intros Hnone.
        -- destruct (mF !! k) as [[kr r]|] eqn:HmF; [|done].
           destruct (HA k kr r HmF) as (vr & Hin & _). apply HinL in Hin. congruence.
        -- destruct (m !! k) as [e|] eqn:Hm; [|done].
           apply HinL, HB in Hm as [? ?]. congruence.
      * intros k v1 v2. rewrite Hgg, HgF. intros H1 H2.
        destruct (m !! k) as [[kr1 w1]|] eqn:Hm; [|done].
        destruct (mF !! k) as [[kr2 w2]|] eqn:HmF; [|done]. cbn in H1, H2. simplify_eq.
        destruct (HA k kr2 v2 HmF) as (vr & Hin & Hcp & _). apply HinL in Hin.
        rewrite Hm in Hin. simplify_eq. apply Hcp.
    + eapply wf_tree_object_intro; [exact HresF|]. intros k [kr r] HmF. cbn.
      destruct (HA k kr r HmF) as (vr & Hin & Hcp & _). split; [|apply Hcp].
      apply (jstring_deref_is_string hF kr k). eapply jstring_deref_extends.
      { eapply extends_trans; [exact He | exact HeF]. }
      eapply Hcell. by apply HinL.
    + done.
    + intros x Hx. inversion Hx as [|? c w ? Hcx Hch Hrw]; subst; [by left|].
      rewrite HresF in Hcx. simplify_eq. cbn in Hch.
      destruct Hch as (k & kr & r & HmF & [-> | ->]).
      * destruct (HA k kr r HmF) as (vr & Hin & _). apply HinL in Hin.
        destruct (Hcell k kr vr Hin) as (Hkb & _).
        assert (Hs : jis_string hF kr = true).
        { apply (jstring_deref_is_string hF kr k). eapply jstring_deref_extends; [|exact Hkb].
          eapply extends_trans; [exact He | exact HeF]. }
        right. rewrite (jis_string_reach hF kr x Hs Hrw) in Hin, Hkb.
        exists a, (Jvalue cnta (BObject m)), m, k, vr.
        split; [constructor|]. split; [exact Hc|].
        split; [done|]. split; [exact Hin|]. by eapply jstring_deref_is_string.
      * destruct (HA k kr r HmF) as (vr & Hin & (_ & _ & _ & Hnew') & _).
        apply HinL in Hin.
        destruct (Hnew' x Hrw) as [? | Hkey]; [by left|]. right.
        eapply key_of_child; [exact Hc | | exact Hkey]. exists k, kr, vr. auto.
Qed.

Lemma dup_all (fuel : nat) : dup_ok fuel.
Proof.
  induction fuel as [|fuel IH]; intros n val g h He Hwf Hok Hlt; [lia|].
  assert (Hconst : val ≠ NULL → (∀ a, val ≠ Ptr a) →
            ∃ r h', dup (S fuel) val h = Some (r, h') ∧ extends h h'
                    ∧ copy_of g h h' n val r).
  { intros HN HP. exists val, h. split; [by destruct val; try done; destruct (HP a)|].
    split; [apply extends_refl|]. split; [by constructor|].
    split; [by destruct val, n; try done; destruct (HP a)|].
    split; [done|]. intros x Hx. apply reach_static_inv in Hx as [a ->]. by destruct (HP a). }
  destruct val as [| | | | | |a]; [by destruct n | by apply Hconst.. |].
  destruct n as [|n]; [done|].
  destruct (releasable_cell g (S n) a) as [c Hc]; [by right|].
  destruct (m_body c) as [s dealloc|x|arr|m] eqn:Hbody.
  - apply (dup_leaf fuel n g h a c); [exact He | exact Hc | left; by rewrite Hbody|].
    by apply (Hok a c (reach_here _ _)).
  - apply (dup_leaf fuel n g h a c); [exact He | exact Hc | right; by rewrite Hbody|].
    by apply (Hok a c (reach_here _ _)).
  - apply dup_array; try assumption; [|lia].
    unfold jis_array, has_type, m_type. rewrite Hc. cbn. rewrite Hbody.
    by apply bool_decide_eq_true_2.
  - apply dup_object; try assumption; [|lia].
    unfold jis_object, has_type, m_type. rewrite Hc. cbn. rewrite Hbody.
    by apply bool_decide_eq_true_2.
Qed.
End DuplicateSteps.

Lemma same_json_agree_l (g g' h : heap) (v r : jvalue_ref) :
  same_json g h v r →
  (∀ x, reach g v x → m_body <$> g' !! x = m_body <$> g !! x) →
  same_json g' h v r.
Proof.
  induction 1 as [v ? ? | a b s Ha Hb | a b x Ha Hb | a b Ha Hb Hsz Hel IH
                 | a b Ha Hb Hnone Hsome IH]; intros Hag.
  - by constructor.
  - destruct (readers_agree g g' a (Hag a (reach_here _ _))) as (_ & _ & _ & _ & Hs).
    eapply same_string; [|exact Hb]. by rewrite Hs.
  - destruct (readers_agree g g' a (Hag a (reach_here _ _))) as (_ & _ & _ & Hn & _).
    eapply same_number; [|exact Hb]. by rewrite Hn.
  - destruct (derived_agree g g' (Ptr a)) as (Ht & _ & Hs & Hget & _).
    { intros ? [= <-]. apply Hag, reach_here. }
    apply same_array.
    + unfold jis_array. by rewrite Ht.
    + exact Hb.
    + by rewrite Hs.
    + intros i Hi. rewrite Hs in Hi. rewrite Hget. apply IH; [exact Hi|].
      intros x Hx. apply Hag. by eapply reach_jarray_get.
  - destruct (derived_agree g g' (Ptr a)) as (Ht & _ & _ & _ & Hget & _).
    { intros ? [= <-]. apply Hag, reach_here. }
    apply same_object.
    + unfold jis_object. by rewrite Ht.
    + exact Hb.
    + intros k. by rewrite Hget.
    + intros k v1 v2 H1 H2. rewrite Hget in H1. eapply IH; [exact H1 | exact H2|].
      intros x Hx. apply Hag. by eapply reach_jobject_get_exists.
Qed.

(** X19: [jvalue_duplicate] of a tree of the store whose cells are as the
    constructors and [jobject_put] leave them returns a value [r] with a new
    store.  [r] is the same JSON document as [val]: for the readers
    [jarray_size], [jarray_get] and [jobject_get_exists], the bytes of the
    strings and the representation of the numbers, at every depth; and this
    holds for [val] as it was in the old store and as it is in the new one.
    [r] is a tree of the same depth bound, every cell of the old store keeps
    its body, and apart from the keys of the objects of [val], which are
    shared, no cell of [r] is a cell of the old store: a singleton is
    returned as it is, anything else (every string that is a value, too) is
    copied into cells of its own. *)
Theorem jvalue_duplicate_same_json {B : Build}
    (jstr_to_double : string → ConversionResultFlags * double)
    (ji64_to_double : Z → ConversionResultFlags * double)
    (CONV_BAD_ARGS CONV_NOT_A_BOOLEAN : ConversionResultFlags)
    (h : heap) (n fuel : nat) (val : jvalue_ref) :
  wf_tree h n val → cells_ok h val → (n < fuel)%nat →
  ∃ r h',
    jvalue_duplicate jstr_to_double ji64_to_double CONV_BAD_ARGS CONV_NOT_A_BOOLEAN
      fuel val h = Some (r, h')
    ∧ same_json h h' val r
    ∧ same_json h' h' val r
    ∧ wf_tree h' n r
    ∧ extends h h'
    ∧ ((∀ a, val ≠ Ptr a) → r = val ∧ h' = h)
    ∧ ∀ x, reach h' r x → h !! x = None ∨ key_of h val x.
Proof.
  intros Hwf Hok Hlt.
  destruct (dup_all jstr_to_double ji64_to_double CONV_BAD_ARGS CONV_NOT_A_BOOLEAN
              fuel n val h h (extends_refl h) Hwf Hok Hlt)
    as (r & h' & Hdup & He & Hsame & Hwf' & _ & Hnew).
  exists r, h'. split; [exact Hdup|]. split; [exact Hsame|].
  split; [|split; [exact Hwf'|split; [exact He|split; [|exact Hnew]]]].
  - apply (same_json_agree_l h h' h' val r Hsame).
    by apply (agree_extends h h' n).
  - intros HP. destruct fuel as [|fuel]; [lia|].
    destruct val as [| | | | | |a]; [by destruct n | | | | | |by destruct (HP a)];
      cbn in Hdup; injection Hdup as <- <-; by split.
Qed.

(** The object with the key "a" whose value is the array of the number 1. *)
Lemma jvalue_duplicate_same_json_witness :
  let B : Build := {| NDEBUG := false |} in
  let h : heap := {[ 0%nat := Jvalue 1 (BObject {[ "a" := (Ptr 1, Ptr 2) ]});
                     1%nat := Jvalue 1 (BStr "a" false);
                     2%nat := Jvalue 1 (BArray (Jarray 1 [Ptr 3]));
                     3%nat := Jvalue 1 (BNum (NUM_INT 1)) ]} in
  let to_double := λ _ : string, (CONV_OK, S754_zero false) in
  let of_i64 := λ z : Z, (CONV_OK, i64_to_double z) in
  ∃ r h',
    jvalue_duplicate to_double of_i64 1 2 4 (Ptr 0) h = Some (r, h')
    ∧ same_json h h' (Ptr 0) r
    ∧ same_json h' h' (Ptr 0) r
    ∧ wf_tree h' 3 r
    ∧ extends h h'
    ∧ ((∀ a, Ptr 0 ≠ Ptr a) → r = Ptr 0 ∧ h' = h)
    ∧ ∀ x, reach h' r x → h !! x = None ∨ key_of h (Ptr 0) x.
Proof.
  intros B h to_double of_i64.
  apply (jvalue_duplicate_same_json to_double of_i64 1 2 h 3 4 (Ptr 0)); [| |lia].
  - eapply wf_tree_object_intro; [reflexivity|].
    apply map_Forall_singleton. cbn [fst snd]. split; [reflexivity|].
    eapply wf_tree_array_intro; [reflexivity | apply array_ok_intro; cbn; [lia|] |].
    + constructor.
    + cbn [m_slots]. constructor; [right | constructor].
      eapply wf_tree_leaf_intro; [reflexivity | by right].
  - intros x c _ Hx. unfold h in Hx.
    apply lookup_insert_Some in Hx as [[_ <-] | [_ Hx]].
    { intros k kr vr Hk. apply lookup_singleton_Some in Hk as [<- [= <- <-]].
      by repeat split. }
    apply lookup_insert_Some in Hx as [[_ <-] | [_ Hx]]; [exact Logic.I|].
    apply lookup_insert_Some in Hx as [[_ <-] | [_ Hx]]; [exact Logic.I|].
    by apply lookup_singleton_Some in Hx as [_ <-].
Defined.

(** ** A deep copy is equal to its original *)

Lemma cells_ok_extends (h h' : heap) (n : nat) (v : jvalue_ref) :
  extends h h' → wf_tree h n v → cells_ok h v → cells_ok h' v.
Proof.
  intros He Hwf Hok x c' Hx Hc'.
  pose proof (reach_extends h h' n v x He Hwf Hx) as Hx0.
  destruct (releasable_cell h n x) as [c Hc]; [right; by eapply wf_tree_reach|].
  destruct (He x c Hc) as (c2 & Hc2 & Hb). simplify_eq.
  pose proof (Hok x c Hx0 Hc) as Hcell. unfold cell_ok in *. rewrite Hb.
  destruct (m_body c) as [| | |m]; try done.
  intros k kr vr Hk. destruct (Hcell k kr vr Hk) as (Hs & ? & ?).
  split; [by eapply jstring_deref_extends|]. done.
Qed.

Lemma cells_ok_jobject_get_exists (h : heap) (obj v : jvalue_ref) (k : string) :
  cells_ok h obj → jobject_get_exists h obj k = Some v → cells_ok h v.
Proof. intros Hok Hg x c Hx. apply Hok. by eapply reach_jobject_get_exists. Qed.

Section EqualCopies.
Variable jstr_to_i64 : string → ConversionResultFlags * Z.
Variable jstr_to_double : string → ConversionResultFlags * double.

Lemma jnumber_compare_same (h : heap) (v r : jvalue_ref) (x : jnum) :
  jnum_deref h v = Some x → jnum_deref h r = Some x →
  jnumber_compare jstr_to_i64 jstr_to_double h v r = Some 0.
Proof.
  intros Hv Hr. unfold jnumber_compare, jnumber_compare_i64, jnumber_compare_f64.
  rewrite Hr, Hv. cbn [mbind option_bind].
  assert (Hd : ∀ d, cmp3_double d d = 0).
  { intros d. pose proof (cmp3_double_antisym d d). lia. }
  assert (Hi : ∀ i, cmp3_int i i = 0).
  { intros i. pose proof (cmp3_int_antisym i i). lia. }
  destruct x as [raw|floating|integer]; [|by rewrite Hd|by rewrite Hi].
  destruct (jstr_to_i64 raw) as [conv asInt].
  case_decide; [by rewrite Hi|].
  destruct (jstr_to_double raw) as [conv' asFloat]. by rewrite Hd.
Qed.

Lemma same_json_equal (fuel : nat) :
  ∀ (n : nat) (h : heap) (v r : jvalue_ref),
    wf_tree h n v → cells_ok h v → same_json h h v r → (n < fuel)%nat →
    jvalue_equal jstr_to_i64 jstr_to_double fuel h v r = Some true.
Proof.
  induction fuel as [|fuel IH]; intros n h v r Hwf Hok Hsame Hlt; [lia|].
  cbn [jvalue_equal]. case_decide as Heq; [done|].
  destruct Hsame as [v ? ? | a b s Ha Hb | a b x Ha Hb | a b Ha Hb Hsz Hel
                    | a b Ha Hb Hnone Hsome]; [done | | | |].
  - pose proof (jstring_deref_is_string h _ _ Ha) as Hsa.
    pose proof (jstring_deref_is_string h _ _ Hb) as Hsb.
    unfold jis_string, has_type in Hsa, Hsb.
    apply bool_decide_eq_true_1 in Hsa, Hsb. rewrite Hsa, Hsb. cbn [mbind option_bind].
    rewrite (decide_False (P := JV_STR ≠ JV_STR)) by (intros ?; done).
    unfold jstring_equal, jis_string, has_type. rewrite Hsa, Hsb.
    rewrite !bool_decide_eq_true_2 by done. cbn [negb orb].
    unfold jstring_equal_internal. rewrite (decide_False (P := Ptr a = Ptr b)) by done.
    rewrite Ha, Hb. cbn [mbind option_bind]. rewrite jstring_equal_internal3_spec.
    by rewrite bool_decide_eq_true_2.
  - assert (Hta : m_type h (Ptr a) = Some JV_NUM).
    { unfold jnum_deref in Ha. unfold m_type. destruct (h !! a) as [c|]; [|done].
      cbn in *. by destruct (m_body c). }
    assert (Htb : m_type h (Ptr b) = Some JV_NUM).
    { unfold jnum_deref in Hb. unfold m_type. destruct (h !! b) as [c|]; [|done].
      cbn in *. by destruct (m_body c). }
    rewrite Hta, Htb. cbn [mbind option_bind].
    rewrite (decide_False (P := JV_NUM ≠ JV_NUM)) by (intros ?; done).
    rewrite (jnumber_compare_same h _ _ x Ha Hb). cbn [mbind option_bind].
    by rewrite bool_decide_eq_true_2.
  - unfold jis_array, has_type in Ha, Hb. apply bool_decide_eq_true_1 in Ha, Hb.
    rewrite Ha, Hb. cbn [mbind option_bind].
    rewrite (decide_False (P := JV_ARRAY ≠ JV_ARRAY)) by (intros ?; done).
    rewrite (decide_False (P := jarray_size h (Ptr a) ≠ jarray_size h (Ptr b)))
      by (intros ?; done).
    destruct n as [|n]; [done|].
    apply all_true_true. intros i Hi. apply elem_of_seqZ in Hi.
    apply (IH n); [by apply wf_tree_jarray_get | by apply cells_ok_jarray_get | | lia].
    apply Hel. lia.
  - pose proof Ha as Ha'. pose proof Hb as Hb'.
    unfold jis_object, has_type in Ha', Hb'. apply bool_decide_eq_true_1 in Ha', Hb'.
    rewrite Ha', Hb'. cbn [mbind option_bind].
    rewrite (decide_False (P := JV_OBJECT ≠ JV_OBJECT)) by (intros ?; done).
    destruct n as [|n]; [done|].
    destruct (jis_object_deref h (Ptr a) Ha) as (? & [cnta ba] & ma & [= <-] & Hca & Hba).
    destruct (jis_object_deref h (Ptr b) Hb) as (? & [cntb bb] & mb & [= <-] & Hcb & Hbb).
    cbn in Hba, Hbb. subst ba bb.
    assert (Hga : ∀ k, jobject_get_exists h (Ptr a) k = snd <$> ma !! k).
    { intros k. by destruct (jobject_get_exists_cell h a cnta ma k Hca). }
    assert (Hgb : ∀ k, jobject_get_exists h (Ptr b) k = snd <$> mb !! k).
    { intros k. by destruct (jobject_get_exists_cell h b cntb mb k Hcb). }
    assert (Hdom : dom ma = dom mb).
    { apply set_eq. intros k. rewrite !elem_of_dom, <- !not_eq_None_Some.
      specialize (Hnone k). rewrite Hga, Hgb, !fmap_None in Hnone. by rewrite Hnone. }
    assert (Hsize : jobject_size h (Ptr a) = jobject_size h (Ptr b)).
    { destruct (jobject_get_exists_cell h a cnta ma EmptyString Hca) as [_ ->].
      destruct (jobject_get_exists_cell h b cntb mb EmptyString Hcb) as [_ ->].
      by rewrite <- (size_dom ma), <- (size_dom mb), Hdom. }
    rewrite (decide_False (P := jobject_size h (Ptr a) ≠ jobject_size h (Ptr b)))
      by (intros ?; done).
    apply all_true_true. intros [kr vr] Hin. cbn [fst snd].
    unfold jobject_iter, jobject_deref in Hin. rewrite Hca in Hin. cbn in Hin.
    apply list_elem_of_fmap in Hin as ([k [kr' vr']] & [= <- <-] & Hin).
    apply elem_of_map_to_list in Hin.
    destruct (Hok a _ (reach_here _ _) Hca k kr vr Hin) as (Hkb & _ & _).
    unfold jobject_get_exists2. rewrite Hkb. cbn [mbind option_bind].
    assert (Hva : jobject_get_exists h (Ptr a) k = Some vr) by (by rewrite Hga, Hin).
    destruct (jobject_get_exists h (Ptr b) k) as [val|] eqn:Hvb.
    + apply (IH n); [| by eapply cells_ok_jobject_get_exists | by eapply Hsome | lia].
      eapply (wf_tree_object h n a ma); [exact Hwf | | exact Hin].
      unfold jobject_deref. by rewrite Hca.
    + apply Hnone in Hvb. congruence.
Qed.
End EqualCopies.

(** X20: for [jvalue_equal], the value [jvalue_duplicate] returns is equal
    to the value it was given, in the store the copy was made in. *)
Theorem jvalue_duplicate_equal {B : Build}
    (jstr_to_i64 : string → ConversionResultFlags * Z)
    (jstr_to_double : string → ConversionResultFlags * double)
    (ji64_to_double : Z → ConversionResultFlags * double)
    (CONV_BAD_ARGS CONV_NOT_A_BOOLEAN : ConversionResultFlags)
    (h : heap) (n fuel : nat) (val : jvalue_ref) :
  wf_tree h n val → cells_ok h val → (n < fuel)%nat →
  ∃ r h',
    jvalue_duplicate jstr_to_double ji64_to_double CONV_BAD_ARGS CONV_NOT_A_BOOLEAN
      fuel val h = Some (r, h')
    ∧ jvalue_equal jstr_to_i64 jstr_to_double fuel h' val r = Some true.
Proof.
  intros Hwf Hok Hlt.
  destruct (dup_all jstr_to_double ji64_to_double CONV_BAD_ARGS CONV_NOT_A_BOOLEAN
              fuel n val h h (extends_refl h) Hwf Hok Hlt)
    as (r & h' & Hdup & He & Hsame & _).
  exists r, h'. split; [exact Hdup|].
  apply (same_json_equal jstr_to_i64 jstr_to_double fuel n).
  - by apply (wf_tree_extends h).
  - by apply (cells_ok_extends h h' n).
  - apply (same_json_agree_l h h' h' val r Hsame). by apply (agree_extends h h' n).
  - exact Hlt.
Qed.

(** The array of the string "x" and the number 1. *)
Lemma jvalue_duplicate_equal_witness :
  let B : Build := {| NDEBUG := false |} in
  let h : heap := {[ 0%nat := Jvalue 1 (BArray (Jarray 2 [Ptr 1; Ptr 2]));
                     1%nat := Jvalue 1 (BStr "x" false);
                     2%nat := Jvalue 1 (BNum (NUM_INT 1)) ]} in
  let to_i64 := λ _ : string, (CONV_OK, 0) in
  let to_double := λ _ : string, (CONV_OK, S754_zero false) in
  let of_i64 := λ z : Z, (CONV_OK, i64_to_double z) in
  ∃ r h',
    jvalue_duplicate to_double of_i64 1 2 3 (Ptr 0) h = Some (r, h')
    ∧ jvalue_equal to_i64 to_double 3 h' (Ptr 0) r = Some true.
Proof.
  intros B h to_i64 to_double of_i64.
  apply (jvalue_duplicate_equal to_i64 to_double of_i64 1 2 h 2 3 (Ptr 0)); [| |lia].
  - eapply wf_tree_array_intro; [reflexivity | apply array_ok_intro; cbn; [lia|] |].
    + constructor.
    + cbn [m_slots]. constructor; [right | constructor; [right | constructor]];
        (eapply wf_tree_leaf_intro; [reflexivity | (by left) || (by right)]).
  - intros x c _ Hx. unfold h in Hx.
    apply lookup_insert_Some in Hx as [[_ <-] | [_ Hx]]; [exact Logic.I|].
    apply lookup_insert_Some in Hx as [[_ <-] | [_ Hx]]; [exact Logic.I|].
    by apply lookup_singleton_Some in Hx as [_ <-].
Defined.

(** ** Building an object from its pairs *)

Lemma frame_new_cell (h0 hk : heap) (o n : nat) (v : jvalue_ref) :
  h0 !! o = None → (∀ x, x ≠ o → hk !! x = h0 !! x) → wf_tree h0 n v →
  wf_tree hk n v ∧ ¬ reach hk v o.
Proof.
  intros Hnew Hf Hwf.
  assert (Hnr : ¬ reach h0 v o) by (eapply not_reach_absent; [exact Hnew | by right]).
  pose proof (agree_frame h0 hk o v Hf Hnr) as Hag.
  split; [by apply (wf_tree_agree h0)|]. intros Hr. apply Hnr.
  by apply (reach_agree h0 hk n).
Qed.

Lemma jstring_deref_frame (h0 hk : heap) (o : nat) (kr : jvalue_ref) (k : string) :
  h0 !! o = None → (∀ x, x ≠ o → hk !! x = h0 !! x) →
  jstring_deref h0 kr = Some k → jstring_deref hk kr = Some k.
Proof.
  intros Hnew Hf Hs. destruct kr as [| | | | | |p]; try done.
  unfold jstring_deref in *. rewrite Hf; [done|]. intros ->. by rewrite Hnew in Hs.
Qed.

Lemma jobject_create_var_loop_spec {B : Build} (fuel n o : nat) (h0 : heap) :
  h0 !! o = None → (S n < fuel)%nat →
  ∀ (items : list (jvalue_ref * jvalue_ref)) (ks : list string) (hk : heap)
    (mk : gmap string (jvalue_ref * jvalue_ref)),
    Forall2 (λ item k, jstring_deref h0 item.1 = Some k ∧ k ≠ EmptyString
                       ∧ wf_tree h0 n item.2 ∧ item.2 ≠ JINVALID) items ks →
    NoDup ks → (∀ k, k ∈ ks → mk !! k = None) →
    hk !! o = Some (Jvalue 1 (BObject mk)) → (∀ x, x ≠ o → hk !! x = h0 !! x) →
    (∀ k kr v, mk !! k = Some (kr, v) → jstring_deref h0 kr = Some k ∧ wf_tree h0 n v) →
    ∃ h' m',
      jobject_create_var_loop fuel (Ptr o) items hk = Some (Ptr o, h')
      ∧ h' !! o = Some (Jvalue 1 (BObject m'))
      ∧ m' = list_to_map (zip ks items) ∪ mk
      ∧ (∀ x, x ≠ o → h' !! x = h0 !! x)
      ∧ (∀ k kr v, m' !! k = Some (kr, v) → jstring_deref h0 kr = Some k ∧ wf_tree h0 n v).
Proof.
  intros Hnew Hlt. induction items as [|[kr v] items IH];
    intros ks hk mk Hall Hnd Hfresh Hcell Hf Hent.
  - apply Forall2_nil_inv_l in Hall as ->. exists hk, mk. split; [done|].
    split; [done|]. split; [cbn; by rewrite (left_id_L ∅ (∪))|]. by split.
  - apply Forall2_cons_inv_l in Hall as (k & ks' & (Hkb & Hkne & Hwfv & Hvi) & Hall & ->).
    cbn [fst snd] in *. apply NoDup_cons in Hnd as [Hk Hnd].
    cbn [jobject_create_var_loop fst snd]. unfold jobject_put_keyvalue.
    rewrite (c_assert_true (jis_string hk kr)).
    2:{ apply (jstring_deref_is_string hk kr k). by eapply jstring_deref_frame. }
    rewrite c_assert_true.
    2:{ apply bool_decide_eq_true_2. intros ->. by destruct n. }
    cbn [mbind option_bind].
    change (jis_valid (Ptr o)) with true. cbn [negb].
    destruct (frame_new_cell h0 hk o n v Hnew Hf Hwfv) as [Hwfk Hnrk].
    destruct (jobject_put_success fuel n hk o 1 mk kr v k)
      as (h1 & -> & Hres1 & Hframe1); try assumption.
    { eapply wf_tree_object_intro; [exact Hcell|]. intros k' [kr' v'] Hmk. cbn.
      destruct (Hent k' kr' v' Hmk) as [Hs Hw]. split.
      - apply (jstring_deref_is_string hk kr' k'). by eapply jstring_deref_frame.
      - by destruct (frame_new_cell h0 hk o n v' Hnew Hf Hw). }
    { by eapply jstring_deref_frame. }
    { by apply wf_tree_mono. }
    cbn [mbind option_bind negb].
    specialize (Hframe1 (Hfresh k ltac:(by left))).
    destruct (IH ks' h1 (<[k := (kr, v)]> mk)) as (h' & m' & -> & Hres' & -> & Hf' & Hent');
      try assumption.
    { intros k' Hk'. rewrite lookup_insert_ne by (by intros ->).
      apply Hfresh. by right. }
    { intros x Hx. by rewrite Hframe1, Hf. }
    { intros k' kr' v' Hmk. apply lookup_insert_Some in Hmk as [[<- [= <- <-]] | [_ Hmk]];
        [done | by eapply Hent]. }
    exists h', (list_to_map (zip (k :: ks') ((kr, v) :: items)) ∪ mk).
    assert (Hm : list_to_map (zip (k :: ks') ((kr, v) :: items)) ∪ mk
                 = list_to_map (zip ks' items) ∪ <[k := (kr, v)]> mk).
    { cbn [zip zip_with]. rewrite list_to_map_cons.
      rewrite <- insert_union_l. rewrite insert_union_r; [done|].
      apply not_elem_of_list_to_map_1. rewrite fst_zip; [done|].
      by rewrite (Forall2_length _ _ _ Hall). }
    rewrite Hm. split; [done|]. split; [exact Hres'|]. split; [done|].
    split; [exact Hf' | exact Hent'].
Qed.

(** X21: [jobject_create_var] of pairs whose keys are strings with bytes
    that are not empty and differ from pair to pair, and whose values are
    trees of the store other than the Invalid sentinel, returns a new
    object.  Under the bytes of each key [jobject_get_exists] finds the
    value of that pair, it finds nothing under other bytes, the size of the
    object is the number of pairs, and no other cell of the store changes:
    the object owns the keys and the values it was given. *)
Theorem jobject_create_var_get {B : Build} (h : heap) (n fuel : nat)
    (items : list (jvalue_ref * jvalue_ref)) (ks : list string) :
  Forall2 (λ item k, jstring_deref h item.1 = Some k ∧ k ≠ EmptyString
                     ∧ wf_tree h n item.2 ∧ item.2 ≠ JINVALID) items ks →
  NoDup ks → (S n < fuel)%nat →
  ∃ o h',
    jobject_create_var fuel items h = Some (Ptr o, h')
    ∧ h !! o = None
    ∧ (∀ i k item, ks !! i = Some k → items !! i = Some item →
         jobject_get_exists h' (Ptr o) k = Some item.2)
    ∧ (∀ k, k ∉ ks → jobject_get_exists h' (Ptr o) k = None)
    ∧ jobject_size h' (Ptr o) = Z.of_nat (length items)
    ∧ wf_tree h' (S n) (Ptr o)
    ∧ ∀ x, x ≠ o → h' !! x = h !! x.
Proof.
  intros Hall Hnd Hlt. unfold jobject_create_var, jobject_create.
  destruct (lookup_alloc (Jvalue 1 (BObject ∅)) h) as (o & -> & Hnew & Hcell).
  rewrite (decide_False (P := Ptr o = NULL)) by done.
  destruct (jobject_create_var_loop_spec fuel n o h Hnew Hlt items ks
              (<[o := Jvalue 1 (BObject ∅)]> h) ∅ Hall Hnd)
    as (h' & m' & -> & Hres & -> & Hf & Hent).
  { intros k _. apply lookup_empty. }
  { exact Hcell. }
  { intros x Hx. by rewrite lookup_insert_ne. }
  { intros k kr v Hk. by rewrite lookup_empty in Hk. }
  rewrite (right_id_L ∅ (∪)) in Hres, Hent.
  pose proof (Forall2_length _ _ _ Hall) as Hlen.
  assert (Hfst : (zip ks items).*1 = ks) by (apply fst_zip; lia).
  exists o, h'. split; [done|]. split; [exact Hnew|].
  split; [|split; [|split; [|split; [|exact Hf]]]].
  - intros i k item Hk Hi.
    destruct (jobject_get_exists_cell h' o 1 _ k Hres) as [-> _].
    rewrite (elem_of_list_to_map_1 (zip ks items) k item); [done | by rewrite Hfst|].
    apply (list_elem_of_lookup_2 _ i). apply lookup_zip_with_Some. by exists k, item.
  - intros k Hk. destruct (jobject_get_exists_cell h' o 1 _ k Hres) as [-> _].
    rewrite (not_elem_of_list_to_map_1 (zip ks items) k); [done | by rewrite Hfst].
  - destruct (jobject_get_exists_cell h' o 1 _ EmptyString Hres) as [_ ->].
    rewrite map_size_list_to_map by (by rewrite Hfst).
    by rewrite length_zip_with, <- Hlen, Nat.min_id.
  - eapply wf_tree_object_intro; [exact Hres|]. intros k [kr v] Hk. cbn.
    destruct (Hent k kr v Hk) as [Hs Hw]. split.
    + apply (jstring_deref_is_string h' kr k). by eapply jstring_deref_frame.
    + by destruct (frame_new_cell h h' o n v Hnew Hf Hw).
Qed.

(** The pairs ("a", 1) and ("b", 2). *)
Lemma jobject_create_var_get_witness :
  let B : Build := {| NDEBUG := false |} in
  let h : heap := {[ 0%nat := Jvalue 1 (BStr "a" false);
                     1%nat := Jvalue 1 (BNum (NUM_INT 1));
                     2%nat := Jvalue 1 (BStr "b" false);
                     3%nat := Jvalue 1 (BNum (NUM_INT 2)) ]} in
  let items := [(Ptr 0, Ptr 1); (Ptr 2, Ptr 3)] in
  let ks := ["a"; "b"] in
  ∃ o h',
    jobject_create_var 3 items h = Some (Ptr o, h')
    ∧ h !! o = None
    ∧ (∀ i k item, ks !! i = Some k → items !! i = Some item →
         jobject_get_exists h' (Ptr o) k = Some item.2)
    ∧ (∀ k, k ∉ ks → jobject_get_exists h' (Ptr o) k = None)
    ∧ jobject_size h' (Ptr o) = Z.of_nat (length items)
    ∧ wf_tree h' 2 (Ptr o)
    ∧ ∀ x, x ≠ o → h' !! x = h !! x.
Proof.
  intros B h items ks. apply (jobject_create_var_get h 1 3 items ks); [| |lia].
  - repeat constructor; try done;
      (eapply wf_tree_leaf_intro; [reflexivity | by right]).
  - apply NoDup_cons. split; [|apply NoDup_singleton].
    intros Hin. by apply list_elem_of_singleton in Hin.
Defined.

(** ** Releasing a tree with one owner *)

Lemma key_owned_wf (h : heap) (n : nat) (kr : jvalue_ref) :
  key_owned h kr → wf_tree h (S n) kr.
Proof. intros [Hs _]. by apply jis_string_wf_tree. Qed.

Lemma owned_wf (h : heap) (n : nat) (v : jvalue_ref) : owned h n v → wf_tree h n v.
Proof.
  revert v. induction n as [|n IH]; intros v Ho; destruct v as [| | | | | |a]; try done.
  cbn [owned wf_tree] in *. destruct (h !! a) as [c|]; [|done]. cbn.
  destruct Ho as [_ Ho]. destruct (m_body c) as [| |arr|m]; try done.
  - destruct Ho as (Hok & Hsl & _). split; [exact Hok|]. intros w Hw.
    destruct (Hsl w Hw) as [-> | Hw']; [by left | right; by apply IH].
  - destruct Ho as [Hent _]. intros k kr vr Hk.
    destruct (Hent k kr vr Hk) as ([Hs _] & Hv & _). split; [exact Hs | by apply IH].
Qed.

Lemma agree_same (h h' : heap) (v : jvalue_ref) :
  (∀ x, reach h v x → h' !! x = h !! x) →
  ∀ x, reach h v x → m_body <$> h' !! x = m_body <$> h !! x.
Proof. intros Hs x Hx. by rewrite Hs. Qed.

Lemma reach_same (h h' : heap) (n : nat) (v : jvalue_ref) (x : nat) :
  v = NULL ∨ wf_tree h n v → (∀ y, reach h v y → h' !! y = h !! y) →
  reach h' v x ↔ reach h v x.
Proof.
  intros [-> | Hwf] Hs.
  { split; intros Hr; by apply reach_NULL in Hr. }
  split; intros Hr.
  - apply (reach_agree h h' n v x Hwf); [by apply agree_same | exact Hr].
  - apply (reach_agree_fwd h h' v x Hr). by apply agree_same.
Qed.

Lemma disjoint_at_same (h h' : heap) (n : nat) (v w : jvalue_ref) :
  v = NULL ∨ wf_tree h n v → w = NULL ∨ wf_tree h n w →
  (∀ y, reach h v y → h' !! y = h !! y) → (∀ y, reach h w y → h' !! y = h !! y) →
  disjoint_at h v w → disjoint_at h' v w.
Proof.
  intros Hv Hw Hsv Hsw Hd x Hx Hx'.
  apply (reach_same h h' n v x Hv Hsv) in Hx.
  apply (reach_same h h' n w x Hw Hsw) in Hx'. by apply (Hd x).
Qed.

Lemma key_owned_same (h h' : heap) (kr : jvalue_ref) :
  key_owned h kr → (∀ y, reach h kr y → h' !! y = h !! y) → key_owned h' kr.
Proof.
  intros [Hs Hc] Hsame. split.
  - rewrite <- Hs. apply jis_string_agree. intros p ->.
    rewrite Hsame; [done | constructor].
  - intros p c -> Hp. rewrite Hsame in Hp by constructor. by eapply Hc.
Qed.

Lemma owned_same (h h' : heap) (n : nat) (v : jvalue_ref) :
  owned h n v → (∀ x, reach h v x → h' !! x = h !! x) → owned h' n v.
Proof.
  revert v. induction n as [|n IH]; intros v Ho Hs; destruct v as [| | | | | |a]; try done.
  pose proof (owned_wf h (S n) (Ptr a) Ho) as Hwf.
  cbn [owned] in *. rewrite (Hs a (reach_here _ _)).
  destruct (h !! a) as [c|] eqn:Hc; [|done].
  destruct Ho as [Hcnt Ho]. split; [exact Hcnt|].
  assert (Hsub : ∀ w, child_of (m_body c) w → ∀ x, reach h w x → h' !! x = h !! x).
  { intros w Hw x Hx. apply Hs. by eapply reach_step. }
  assert (Hwfc : ∀ w, child_of (m_body c) w → w = NULL ∨ wf_tree h (S n) w).
  { intros w Hw. destruct (wf_tree_child h n a c w Hwf Hc Hw) as [-> | [Hstr | Hw']];
      [by left | right; by apply jis_string_wf_tree | right; by apply wf_tree_mono]. }
  destruct (m_body c) as [| |arr|m] eqn:Hb; try done.
  - destruct Ho as (Hok & Hsl & Hdis). split; [exact Hok|]. split.
    + intros w Hw. destruct (Hsl w Hw) as [-> | Hw']; [by left|]. right.
      apply IH; [exact Hw' | by apply Hsub].
    + intros i j e e' Hij Hi Hj.
      apply (disjoint_at_same h h' (S n)); try (by eapply Hdis).
      * apply Hwfc. by eapply list_elem_of_lookup_2.
      * apply Hwfc. by eapply list_elem_of_lookup_2.
      * apply Hsub. by eapply list_elem_of_lookup_2.
      * apply Hsub. by eapply list_elem_of_lookup_2.
  - destruct Ho as [Hent Hdis].
    assert (Hck : ∀ k kr vr, m !! k = Some (kr, vr) →
              child_of (BObject m) kr ∧ child_of (BObject m) vr).
    { intros k kr vr Hk. split; exists k, kr, vr; auto. }
    split.
    + intros k kr vr Hk. destruct (Hent k kr vr Hk) as (Hko & Hvo & Hd).
      destruct (Hck k kr vr Hk) as [Hckr Hcvr].
      split; [apply (key_owned_same h); [exact Hko | by apply Hsub]|].
      split; [apply IH; [exact Hvo | by apply Hsub]|].
      apply (disjoint_at_same h h' (S n)); eauto.
    + intros k k' kr vr kr' vr' Hkk Hk Hk'.
      destruct (Hdis k k' kr vr kr' vr' Hkk Hk Hk') as (D1 & D2 & D3 & D4).
      destruct (Hck k kr vr Hk) as [Hckr Hcvr].
      destruct (Hck k' kr' vr' Hk') as [Hckr' Hcvr'].
      repeat split; apply (disjoint_at_same h h' (S n)); eauto.
Qed.

Lemma destroy_array_loop_owned (f n : nat) (h0 : heap) (a : nat)
    (slots0 : list jvalue_ref) :
  (∀ h v, v = NULL ∨ owned h n v → frees (j_release f) h v) →
  (∀ v, v ∈ slots0 → v = NULL ∨ owned h0 n v ∧ ¬ reach h0 v a) →
  (∀ (i j : nat) e e', i ≠ j → slots0 !! i = Some e → slots0 !! j = Some e' →
     disjoint_at h0 e e') →
  ∀ k h slots cnt,
    h !! a = Some (Jvalue cnt (BArray (Jarray (Z.of_nat k) slots))) →
    length slots = length slots0 → (k ≤ length slots0)%nat →
    (∀ i, (i < k)%nat → slots !! i = slots0 !! i) →
    (∀ i e x, (i < k)%nat → slots0 !! i = Some e → reach h0 e x → h !! x = h0 !! x) →
    ∃ h', j_destroy_array_loop (j_release f) k a h = Some h'
          ∧ (∀ i e x, (i < k)%nat → slots0 !! i = Some e → reach h0 e x →
               m_refCnt <$> h' !! x = Some 0)
          ∧ (∀ x, x ≠ a →
               (∀ i e, (i < k)%nat → slots0 !! i = Some e → ¬ reach h0 e x) →
               h' !! x = h !! x)
          ∧ m_refCnt <$> h' !! a = Some cnt.
Proof.
  intros Hfree Hslots Hdis.
  induction k as [|k IH]; intros h slots cnt Ha Hlen Hk Hsame Hunt.
  - exists h. split; [reflexivity|]. split; [intros; lia|]. split; [done|].
    by rewrite Ha.
  - cbn [j_destroy_array_loop]. unfold jarray_remove_unsafe.
    cbn [jarray_deref]. rewrite Ha.
    cbn [fmap option_fmap option_map m_body mbind option_bind m_slots].
    rewrite slot_get_nat, Hsame by lia.
    destruct (lookup_lt_is_Some_2 slots0 k) as [v Hv]; [lia|]. rewrite Hv. cbn.
    assert (Hin : v ∈ slots0) by (by eapply list_elem_of_lookup_2).
    assert (Hunch : ∀ x, reach h0 v x → h !! x = h0 !! x).
    { intros x. apply (Hunt k v x); [lia | exact Hv]. }
    assert (Hwfv : v = NULL ∨ wf_tree h0 n v).
    { destruct (Hslots v Hin) as [-> | [Ho _]]; [by left | right; by apply owned_wf]. }
    assert (Hreq : ∀ x, reach h v x ↔ reach h0 v x).
    { intros x. by apply (reach_same h0 h n). }
    assert (Hna : ¬ reach h0 v a).
    { destruct (Hslots v Hin) as [-> | [_ Hn]]; [apply reach_NULL | exact Hn]. }
    destruct (Hfree h v) as (h1 & E1 & Hz1 & Hf1).
    { destruct (Hslots v Hin) as [-> | [Ho _]]; [by left | right].
      by apply (owned_same h0). }
    assert (Ha1 : h1 !! a = h !! a).
    { apply Hf1. by rewrite Hreq. }
    rewrite E1. cbn. rewrite Ha1, Ha. cbn.
    replace (Z.to_nat (Z.of_nat (S k) - (Z.of_nat k + 1))) with 0%nat by lia. cbn.
    unfold slot_set. rewrite Nat2Z.id.
    replace (Z.of_nat (S k) - 1) with (Z.of_nat k) by lia.
    set (h2 := set_body a (BArray (Jarray (Z.of_nat k) (<[k:=NULL]> slots))) h1).
    assert (Hh2 : ∀ x, x ≠ a → h2 !! x = h1 !! x).
    { intros x Hx. unfold h2. by rewrite lookup_set_body, decide_False. }
    assert (Hother : ∀ i e x, (i < k)%nat → slots0 !! i = Some e → reach h0 e x →
              x ≠ a ∧ ¬ reach h0 v x).
    { intros i e x Hi He Hx. split.
      - intros ->. destruct (Hslots e) as [-> | [_ Hn]];
          [by eapply list_elem_of_lookup_2 | by apply reach_NULL in Hx | done].
      - apply (Hdis i k e v); [lia | exact He | exact Hv | exact Hx]. }
    destruct (IH h2 (<[k:=NULL]> slots) cnt) as (h' & E' & Hz' & Hf' & Hc').
    + unfold h2. rewrite lookup_set_body, decide_True by reflexivity.
      by rewrite Ha1, Ha.
    + by rewrite length_insert.
    + lia.
    + intros i Hi. rewrite list_lookup_insert_ne by lia. apply Hsame. lia.
    + intros i e x Hi He Hx. destruct (Hother i e x Hi He Hx) as [Hxa Hxv].
      rewrite Hh2 by done. rewrite Hf1 by (by rewrite Hreq).
      apply (Hunt i e x); [lia | exact He | exact Hx].
    + exists h'. split; [exact E'|]. split; [|split; [|exact Hc']].
      * intros i e x Hi He Hx. destruct (decide (i = k)) as [-> | Hne].
        -- rewrite Hv in He. injection He as <-.
           rewrite Hf'; [rewrite Hh2; [apply Hz1; by rewrite Hreq|]|..].
           ++ intros ->. done.
           ++ intros ->. done.
           ++ intros i' e' Hi' He' Hx'.
              apply (Hdis k i' v e' ltac:(lia) Hv He' x Hx Hx').
        -- apply (Hz' i e x); [lia | exact He | exact Hx].
      * intros x Hxa Hno. rewrite Hf'; [|exact Hxa|].
        -- rewrite Hh2 by done. apply Hf1. rewrite Hreq. apply (Hno k v); [lia | exact Hv].
        -- intros i e Hi He. apply (Hno i e); [lia | exact He].
Qed.

Lemma release_leaf_frees (f : nat) (h : heap) (a : nat) (c : jvalue) :
  h !! a = Some c → m_refCnt c = 1 →
  body_type (m_body c) = JV_STR ∨ body_type (m_body c) = JV_NUM →
  frees (j_release (S f)) h (Ptr a).
Proof.
  intros Hc Hcnt Hty. exists (set_refCnt a 0 h). split; [|split].
  - cbn [j_release]. rewrite (decide_False (P := Ptr a = NULL)) by done.
    rewrite jis_const_Ptr, Hc. cbn [mbind option_bind]. rewrite Hcnt.
    change (wrap_int (1 - 1)) with 0. rewrite (decide_True (P := 0 = 0)) by done.
    by destruct (m_body c), Hty.
  - intros x Hx.
    rewrite (reach_leaf h a x c Hc); [|intros v Hv; by destruct (m_body c), Hty | exact Hx].
    by rewrite lookup_set_refCnt, decide_True, Hc.
  - intros x Hx. rewrite lookup_set_refCnt, decide_False; [done|].
    intros <-. apply Hx. constructor.
Qed.

Lemma release_key_frees (f : nat) (h : heap) (kr : jvalue_ref) :
  key_owned h kr → frees (j_release (S f)) h kr.
Proof.
  intros [Hs Hcnt]. destruct kr as [| | | | | |p]; try done.
  - exists h. split; [done|]. split; [|done].
    intros x Hx. by apply reach_static_inv in Hx as [? ?].
  - pose proof Hs as Hs'. unfold jis_string, has_type, m_type in Hs'.
    apply bool_decide_eq_true_1 in Hs'.
    destruct (h !! p) as [c|] eqn:Hc; [|done]. cbn in Hs'.
    apply (release_leaf_frees f h p c Hc); [by eapply Hcnt|]. left. congruence.
Qed.

Lemma destroy_entries_owned (f n : nat) (h0 : heap) :
  (∀ h v, v = NULL ∨ owned h n v → frees (j_release f) h v) →
  (∀ h kr, key_owned h kr → frees (j_release f) h kr) →
  ∀ (l : list (string * (jvalue_ref * jvalue_ref))) (h : heap),
    (∀ k kr vr, (k, (kr, vr)) ∈ l →
       key_owned h0 kr ∧ owned h0 n vr ∧ disjoint_at h0 kr vr) →
    (∀ (i j : nat) k kr vr k' kr' vr', i ≠ j →
       l !! i = Some (k, (kr, vr)) → l !! j = Some (k', (kr', vr')) →
       disjoint_at h0 kr kr' ∧ disjoint_at h0 kr vr'
       ∧ disjoint_at h0 vr kr' ∧ disjoint_at h0 vr vr') →
    (∀ k kr vr x, (k, (kr, vr)) ∈ l → reach h0 kr x ∨ reach h0 vr x →
       h !! x = h0 !! x) →
    ∃ h', destroy_entries (j_release f) l h = Some h'
          ∧ (∀ k kr vr x, (k, (kr, vr)) ∈ l → reach h0 kr x ∨ reach h0 vr x →
               m_refCnt <$> h' !! x = Some 0)
          ∧ (∀ x, (∀ k kr vr, (k, (kr, vr)) ∈ l →
                     ¬ reach h0 kr x ∧ ¬ reach h0 vr x) →
               h' !! x = h !! x).
Proof.
  intros Hfree Hfreek. induction l as [|[k [kr vr]] l IH]; intros h Hl Hdis Hunt.
  - exists h. split; [reflexivity|]. split; [|done].
    intros ? ? ? ? Hin. by apply elem_of_nil in Hin.
  - destruct (Hl k kr vr) as (Hko & Hvo & Hkv); [by left|].
    assert (Hkun : ∀ x, reach h0 kr x → h !! x = h0 !! x).
    { intros x Hx. apply (Hunt k kr vr x); [by left | by left]. }
    assert (Hvun : ∀ x, reach h0 vr x → h !! x = h0 !! x).
    { intros x Hx. apply (Hunt k kr vr x); [by left | by right]. }
    assert (Hkreq : ∀ x, reach h kr x ↔ reach h0 kr x).
    { intros x. apply (reach_same h0 h 1); [right; by apply key_owned_wf | exact Hkun]. }
    destruct (Hfreek h kr) as (h1 & E1 & Hz1 & Hf1); [by apply (key_owned_same h0)|].
    assert (Hvun1 : ∀ x, reach h0 vr x → h1 !! x = h0 !! x).
    { intros x Hx. rewrite Hf1; [by apply Hvun|]. rewrite Hkreq.
      intros Hx'. by apply (Hkv x). }
    assert (Hvreq : ∀ x, reach h1 vr x ↔ reach h0 vr x).
    { intros x. apply (reach_same h0 h1 n); [right; by apply owned_wf | exact Hvun1]. }
    destruct (Hfree h1 vr) as (h2 & E2 & Hz2 & Hf2); [right; by apply (owned_same h0)|].
    assert (Htail : ∀ k' kr' vr' x, (k', (kr', vr')) ∈ l →
              reach h0 kr' x ∨ reach h0 vr' x → ¬ reach h0 kr x ∧ ¬ reach h0 vr x).
    { intros k' kr' vr' x Hin Hx. apply list_elem_of_lookup_1 in Hin as [j Hj].
      destruct (Hdis 0%nat (S j) k kr vr k' kr' vr') as (D1 & D2 & D3 & D4);
        [lia | done | done|].
      split; intros Hx'; destruct Hx as [Hx | Hx];
        [by apply (D1 x) | by apply (D2 x) | by apply (D3 x) | by apply (D4 x)]. }
    assert (H2 : ∀ x, ¬ reach h0 kr x → ¬ reach h0 vr x → h2 !! x = h !! x).
    { intros x Hnk Hnv. rewrite Hf2 by (by rewrite Hvreq). apply Hf1. by rewrite Hkreq. }
    destruct (IH h2) as (h' & E' & Hz' & Hf').
    + intros k' kr' vr' Hin. apply (Hl k'). by right.
    + intros i j k1 kr1 vr1 k2 kr2 vr2 Hij Hi Hj.
      apply (Hdis (S i) (S j) k1 kr1 vr1 k2 kr2 vr2); [lia | done | done].
    + intros k' kr' vr' x Hin Hx.
      destruct (Htail k' kr' vr' x Hin Hx) as [Hnk Hnv].
      rewrite H2 by done. apply (Hunt k' kr' vr' x); [by right | exact Hx].
    + exists h'. cbn [destroy_entries]. rewrite E1. cbn [mbind option_bind].
      rewrite E2. cbn [mbind option_bind]. split; [exact E'|]. split.
      * intros k' kr' vr' x Hin Hx. apply elem_of_cons in Hin as [[= -> -> ->] | Hin];
          [|exact (Hz' k' kr' vr' x Hin Hx)].
        rewrite Hf'.
        -- destruct Hx as [Hx | Hx].
           ++ rewrite Hf2; [apply Hz1; by rewrite Hkreq|]. rewrite Hvreq. by apply Hkv.
           ++ apply Hz2. by rewrite Hvreq.
        -- intros k2 kr2 vr2 Hin2. split; intros Hx2.
           ++ destruct (Htail k2 kr2 vr2 x Hin2 (or_introl Hx2)) as [? ?].
              by destruct Hx.
           ++ destruct (Htail k2 kr2 vr2 x Hin2 (or_intror Hx2)) as [? ?].
              by destruct Hx.
      * intros x Hno. rewrite Hf'.
        -- destruct (Hno k kr vr) as [? ?]; [by left|]. by apply H2.
        -- intros k2 kr2 vr2 Hin2. apply (Hno k2). by right.
Qed.

Lemma j_release_owned (fuel : nat) :
  ∀ (n : nat) (h : heap) (v : jvalue_ref),
    (n < fuel)%nat → v = NULL ∨ owned h n v → frees (j_release fuel) h v.
Proof.
  induction fuel as [|f IH]; intros n h v Hlt Hv; [lia|].
  assert (Hnone : (v = NULL ∨ ∀ a, v ≠ Ptr a) → frees (j_release (S f)) h v).
  { intros Hc. exists h. split; [|split; [|done]].
    - cbn [j_release]. case_decide; [done|].
      destruct v as [| | | | | |a]; try done. destruct Hc as [? | Hc]; [done|].
      by destruct (Hc a).
    - intros x Hx. apply reach_static_inv in Hx as [a ->].
      destruct Hc as [? | Hc]; [done | by destruct (Hc a)]. }
  destruct Hv as [-> | Ho]; [apply Hnone; by left|].
  destruct v as [| | | | | |a]; [by destruct n | apply Hnone; by right.. |].
  pose proof (owned_wf h n (Ptr a) Ho) as Hwf.
  destruct n as [|n]; [done|]. cbn [owned] in Ho.
  destruct (h !! a) as [c|] eqn:Hc; [|done]. destruct Ho as [Hcnt Ho].
  destruct (m_body c) as [s d|x|arr|m] eqn:Hb.
  - apply (release_leaf_frees f h a c Hc Hcnt). left. by rewrite Hb.
  - apply (release_leaf_frees f h a c Hc Hcnt). right. by rewrite Hb.
  - destruct Ho as (Hok & Hsl & Hdis).
    set (h1 := set_refCnt a 0 h).
    assert (Ha1 : h1 !! a = Some (Jvalue 0 (BArray arr))).
    { unfold h1. rewrite lookup_set_refCnt, decide_True, Hc by done. cbn.
      by rewrite Hb. }
    assert (Hh1 : ∀ x, x ≠ a → h1 !! x = h !! x).
    { intros x Hx. unfold h1. by rewrite lookup_set_refCnt, decide_False. }
    assert (Hchild : ∀ v, v ∈ m_slots arr → ∀ x, reach h v x → reach h (Ptr a) x).
    { intros v Hin x Hx. apply (reach_step h a c v x Hc); [by rewrite Hb | exact Hx]. }
    assert (Hacyc : ∀ v, v ∈ m_slots arr → ¬ reach h v a).
    { intros v Hin. apply (wf_tree_acyclic h (S n) a c v Hwf Hc). by rewrite Hb. }
    destruct Hok as [Hsz Hbeyond].
    assert (Hlt' : (n < f)%nat) by lia.
    destruct (destroy_array_loop_owned f n h a (m_slots arr)
                (λ h v, IH n h v Hlt'))
      with (k := Z.to_nat (m_size arr)) (h := h1) (slots := m_slots arr) (cnt := 0)
      as (h' & E' & Hz' & Hf' & Hc').
    + intros v Hin. destruct (Hsl v Hin) as [-> | Hov]; [by left | right].
      split; [exact Hov | by apply Hacyc].
    + exact Hdis.
    + rewrite Ha1, Z2Nat.id by lia. by destruct arr.
    + reflexivity.
    + unfold m_capacity in Hsz. lia.
    + reflexivity.
    + intros i e x Hi He Hx. apply Hh1. intros ->.
      by apply (Hacyc e (list_elem_of_lookup_2 _ _ _ He)).
    + exists h'. split; [|split].
      * cbn [j_release]. rewrite (decide_False (P := Ptr a = NULL)) by done.
        rewrite jis_const_Ptr, Hc. cbn [mbind option_bind]. rewrite Hcnt.
        change (wrap_int (1 - 1)) with 0. rewrite (decide_True (P := 0 = 0)) by done.
        rewrite Hb. unfold j_destroy_array. cbn [jarray_deref]. fold h1. rewrite Ha1.
        cbn [fmap option_fmap option_map m_body mbind option_bind]. exact E'.
      * intros x Hx. inversion Hx as [|? c' w ? Hc0 Hch Hrw]; subst; [exact Hc'|].
        rewrite Hc in Hc0. injection Hc0 as <-. rewrite Hb in Hch. cbn in Hch.
        apply list_elem_of_lookup_1 in Hch as [i Hi].
        apply (Hz' i w x); [|exact Hi | exact Hrw].
        destruct (decide (i < Z.to_nat (m_size arr))%nat) as [|Hge]; [done|].
        rewrite (Hbeyond i w Hi) in Hrw by lia. by apply reach_NULL in Hrw.
      * intros x Hx. rewrite Hf'.
        -- apply Hh1. intros ->. apply Hx. constructor.
        -- intros ->. apply Hx. constructor.
        -- intros i e Hi He Hr. apply Hx.
           by apply (Hchild e (list_elem_of_lookup_2 _ _ _ He)).
  - destruct Ho as [Hent Hdis].
    set (h1 := set_refCnt a 0 h).
    assert (Ha1 : h1 !! a = Some (Jvalue 0 (BObject m))).
    { unfold h1. rewrite lookup_set_refCnt, decide_True, Hc by done. cbn.
      by rewrite Hb. }
    set (h2 := set_body a (BObject ∅) h1).
    assert (Hh2 : ∀ x, x ≠ a → h2 !! x = h !! x).
    { intros x Hx. unfold h2, h1.
      by rewrite lookup_set_body, decide_False, lookup_set_refCnt, decide_False. }
    assert (Ha2 : m_refCnt <$> h2 !! a = Some 0).
    { unfold h2. by rewrite lookup_set_body, decide_True, Ha1. }
    assert (Hchild : ∀ k kr vr, m !! k = Some (kr, vr) →
              ∀ x, reach h kr x ∨ reach h vr x → reach h (Ptr a) x ∧ x ≠ a).
    { intros k kr vr Hk x Hx.
      assert (Hck : child_of (m_body c) kr) by (rewrite Hb; exists k, kr, vr; auto).
      assert (Hcv : child_of (m_body c) vr) by (rewrite Hb; exists k, kr, vr; auto).
      destruct Hx as [Hx | Hx].
      - split; [by apply (reach_step h a c kr x Hc)|]. intros ->.
        by apply (wf_tree_acyclic h (S n) a c kr Hwf Hc).
      - split; [by apply (reach_step h a c vr x Hc)|]. intros ->.
        by apply (wf_tree_acyclic h (S n) a c vr Hwf Hc). }
    destruct f as [|f']; [lia|].
    assert (Hlt' : (n < S f')%nat) by lia.
    destruct (destroy_entries_owned (S f') n h (λ h v, IH n h v Hlt')
                (release_key_frees f') (map_to_list m) h2)
      as (h' & E' & Hz' & Hf').
    + intros k kr vr Hin. apply elem_of_map_to_list in Hin. by apply (Hent k).
    + intros i j k kr vr k' kr' vr' Hij Hi Hj.
      apply (Hdis k k' kr vr kr' vr').
      * intros ->. apply Hij.
        pose proof (NoDup_fst_map_to_list m) as Hnd.
        apply (NoDup_lookup _ i j k' Hnd); rewrite list_lookup_fmap; [by rewrite Hi | by rewrite Hj].
      * apply elem_of_map_to_list. by eapply list_elem_of_lookup_2.
      * apply elem_of_map_to_list. by eapply list_elem_of_lookup_2.
    + intros k kr vr x Hin Hx. apply elem_of_map_to_list in Hin.
      apply Hh2. by apply (Hchild k kr vr Hin x Hx).
    + exists h'. split; [|split].
      * cbn [j_release]. rewrite (decide_False (P := Ptr a = NULL)) by done.
        rewrite jis_const_Ptr, Hc. cbn [mbind option_bind]. rewrite Hcnt.
        change (wrap_int (1 - 1)) with 0. rewrite (decide_True (P := 0 = 0)) by done.
        rewrite Hb. unfold j_destroy_object. cbn [jobject_deref]. fold h1. rewrite Ha1.
        cbn [fmap option_fmap option_map m_body mbind option_bind]. exact E'.
      * intros x Hx. inversion Hx as [|? c' w ? Hc0 Hch Hrw]; subst.
        -- rewrite Hf'; [exact Ha2|]. intros k kr vr Hin.
           apply elem_of_map_to_list in Hin.
           split; intros Hr;
             [destruct (Hchild k kr vr Hin x (or_introl Hr)) as [_ ?]
             |destruct (Hchild k kr vr Hin x (or_intror Hr)) as [_ ?]]; done.
        -- rewrite Hc in Hc0. injection Hc0 as <-. rewrite Hb in Hch.
           destruct Hch as (k & kr & vr & Hk & [-> | ->]).
           ++ apply (Hz' k kr vr x); [by apply elem_of_map_to_list | by left].
           ++ apply (Hz' k kr vr x); [by apply elem_of_map_to_list | by right].
      * intros x Hx. rewrite Hf'.
        -- apply Hh2. intros ->. apply Hx. constructor.
        -- intros k kr vr Hin. apply elem_of_map_to_list in Hin.
           split; intros Hr; apply Hx;
             [by destruct (Hchild k kr vr Hin x (or_introl Hr))
             |by destruct (Hchild k kr vr Hin x (or_intror Hr))].
Qed.

(** X22: [j_release] of a tree of the store in which every cell has the
    count 1 and is held once returns, and it destroys the whole tree and
    nothing else: in the store it returns the count of every cell of the
    tree is 0, which is where the code frees the cell, and every other cell
    is as it was. *)
Theorem j_release_frees_tree (h : heap) (n fuel : nat) (v : jvalue_ref) :
  owned h n v → (n < fuel)%nat →
  ∃ h', j_release fuel v h = Some h'
        ∧ (∀ x, reach h v x → m_refCnt <$> h' !! x = Some 0)
        ∧ ∀ x, ¬ reach h v x → h' !! x = h !! x.
Proof.
  intros Ho Hlt. apply (j_release_owned fuel n h v Hlt). by right.
Qed.

(** The array of the numbers 1 and 2, whose only owner releases it. *)
Lemma j_release_frees_tree_witness :
  let h : heap := {[ 0%nat := Jvalue 1 (BArray (Jarray 2 [Ptr 1; Ptr 2]));
                     1%nat := Jvalue 1 (BNum (NUM_INT 1));
                     2%nat := Jvalue 1 (BNum (NUM_INT 2)) ]} in
  ∃ h', j_release 3 (Ptr 0) h = Some h'
        ∧ (∀ x, reach h (Ptr 0) x → m_refCnt <$> h' !! x = Some 0)
        ∧ ∀ x, ¬ reach h (Ptr 0) x → h' !! x = h !! x.
Proof.
  intros h. apply (j_release_frees_tree h 2 3 (Ptr 0)); [|lia].
  assert (H0 : h !! 0%nat = Some (Jvalue 1 (BArray (Jarray 2 [Ptr 1; Ptr 2]))))
    by reflexivity.
  assert (H1 : h !! 1%nat = Some (Jvalue 1 (BNum (NUM_INT 1)))) by reflexivity.
  assert (H2 : h !! 2%nat = Some (Jvalue 1 (BNum (NUM_INT 2)))) by reflexivity.
  assert (Hleaf : ∀ a c x, h !! a = Some c → body_type (m_body c) = JV_NUM →
            reach h (Ptr a) x → x = a).
  { intros a c x Hc Hty. apply (reach_leaf h a x c Hc). intros v Hv.
    by destruct (m_body c). }
  cbn [owned]. rewrite H0. cbn [m_refCnt m_body m_slots].
  split; [reflexivity|]. split; [apply array_ok_intro; cbn; [lia | constructor]|].
  split.
  - intros v Hv. right.
    apply elem_of_cons in Hv as [-> | Hv]; [by rewrite H1|].
    apply list_elem_of_singleton in Hv as ->. by rewrite H2.
  - intros [|[|i]] [|[|j]] e e' Hij Hi Hj; cbn in Hi, Hj; try done;
      injection Hi as <-; injection Hj as <-; intros x Hx Hx'.
    + apply (Hleaf _ _ _ H1 eq_refl) in Hx. apply (Hleaf _ _ _ H2 eq_refl) in Hx'.
      congruence.
    + apply (Hleaf _ _ _ H2 eq_refl) in Hx. apply (Hleaf _ _ _ H1 eq_refl) in Hx'.
      congruence.
Defined.

(** ** What a container drops, it releases *)

(** X23: in a tree in which every cell has the count 1 and is held once,
    [jarray_remove] of an element destroys that element and nothing else:
    the elements of the array are those it had without the one at the
    index, the count of every cell of the removed element is 0, and apart
    from the array itself every other cell is as it was. *)
Theorem jarray_remove_frees (h : heap) (n fuel a index : nat) (e : jvalue_ref) :
  owned h n (Ptr a) → jis_array h (Ptr a) = true →
  elements h (Ptr a) !! index = Some e → (n < fuel)%nat →
  ∃ h', jarray_remove fuel (Ptr a) (Z.of_nat index) h = Some (true, h')
        ∧ elements h' (Ptr a) = delete index (elements h (Ptr a))
        ∧ (∀ x, reach h e x → m_refCnt <$> h' !! x = Some 0)
        ∧ (∀ x, x ≠ a → ¬ reach h e x → h' !! x = h !! x)
        ∧ m_refCnt <$> h' !! a = Some 1.
Proof.
  intros Ho Harr He Hlt. pose proof (owned_wf h n (Ptr a) Ho) as Hwf.
  destruct (array_as_dst h n a Hwf Harr) as (n' & cnt & pad & -> & Hd & Hsz & Hel).
  set (els := elements h (Ptr a)) in *.
  assert (Hi : (index < length els)%nat) by (by eapply lookup_lt_Some).
  assert (Hsu : jarray_size_unsafe h (Ptr a) = Z.of_nat (length els)).
  { rewrite <- Hsz. unfold jarray_size. by rewrite Harr. }
  assert (Hoe : e = NULL ∨ owned h n' e).
  { cbn [owned] in Ho. rewrite Hd in Ho. cbn in Ho. destruct Ho as (_ & _ & Hsl & _).
    apply Hsl. apply elem_of_app. left. by eapply list_elem_of_lookup_2. }
  assert (Hcnt : cnt = 1).
  { cbn [owned] in Ho. rewrite Hd in Ho. by destruct Ho as [? _]. }
  destruct (j_release_owned fuel n' h e ltac:(lia) Hoe) as (h1 & E1 & Hz1 & Hf1).
  unfold jarray_remove, valid_index_bounded. fold (jis_array h (Ptr a)). rewrite Harr.
  cbn [negb]. rewrite Hsu.
  rewrite (decide_False (P := Z.of_nat index < 0)) by lia.
  rewrite (decide_False (P := Z.of_nat index >= Z.of_nat (length els))) by lia.
  cbn [negb].
  destruct (ext_ok_single h n' a els) as (s & Hds & Hs & Hok); [by rewrite Hd | exact Hel |].
  pose proof (take_drop_middle els index e He) as Hsplit.
  pose proof Hd as Hd0. rewrite <- Hsplit in Hd.
  destruct (remove_dst a s n' fuel els Hds ltac:(lia) h cnt _ _ e pad Hok Hd)
    as (h' & E & Hd' & _ & _); [by eapply list_elem_of_lookup_2|].
  rewrite length_take, Nat.min_l in E by lia. rewrite E.
  cbn [mbind option_bind].
  destruct (elements_dst_state _ _ _ _ _ Hd') as [Hel' _].
  exists h'. split; [reflexivity|]. split; [by rewrite Hel', delete_take_drop|].
  assert (Hh' : ∀ x, x ≠ a → h' !! x = h1 !! x).
  { assert (Hda : jarray_deref h (Ptr a)
                  = Some (Jarray (Z.of_nat (length els)) (els ++ replicate pad NULL))).
    { unfold jarray_deref. by rewrite Hd0. }
    unfold jarray_remove_unsafe in E. rewrite Hda in E.
    cbn [mbind option_bind m_slots] in E. rewrite slot_get_nat in E. rewrite lookup_app_l, He in E by lia.
    cbn [mbind option_bind] in E. rewrite E1 in E. cbn [mbind option_bind] in E.
    destruct (jarray_deref h1 (Ptr a)) as [a1|]; [|done]. cbn [mbind option_bind] in E.
    destruct (shift_down _ _ _ _) as [[hole' slots']|]; [|done].
    cbn [mbind option_bind] in E. injection E as <-.
    intros x Hx. by rewrite lookup_set_body, decide_False. }
  assert (Hna : ¬ reach h e a).
  { destruct (Hel e) as [-> | [_ Hn]];
      [by eapply list_elem_of_lookup_2 | apply reach_NULL | exact Hn]. }
  split; [|split].
  - intros x Hx. rewrite Hh'; [by apply Hz1|]. by intros ->.
  - intros x Hxa Hx. rewrite Hh' by done. by apply Hf1.
  - unfold dst_state in Hd'. by rewrite Hd', Hcnt.
Qed.

(** The array of the numbers 1 and 2 loses the number 1. *)
Lemma jarray_remove_frees_witness :
  let h : heap := {[ 0%nat := Jvalue 1 (BArray (Jarray 2 [Ptr 1; Ptr 2]));
                     1%nat := Jvalue 1 (BNum (NUM_INT 1));
                     2%nat := Jvalue 1 (BNum (NUM_INT 2)) ]} in
  ∃ h', jarray_remove 3 (Ptr 0) (Z.of_nat 0) h = Some (true, h')
        ∧ elements h' (Ptr 0) = delete 0%nat (elements h (Ptr 0))
        ∧ (∀ x, reach h (Ptr 1) x → m_refCnt <$> h' !! x = Some 0)
        ∧ (∀ x, x ≠ 0%nat → ¬ reach h (Ptr 1) x → h' !! x = h !! x)
        ∧ m_refCnt <$> h' !! 0%nat = Some 1.
Proof.
  intros h. apply (jarray_remove_frees h 2 3 0 0 (Ptr 1)); [|reflexivity|reflexivity|lia].
  assert (H0 : h !! 0%nat = Some (Jvalue 1 (BArray (Jarray 2 [Ptr 1; Ptr 2]))))
    by reflexivity.
  assert (H1 : h !! 1%nat = Some (Jvalue 1 (BNum (NUM_INT 1)))) by reflexivity.
  assert (H2 : h !! 2%nat = Some (Jvalue 1 (BNum (NUM_INT 2)))) by reflexivity.
  assert (Hleaf : ∀ a c x, h !! a = Some c → body_type (m_body c) = JV_NUM →
            reach h (Ptr a) x → x = a).
  { intros a c x Hc Hty. apply (reach_leaf h a x c Hc). intros v Hv.
    by destruct (m_body c). }
  cbn [owned]. rewrite H0. cbn [m_refCnt m_body m_slots].
  split; [reflexivity|]. split; [apply array_ok_intro; cbn; [lia | constructor]|].
  split.
  - intros v Hv. right.
    apply elem_of_cons in Hv as [-> | Hv]; [by rewrite H1|].
    apply list_elem_of_singleton in Hv as ->. by rewrite H2.
  - intros [|[|i]] [|[|j]] e e' Hij Hi Hj; cbn in Hi, Hj; try done;
      injection Hi as <-; injection Hj as <-; intros x Hx Hx'.
    + apply (Hleaf _ _ _ H1 eq_refl) in Hx. apply (Hleaf _ _ _ H2 eq_refl) in Hx'.
      congruence.
    + apply (Hleaf _ _ _ H2 eq_refl) in Hx. apply (Hleaf _ _ _ H1 eq_refl) in Hx'.
      congruence.
Defined.

(** X24: in a tree in which every cell has the count 1 and is held once,
    [jobject_remove] of a key the object holds destroys the key and the
    value of that pair and nothing else: the table is the one before
    without the pair, the count of every cell of the key and of the value
    is 0, and apart from the object itself every other cell is as it was. *)
Theorem jobject_remove_frees (h : heap) (n fuel o : nat) (kb : string)
    (m : gmap string (jvalue_ref * jvalue_ref)) (kr vr : jvalue_ref) :
  owned h n (Ptr o) → jobject_deref h (Ptr o) = Some m → m !! kb = Some (kr, vr) →
  (n < fuel)%nat →
  ∃ h', jobject_remove fuel (Ptr o) kb h = Some (true, h')
        ∧ jobject_deref h' (Ptr o) = Some (delete kb m)
        ∧ jobject_get_exists h' (Ptr o) kb = None
        ∧ (∀ x, reach h kr x ∨ reach h vr x → m_refCnt <$> h' !! x = Some 0)
        ∧ (∀ x, x ≠ o → ¬ reach h kr x → ¬ reach h vr x → h' !! x = h !! x)
        ∧ m_refCnt <$> h' !! o = Some 1.
Proof.
  intros Ho Hm Hk Hlt. pose proof (owned_wf h n (Ptr o) Ho) as Hwf.
  destruct n as [|n]; [done|]. cbn [owned] in Ho.
  unfold jobject_deref in Hm.
  destruct (h !! o) as [[cnt b]|] eqn:Hc; [|done]. cbn in Hm, Ho.
  destruct b as [| | |m0]; try done. injection Hm as ->.
  destruct Ho as (-> & Hent & _).
  destruct (Hent kb kr vr Hk) as (Hko & Hvo & Hkv).
  assert (Hnk : ¬ reach h kr o).
  { apply (wf_tree_acyclic h (S n) o _ kr Hwf Hc). exists kb, kr, vr. auto. }
  assert (Hnv : ¬ reach h vr o).
  { apply (wf_tree_acyclic h (S n) o _ vr Hwf Hc). exists kb, kr, vr. auto. }
  set (h0 := set_body o (BObject (delete kb m)) h).
  assert (Hh0 : ∀ x, x ≠ o → h0 !! x = h !! x).
  { intros x Hx. unfold h0. by rewrite lookup_set_body, decide_False. }
  assert (Ho0 : h0 !! o = Some (Jvalue 1 (BObject (delete kb m)))).
  { unfold h0. by rewrite lookup_set_body, decide_True, Hc. }
  assert (Hkun : ∀ x, reach h kr x → h0 !! x = h !! x).
  { intros x Hx. apply Hh0. by intros ->. }
  assert (Hvun : ∀ x, reach h vr x → h0 !! x = h !! x).
  { intros x Hx. apply Hh0. by intros ->. }
  assert (Hkreq : ∀ x, reach h0 kr x ↔ reach h kr x).
  { intros x. apply (reach_same h h0 1); [right; by apply key_owned_wf | exact Hkun]. }
  destruct fuel as [|f]; [lia|].
  destruct (release_key_frees f h0 kr) as (h1 & E1 & Hz1 & Hf1);
    [by apply (key_owned_same h)|].
  assert (Hvun1 : ∀ x, reach h vr x → h1 !! x = h !! x).
  { intros x Hx. rewrite Hf1; [by apply Hvun|]. rewrite Hkreq. intros Hx'.
    by apply (Hkv x). }
  assert (Hvreq : ∀ x, reach h1 vr x ↔ reach h vr x).
  { intros x. apply (reach_same h h1 n); [right; by apply owned_wf | exact Hvun1]. }
  destruct (j_release_owned (S f) n h1 vr ltac:(lia)) as (h2 & E2 & Hz2 & Hf2);
    [right; by apply (owned_same h)|].
  assert (Ho2 : h2 !! o = Some (Jvalue 1 (BObject (delete kb m)))).
  { rewrite Hf2 by (by rewrite Hvreq). rewrite Hf1 by (by rewrite Hkreq). exact Ho0. }
  exists h2. split; [|split; [|split; [|split; [|split]]]].
  - unfold jobject_remove. change (jis_null (Ptr o)) with false. cbn match.
    destruct (object_not_string h o 1 m Hc) as [_ ->]. cbn [negb].
    unfold g_hash_table_remove, jobject_deref. rewrite Hc.
    cbn [fmap option_fmap option_map m_body mbind option_bind]. rewrite Hk.
    fold h0. rewrite E1. cbn [mbind option_bind]. by rewrite E2.
  - unfold jobject_deref. by rewrite Ho2.
  - destruct (jobject_get_exists_cell h2 o 1 _ kb Ho2) as [-> _].
    by rewrite lookup_delete_eq.
  - intros x [Hx | Hx].
    + rewrite Hf2; [apply Hz1; by rewrite Hkreq|]. rewrite Hvreq. by apply Hkv.
    + apply Hz2. by rewrite Hvreq.
  - intros x Hxo Hxk Hxv. rewrite Hf2 by (by rewrite Hvreq).
    rewrite Hf1 by (by rewrite Hkreq). by apply Hh0.
  - by rewrite Ho2.
Qed.

(** The object with the keys "a" and "b" loses the key "a". *)
Lemma jobject_remove_frees_witness :
  let m : gmap string (jvalue_ref * jvalue_ref) :=
    {[ "a" := (Ptr 1, Ptr 2); "b" := (Ptr 3, JTRUE) ]} in
  let h : heap := {[ 0%nat := Jvalue 1 (BObject m);
                     1%nat := Jvalue 1 (BStr "a" false);
                     2%nat := Jvalue 1 (BNum (NUM_INT 1));
                     3%nat := Jvalue 1 (BStr "b" false) ]} in
  ∃ h', jobject_remove 3 (Ptr 0) "a" h = Some (true, h')
        ∧ jobject_deref h' (Ptr 0) = Some (delete "a" m)
        ∧ jobject_get_exists h' (Ptr 0) "a" = None
        ∧ (∀ x, reach h (Ptr 1) x ∨ reach h (Ptr 2) x → m_refCnt <$> h' !! x = Some 0)
        ∧ (∀ x, x ≠ 0%nat → ¬ reach h (Ptr 1) x → ¬ reach h (Ptr 2) x → h' !! x = h !! x)
        ∧ m_refCnt <$> h' !! 0%nat = Some 1.
Proof.
  intros m h.
  apply (jobject_remove_frees h 2 3 0 "a" m (Ptr 1) (Ptr 2)); [|reflexivity|reflexivity|lia].
  assert (H0 : h !! 0%nat = Some (Jvalue 1 (BObject m))) by reflexivity.
  assert (H1 : h !! 1%nat = Some (Jvalue 1 (BStr "a" false))) by reflexivity.
  assert (H2 : h !! 2%nat = Some (Jvalue 1 (BNum (NUM_INT 1)))) by reflexivity.
  assert (H3 : h !! 3%nat = Some (Jvalue 1 (BStr "b" false))) by reflexivity.
  assert (Hleaf : ∀ a c x, h !! a = Some c →
            body_type (m_body c) = JV_STR ∨ body_type (m_body c) = JV_NUM →
            reach h (Ptr a) x → x = a).
  { intros a c x Hc Hty. apply (reach_leaf h a x c Hc). intros v Hv.
    by destruct (m_body c), Hty. }
  assert (Hconst : ∀ x, ¬ reach h JTRUE x).
  { intros x Hx. by apply reach_static_inv in Hx as [? ?]. }
  assert (Hkey : ∀ p s, h !! p = Some (Jvalue 1 (BStr s false)) → key_owned h (Ptr p)).
  { intros p s Hp. split.
    - unfold jis_string, has_type, m_type. rewrite Hp. by apply bool_decide_eq_true_2.
    - intros ? c [= <-] Hc. rewrite Hp in Hc. by injection Hc as <-. }
  assert (Hm : ∀ k kr vr, m !! k = Some (kr, vr) →
            k = "a" ∧ kr = Ptr 1 ∧ vr = Ptr 2 ∨ k = "b" ∧ kr = Ptr 3 ∧ vr = JTRUE).
  { intros k kr vr Hk. unfold m in Hk.
    apply lookup_insert_Some in Hk as [[<- [= <- <-]] | [_ Hk]]; [by left|].
    apply lookup_singleton_Some in Hk as [<- [= <- <-]]. by right. }
  cbn [owned]. rewrite H0. cbn [m_refCnt m_body].
  split; [reflexivity|]. split.
  - intros k kr vr Hk.
    destruct (Hm k kr vr Hk) as [(-> & -> & ->) | (-> & -> & ->)].
    + split; [by eapply Hkey|]. split; [by rewrite H2|].
      intros x Hx Hx'. apply (Hleaf _ _ _ H1 (or_introl eq_refl)) in Hx.
      apply (Hleaf _ _ _ H2 (or_intror eq_refl)) in Hx'. congruence.
    + split; [by eapply Hkey|]. split; [done|]. intros x _. apply Hconst.
  - intros k k' kr vr kr' vr' Hkk Hk Hk'.
    destruct (Hm k kr vr Hk) as [(-> & -> & ->) | (-> & -> & ->)];
      destruct (Hm k' kr' vr' Hk') as [(-> & -> & ->) | (-> & -> & ->)]; try done;
      repeat split; intros x Hx Hx';
      try (by apply Hconst in Hx); try (by apply Hconst in Hx');
      try (apply (Hleaf _ _ _ H1 (or_introl eq_refl)) in Hx);
      try (apply (Hleaf _ _ _ H2 (or_intror eq_refl)) in Hx);
      try (apply (Hleaf _ _ _ H3 (or_introl eq_refl)) in Hx);
      try (apply (Hleaf _ _ _ H1 (or_introl eq_refl)) in Hx');
      try (apply (Hleaf _ _ _ H2 (or_intror eq_refl)) in Hx');
      try (apply (Hleaf _ _ _ H3 (or_introl eq_refl)) in Hx'); congruence.
Defined.



